(* ===== verification/_CoqProject ===== *)
-Q . S2P
Prelude.v
JsString.v
JsMap.v
JsSort.v
JsonText.v
CanonicalJson.v
JsonParse.v
Schema.v
Sql.v
MuxFrame.v
Mux.v
MuxInv.v
MuxSteps.v
MuxActs.v
MuxProps.v
MuxExamples.v
Ledger.v
LedgerProps.v
LedgerExamples.v
Base64.v
DirectGrant.v
DirectChannel.v
DirectChannelProps.v
DirectHandshake.v
DirectHandshakeProps.v
DirectExamples.v
Checkpoint.v
CheckpointStore.v
CheckpointStoreProps.v
CheckpointTransfer.v
CheckpointTransferProps.v
CheckpointChunks.v
CheckpointWorker.v
CheckpointUpload.v
CheckpointHub.v
CheckpointHubProps.v
CheckpointScope.v
CheckpointRestore.v
CheckpointRecovery.v
CheckpointRecoveryText.v
CheckpointRecoveryProps.v
CheckpointExamples.v
Tunnel.v
TunnelInv.v
TunnelSteps.v
TunnelProps.v
TunnelLink.v
TunnelResume.v
TunnelExamples.v
RelayHub.v
RelayInv.v
RelaySteps.v
RelayProps.v
RelayTunnel.v
RelayExamples.v
JsDate.v
Zod.v
NodeJson.v
NodeControl.v
NodeControlProps.v
NodeCommands.v
NodeReconciliation.v
NodeCommandsInv.v
NodeCommandsLog.v
NodeCommandsProps.v
NodeCommandsPull.v
NodeDesired.v
NodeEvents.v
NodeRoutes.v
NodeRoutesProps.v
NodeExecutor.v
NodeExecutorProps.v
NodeClient.v
NodeClientProps.v
NodeBlocked.v
NodeExamples.v
NodeExecutorExamples.v
