(* ===== verification/Prelude.v ===== *)
(** * Mycellios: a verification of its transport, its checkpoints, its node commands, its ledger
    and its evidence

    Mycellios runs language models on a mesh of workers: the stages of a model are
    processes on different machines, connected by byte streams, and the work they
    certify is settled in a ledger.  This library models the parts on which that
    rests and proves what makes them correct.  Paths are relative to the root of
    the repository, the sources being under [src/src/].

    ** The parts and how they interact

    A runtime process opens a socket to its local worker.  The worker's _tunnel_
    ([worker/runtime-stream-tunnel.ts]) carries it as a stream over the worker's
    connection to the coordinator, whose _relay_ ([coordinator/worker-hub.ts])
    passes it on to the tunnel of the other worker.  When both workers can, the
    relay makes a _grant_ and the two negotiate a direct route: a _secure channel_
    ([transport/direct-secure-channel.ts]) with a _multiplexer_ on top
    ([transport/direct-runtime-mux.ts]).  The coordinator asks a worker for a _checkpoint_
    of a stage ([contracts/activation-checkpoint.ts]), keeps it, and when the stage is to
    move it has another worker restore it and then promotes the replacement
    ([coordinator/activation-checkpoint-transfer.ts] and [-recovery.ts]); the messages go
    through the same [WorkerHub].  The owner of a node sends it _commands_ (pause, drain,
    new limits, an update): the routes of [coordinator/server.ts] put them into the store
    of [coordinator/node-command-store.ts], the client of the node
    ([node/command-client.ts]) pulls them, its executor ([node/command-executor.ts]) applies
    them under a journal, and the results and snapshots of the node go back to the store
    and to [coordinator/node-reconciliation-store.ts].  The _economic ledger_
    ([economy/economic-ledger.ts]) settles a job from certified evidence; the
    evidence and every signed record are identified by the digest of their
    _canonical JSON_ ([core/json.ts]).

    ** Files

    - [Prelude]: results, a state monad with exceptions, numbers, bytes, sums over
      lists, the tactics and hint databases of the library.
    - [JsString], [JsMap], [JsSort], [JsonText], [JsonParse], [Base64], [Schema], [Sql]:
      what the code uses of JavaScript, Node, Zod and SQLite: strings and UTF-8,
      insertion-ordered maps, sorting, JSON both ways, base64, the checks that schemas
      share, tables with constraints.
    - [CanonicalJson]: [canonicalEvidenceJson] and its digest, over a heap of objects.
    - [MuxFrame], [Mux], [MuxInv], [MuxSteps], [MuxActs], [MuxProps], [MuxExamples]:
      [DirectRuntimeMux].  Its async functions are cut at their awaits; a run
      interleaves calls, frames, handlers and continuations in any order; [MuxActs] cuts
      its steps into single acts, for what holds along whole runs.
    - [Ledger], [LedgerProps], [LedgerExamples]: [EconomicLedger] over a record of tables.
    - [DirectGrant], [DirectChannel], [DirectChannelProps], [DirectHandshake],
      [DirectHandshakeProps], [DirectExamples]: grants, [DirectSecureChannel],
      [DirectSecureServer.accept] and [DirectSecureChannel.connect].
    - [Checkpoint]: [signActivationCheckpoint], [verifyActivationCheckpoint] and the chunks
      of a payload, whose lemmas are in [CheckpointChunks].  [CheckpointStore] and
      [CheckpointStoreProps]: [ActivationCheckpointStore].  [CheckpointTransfer] and
      [CheckpointTransferProps]: [ActivationCheckpointTransferAuthority].
      [CheckpointWorker]: publishing and restoring in [worker/agent.ts].  [CheckpointHub]
      and [CheckpointHubProps]: requests and restorations in [coordinator/worker-hub.ts];
      [CheckpointScope]: what a message of a worker may touch.
      [CheckpointUpload] and [CheckpointRestore] put the two sides together.
      [CheckpointRecovery], [CheckpointRecoveryText] and [CheckpointRecoveryProps]:
      [ActivationCheckpointRecoveryAuthority] over its table.  [CheckpointExamples]:
      concrete runs of all of them.
    - [Tunnel], [TunnelInv], [TunnelSteps], [TunnelProps], [TunnelLink], [TunnelResume],
      [TunnelExamples]: [RuntimeStreamTunnel]; [TunnelLink] puts two of them and a
      relay together that may do anything but make up data of the stream, which
      [RelayProps] shows of the coordinator's relay.
    - [RelayHub], [RelayInv], [RelaySteps], [RelayProps], [RelayTunnel], [RelayExamples]:
      the stream relay of [WorkerHub]; [RelayTunnel] puts it between two tunnels.

    - [JsDate], [Zod]: [Date.parse] and [toISOString], and the schemas of Zod that the node
      commands use, with the parser that they describe.
    - [NodeJson]: [canonicalJson] and [digest] of the node commands.  [NodeControl] and
      [NodeControlProps]: [contracts/node-control.ts] and [contracts/node-work-policy.ts].
    - [NodeCommands]: [NodeCommandStore] over its tables, and [NodeReconciliation]:
      [NodeReconciliationStore].  [NodeCommandsInv] cuts their operations into single
      writes and has the histories; [NodeCommandsLog] is on the log of events,
      [NodeCommandsProps] on the life of a command, [NodeCommandsPull] on deliveries,
      [NodeDesired] on the desired state, [NodeEvents] on cursors and snapshots.
    - [NodeRoutes], [NodeRoutesProps]: the five handlers of [coordinator/server.ts].
    - [NodeExecutor], [NodeExecutorProps]: [NodeCommandExecutor] and its journal.
    - [NodeClient], [NodeClientProps]: [runNodeCommandClient] and the file of its cursor,
      together with the coordinator over a network that loses requests and responses.
      [NodeBlocked]: what an interrupted and expired command does to the snapshots.
    - [NodeExamples], [NodeExecutorExamples]: concrete runs of the node commands.

    In each group the first file is the model, one definition per operation, with the
    names of the source; [Inv] and [Steps] hold the invariant and its preservation,
    [Props] the theorems, [Examples] concrete runs: the inputs at which theorems are
    applied, and runs that show where the code departs from what it means to do.

    ** What is proved

    - Tunnel: what reaches the far end is a prefix of what the socket delivered,
      however the relay drops, delays, repeats and reorders what the source sent and
      whatever else it sends, as long as it makes up no data of the stream and each end
      opens the stream once; a resumed stream sends exactly what is missing; the
      replay buffer holds exactly what is not acknowledged; bounds and back-pressure.
    - Relay: two tunnels recover a stream over it; it forwards data unchanged and only
      between the ends; the state of a route; a committed route is final.
    - Secure channel: over a network that drops, delays, repeats, reorders and alters
      frames, and none of whose forgeries opens, the plaintexts delivered are a prefix
      of those sealed, over an honest one all of them; two ends with the same grant
      complete the handshake with crossed keys; transcripts are unambiguous; a grant
      is used once by connections that do not overlap.
    - Multiplexer: flow control within the limits, ordered delivery, fairness of the round
      robin along runs, the frame format, transfer.
    - Ledger: double-entry conservation over every history, exact distribution,
      exactly-once settlement, the integrity of receipts.
    - Checkpoints: a checkpoint signed on one worker reaches the coordinator's store, and
      the process of another worker, with the same bytes; the store keeps its limits and
      only verified entries and evicts the least recently used, and no more than it takes;
      messages affect only the transfers of their own worker and session, but for the
      failure message, which ends any transfer it names, and for the room that a commit
      takes in a full store; a restoration is resolved only by the
      acknowledgement of the worker it was sent to; a recovery is restored and promoted
      at most once over every history with crashes.
    - Node commands: a command that is executed and posted is settled once at the
      coordinator, with the result that the executor keeps, whatever the network loses and
      however often the client tries again; a command only moves forward and its first result is
      final; a pull delivers the live commands, the oldest first, up to its limit; an
      authorised command is accepted and brings a desired state of its generation to what
      it asks for; the log of a node is a hash chain,
      and its last digest determines it; only the active owner commands a node, and a node
      changes nothing of another one; the executor applies a command only under a record in its journal and
      answers from the journal once there is a result, as long as the 4,096 records of the
      journal include it; a command that was interrupted and
      has expired blocks every later snapshot of its node.
    - Canonical JSON: the text identifies the document up to a permutation of keys, it is
      the text of the document with its keys in the order of their UTF-16 code units, the
      walk ends on every heap.  Numbers are integers of absolute value below 10^21, which
      JavaScript writes in decimal.

    Some theorems state a flaw: a run of the model, which is a run of the code, that
    breaks what the surrounding code relies on.

    ** Conventions

    Code that throws returns [Err] with the source's error code; a throw keeps the
    mutations made before it.  Integers are [Z]; where the width or the 53 bits of a
    double matter the bound is written out.  Time is an argument of the operations
    that read the clock, a timer is the event that fires it, and what a callback or a
    socket will answer is part of the state.  Cryptography, random bytes and the
    host's collation are parameters, with what the code relies on as hypotheses of
    the theorems that need it.

    In the node commands the strings of a request are text without lone surrogates
    ([value_texts], [operation_wf]), the clock reads a time between 1970 and 9999
    ([valid_now]), an operation reads it once, the numbers of documents are integral, and
    the tests of Zod for UUIDs and date-times are parameters.  What the theorems
    assume of a parameter is that SHA-256 is written in hexadecimal digits
    ([hex_digests]) and that Zod takes the times that the code writes ([accepts_times]);
    where a theorem needs that SHA-256 does not collide, it says on which texts: those of
    the events that are in a log and of the ones an operation adds ([digests_apart]), which
    a run can check.  The keys that verify checkpoints are one function of their names for a
    whole run; the coordinator reads them from the credentials of its workers, where a
    revocation makes later verifications fail.

    Recursion that is not structural has fuel that is always enough: the pieces of a
    chunk take its length ([local_pieces], [send_pieces]), the walk of canonical JSON
    one more than the objects of the heap ([canonical_evidence_total]), the JSON
    parser one more than the characters of the text ([parse_value_stringify]); the
    receive loop of the channel runs five times per frame ([channel_transfer]); eviction
    takes one turn per entry and one more ([make_room_spec]), the cutting of a payload at
    most one per byte ([chunks_from_cut]).

    ** Not modelled

    The HTTP server beyond the routes of the node commands, the stores and the schema
    beyond the tables of the ledger, of recoveries and of node commands; what a command does
    on a node (files, processes and calls of the worker agent), the timers and signals of
    its client, enrolment; the rest of [WorkerHub] (evidence challenges, link probes, heartbeat
    capabilities) and of the worker agent (processes, probes, jobs); the removal of a
    model, which deletes its recoveries; planning, launching and scheduling, which are
    floating-point heuristics and process management; updates, artifacts and billing,
    which are file and network I/O; the user interface, the simulator and the Python
    runtime.  Of the modelled parts: numbers in canonical JSON that are not integers,
    timestamps and samples kept only for display, listening sockets. *)

From stdpp Require Export base gmap strings numbers list.

#[global] Open Scope Z_scope.

(** ** Results

    Code that throws is a value of [res]: [Ok] is the normal completion and
    [Err code] is [throw new Error(code)], with the source's error code. *)

Inductive res (A : Type) : Type :=
| Ok (a : A)
| Err (code : string).
Arguments Ok {A} a.
Arguments Err {A} code.

Declare Scope res_scope.
Delimit Scope res_scope with res.
#[global] Open Scope res_scope.

Notation "'let?' x ':=' c 'in' k" :=
  (match c with Ok x => k | Err e => Err e end)
  (at level 10, x binder, c at level 100, k at level 200) : res_scope.

Notation "'throw_if' b 'with' e ';;' k" :=
  (if b then Err e%string else k)
  (at level 10, b at level 99, e at level 9, k at level 200) : res_scope.

Definition is_ok {A} (r : res A) : bool :=
  match r with Ok _ => true | Err _ => false end.

(** ** State with exceptions

    Code that mutates an object and may throw: a throw keeps the mutations made
    before it, as in the source. *)

Definition SE (S A : Type) : Type := S -> res A * S.

Definition se_ret {S A} (a : A) : SE S A := fun s => (Ok a, s).
Definition se_throw {S A} (code : string) : SE S A := fun s => (Err code, s).
Definition se_bind {S A B} (c : SE S A) (k : A -> SE S B) : SE S B :=
  fun s => match c s with
           | (Ok a, s') => k a s'
           | (Err e, s') => (Err e, s')
           end.
Definition se_get {S} : SE S S := fun s => (Ok s, s).
Definition se_gets {S A} (f : S -> A) : SE S A := fun s => (Ok (f s), s).
Definition se_modify {S} (f : S -> S) : SE S unit := fun s => (Ok tt, f s).
Definition se_lift {S A} (r : res A) : SE S A := fun s => (r, s).

Declare Scope se_scope.
Delimit Scope se_scope with se.
#[global] Open Scope se_scope.

Notation "'let!' x ':=' c 'in' k" := (se_bind c (fun x => k))
  (at level 10, x binder, c at level 99, k at level 200) : se_scope.
Notation "'do!' c ';;' k" := (se_bind c (fun _ => k))
  (at level 10, c at level 99, k at level 200) : se_scope.
Notation "'fail_if' b 'with' e ';;' k" := (if b then se_throw e%string else k)
  (at level 10, b at level 99, e at level 9, k at level 200) : se_scope.

(** ** Numbers

    A JavaScript number that the code keeps integral is a [Z].  Where a
    function validates a number it was handed, [num] also has the numbers that
    are not integers (fractions, infinities and NaN). *)

Inductive num : Type :=
| NInt (z : Z)
| NFrac.

Definition MAX_SAFE_INTEGER : Z := 2 ^ 53 - 1.

Definition is_safe (z : Z) : bool :=
  (- MAX_SAFE_INTEGER <=? z) && (z <=? MAX_SAFE_INTEGER).

(** [Number.isSafeInteger] and [Number.isInteger]. *)
Definition isSafeInteger (n : num) : bool :=
  match n with NInt z => is_safe z | NFrac => false end.

Definition isInteger (n : num) : bool :=
  match n with NInt _ => true | NFrac => false end.

(** ** Bytes

    A byte is a [Z] in [0, 256); a [Buffer] is a list of bytes. *)

Abbreviation byte := Z (only parsing).
Abbreviation bytes := (list Z) (only parsing).

Definition is_byte (b : Z) : Prop := 0 <= b < 256.
Definition byteLength (b : bytes) : Z := Z.of_nat (length b).

(** Big-endian fields: [buffer.writeUIntBE] and [buffer.readUIntBE] on [n]
    bytes. *)
Fixpoint be_write (n : nat) (z : Z) : bytes :=
  match n with
  | O => []
  | S n' => be_write n' (Z.shiftr z 8) ++ [Z.land z 255]
  end.

Definition be_read (b : bytes) : Z :=
  foldl (fun acc x => Z.lor (Z.shiftl acc 8) x) 0 b.

(** [buffer.subarray(from, to)] for [0 <= from]. *)
Definition subarray (b : bytes) (from to : Z) : bytes :=
  take (Z.to_nat (to - from)) (drop (Z.to_nat from) b).

(** ** Sums over lists *)

Definition zsum {A} (f : A -> Z) (l : list A) : Z :=
  foldr (fun x acc => f x + acc) 0 l.

(** Spans that follow one another without a gap from [start]: the chunks of a
    byte stream. *)
Fixpoint contiguous {A} (off len : A -> Z) (start : Z) (l : list A) : Prop :=
  match l with
  | [] => True
  | x :: l' => off x = start /\ 0 < len x /\ contiguous off len (start + len x) l'
  end.

(** ** Automation *)

Create HintDb myc.
Create Rewrite HintDb myc.

(** Case analysis on every [match] of a hypothesis that a guarded definition
    leaves behind, discarding the branches that contradict it. *)
Ltac inv_step H :=
  repeat (simpl in H; first
    [ discriminate H
    | match type of H with
      | (match ?x with _ => _ end) = _ => destruct x eqn:?
      end ]);
  first [ discriminate H | injection H; clear H; intros; subst | idtac ].

(** Linear arithmetic with division and remainder by constants. *)
Ltac zdiv_lia := Z.to_euclidean_division_equations; lia.

(** Boolean guards of the code as propositions. *)
Ltac bool_prop :=
  repeat match goal with
  | H : (_ && _) = true |- _ => apply andb_true_iff in H; destruct H
  | H : (_ || _) = false |- _ => apply orb_false_iff in H; destruct H
  | H : (_ && _) = false |- _ => apply andb_false_iff in H
  | H : (_ || _) = true |- _ => apply orb_true_iff in H
  | H : negb _ = true |- _ => apply negb_true_iff in H
  | H : negb _ = false |- _ => apply negb_false_iff in H
  | H : (_ <? _) = true |- _ => apply Z.ltb_lt in H
  | H : (_ <? _) = false |- _ => apply Z.ltb_ge in H
  | H : (_ <=? _) = true |- _ => apply Z.leb_le in H
  | H : (_ <=? _) = false |- _ => apply Z.leb_gt in H
  | H : (_ =? _) = true |- _ => apply Z.eqb_eq in H
  | H : (_ =? _) = false |- _ => apply Z.eqb_neq in H
  | H : bool_decide _ = true |- _ => apply bool_decide_eq_true in H
  | H : bool_decide _ = false |- _ => apply bool_decide_eq_false in H
  end.

(** ** Lemmas on sums, bytes and lists *)

Lemma zsum_app {A} (f : A -> Z) (l k : list A) :
  zsum f (l ++ k) = zsum f l + zsum f k.
Proof. induction l as [|x l IH]; simpl; lia. Qed.

Lemma zsum_nonneg {A} (f : A -> Z) (l : list A) :
  Forall (fun x => 0 <= f x) l -> 0 <= zsum f l.
Proof. induction 1; simpl; lia. Qed.

Lemma zsum_ext {A} (f g : A -> Z) (l : list A) :
  Forall (fun x => f x = g x) l -> zsum f l = zsum g l.
Proof. induction 1; simpl; lia. Qed.

Lemma zsum_perm {A} (f : A -> Z) (l k : list A) :
  l ≡ₚ k -> zsum f l = zsum f k.
Proof. induction 1; simpl; lia. Qed.

Lemma zsum_delete {A} (f : A -> Z) (l : list A) (n : nat) (x : A) :
  l !! n = Some x -> zsum f (delete n l) = zsum f l - f x.
Proof.
  revert n; induction l as [|y l IH]; intros [|n] H; simplify_eq/=; [lia|].
  rewrite (IH n) by done. lia.
Qed.

Lemma contiguous_app {A} (off len : A -> Z) (start : Z) (l k : list A) :
  contiguous off len start (l ++ k) <->
  contiguous off len start l /\ contiguous off len (start + zsum len l) k.
Proof.
  revert start; induction l as [|x l IH]; intros start; simpl.
  - rewrite Z.add_0_r. tauto.
  - rewrite IH, Z.add_assoc. tauto.
Qed.

Lemma contiguous_nonneg {A} (off len : A -> Z) (start : Z) (l : list A) :
  contiguous off len start l -> 0 <= zsum len l.
Proof.
  revert start; induction l as [|x l IH]; intros start; simpl; [lia|].
  intros (_ & ? & H). apply IH in H. lia.
Qed.

Lemma byteLength_nonneg (b : bytes) : 0 <= byteLength b.
Proof. unfold byteLength; lia. Qed.

Lemma byteLength_app (a b : bytes) :
  byteLength (a ++ b) = byteLength a + byteLength b.
Proof. unfold byteLength; rewrite length_app; lia. Qed.

Lemma byteLength_nil : byteLength [] = 0.
Proof. reflexivity. Qed.

Lemma length_be_write (n : nat) (z : Z) : length (be_write n z) = n.
Proof.
  revert z; induction n as [|n IH]; intros z; simpl; [done|].
  rewrite length_app, IH; simpl; lia.
Qed.

Lemma be_write_bytes (n : nat) (z : Z) : Forall is_byte (be_write n z).
Proof.
  revert z; induction n as [|n IH]; intros z; simpl; [constructor|].
  apply Forall_app; split; [apply IH|]. constructor; [|constructor].
  unfold is_byte. change 255 with (Z.ones 8). rewrite Z.land_ones by lia.
  apply Z.mod_pos_bound; lia.
Qed.

Lemma be_read_app (a : bytes) (x : Z) :
  be_read (a ++ [x]) = Z.lor (Z.shiftl (be_read a) 8) x.
Proof. unfold be_read; rewrite foldl_app; done. Qed.

Lemma be_read_write (n : nat) (z : Z) :
  be_read (be_write n z) = z mod 2 ^ (8 * Z.of_nat n).
Proof.
  revert z; induction n as [|n IH]; intros z.
  - simpl. rewrite Z.mul_0_r, Z.pow_0_r, Z.mod_1_r. done.
  - cbn [be_write]. rewrite be_read_app, IH.
    rewrite <- !Z.land_ones by lia.
    change 255 with (Z.ones 8).
    apply Z.bits_inj'; intros i Hi.
    rewrite Z.lor_spec, Z.shiftl_spec, !Z.land_spec by lia.
    destruct (Z.lt_ge_cases i 8) as [Hlt|Hge].
    + rewrite !(Z.testbit_neg_r _ (i - 8)) by lia.
      rewrite !Z.ones_spec_low by lia. done.
    + rewrite (Z.ones_spec_high 8) by lia.
      rewrite andb_false_r, orb_false_r, Z.shiftr_spec by lia.
      replace (i - 8 + 8) with i by lia. f_equal.
      destruct (Z.lt_ge_cases i (8 * Z.of_nat (S n))).
      * rewrite !Z.ones_spec_low by lia. done.
      * rewrite !Z.ones_spec_high by lia. done.
Qed.

Lemma be_read_write_small (n : nat) (z : Z) :
  0 <= z < 2 ^ (8 * Z.of_nat n) -> be_read (be_write n z) = z.
Proof. intros. rewrite be_read_write. by apply Z.mod_small. Qed.

Lemma is_safe_spec (z : Z) :
  is_safe z = true <-> - MAX_SAFE_INTEGER <= z <= MAX_SAFE_INTEGER.
Proof.
  unfold is_safe; split; intros H.
  - apply andb_true_iff in H as [H1 H2]. lia.
  - apply andb_true_iff. lia.
Qed.

#[export] Hint Resolve byteLength_nonneg : myc.
#[export] Hint Rewrite @zsum_app byteLength_app byteLength_nil : myc.
