(* ===== verification/JsString.v ===== *)
(** * JavaScript strings and their UTF-8 form

    The transport code normalises identifiers with [String.prototype.trim],
    refuses control characters, measures strings in UTF-8 bytes or UTF-16 code
    units, and moves them through [Buffer.from(s, "utf8")] and
    [buffer.toString("utf8")].  A string is the list of its code points (a
    surrogate that is not part of a pair is a code point of its own). *)

From S2P Require Import Prelude.

#[local] Open Scope Z_scope.

Abbreviation jsstring := (list Z) (only parsing).

(** ** Characters *)

(** The WhiteSpace and LineTerminator characters that [trim] strips. *)
Definition is_space (c : Z) : bool :=
  ((9 <=? c) && (c <=? 13)) || (c =? 32) || (c =? 160) || (c =? 5760)
  || ((8192 <=? c) && (c <=? 8202)) || (c =? 8232) || (c =? 8233)
  || (c =? 8239) || (c =? 8287) || (c =? 12288) || (c =? 65279).

(** The class [[\u0000-\u001f\u007f]]. *)
Definition is_control (c : Z) : bool :=
  ((0 <=? c) && (c <=? 31)) || (c =? 127).

Definition is_surrogate (c : Z) : bool := (55296 <=? c) && (c <=? 57343).

(** The Unicode scalar values: the code points UTF-8 can carry. *)
Definition is_scalar (c : Z) : bool :=
  (0 <=? c) && (c <=? 1114111) && negb (is_surrogate c).

Fixpoint trimStart (s : jsstring) : jsstring :=
  match s with
  | c :: s' => if is_space c then trimStart s' else s
  | [] => []
  end.

Definition trimEnd (s : jsstring) : jsstring := reverse (trimStart (reverse s)).

(** [String.prototype.trim]. *)
Definition trim (s : jsstring) : jsstring := trimEnd (trimStart s).

(** [String.prototype.length], in UTF-16 code units. *)
Definition utf16_length (s : jsstring) : Z :=
  zsum (fun c => if 65536 <=? c then 2 else 1) s.

Lemma utf16_length_bmp s : Forall (fun c => c < 65536) s -> utf16_length s = Z.of_nat (length s).
Proof.
  unfold utf16_length. induction 1 as [|c s Hc _ IH]; [done|]. cbn [zsum foldr length].
  fold (zsum (fun c => if 65536 <=? c then 2 else 1) s). rewrite IH, (proj2 (Z.leb_gt _ _)) by done. lia.
Qed.

(** ** UTF-8 *)

Definition REPLACEMENT : Z := 65533.

Definition utf8_scalar (c : Z) : bytes :=
  if c <? 128 then [c]
  else if c <? 2048 then [192 + c / 64; 128 + c mod 64]
  else if c <? 65536 then [224 + c / 4096; 128 + (c / 64) mod 64; 128 + c mod 64]
  else [240 + c / 262144; 128 + (c / 4096) mod 64;
        128 + (c / 64) mod 64; 128 + c mod 64].

(** A lone surrogate is written as the replacement character. *)
Definition utf8_char (c : Z) : bytes :=
  utf8_scalar (if is_surrogate c then REPLACEMENT else c).

(** [Buffer.from(s, "utf8")]. *)
Definition utf8_encode (s : jsstring) : bytes := mbind utf8_char s.

(** The decoder's state: what is left of a multi-byte sequence, the code point
    so far and the range the next continuation byte must lie in. *)
Record utf8_state := Utf8 { needed : nat; acc : Z; lower : Z; upper : Z }.

Definition utf8_start : utf8_state := Utf8 0 0 128 191.

Definition utf8_lead (b : Z) : option Z * utf8_state :=
  if b <? 128 then (Some b, utf8_start)
  else if (194 <=? b) && (b <=? 223) then (None, Utf8 1 (b - 192) 128 191)
  else if (224 <=? b) && (b <=? 239) then
    (None, Utf8 2 (b - 224) (if b =? 224 then 160 else 128)
                            (if b =? 237 then 159 else 191))
  else if (240 <=? b) && (b <=? 244) then
    (None, Utf8 3 (b - 240) (if b =? 240 then 144 else 128)
                            (if b =? 244 then 143 else 191))
  else (Some REPLACEMENT, utf8_start).

(** One byte: the code points it completes, and the state after it.  A byte
    outside the expected range ends the broken sequence with one replacement
    character and is then read again as a lead byte. *)
Definition utf8_byte (st : utf8_state) (b : Z) : list Z * utf8_state :=
  match needed st with
  | O => let (c, st') := utf8_lead b in (option_list c, st')
  | S n =>
      if (lower st <=? b) && (b <=? upper st) then
        let cp := acc st * 64 + (b - 128) in
        match n with
        | O => ([cp], utf8_start)
        | S _ => ([], Utf8 n cp 128 191)
        end
      else
        let (c, st') := utf8_lead b in (REPLACEMENT :: option_list c, st')
  end.

Fixpoint utf8_run (st : utf8_state) (b : bytes) : jsstring :=
  match b with
  | [] => match needed st with O => [] | S _ => [REPLACEMENT] end
  | x :: b' => let (out, st') := utf8_byte st x in out ++ utf8_run st' b'
  end.

(** [buffer.toString("utf8")]. *)
Definition utf8_decode (b : bytes) : jsstring := utf8_run utf8_start b.

(** ** Properties *)

Lemma utf8_char_bytes (c : Z) :
  0 <= c <= 1114111 -> Forall is_byte (utf8_char c).
Proof.
  intros Hc. unfold utf8_char.
  assert (Hs : 0 <= (if is_surrogate c then REPLACEMENT else c) <= 1114111)
    by (destruct (is_surrogate c); unfold REPLACEMENT; lia).
  revert Hs; generalize (if is_surrogate c then REPLACEMENT else c); intros d Hd.
  unfold utf8_scalar, is_byte.
  destruct (Z.ltb_spec d 128); [|destruct (Z.ltb_spec d 2048);
    [|destruct (Z.ltb_spec d 65536)]];
    repeat (apply List.Forall_cons; [zdiv_lia|]); constructor.
Qed.

Lemma utf8_encode_bytes (s : jsstring) :
  Forall (fun c => 0 <= c <= 1114111) s -> Forall is_byte (utf8_encode s).
Proof.
  induction 1 as [|c s Hc _ IH]; simpl; [constructor|].
  apply Forall_app; split; [by apply utf8_char_bytes|apply IH].
Qed.

Ltac utf8_ranges :=
  repeat match goal with
  | |- context [?a <? ?b] => destruct (Z.ltb_spec a b); try zdiv_lia
  | |- context [?a <=? ?b] => destruct (Z.leb_spec a b); try zdiv_lia
  | |- context [?a =? ?b] => destruct (Z.eqb_spec a b); try zdiv_lia
  end.

Ltac utf8_close :=
  utf8_ranges; cbn; unfold utf8_byte; cbn; do 3 (utf8_ranges; cbn);
  f_equal; zdiv_lia.

Lemma utf8_run_char (c : Z) (rest : bytes) :
  is_scalar c = true ->
  utf8_run utf8_start (utf8_char c ++ rest) = c :: utf8_run utf8_start rest.
Proof.
  unfold is_scalar, utf8_char. intros Hc. bool_prop.
  match goal with H : is_surrogate c = false |- _ => rewrite H; rename H into Hs end.
  unfold is_surrogate in Hs. unfold utf8_scalar.
  destruct (Z.ltb_spec c 128).
  { simpl. unfold utf8_byte, utf8_lead; simpl. utf8_ranges. done. }
  destruct (Z.ltb_spec c 2048).
  { cbn [app utf8_run]. unfold utf8_byte at 1, utf8_lead; cbn [needed utf8_start].
    utf8_close. }
  destruct (Z.ltb_spec c 65536).
  { cbn [app utf8_run]. unfold utf8_byte at 1, utf8_lead; cbn [needed utf8_start].
    assert (c < 55296 \/ 57343 < c)
      by (apply andb_false_iff in Hs as [?|?]; lia).
    utf8_close. }
  cbn [app utf8_run]. unfold utf8_byte at 1, utf8_lead; cbn [needed utf8_start].
  utf8_close.
Qed.

(** [buffer.toString("utf8")] undoes [Buffer.from(s, "utf8")] on strings
    without lone surrogates. *)
Lemma utf8_round_trip (s : jsstring) :
  Forall (fun c => is_scalar c = true) s -> utf8_decode (utf8_encode s) = s.
Proof.
  unfold utf8_decode. induction 1 as [|c s Hc _ IH]; [done|].
  cbn [utf8_encode mbind list_bind]. rewrite utf8_run_char by done.
  f_equal. apply IH.
Qed.

(** ** Trimming *)

Definition is_trimmed (s : jsstring) : Prop :=
  (forall c s', s = c :: s' -> is_space c = false) /\
  (forall c s', s = s' ++ [c] -> is_space c = false).

Lemma trimStart_head (s : jsstring) (c : Z) (s' : jsstring) :
  trimStart s = c :: s' -> is_space c = false.
Proof.
  induction s as [|x s IH]; simpl; [done|].
  destruct (is_space x) eqn:E; intros; simplify_eq; auto.
Qed.

Lemma trimStart_suffix (s : jsstring) : exists p, s = p ++ trimStart s.
Proof.
  induction s as [|x s [p Hp]]; simpl; [by exists []|].
  destruct (is_space x); [|by exists []].
  exists (x :: p). simpl. congruence.
Qed.

Lemma trim_is_trimmed (s : jsstring) : is_trimmed (trim s).
Proof.
  unfold trim, trimEnd. set (u := trimStart s).
  assert (Hu : forall c u', u = c :: u' -> is_space c = false)
    by (intros; eapply trimStart_head; eauto).
  clearbody u. split; intros c s' H.
  - destruct (trimStart_suffix (reverse u)) as [p Hp].
    apply (f_equal reverse) in Hp. rewrite reverse_involutive, reverse_app, H in Hp.
    simpl in Hp. by eapply Hu.
  - apply (f_equal reverse) in H. rewrite reverse_involutive, reverse_app in H.
    simpl in H. by eapply trimStart_head.
Qed.

Lemma trim_id (s : jsstring) : is_trimmed s -> trim s = s.
Proof.
  intros [Hh Ht]. unfold trim, trimEnd.
  assert (Hs : trimStart s = s).
  { destruct s as [|c s']; [done|]. simpl. by rewrite (Hh c s' eq_refl). }
  rewrite Hs. destruct (reverse s) as [|c r] eqn:E.
  - apply (f_equal reverse) in E. rewrite reverse_involutive in E. done.
  - apply (f_equal reverse) in E. rewrite reverse_involutive, reverse_cons in E.
    simpl. rewrite (Ht c (reverse r) E). by rewrite reverse_cons.
Qed.

(** [text.slice(0, n)], which counts UTF-16 code units. *)
Fixpoint slice (n : Z) (s : jsstring) : jsstring :=
  match s with
  | [] => []
  | c :: s' =>
      if n <=? 0 then []
      else if 65536 <=? c then
        if n =? 1 then [55296 + Z.shiftr (c - 65536) 10] else c :: slice (n - 2) s'
      else c :: slice (n - 1) s'
  end.

(** The JavaScript string of an ASCII literal. *)
Definition js (s : string) : jsstring :=
  map (fun a => Z.of_nat (Ascii.nat_of_ascii a)) (String.list_ascii_of_string s).
#[global] Arguments js : simpl never.
