(* ===== verification/JsMap.v ===== *)
(** * JavaScript [Map]

    A [Map] iterates in insertion order: [set] on a present key keeps its
    place, on a new key appends; [delete] removes the entry.  The code iterates
    over its maps, so the order is kept: a map is the list of its entries. *)

From S2P Require Import Prelude.

#[local] Open Scope Z_scope.

Section JsMap.
Context {K V : Type} `{EqDecision K}.

Abbreviation jsmap := (list (K * V)) (only parsing).

Fixpoint map_get (m : jsmap) (k : K) : option V :=
  match m with
  | [] => None
  | (k', v) :: m' => if decide (k = k') then Some v else map_get m' k
  end.

Definition map_has (m : jsmap) (k : K) : bool :=
  match map_get m k with Some _ => true | None => false end.

Fixpoint map_set (m : jsmap) (k : K) (v : V) : jsmap :=
  match m with
  | [] => [(k, v)]
  | (k', v') :: m' =>
      if decide (k = k') then (k', v) :: m' else (k', v') :: map_set m' k v
  end.

Fixpoint map_delete (m : jsmap) (k : K) : jsmap :=
  match m with
  | [] => []
  | (k', v') :: m' =>
      if decide (k = k') then m' else (k', v') :: map_delete m' k
  end.

Definition map_size (m : jsmap) : Z := Z.of_nat (length m).
Definition map_keys (m : jsmap) : list K := m.*1.
Definition map_values (m : jsmap) : list V := m.*2.

(** Every key occurs once. *)
Definition map_wf (m : jsmap) : Prop := NoDup (map_keys m).

Lemma map_get_set (m : jsmap) (k j : K) (v : V) :
  map_get (map_set m k v) j = if decide (j = k) then Some v else map_get m j.
Proof.
  induction m as [|[k' v'] m IH]; simpl; [done|].
  repeat (case_decide; subst; simpl in *; try done).
Qed.

Lemma map_get_set_eq (m : jsmap) (k : K) (v : V) :
  map_get (map_set m k v) k = Some v.
Proof. rewrite map_get_set. by rewrite decide_True. Qed.

Lemma map_get_set_ne (m : jsmap) (k j : K) (v : V) :
  j <> k -> map_get (map_set m k v) j = map_get m j.
Proof. intros. rewrite map_get_set. by rewrite decide_False. Qed.

Lemma map_set_set (m : jsmap) (k : K) (v w : V) : map_set (map_set m k v) k w = map_set m k w.
Proof.
  induction m as [|[k' v'] m IH]; simpl; [by rewrite decide_True|].
  case_decide; simpl; [by rewrite decide_True|]. rewrite decide_False by done. by f_equal.
Qed.

Lemma map_get_None (m : jsmap) (k : K) :
  map_get m k = None <-> k ∉ map_keys m.
Proof.
  induction m as [|[k' v] m IH]; simpl; [split; [set_solver|done]|].
  case_decide; subst; [set_solver|]. rewrite IH. set_solver.
Qed.

Lemma map_get_Some_In (m : jsmap) (k : K) (v : V) :
  map_get m k = Some v -> (k, v) ∈ m.
Proof.
  induction m as [|[k' v'] m IH]; simpl; [done|].
  case_decide; intros; simplify_eq; set_solver.
Qed.

Lemma map_get_In (m : jsmap) (k : K) (v : V) :
  map_wf m -> (k, v) ∈ m -> map_get m k = Some v.
Proof.
  unfold map_wf. induction m as [|[k' v'] m IH]; simpl; [set_solver|].
  intros [Hk Hm]%NoDup_cons Hin. apply elem_of_cons in Hin as [Heq|Hin].
  - simplify_eq. by rewrite decide_True.
  - rewrite decide_False; [by apply IH|].
    intros ->. apply Hk. apply list_elem_of_fmap. by exists (k', v).
Qed.

Lemma map_get_delete_ne (m : jsmap) (k j : K) :
  j <> k -> map_get (map_delete m k) j = map_get m j.
Proof.
  intros. induction m as [|[k' v'] m IH]; simpl; [done|].
  repeat (case_decide; subst; simpl in *; try done).
Qed.

Lemma map_keys_delete_incl (m : jsmap) (k j : K) :
  j ∈ map_keys (map_delete m k) -> j ∈ map_keys m.
Proof.
  induction m as [|[k' v'] m IH]; simpl; [done|].
  case_decide; subst; simpl; set_solver.
Qed.

Lemma map_wf_delete (m : jsmap) (k : K) : map_wf m -> map_wf (map_delete m k).
Proof.
  unfold map_wf. induction m as [|[k' v'] m IH]; simpl; [done|].
  intros [Hk Hm]%NoDup_cons. case_decide; subst; [done|].
  simpl. apply NoDup_cons; split; [|by apply IH].
  intros Hin. by eapply Hk, map_keys_delete_incl.
Qed.

Lemma map_get_delete_eq (m : jsmap) (k : K) :
  map_wf m -> map_get (map_delete m k) k = None.
Proof.
  unfold map_wf. induction m as [|[k' v'] m IH]; simpl; [done|].
  intros [Hk Hm]%NoDup_cons. case_decide; subst; simpl.
  - by apply map_get_None.
  - rewrite decide_False by done. by apply IH.
Qed.

Lemma map_keys_set (m : jsmap) (k : K) (v : V) :
  map_keys (map_set m k v) =
    if map_has m k then map_keys m else map_keys m ++ [k].
Proof.
  unfold map_has. induction m as [|[k' v'] m IH]; simpl; [done|].
  case_decide; subst; simpl; [done|].
  rewrite IH. by destruct (map_get m k).
Qed.

Lemma map_has_In (m : jsmap) (k : K) : map_has m k = true <-> k ∈ map_keys m.
Proof.
  unfold map_has. destruct (map_get m k) as [v|] eqn:E.
  - apply map_get_Some_In in E. split; [|done]. intros _.
    apply list_elem_of_fmap. by exists (k, v).
  - apply map_get_None in E. done.
Qed.

Lemma map_wf_set (m : jsmap) (k : K) (v : V) : map_wf m -> map_wf (map_set m k v).
Proof.
  unfold map_wf. intros Hm. rewrite map_keys_set.
  destruct (map_has m k) eqn:E; [done|].
  apply NoDup_app; split_and!; [done| |apply NoDup_singleton].
  intros x Hx Hk. apply list_elem_of_singleton in Hk as ->.
  apply map_has_In in Hx. congruence.
Qed.

Lemma map_size_set (m : jsmap) (k : K) (v : V) :
  map_size (map_set m k v) = map_size m + (if map_has m k then 0 else 1).
Proof.
  unfold map_size, map_has. induction m as [|[k' v'] m IH]; simpl; [done|].
  case_decide; subst; simpl; [lia|]. destruct (map_get m k); simpl in *; lia.
Qed.

Lemma map_size_delete (m : jsmap) (k : K) : map_size (map_delete m k) <= map_size m.
Proof.
  unfold map_size. induction m as [|[k' v'] m IH]; simpl; [done|].
  case_decide; subst; simpl; lia.
Qed.

Lemma map_wf_nil : map_wf [].
Proof. apply NoDup_nil_2. Qed.
End JsMap.

#[export] Hint Resolve map_wf_delete map_wf_set map_wf_nil : myc.
