(* ===== verification/JsSort.v ===== *)
(** * [Array.prototype.sort]

    The sort of JavaScript is stable, so for a comparator that is a total
    preorder its result is that of insertion sort.  [before x y] is
    [compare(x, y) <= 0]. *)

From S2P Require Import Prelude.

#[local] Open Scope Z_scope.

Section Sort.
Context {A : Type} (before : A -> A -> bool).

Fixpoint insert_by (x : A) (l : list A) : list A :=
  match l with
  | [] => [x]
  | y :: l' => if before x y then x :: l else y :: insert_by x l'
  end.

Fixpoint sort_by (l : list A) : list A :=
  match l with
  | [] => []
  | x :: l' => insert_by x (sort_by l')
  end.

Lemma insert_by_perm x l : insert_by x l ≡ₚ x :: l.
Proof.
  induction l as [|y l IH]; simpl; [done|]. destruct (before x y); [done|].
  rewrite IH. apply Permutation_swap.
Qed.

Lemma sort_by_perm l : sort_by l ≡ₚ l.
Proof. induction l as [|x l IH]; simpl; [done|]. by rewrite insert_by_perm, IH. Qed.

(** [l] is in order. *)
Fixpoint in_order (l : list A) : Prop :=
  match l with
  | [] => True
  | x :: l' => Forall (fun y => before x y = true) l' /\ in_order l'
  end.

(** The comparator is total and transitive on the elements of [l]. *)
Definition total_on (l : list A) : Prop :=
  (forall x y, x ∈ l -> y ∈ l -> before x y = true \/ before y x = true)
  /\ (forall x y z, x ∈ l -> y ∈ l -> z ∈ l ->
      before x y = true -> before y z = true -> before x z = true).

(** It separates the elements of [l]. *)
Definition strict_on (l : list A) : Prop :=
  forall x y, x ∈ l -> y ∈ l -> before x y = true -> before y x = true -> x = y.

Lemma total_on_incl l k : (forall x, x ∈ k -> x ∈ l) -> total_on l -> total_on k.
Proof. intros Hi [Ht Htr]. split; eauto 6. Qed.

Lemma strict_on_incl l k : (forall x, x ∈ k -> x ∈ l) -> strict_on l -> strict_on k.
Proof. intros Hi Hs x y; auto. Qed.

Lemma insert_by_in_order x l :
  total_on (x :: l) -> in_order l -> in_order (insert_by x l).
Proof.
  induction l as [|y l IH]; simpl; intros Ht Ho; [by repeat constructor|].
  destruct Ho as [Hy Ho]. destruct Ht as [Htot Htr].
  destruct (before x y) eqn:E; simpl.
  - split_and!; [|done|done]. constructor; [done|].
    rewrite Forall_forall in *. intros z Hz.
    apply (Htr x y z); set_solver.
  - split.
    + rewrite (insert_by_perm x l). constructor; [|done].
      destruct (Htot y x) as [?|?]; [set_solver|set_solver|done|congruence].
    + apply IH; [|done]. split.
      * intros a b Ha Hb. apply Htot; set_solver.
      * intros a b c Ha Hb Hc. apply Htr; set_solver.
Qed.

Lemma sort_by_in_order l : total_on l -> in_order (sort_by l).
Proof.
  induction l as [|x l IH]; simpl; intros Ht; [done|].
  apply insert_by_in_order.
  - eapply total_on_incl; [|exact Ht]. intros y. rewrite !elem_of_cons.
    intros [->|Hy]; [by left|]. right. by rewrite <- (sort_by_perm l).
  - apply IH. eapply total_on_incl; [|exact Ht]. intros y Hy. by right.
Qed.

(** Two arrangements of the same elements that are both in order agree. *)
Lemma in_order_unique l k :
  strict_on l -> l ≡ₚ k -> in_order l -> in_order k -> l = k.
Proof.
  revert k; induction l as [|x l IH]; intros k Hs Hp Hl Hk.
  { by apply Permutation_nil_l in Hp. }
  destruct k as [|y k]; [by apply Permutation_nil_r in Hp|].
  destruct Hl as [Hx Hl], Hk as [Hy Hk]. rewrite Forall_forall in Hx, Hy.
  assert (x = y) as ->.
  { assert (Hyl : y ∈ x :: l) by (rewrite Hp; left).
    assert (Hxk : x ∈ y :: k) by (rewrite <- Hp; left).
    apply elem_of_cons in Hyl as [->|Hyl]; [done|].
    apply elem_of_cons in Hxk as [->|Hxk]; [done|].
    apply Hs; [by left|by right|by apply Hx|by apply Hy]. }
  f_equal. apply IH; [|by apply Permutation_cons_inv in Hp|done|done].
  eapply strict_on_incl; [|exact Hs]. intros z Hz. by right.
Qed.

Lemma sort_by_unique l k :
  total_on l -> strict_on l -> l ≡ₚ k -> sort_by l = sort_by k.
Proof.
  intros Ht Hs Hp. apply in_order_unique.
  - eapply strict_on_incl; [|exact Hs]. intros x. by rewrite sort_by_perm.
  - by rewrite !sort_by_perm.
  - by apply sort_by_in_order.
  - apply sort_by_in_order. eapply total_on_incl; [|exact Ht]. intros x. by rewrite Hp.
Qed.
End Sort.

Lemma insert_by_fmap {A B} (f : A -> B) (bA : A -> A -> bool) (bB : B -> B -> bool) x l :
  (forall a c, bB (f a) (f c) = bA a c) ->
  insert_by bB (f x) (f <$> l) = f <$> insert_by bA x l.
Proof.
  intros Hf. induction l as [|y l IH]; csimpl; [done|]. rewrite Hf.
  destruct (bA x y); csimpl; [done|]. by rewrite IH.
Qed.

Lemma sort_by_fmap {A B} (f : A -> B) (bA : A -> A -> bool) (bB : B -> B -> bool) l :
  (forall a c, bB (f a) (f c) = bA a c) ->
  sort_by bB (f <$> l) = f <$> sort_by bA l.
Proof.
  intros Hf. induction l as [|x l IH]; csimpl; [done|]. rewrite IH. by apply insert_by_fmap.
Qed.

Lemma zsum_sort_by {A} (f : A -> Z) before (l : list A) : zsum f (sort_by before l) = zsum f l.
Proof. apply zsum_perm, sort_by_perm. Qed.
