(* ===== verification/JsonText.v ===== *)
(** * JSON and its text

    The JSON data model and what [JSON.stringify] writes for strings and
    integers, with the property the digests of the program rest on: the text of
    a document determines the document.  Numbers are the integral ones, which
    print in decimal. *)

From S2P Require Import Prelude JsString.

#[local] Open Scope Z_scope.

Inductive json :=
| JNull
| JBool (b : bool)
| JNum (z : Z)
| JStr (s : jsstring)
| JArr (l : list json)
| JObj (l : list (jsstring * json)).

(** ** Text *)

(** Decimal digits; [fuel] bounds their number. *)
Fixpoint dec_digits (fuel : nat) (z : Z) : jsstring :=
  match fuel with
  | O => [48 + z]
  | S fuel' => if z <? 10 then [48 + z] else dec_digits fuel' (z / 10) ++ [48 + z mod 10]
  end.

Definition decimal (z : Z) : jsstring :=
  let digits n := dec_digits (Z.to_nat (Z.log2 n)) n in
  if z <? 0 then 45 :: digits (- z) else digits z.

Definition hex_digit (d : Z) : Z := if d <? 10 then 48 + d else 87 + d.

Definition hex4 (c : Z) : jsstring :=
  [hex_digit (c / 4096 mod 16); hex_digit (c / 256 mod 16); hex_digit (c / 16 mod 16);
   hex_digit (c mod 16)].

(** QuoteJSONString of ECMAScript: the short escapes, [\u00xx] for the other
    control characters and for a lone surrogate, everything else as it is. *)
Definition quote_char (c : Z) : jsstring :=
  if c =? 34 then [92; 34] else if c =? 92 then [92; 92]
  else if c =? 8 then [92; 98] else if c =? 9 then [92; 116]
  else if c =? 10 then [92; 110] else if c =? 12 then [92; 102]
  else if c =? 13 then [92; 114]
  else if (c <? 32) || is_surrogate c then 92 :: 117 :: hex4 c
  else [c].

Definition quote (s : jsstring) : jsstring := 34 :: mbind quote_char s ++ [34].

(** [parts.join(",")]. *)
Fixpoint join (parts : list jsstring) : jsstring :=
  match parts with
  | [] => []
  | [p] => p
  | p :: ps => p ++ 44 :: join ps
  end.

Definition brackets (l : list jsstring) : jsstring := 91 :: join l ++ [93].
Definition braces (l : list (jsstring * jsstring)) : jsstring :=
  123 :: join (map (fun e => quote e.1 ++ 58 :: e.2) l) ++ [125].

Fixpoint stringify (j : json) : jsstring :=
  match j with
  | JNull => js "null"
  | JBool b => js (if b then "true" else "false")
  | JNum z => decimal z
  | JStr s => quote s
  | JArr l => brackets (map stringify l)
  | JObj l => braces (map (fun e => (e.1, stringify e.2)) l)
  end.

(** ** Induction *)

(** Every string of the document is made of code points. *)
Definition text_wf (s : jsstring) : Prop := Forall (fun c => 0 <= c) s.

Fixpoint json_wf (j : json) : Prop :=
  match j with
  | JStr s => text_wf s
  | JArr l => foldr (fun j P => json_wf j /\ P) True l
  | JObj l => foldr (fun e P => (text_wf e.1 /\ json_wf e.2) /\ P) True l
  | JNull | JBool _ | JNum _ => True
  end.

Lemma foldr_Forall {A} (P : A -> Prop) (l : list A) :
  foldr (fun x Q => P x /\ Q) True l <-> Forall P l.
Proof.
  induction l as [|x l IH]; simpl; [split; auto|]. rewrite Forall_cons, IH. done.
Qed.

Section JsonInd.
Context (P : json -> Prop)
  (Hnull : P JNull) (Hbool : forall b, P (JBool b)) (Hnum : forall z, P (JNum z))
  (Hstr : forall s, P (JStr s))
  (Harr : forall l, Forall P l -> P (JArr l))
  (Hobj : forall l, Forall (fun e => P e.2) l -> P (JObj l)).

Fixpoint json_ind' (j : json) : P j :=
  match j with
  | JNull => Hnull
  | JBool b => Hbool b
  | JNum z => Hnum z
  | JStr s => Hstr s
  | JArr l => Harr l ((fix go l : Forall P l :=
      match l with
      | [] => List.Forall_nil _
      | x :: l' => List.Forall_cons _ _ _ (json_ind' x) (go l')
      end) l)
  | JObj l => Hobj l ((fix go l : Forall (fun e => P e.2) l :=
      match l with
      | [] => List.Forall_nil _
      | x :: l' => List.Forall_cons _ _ _ (json_ind' x.2) (go l')
      end) l)
  end.
End JsonInd.

(** ** Reading back *)

(** What may follow a value: the end of the text, a comma or a closer. *)
Definition stops (r : jsstring) : Prop :=
  match r with [] => True | c :: _ => c = 44 \/ c = 93 \/ c = 125 end.

(** A text that does not begin like a separator. *)
Definition begins (s : jsstring) : Prop :=
  forall r, exists c t, s ++ r = c :: t /\ c <> 44 /\ c <> 93 /\ c <> 125.

(** [f] writes [x] so that it can be told from what follows. *)
Definition readable {A} (f : A -> jsstring) (D : A -> Prop) (x : A) : Prop :=
  forall y r1 r2, D y -> stops r1 -> stops r2 -> f x ++ r1 = f y ++ r2 -> x = y /\ r1 = r2.

Lemma join_cons p ps : ps <> [] -> join (p :: ps) = p ++ 44 :: join ps.
Proof. by destruct ps. Qed.

Lemma join_begins p ps : begins p -> begins (join (p :: ps)).
Proof.
  intros Hp r. destruct ps as [|q ps]; [apply Hp|].
  rewrite join_cons, <- app_assoc by done. apply Hp.
Qed.

(** A list between closers is read element by element. *)
Lemma join_readable {A} (f : A -> jsstring) (D : A -> Prop) (l k : list A) c r1 r2 :
  (c = 93 \/ c = 125) -> (forall x, begins (f x)) ->
  Forall (readable f D) l -> Forall D k ->
  join (map f l) ++ c :: r1 = join (map f k) ++ c :: r2 -> l = k /\ r1 = r2.
Proof.
  intros Hc Hb Hl. revert k.
  assert (Hstop : forall r, stops (c :: r)) by (simpl; intuition).
  assert (Hno : forall x l r r', c :: r <> join (f x :: l) ++ r').
  { intros x l' r r' E. destruct (join_begins (f x) l' (Hb x) r') as (c' & t & E' & ?).
    rewrite E' in E. simplify_eq. lia. }
  induction Hl as [|x l Hx Hl IH]; intros [|y k] HD E; cbn [map] in E.
  - simpl in E. split; congruence.
  - by apply Hno in E.
  - symmetry in E. by apply Hno in E.
  - apply Forall_cons in HD as [HDy HDk]. destruct l as [|x' l], k as [|y' k]; cbn [map] in E.
    + apply Hx in E as [-> E]; auto. simplify_eq. done.
    + rewrite (join_cons (f y)), <- app_assoc in E by done.
      apply Hx in E as [-> E]; [|done|done|by left]. simplify_eq/=. lia.
    + rewrite (join_cons (f x)), <- app_assoc in E by done.
      apply Hx in E as [-> E]; [|done|by left|done]. simplify_eq/=. lia.
    + rewrite (join_cons (f x)), (join_cons (f y)), <- !app_assoc in E by done.
      apply Hx in E as [-> E]; [|done|by left|by left].
      cbn [app] in E. injection E as E.
      destruct (IH (y' :: k) HDk E) as [-> ->]. done.
Qed.

(** *** Numbers *)

Definition is_digit (c : Z) : Prop := 48 <= c <= 57.

Definition digits_value (l : jsstring) : Z := foldl (fun a c => 10 * a + (c - 48)) 0 l.

Lemma dec_digits_spec fuel z :
  0 <= z < 2 ^ (Z.of_nat fuel + 1) ->
  digits_value (dec_digits fuel z) = z /\ Forall is_digit (dec_digits fuel z)
  /\ dec_digits fuel z <> [].
Proof.
  revert z; induction fuel as [|fuel IH]; intros z Hz.
  { simpl in *. assert (z < 2) by lia. split_and!; [unfold digits_value; simpl; lia| |done].
    constructor; [unfold is_digit; lia|constructor]. }
  cbn [dec_digits]. destruct (Z.ltb_spec z 10).
  - split_and!; [unfold digits_value; simpl; lia| |done].
    constructor; [unfold is_digit; lia|constructor].
  - assert (H2 : 2 ^ (Z.of_nat (S fuel) + 1) = 2 * 2 ^ (Z.of_nat fuel + 1)).
    { rewrite <- Z.pow_succ_r by lia. f_equal. lia. }
    destruct (IH (z / 10)) as (Hv & Hd & _); [split; [apply Z.div_pos; lia|]|].
    { apply Z.div_lt_upper_bound; lia. }
    pose proof (Z.mod_pos_bound z 10 ltac:(lia)).
    split_and!.
    + unfold digits_value in *. rewrite foldl_app, Hv. simpl.
      pose proof (Z.div_mod z 10). lia.
    + apply Forall_app. split; [done|]. constructor; [unfold is_digit; lia|constructor].
    + by destruct (dec_digits fuel (z / 10)).
Qed.

Lemma dec_digits_log z :
  0 <= z -> let l := dec_digits (Z.to_nat (Z.log2 z)) z in
  digits_value l = z /\ Forall is_digit l /\ l <> [].
Proof.
  intros Hz. apply dec_digits_spec. split; [done|].
  rewrite Z2Nat.id by apply Z.log2_nonneg.
  destruct (Z.eq_dec z 0) as [->|]; [done|].
  rewrite Z.add_1_r. apply Z.log2_spec. lia.
Qed.

Lemma span_unique (P : Z -> Prop) (l k r1 r2 : jsstring) :
  Forall P l -> Forall P k ->
  match r1 with c :: _ => ~ P c | [] => True end ->
  match r2 with c :: _ => ~ P c | [] => True end ->
  l ++ r1 = k ++ r2 -> l = k /\ r1 = r2.
Proof.
  intros Hl. revert k. induction Hl as [|x l Hx Hl IH]; intros [|y k] Hk H1 H2 E; simpl in E.
  - done.
  - subst r1. by apply Forall_cons in Hk as [].
  - subst r2. done.
  - apply Forall_cons in Hk as [_ Hk]. injection E as -> E.
    destruct (IH k Hk H1 H2 E) as [-> ->]. done.
Qed.

Definition is_number_char (c : Z) : Prop := c = 45 \/ is_digit c.

Lemma stops_not_number r : stops r -> match r with c :: _ => ~ is_number_char c | [] => True end.
Proof. destruct r as [|c r]; [done|]. unfold is_number_char, is_digit. simpl. lia. Qed.

Lemma decimal_chars z : Forall is_number_char (decimal z) /\ decimal z <> [].
Proof.
  unfold decimal. destruct (Z.ltb_spec z 0).
  - destruct (dec_digits_log (- z)) as (_ & Hd & _); [lia|]. split; [|done].
    constructor; [by left|]. eapply Forall_impl; [exact Hd|]. by right.
  - destruct (dec_digits_log z) as (_ & Hd & Hn); [lia|]. split; [|done].
    eapply Forall_impl; [exact Hd|]. by right.
Qed.

Lemma decimal_inj : Inj (=) (=) decimal.
Proof.
  intros x y E. unfold decimal in E.
  destruct (Z.ltb_spec x 0), (Z.ltb_spec y 0).
  - injection E as E. destruct (dec_digits_log (- x)) as (Hx & _); [lia|].
    destruct (dec_digits_log (- y)) as (Hy & _); [lia|]. rewrite E in Hx. lia.
  - destruct (dec_digits_log y) as (_ & Hd & _); [lia|]. rewrite <- E in Hd.
    apply Forall_cons in Hd as [Hd _]. unfold is_digit in Hd. lia.
  - destruct (dec_digits_log x) as (_ & Hd & _); [lia|]. rewrite E in Hd.
    apply Forall_cons in Hd as [Hd _]. unfold is_digit in Hd. lia.
  - destruct (dec_digits_log x) as (Hx & _); [lia|].
    destruct (dec_digits_log y) as (Hy & _); [lia|]. rewrite E in Hx. lia.
Qed.

(** *** Strings *)

Lemma hex_digit_inj a b : 0 <= a < 16 -> 0 <= b < 16 -> hex_digit a = hex_digit b -> a = b.
Proof. unfold hex_digit. intros. destruct (Z.ltb_spec a 10), (Z.ltb_spec b 10); lia. Qed.

Lemma hex4_inj a b : 0 <= a < 65536 -> 0 <= b < 65536 -> hex4 a = hex4 b -> a = b.
Proof.
  intros Ha Hb E. unfold hex4 in E. injection E as E1 E2 E3 E4.
  apply hex_digit_inj in E1, E2, E3, E4; try (apply Z.mod_pos_bound; lia).
  zdiv_lia.
Qed.

(** The text of a character tells it from the text of any other. *)
Lemma quote_char_inj c d r1 r2 :
  0 <= c -> 0 <= d -> quote_char c ++ r1 = quote_char d ++ r2 -> c = d /\ r1 = r2.
Proof.
  intros Hc Hd.
  assert (Hu : forall x, 0 <= x -> (x <? 32) || is_surrogate x = true -> 0 <= x < 65536).
  { intros x Hx Hb. apply orb_true_iff in Hb as [Hb|Hb]; [lia|]. unfold is_surrogate in Hb. lia. }
  specialize (Hu c Hc) as Huc. specialize (Hu d Hd) as Hud. clear Hu.
  unfold quote_char.
  destruct (Z.eqb_spec c 34), (Z.eqb_spec c 92), (Z.eqb_spec c 8), (Z.eqb_spec c 9),
    (Z.eqb_spec c 10), (Z.eqb_spec c 12), (Z.eqb_spec c 13), ((c <? 32) || is_surrogate c);
    try lia;
  destruct (Z.eqb_spec d 34), (Z.eqb_spec d 92), (Z.eqb_spec d 8), (Z.eqb_spec d 9),
    (Z.eqb_spec d 10), (Z.eqb_spec d 12), (Z.eqb_spec d 13), ((d <? 32) || is_surrogate d);
    try lia; intros E; cbn [app] in E; try (injection E as E; try lia; subst; done);
    try (injection E; intros; lia).
  injection E as E1 E2 E3 E4 E5. split; [|done]. apply hex4_inj; [auto..|].
  unfold hex4. by rewrite E1, E2, E3, E4.
Qed.

Lemma quote_char_head c r : 0 <= c -> exists h t, quote_char c ++ r = h :: t /\ h <> 34.
Proof.
  intros Hc. unfold quote_char.
  repeat match goal with |- context [c =? ?x] => destruct (Z.eqb_spec c x);
    [eexists _, _; split; [reflexivity|lia]|] end.
  destruct (_ || _); eexists _, _; (split; [reflexivity|lia]).
Qed.

Lemma quote_body_inj s1 s2 r1 r2 :
  text_wf s1 -> text_wf s2 ->
  mbind quote_char s1 ++ 34 :: r1 = mbind quote_char s2 ++ 34 :: r2 -> s1 = s2 /\ r1 = r2.
Proof.
  intros H1. revert s2. induction H1 as [|c s1 Hc H1 IH]; intros s2 H2 E.
  - destruct s2 as [|d s2]; [simpl in E; split; congruence|].
    apply Forall_cons in H2 as [Hd _]. csimpl in E. rewrite <- app_assoc in E.
    destruct (quote_char_head d (mbind quote_char s2 ++ 34 :: r2) Hd) as (h & t & Eh & Hn).
    rewrite Eh in E. simplify_eq.
  - destruct s2 as [|d s2].
    + csimpl in E. rewrite <- app_assoc in E.
      destruct (quote_char_head c (mbind quote_char s1 ++ 34 :: r1) Hc) as (h & t & Eh & Hn).
      rewrite Eh in E. simplify_eq.
    + apply Forall_cons in H2 as [Hd H2]. csimpl in E. rewrite <- !app_assoc in E.
      apply quote_char_inj in E as [-> E]; [|done|done].
      apply IH in E as [-> ->]; done.
Qed.

Lemma quote_inj s1 s2 r1 r2 :
  text_wf s1 -> text_wf s2 -> quote s1 ++ r1 = quote s2 ++ r2 -> s1 = s2 /\ r1 = r2.
Proof.
  intros H1 H2 E. unfold quote in E. cbn [app] in E. rewrite <- !app_assoc in E. injection E as E.
  by apply quote_body_inj in E.
Qed.

(** *** Documents *)

Lemma stringify_entry_readable (e : jsstring * json) :
  text_wf e.1 -> readable stringify json_wf e.2 ->
  readable (fun e => quote e.1 ++ 58 :: stringify e.2)
    (fun e => text_wf e.1 /\ json_wf e.2) e.
Proof.
  intros He Hv [k v] r1 r2 [Hk Hw] Hr1 Hr2 E. destruct e as [k0 v0]. cbn [fst snd] in *.
  rewrite <- !app_assoc in E. apply quote_inj in E as [-> E]; [|done..].
  injection E as E. apply Hv in E as [-> ->]; done.
Qed.

(** The first character of a value tells its kind. *)
Inductive kind := KNull | KTrue | KFalse | KNum | KStr | KArr | KObj.

Definition kind_of (j : json) : kind :=
  match j with
  | JNull => KNull | JBool b => if b then KTrue else KFalse | JNum _ => KNum
  | JStr _ => KStr | JArr _ => KArr | JObj _ => KObj
  end.

Definition head_kind (c : Z) : kind :=
  if c =? 110 then KNull else if c =? 116 then KTrue else if c =? 102 then KFalse
  else if c =? 34 then KStr else if c =? 91 then KArr else if c =? 123 then KObj else KNum.

Lemma stringify_head j r :
  exists c t, stringify j ++ r = c :: t /\ head_kind c = kind_of j
  /\ c <> 44 /\ c <> 93 /\ c <> 125.
Proof.
  destruct j as [|[]|z|s|l|l];
    try (eexists _, _; split_and!; [reflexivity|reflexivity|discriminate..]).
  destruct (decimal_chars z) as [Hd Hn]. simpl.
  destruct (decimal z) as [|c t]; [done|]. exists c. eexists. split; [reflexivity|].
  apply Forall_cons in Hd as [Hc _]. unfold is_number_char, is_digit in Hc.
  split; [|lia]. unfold head_kind.
  repeat match goal with |- context [c =? ?x] => destruct (Z.eqb_spec c x); [lia|] end. done.
Qed.

Lemma stringify_begins j : begins (stringify j).
Proof. intros r. destruct (stringify_head j r) as (c & t & ? & _ & ?). eauto. Qed.

Lemma entry_begins (e : jsstring * json) : begins (quote e.1 ++ 58 :: stringify e.2).
Proof. intros r. exists 34. eexists. split_and!; [reflexivity|lia..]. Qed.

(** The text of a well-formed document can be told from what follows it. *)
Lemma stringify_readable j : json_wf j -> readable stringify json_wf j.
Proof.
  induction j as [|b|z|s|l IH|l IH] using json_ind'; intros Hj y r1 r2 Hy Hr1 Hr2 E;
    match type of E with stringify ?x ++ _ = _ =>
      destruct (stringify_head x r1) as (c1 & t1 & E1 & K1 & _);
      destruct (stringify_head y r2) as (c2 & t2 & E2 & K2 & _);
      assert (K : kind_of x = kind_of y) by (rewrite <- K1, <- K2; congruence);
      clear c1 t1 E1 K1 c2 t2 E2 K2
    end.
  - destruct y as [|[]| | | |]; try done. simpl in E. split; congruence.
  - destruct y as [|[]| | | |], b; try done; simpl in E; split; congruence.
  - destruct y as [|[]|z'| | |]; try done. simpl in E.
    apply (span_unique is_number_char) in E as [E ->];
      [|apply decimal_chars|apply decimal_chars|by apply stops_not_number|by apply stops_not_number].
    apply decimal_inj in E as ->. done.
  - destruct y as [|[]| |s'| |]; try done. apply quote_inj in E as [-> ->]; done.
  - destruct y as [|[]| | |k|]; try done. simpl in Hj, Hy. rewrite foldr_Forall in Hj, Hy.
    simpl in E. unfold brackets in E. cbn [app] in E. rewrite <- !app_assoc in E. injection E as E.
    apply (join_readable stringify json_wf) in E as [-> ->]; [done|by left|apply stringify_begins| |done].
    rewrite Forall_forall in *. auto.
  - destruct y as [|[]| | | |k]; try done. simpl in Hj, Hy.
    rewrite (foldr_Forall (fun e => text_wf e.1 /\ json_wf e.2)) in Hj, Hy.
    simpl in E. unfold braces in E. cbn [app] in E. rewrite !map_map, <- !app_assoc in E.
    cbn [fst snd] in E. injection E as E.
    apply (join_readable _ (fun e => text_wf e.1 /\ json_wf e.2)) in E as [-> ->];
      [done|by right|apply entry_begins| |done].
    rewrite Forall_forall in *. intros e He. destruct (Hj e He).
    apply stringify_entry_readable; auto.
Qed.

Lemma stringify_inj j k : json_wf j -> json_wf k -> stringify j = stringify k -> j = k.
Proof.
  intros Hj Hk E. apply (stringify_readable j Hj k [] []); [done|done|done|].
  by rewrite !app_nil_r.
Qed.

(** ["a:b:c"], as the error texts are built. *)
Fixpoint colon (code : jsstring) (ns : list Z) : jsstring :=
  match ns with [] => code | n :: ns' => colon (code ++ 58 :: decimal n) ns' end.
