(* ===== verification/CanonicalJson.v ===== *)
(** * Canonical evidence JSON

    [canonicalEvidenceJson] and [sha256CanonicalEvidence] of
    [src/src/core/json.ts], on which every content-addressed record of the
    program rests.

    A JavaScript value is a primitive or a reference into a [heap] of arrays and
    objects, so that sharing and cycles are possible; [render] walks it with the
    set of its ancestors, as the code does.  Of the finite numbers the model has the
    integers below 10^21, which print in decimal ([value_wf]). *)

From Stdlib Require Import Sorted.
From S2P Require Import Prelude JsString JsSort JsonText.

#[local] Open Scope Z_scope.

(** ** Values *)

Inductive jvalue :=
| VNull
| VBool (b : bool)
| VNumber (z : Z)
| VNonFinite                       (* NaN and the infinities *)
| VString (s : jsstring)
| VOther (typeof : string)         (* undefined, function, symbol, bigint *)
| VRef (r : nat).

(** An own element of an array: stored, or computed by a getter. *)
Inductive element := EData (v : jvalue) | EAccessor (v : jvalue).
Definition element_value (e : element) : jvalue :=
  match e with EData v | EAccessor v => v end.

(** An own property of an object: an enumerable data property, or any other. *)
Inductive property := PData (v : jvalue) | POther.

(** An own key. *)
Inductive key := KString (s : jsstring) | KSymbol.

(** [OArray keys items]: the elements ([None] is a hole) and the own keys that
    are neither an index below the length nor "length".  [OObject plain symbols
    props]: whether the prototype is [Object.prototype] or null, whether there is
    a symbol key, and the string-keyed own properties. *)
Inductive jobject :=
| OArray (keys : list key) (items : list (option element))
| OObject (plain symbols : bool) (props : list (jsstring * property)).

Abbreviation jheap := (list jobject) (only parsing).

Inductive cej_error :=
| NonFiniteNumber (path : jsstring)
| UnsupportedValue (path : jsstring) (typeof : string)
| Cycle (path : jsstring)
| ArrayProperty (path : jsstring)
| SparseArray (path : jsstring)
| NonPlainObject (path : jsstring)
| SymbolKey (path : jsstring)
| NonDataProperty (path : jsstring).

Inductive outcome (A : Type) := Done (a : A) | Throw (e : cej_error) | Stuck.
Arguments Done {A} a.
Arguments Throw {A} e.
Arguments Stuck {A}.

Definition then_ {A B} (o : outcome A) (k : A -> outcome B) : outcome B :=
  match o with Done a => k a | Throw e => Throw e | Stuck => Stuck end.

(** ** The order of keys *)

(** The UTF-16 code units of a string. *)
Definition utf16 (s : jsstring) : list Z :=
  mbind (fun c => if 65536 <=? c
    then [55296 + Z.shiftr (c - 65536) 10; 56320 + Z.land (c - 65536) 1023] else [c]) s.

Fixpoint units_lt (a b : list Z) : bool :=
  match a, b with
  | _, [] => false
  | [], _ :: _ => true
  | x :: a', y :: b' => (x <? y) || ((x =? y) && units_lt a' b')
  end.

Definition compareUtf16Ordinal (left right : jsstring) : Z :=
  if units_lt (utf16 left) (utf16 right) then -1
  else if units_lt (utf16 right) (utf16 left) then 1 else 0.

Definition key_before {A} (x y : jsstring * A) : bool := compareUtf16Ordinal x.1 y.1 <=? 0.

(** ** Rendering *)

(** The test of the own keys of an array: 0, or digits that do not start with 0. *)
Definition is_index_key (s : jsstring) : bool :=
  match s with
  | [] => false
  | [48] => true
  | c :: s' => (49 <=? c) && (c <=? 57) && forallb (fun d => (48 <=? d) && (d <=? 57)) s'
  end.

Definition bad_array_key (k : key) : bool :=
  match k with KString s => negb (is_index_key s) | KSymbol => true end.

Definition at_index (path : jsstring) (i : Z) : jsstring := path ++ 91 :: decimal i ++ [93].
Definition at_key (path key : jsstring) : jsstring := path ++ 46 :: key.

(** The loop over the elements of an array. *)
Fixpoint render_items (f : jvalue -> jsstring -> outcome jsstring) (path : jsstring) (i : Z)
    (items : list (option element)) : outcome (list jsstring) :=
  match items with
  | [] => Done []
  | None :: _ => Throw (SparseArray (at_index path i))
  | Some e :: rest =>
      then_ (f (element_value e) (at_index path i)) (fun t =>
      then_ (render_items f path (i + 1) rest) (fun ts => Done (t :: ts)))
  end.

(** The map over the sorted keys of an object. *)
Fixpoint render_props (f : jvalue -> jsstring -> outcome jsstring) (path : jsstring)
    (props : list (jsstring * property)) : outcome (list (jsstring * jsstring)) :=
  match props with
  | [] => Done []
  | (k, POther) :: _ => Throw (NonDataProperty (at_key path k))
  | (k, PData v) :: rest =>
      then_ (f v (at_key path k)) (fun t =>
      then_ (render_props f path rest) (fun ts => Done ((k, t) :: ts)))
  end.

(** [fuel] bounds the depth of the walk. *)
Fixpoint renderCanonicalEvidence (fuel : nat) (h : jheap) (value : jvalue) (path : jsstring)
    (ancestors : list nat) : outcome jsstring :=
  match value with
  | VNull => Done (stringify JNull)
  | VString s => Done (stringify (JStr s))
  | VBool b => Done (stringify (JBool b))
  | VNumber z => Done (stringify (JNum z))
  | VNonFinite => Throw (NonFiniteNumber path)
  | VOther typeof => Throw (UnsupportedValue path typeof)
  | VRef r =>
      if bool_decide (r ∈ ancestors) then Throw (Cycle path)
      else match fuel with
      | O => Stuck
      | S fuel' =>
        let go v p := renderCanonicalEvidence fuel' h v p (r :: ancestors) in
        match h !! r with
        | None => Stuck
        | Some (OArray keys items) =>
            if existsb bad_array_key keys then Throw (ArrayProperty path)
            else then_ (render_items go path 0 items) (fun ts => Done (brackets ts))
        | Some (OObject plain symbols props) =>
            if negb plain then Throw (NonPlainObject path)
            else if symbols then Throw (SymbolKey path)
            else then_ (render_props go path (sort_by key_before props))
                   (fun ts => Done (braces ts))
        end
      end
  end.

Definition canonicalEvidenceJson (h : jheap) (value : jvalue) : outcome jsstring :=
  renderCanonicalEvidence (S (length h)) h value (js "$") [].

(** ** The document a value stands for *)

(** The document with the keys of every object sorted. *)
Fixpoint canon (j : json) : json :=
  match j with
  | JArr l => JArr (map canon l)
  | JObj l => JObj (sort_by key_before (map (fun e => (e.1, canon e.2)) l))
  | _ => j
  end.

(** The text of a document. *)
Definition evidence_text (j : json) : jsstring := stringify (canon j).

Section Digest.
(** [createHash("sha256").update(text).digest("hex")], of Node. *)
Context (sha256_hex : bytes -> jsstring).

Definition sha256Text (value : jsstring) : jsstring :=
  js "sha256:" ++ sha256_hex (utf8_encode value).

Definition sha256CanonicalEvidence (h : jheap) (value : jvalue) : outcome jsstring :=
  then_ (canonicalEvidenceJson h value) (fun text => Done (sha256Text text)).

(** The digest of a document that is built where it is hashed. *)
Definition digest (j : json) : jsstring := sha256Text (evidence_text j).
End Digest.

(** What the walk reads: [value] is the root of a finite tree, [j] is that tree.  An
    array may have elements computed by a getter, and keys that look like an index: the
    code does not tell them from plain data. *)
Inductive reads (h : jheap) : jvalue -> json -> Prop :=
| rd_null : reads h VNull JNull
| rd_bool b : reads h (VBool b) (JBool b)
| rd_number z : reads h (VNumber z) (JNum z)
| rd_string s : reads h (VString s) (JStr s)
| rd_array r keys items js :
    h !! r = Some (OArray keys items) -> existsb bad_array_key keys = false ->
    Forall2 (fun i j => exists e, i = Some e /\ reads h (element_value e) j) items js ->
    reads h (VRef r) (JArr js)
| rd_object r props kvs :
    h !! r = Some (OObject true false props) ->
    Forall2 (fun p e => p.1 = e.1 /\ exists v, p.2 = PData v /\ reads h v e.2) props kvs ->
    reads h (VRef r) (JObj kvs).

(** ** The document, apart from the code *)

(** [value] is the root of a finite tree of plain data, and [j] is that tree: stored
    elements and enumerable data properties only, and no own key of an array but its
    indices and its length. *)
Inductive denotes (h : jheap) : jvalue -> json -> Prop :=
| den_null : denotes h VNull JNull
| den_bool b : denotes h (VBool b) (JBool b)
| den_number z : denotes h (VNumber z) (JNum z)
| den_string s : denotes h (VString s) (JStr s)
| den_array r items js :
    h !! r = Some (OArray [] items) ->
    Forall2 (fun i j => exists v, i = Some (EData v) /\ denotes h v j) items js ->
    denotes h (VRef r) (JArr js)
| den_object r props kvs :
    h !! r = Some (OObject true false props) ->
    Forall2 (fun p e => p.1 = e.1 /\ exists v, p.2 = PData v /\ denotes h v e.2) props kvs ->
    denotes h (VRef r) (JObj kvs).

(** The same document up to the order in which the keys of its objects are listed. *)
Inductive same_data : json -> json -> Prop :=
| sd_null : same_data JNull JNull
| sd_bool b : same_data (JBool b) (JBool b)
| sd_number z : same_data (JNum z) (JNum z)
| sd_string s : same_data (JStr s) (JStr s)
| sd_array l k : Forall2 same_data l k -> same_data (JArr l) (JArr k)
| sd_object l k k' :
    k' ≡ₚ k -> Forall2 (fun x y => x.1 = y.1 /\ same_data x.2 y.2) l k' -> same_data (JObj l) (JObj k).

(** The order of strings of ECMAScript: by the first code unit in which they differ, a
    prefix first. *)
Definition ordinal_lt (s t : jsstring) : Prop :=
  (exists c rest, utf16 t = utf16 s ++ c :: rest)
  \/ (exists common x y s' t', utf16 s = common ++ x :: s' /\ utf16 t = common ++ y :: t' /\ x < y).

(** In every object the keys are listed in increasing order. *)
Fixpoint keys_sorted (j : json) : Prop :=
  match j with
  | JArr l => foldr (fun j P => keys_sorted j /\ P) True l
  | JObj l => StronglySorted ordinal_lt l.*1 /\ foldr (fun e P => keys_sorted e.2 /\ P) True l
  | _ => True
  end.

(** No two keys of an object are equal. *)
Fixpoint keys_distinct (j : json) : Prop :=
  match j with
  | JArr l => foldr (fun j P => keys_distinct j /\ P) True l
  | JObj l => NoDup (map (fun e => utf16 e.1) l) /\ foldr (fun e P => keys_distinct e.2 /\ P) True l
  | _ => True
  end.

(** What JavaScript guarantees of a heap, and the range of numbers of the model. *)
Definition value_wf (v : jvalue) : Prop :=
  match v with VNumber z => Z.abs z < 10 ^ 21 | _ => True end.

Definition object_wf (o : jobject) : Prop :=
  match o with
  | OArray _ items => Forall (fun i => match i with Some e => value_wf (element_value e) | None => True end) items
  | OObject _ _ props =>
      NoDup (map (fun p => utf16 p.1) props)
      /\ Forall (fun p => match p.2 with PData v => value_wf v | POther => True end) props
  end.

Definition heap_wf (h : jheap) : Prop := Forall object_wf h.

(** The arrays of the heap have no getters, and no own keys that look like an index but
    are none (any other key may be there). *)
Definition plain_arrays (h : jheap) : Prop :=
  Forall (fun o => match o with
    | OArray keys items =>
        Forall (fun k => bad_array_key k = true) keys
        /\ Forall (fun i => match i with Some (EAccessor _) => False | _ => True end) items
    | OObject _ _ _ => True
    end) h.

(** ** Lemmas on the text of documents *)

Lemma key_before_map {A B} (f : A -> B) (x y : jsstring * A) :
  key_before (x.1, f x.2) (y.1, f y.2) = key_before x y.
Proof. done. Qed.

Lemma evidence_text_arr l : evidence_text (JArr l) = brackets (map evidence_text l).
Proof. unfold evidence_text. simpl. by rewrite map_map. Qed.

Lemma evidence_text_obj l :
  evidence_text (JObj l)
  = braces (map (fun e => (e.1, evidence_text e.2)) (sort_by key_before l)).
Proof.
  unfold evidence_text. simpl. f_equal.
  rewrite (sort_by_fmap (fun e : jsstring * json => (e.1, canon e.2)) key_before) by done.
  by rewrite map_map.
Qed.

Fixpoint jsize (j : json) : nat :=
  match j with
  | JArr l => S (sum_list_with jsize l)
  | JObj l => S (sum_list_with (fun e => jsize e.2) l)
  | _ => 1
  end.

Lemma sum_list_with_elem {A} (f : A -> nat) (l : list A) x : x ∈ l -> (f x <= sum_list_with f l)%nat.
Proof. induction 1 as [|x y l _ IH]; simpl; lia. Qed.

Lemma Forall2_insert_by {A B} (R : A -> B -> Prop) bA bB x y l k :
  (forall a a' c c', R a a' -> R c c' -> bA a c = bB a' c') ->
  R x y -> Forall2 R l k -> Forall2 R (insert_by bA x l) (insert_by bB y k).
Proof.
  intros Hb Hxy Hlk. induction Hlk as [|a b l k Hab Hlk IH]; simpl; [by repeat constructor|].
  rewrite (Hb x y a b) by done. by destruct (bB y b); repeat constructor.
Qed.

Lemma Forall2_sort_by {A B} (R : A -> B -> Prop) bA bB l k :
  (forall a a' c c', R a a' -> R c c' -> bA a c = bB a' c') ->
  Forall2 R l k -> Forall2 R (sort_by bA l) (sort_by bB k).
Proof.
  intros Hb. induction 1 as [|a b l k Hab Hlk IH]; simpl; [constructor|].
  by apply Forall2_insert_by.
Qed.

Lemma Forall2_choose {A B} (R : A -> B -> Prop) l :
  Forall (fun a => exists b, R a b) l -> exists k, Forall2 R l k.
Proof.
  induction 1 as [|a l [b Hb] _ [k Hk]]; [by exists []|]. exists (b :: k). by constructor.
Qed.

Lemma Forall2_det {A B} (R : A -> B -> Prop) l k k' :
  Forall2 R l k -> Forall (fun b => forall a b', R a b -> R a b' -> b = b') k ->
  Forall2 R l k' -> k = k'.
Proof.
  intros H. revert k'. induction H as [|a b l k Hab Hlk IH]; intros k' Hd H';
    inversion H' as [|? b' ? ? Hab' Hlk']; [done|]; subst.
  apply Forall_cons in Hd as [Hd Hd']. f_equal; eauto.
Qed.

(** ** Rendering agrees with the document *)

(** How the properties of an object denote its entries. *)
Definition prop_reads (h : jheap) (p : jsstring * property) (e : jsstring * json) : Prop :=
  p.1 = e.1 /\ exists v, p.2 = PData v /\ reads h v e.2.
Definition item_reads (h : jheap) (i : option element) (j : json) : Prop :=
  exists e, i = Some e /\ reads h (element_value e) j.

Lemma prop_reads_keys h a a' c c' :
  prop_reads h a a' -> prop_reads h c c' -> key_before a c = key_before a' c'.
Proof. intros [E1 _] [E2 _]. unfold key_before. by rewrite E1, E2. Qed.

Lemma reads_det h v j : forall j', reads h v j -> reads h v j' -> j = j'.
Proof.
  revert v. induction j as [|b|z|s|l IH|l IH] using json_ind'; intros v j' H1 H2.
  1-4: inversion H1; subst; by inversion H2.
  - inversion H1 as [| | | |r keys items js' Hr _ Hi|]; subst.
    inversion H2 as [| | | |? ? ? js' Hr' _ Hi'|? ? ? Hr' Hi']; subst; [|congruence].
    f_equal. simplify_eq. eapply Forall2_det; [exact Hi| |exact Hi'].
    eapply Forall_impl; [exact IH|]. simpl. intros j Hj i j' (e & -> & He) (e' & ? & He').
    simplify_eq. eauto.
  - inversion H1 as [| | | | |r props kvs Hr Hi]; subst.
    inversion H2 as [| | | |? ? ? js' Hr' _ Hi'|? ? kvs' Hr' Hi']; subst; [congruence|].
    f_equal. simplify_eq. eapply Forall2_det; [exact Hi| |exact Hi'].
    eapply Forall_impl; [exact IH|]. simpl.
    intros [k j] Hj [k0 p] [k' j'] (? & v & ? & Hv) (? & v' & ? & Hv'). simpl in *. simplify_eq.
    f_equal. eauto.
Qed.

(** The entries of an object, from those of its sorted properties. *)
Lemma sorted_entries h props kvs' :
  Forall2 (prop_reads h) (sort_by key_before props) kvs' ->
  exists kvs, Forall2 (prop_reads h) props kvs /\ sort_by key_before kvs = kvs'.
Proof.
  intros H. destruct (Forall2_choose (prop_reads h) props) as [kvs Hk].
  { rewrite <- (sort_by_perm key_before props). eapply Forall2_Forall_l; [exact H|].
    apply Forall_forall. eauto. }
  exists kvs. split; [done|].
  eapply Forall2_det; [|apply Forall_forall|exact H].
  - apply Forall2_sort_by; [apply prop_reads_keys|exact Hk].
  - intros [k j] _ [k0 p] [k' j'] (? & v & ? & Hv) (? & v' & ? & Hv'). simpl in *. simplify_eq.
    f_equal. by eapply reads_det.
Qed.

Lemma render_items_sound h go path i items ts :
  (forall v p t, go v p = Done t -> exists j, reads h v j /\ t = evidence_text j) ->
  render_items go path i items = Done ts ->
  exists js, Forall2 (item_reads h) items js /\ ts = map evidence_text js.
Proof.
  intros Hgo. revert i ts. induction items as [|[e|] items IH]; intros i ts E; simpl in E; [|
    |discriminate].
  - injection E as <-. by exists [].
  - unfold then_ in E. destruct (go _ _) as [t| |] eqn:Et; try discriminate.
    destruct (render_items _ _ _ _) as [ts'| |] eqn:Ets; try discriminate. injection E as <-.
    destruct (Hgo _ _ _ Et) as (j & Hj & ->), (IH _ _ Ets) as (l & Hl & ->).
    exists (j :: l). split; [|done]. constructor; [by exists e|done].
Qed.

Lemma render_props_sound h go path props ts :
  (forall v p t, go v p = Done t -> exists j, reads h v j /\ t = evidence_text j) ->
  render_props go path props = Done ts ->
  exists kvs, Forall2 (prop_reads h) props kvs
    /\ ts = map (fun e => (e.1, evidence_text e.2)) kvs.
Proof.
  intros Hgo. revert ts. induction props as [|[k [v|]] props IH]; intros ts E; simpl in E; [|
    |discriminate].
  - injection E as <-. by exists [].
  - unfold then_ in E. destruct (go _ _) as [t| |] eqn:Et; try discriminate.
    destruct (render_props _ _ _) as [ts'| |] eqn:Ets; try discriminate. injection E as <-.
    destruct (Hgo _ _ _ Et) as (j & Hj & ->), (IH _ eq_refl) as (l & Hl & ->).
    exists ((k, j) :: l). split; [|done]. constructor; [|done]. split; [done|]. by exists v.
Qed.

Lemma render_sound fuel h v path anc t :
  renderCanonicalEvidence fuel h v path anc = Done t ->
  exists j, reads h v j /\ t = evidence_text j.
Proof.
  revert v path anc t. induction fuel as [|fuel IH]; intros v path anc t E;
    destruct v as [|b|z| |s|ty|r]; simpl in E; try discriminate;
    try (injection E as <-; eexists; split; [constructor|done]).
  - by destruct (bool_decide _).
  - destruct (bool_decide _); [discriminate|].
    destruct (h !! r) as [[keys items|plain symbols props]|] eqn:Hr; [| |discriminate].
    + destruct (existsb _ _) eqn:Hk; [discriminate|].
      unfold then_ in E. destruct (render_items _ _ _ _) as [ts| |] eqn:Ets; try discriminate.
      injection E as <-. apply (render_items_sound h) in Ets as (l & Hl & ->); [|by eauto].
      exists (JArr l). split; [by econstructor|]. by rewrite evidence_text_arr.
    + destruct plain; [|discriminate]. destruct symbols; [discriminate|]. simpl in E.
      unfold then_ in E. destruct (render_props _ _ _) as [ts| |] eqn:Ets; try discriminate.
      injection E as <-. apply (render_props_sound h) in Ets as (l & Hl & ->); [|by eauto].
      apply sorted_entries in Hl as (kvs & Hkvs & <-).
      exists (JObj kvs). split; [by econstructor|]. by rewrite evidence_text_obj.
Qed.

(** [anc] can be the ancestors of a value rendered with [fuel]. *)
Definition fuelled (h : jheap) (fuel : nat) (anc : list nat) : Prop :=
  NoDup anc /\ Forall (fun a => (a < length h)%nat) anc /\ (length h < fuel + length anc)%nat.

Lemma fuelled_step h fuel anc r :
  fuelled h fuel anc -> r ∉ anc -> (r < length h)%nat ->
  exists fuel', fuel = S fuel' /\ fuelled h fuel' (r :: anc).
Proof.
  intros (Hn & Ha & Hf) Hr Hlt.
  assert (Hlen : (length (r :: anc) <= length (seq 0 (length h)))%nat).
  { apply submseteq_length, NoDup_submseteq; [by constructor|].
    intros a Hin. apply elem_of_seq. rewrite elem_of_cons, Forall_forall in *.
    destruct Hin as [->|Hin]; [lia|]. specialize (Ha a Hin). lia. }
  rewrite length_seq in Hlen. simpl in Hlen.
  destruct fuel as [|fuel]; [lia|]. exists fuel. split; [done|]. split_and!.
  - by constructor.
  - by constructor.
  - simpl. lia.
Qed.

Lemma render_items_complete h go path i items l :
  Forall2 (item_reads h) items l ->
  Forall (fun j => forall v p, reads h v j -> go v p = Done (evidence_text j)) l ->
  render_items go path i items = Done (map evidence_text l).
Proof.
  intros H. revert i. induction H as [|it j items l (e & -> & He) _ IH]; intros i Hl; [done|].
  apply Forall_cons in Hl as [Hj Hl]. simpl. rewrite Hj by done. simpl. by rewrite IH.
Qed.

Lemma render_props_complete h go path props l :
  Forall2 (prop_reads h) props l ->
  Forall (fun e => forall v p, reads h v e.2 -> go v p = Done (evidence_text e.2)) l ->
  render_props go path props = Done (map (fun e => (e.1, evidence_text e.2)) l).
Proof.
  induction 1 as [|[k p] [k' j] props l (E & v & Ep & He) _ IH]; intros Hl; [done|].
  apply Forall_cons in Hl as [Hj Hl]. simpl in *. subst. rewrite Hj by done. simpl.
  by rewrite IH.
Qed.

(** Every ancestor reads a larger document. *)
Definition above (h : jheap) (j : json) (anc : list nat) : Prop :=
  Forall (fun a => exists ja, reads h (VRef a) ja /\ (jsize j < jsize ja)%nat) anc.

Lemma above_not_elem h j r anc : reads h (VRef r) j -> above h j anc -> r ∉ anc.
Proof.
  intros Hd Ha Hin. unfold above in Ha. rewrite Forall_forall in Ha.
  destruct (Ha r Hin) as (ja & Hja & Hlt).
  rewrite (reads_det _ _ _ _ Hd Hja) in Hlt. lia.
Qed.

Lemma above_child h j j' r anc :
  reads h (VRef r) j -> above h j anc -> (jsize j' < jsize j)%nat -> above h j' (r :: anc).
Proof.
  intros Hd Ha Hlt. constructor; [by exists j|].
  eapply Forall_impl; [exact Ha|]. simpl. intros a (ja & ? & ?). exists ja. split; [done|lia].
Qed.

Lemma render_complete h j fuel v path anc :
  reads h v j -> fuelled h fuel anc -> above h j anc ->
  renderCanonicalEvidence fuel h v path anc = Done (evidence_text j).
Proof.
  revert fuel v path anc.
  induction j as [|b|z|s|l IH|l IH] using json_ind'; intros fuel v path anc Hd Hf Ha.
  1-4: inversion Hd; subst; destruct fuel; reflexivity.
  - inversion Hd as [| | | |r keys items js' Hr Hk Hi|]; subst.
    pose proof (above_not_elem _ _ _ _ Hd Ha) as Hn.
    destruct (fuelled_step _ _ _ r Hf Hn) as (fuel' & -> & Hf'); [by eapply lookup_lt_Some|].
    simpl. rewrite bool_decide_eq_false_2, Hr, Hk by done.
    rewrite (render_items_complete h _ path 0 items l Hi).
    + simpl. by rewrite evidence_text_arr.
    + rewrite Forall_forall in *. intros j Hj v p Hv. apply IH; try done.
      eapply above_child; [done|done|]. simpl. pose proof (sum_list_with_elem jsize l j Hj). lia.
  - inversion Hd as [| | | | |r props kvs Hr Hi]; subst.
    pose proof (above_not_elem _ _ _ _ Hd Ha) as Hn.
    destruct (fuelled_step _ _ _ r Hf Hn) as (fuel' & -> & Hf'); [by eapply lookup_lt_Some|].
    simpl. rewrite bool_decide_eq_false_2, Hr by done. simpl.
    rewrite (render_props_complete h _ path (sort_by key_before props) (sort_by key_before l)).
    + simpl. by rewrite evidence_text_obj.
    + apply Forall2_sort_by; [apply prop_reads_keys|exact Hi].
    + rewrite (sort_by_perm key_before l), Forall_forall in *. intros e He v p Hv.
      apply IH; try done. eapply above_child; [done|done|]. simpl.
      pose proof (sum_list_with_elem (fun e => jsize e.2) l e He). simpl in *. lia.
Qed.

(** ** Termination *)

Definition ref_ok (h : jheap) (v : jvalue) : Prop :=
  match v with VRef r => (r < length h)%nat | _ => True end.

Definition object_refs (o : jobject) : list jvalue :=
  match o with
  | OArray _ items => omap (fmap element_value) items
  | OObject _ _ props => omap (fun p => match p.2 with PData v => Some v | POther => None end) props
  end.

(** Every reference of the heap leads to an object. *)
Definition heap_ok (h : jheap) : Prop :=
  Forall (fun o => Forall (ref_ok h) (object_refs o)) h.

Lemma render_items_not_stuck h go path i items :
  (forall v p, ref_ok h v -> go v p <> Stuck) ->
  Forall (ref_ok h) (object_refs (OArray [] items)) ->
  render_items go path i items <> Stuck.
Proof.
  intros Hgo. simpl. revert i. induction items as [|[e|] items IH]; intros i H; simpl; [done| |done].
  csimpl in H. apply Forall_cons in H as [He H]. unfold then_.
  destruct (go _ _) eqn:E; [|done|by apply Hgo in E].
  specialize (IH (i + 1) H). by destruct (render_items _ _ _ _).
Qed.

Lemma render_props_not_stuck h go path props :
  (forall v p, ref_ok h v -> go v p <> Stuck) ->
  Forall (ref_ok h) (object_refs (OObject true false props)) ->
  render_props go path props <> Stuck.
Proof.
  intros Hgo. simpl. induction props as [|[k [v|]] props IH]; intros H; simpl; [done| |done].
  csimpl in H. apply Forall_cons in H as [He H]. unfold then_.
  destruct (go _ _) eqn:E; [|done|by apply Hgo in E].
  specialize (IH H). by destruct (render_props _ _ _).
Qed.

Lemma render_not_stuck h fuel v path anc :
  heap_ok h -> ref_ok h v -> fuelled h fuel anc ->
  renderCanonicalEvidence fuel h v path anc <> Stuck.
Proof.
  intros Hh. revert v path anc. induction fuel as [|fuel IH]; intros v path anc Hv Hf;
    destruct v as [|b|z| |s|ty|r]; simpl; try done; simpl in Hv; case_bool_decide as Hin; try done.
  - by destruct (fuelled_step _ _ _ r Hf Hin Hv) as (? & ? & _).
  - destruct (fuelled_step _ _ _ r Hf Hin Hv) as (? & [= <-] & Hf').
    destruct (lookup_lt_is_Some_2 _ _ Hv) as [o Ho]. rewrite Ho.
    assert (Hrefs : Forall (ref_ok h) (object_refs o))
      by (by eapply (Forall_lookup_1 _ _ _ _ Hh Ho)).
    destruct o as [keys items|plain symbols props].
    + destruct (existsb _ _); [done|]. unfold then_.
      destruct (render_items _ _ _ _) eqn:E; [done|done|]. exfalso. revert E.
      apply (render_items_not_stuck h); auto.
    + destruct plain; [|done]. destruct symbols; [done|]. simpl. unfold then_.
      destruct (render_props _ _ _) eqn:E; [done|done|]. exfalso. revert E.
      apply (render_props_not_stuck h); [auto|]. simpl in *.
      by rewrite (sort_by_perm key_before props).
Qed.

(** ** The order of keys is total *)

Lemma units_lt_irrefl a : units_lt a a = false.
Proof. induction a as [|x a IH]; simpl; [done|]. by rewrite Z.ltb_irrefl, Z.eqb_refl, IH. Qed.

Lemma units_lt_trans a b c : units_lt a b = true -> units_lt b c = true -> units_lt a c = true.
Proof.
  revert b c; induction a as [|x a IH]; intros [|y b] [|z c]; simpl; try done.
  rewrite !orb_true_iff, !andb_true_iff, !Z.ltb_lt, !Z.eqb_eq.
  intros [H1|[-> H1]] [H2|[-> H2]]; [left; lia|left; lia|left; lia|]. right. eauto.
Qed.

Lemma units_lt_total a b : units_lt a b = true \/ units_lt b a = true \/ a = b.
Proof.
  revert b; induction a as [|x a IH]; intros [|y b]; simpl; auto.
  destruct (Z.lt_trichotomy x y) as [H|[->|H]].
  - left. apply orb_true_iff. left. by apply Z.ltb_lt.
  - rewrite Z.ltb_irrefl, Z.eqb_refl. simpl. destruct (IH b) as [?|[?| ->]]; auto.
  - right; left. apply orb_true_iff. left. by apply Z.ltb_lt.
Qed.

Lemma key_before_spec {A} (x y : jsstring * A) :
  key_before x y = negb (units_lt (utf16 y.1) (utf16 x.1)).
Proof.
  unfold key_before, compareUtf16Ordinal.
  destruct (units_lt (utf16 x.1) (utf16 y.1)) eqn:E1, (units_lt (utf16 y.1) (utf16 x.1)) eqn:E2;
    try done.
  pose proof (units_lt_trans _ _ _ E1 E2) as H. by rewrite units_lt_irrefl in H.
Qed.

Lemma key_before_total {A} (l : list (jsstring * A)) : total_on key_before l.
Proof.
  split.
  - intros x y _ _. rewrite !key_before_spec.
    destruct (units_lt (utf16 y.1) _) eqn:E1; [|by left]. right.
    destruct (units_lt (utf16 x.1) _) eqn:E2; [|done].
    pose proof (units_lt_trans _ _ _ E1 E2) as H. by rewrite units_lt_irrefl in H.
  - intros x y z _ _ _. rewrite !key_before_spec, !negb_true_iff. intros H1 H2.
    destruct (units_lt (utf16 z.1) (utf16 x.1)) eqn:E; [|done].
    destruct (units_lt_total (utf16 x.1) (utf16 y.1)) as [H|[H|H]].
    + by rewrite (units_lt_trans _ _ _ E H) in H2.
    + by rewrite H in H1.
    + rewrite <- H in H2. congruence.
Qed.

Lemma key_before_strict {A} (l : list (jsstring * A)) :
  NoDup (map (fun e => utf16 e.1) l) -> strict_on key_before l.
Proof.
  intros Hn x y Hx Hy. rewrite !key_before_spec, !negb_true_iff. intros H1 H2.
  destruct (units_lt_total (utf16 x.1) (utf16 y.1)) as [H|[H|H]]; [congruence|congruence|].
  apply list_elem_of_lookup_1 in Hx as [i Hi], Hy as [j Hj].
  assert (i = j) as ->; [|congruence].
  eapply (NoDup_lookup _ _ _ (utf16 x.1) Hn); rewrite list_lookup_fmap.
  - by rewrite Hi.
  - rewrite Hj. simpl. by rewrite H.
Qed.

Lemma canon_wf j : json_wf j -> json_wf (canon j).
Proof.
  induction j as [|b|z|s|l IH|l IH] using json_ind'; try done; simpl.
  - rewrite !foldr_Forall, Forall_map. intros H. rewrite Forall_forall in *. auto.
  - rewrite !(foldr_Forall (fun e => text_wf e.1 /\ json_wf e.2)), sort_by_perm, Forall_map.
    intros H. rewrite Forall_forall in *. intros e He. destruct (H e He). split; [done|]. by apply IH.
Qed.

Lemma evidence_text_inj j k :
  json_wf j -> json_wf k -> evidence_text j = evidence_text k -> canon j = canon k.
Proof. intros Hj Hk. apply stringify_inj; by apply canon_wf. Qed.

(** ** The text and the document *)

Lemma units_lt_spec a b :
  units_lt a b = true <->
  (exists c rest, b = a ++ c :: rest)
  \/ (exists common x y a' b', a = common ++ x :: a' /\ b = common ++ y :: b' /\ x < y).
Proof.
  revert b; induction a as [|x a IH]; intros [|y b]; simpl.
  - split; [done|]. intros [(c & r & E)|(p & x & y & a' & b' & E & _)]; [done|by destruct p].
  - split; [|done]. intros _. left. by exists y, b.
  - split; [done|]. intros [(c & r & E)|(p & x' & y' & a' & b' & _ & E & _)]; [done|by destruct p].
  - rewrite orb_true_iff, andb_true_iff, Z.ltb_lt, Z.eqb_eq, IH. split.
    + intros [H|[-> [(c & r & ->)|(p & u & v & a' & b' & -> & -> & H)]]].
      * right. by exists [], x, y, a, b.
      * left. by exists c, r.
      * right. by exists (y :: p), u, v, a', b'.
    + intros [(c & r & [= -> ->])|([|z p] & u & v & a' & b' & Ea & Eb & H)]; simplify_eq/=; [|by left|].
      * right. split; [done|]. left. by exists c, r.
      * right. split; [done|]. right. by exists p, u, v, a', b'.
Qed.

Lemma ordinal_lt_spec s t : units_lt (utf16 s) (utf16 t) = true <-> ordinal_lt s t.
Proof. apply units_lt_spec. Qed.

Lemma canon_keys l : (map (fun e : jsstring * json => (e.1, canon e.2)) l).*1 = l.*1.
Proof. rewrite <- list_fmap_compose. done. Qed.

Lemma canon_utf16 l :
  map (fun e => utf16 e.1) (map (fun e : jsstring * json => (e.1, canon e.2)) l) = map (fun e => utf16 e.1) l.
Proof. by rewrite map_map. Qed.

(** Sorting the keys of documents that are the same gives the same document. *)
Lemma same_data_canon j k : same_data j k -> keys_distinct j -> canon j = canon k.
Proof.
  revert k. induction j as [|b|z|s|l IH|l IH] using json_ind'; intros k H Hd; inversion H as [| | | |? k' HF|? k' p Hp HF]; subst; try done.
  - simpl in *. f_equal. rewrite foldr_Forall in Hd. clear H. revert IH Hd.
    induction HF as [|x y l k' Hxy _ IHl]; intros IH Hd; [done|].
    apply Forall_cons in IH as [IHx IH], Hd as [Hdx Hd]. simpl. rewrite (IHx y) by done. by rewrite IHl.
  - simpl in *. destruct Hd as [Hn Hd]. rewrite (foldr_Forall (fun e => keys_distinct e.2)) in Hd. f_equal.
    assert (E : map (fun e : jsstring * json => (e.1, canon e.2)) l = map (fun e => (e.1, canon e.2)) p).
    { clear H Hp Hn. revert IH Hd. induction HF as [|x y l p [Hk Hv] _ IHl]; intros IH Hd; [done|].
      apply Forall_cons in IH as [IHx IH], Hd as [Hdx Hd]. simpl. rewrite (IHx y.2), Hk by done. by rewrite IHl. }
    apply sort_by_unique; [apply key_before_total|apply key_before_strict; by rewrite canon_utf16|].
    rewrite E. by apply Permutation_map.
Qed.

Lemma canon_same_data j k : canon j = canon k -> same_data j k.
Proof.
  revert k. induction j as [|b|z|s|l IH|l IH] using json_ind'; intros [|b'|z'|s'|k|k] E; simplify_eq/=; try by constructor.
  - constructor. revert k E. induction IH as [|x l Hx _ IHl]; intros [|y k] E; simplify_eq/=; constructor; auto.
  - assert (Hp : map (fun e : jsstring * json => (e.1, canon e.2)) l ≡ₚ map (fun e => (e.1, canon e.2)) k).
    { rewrite <- (sort_by_perm key_before (map _ l)), E. apply sort_by_perm. }
    apply Permutation_map_inv in Hp as (k' & E' & Hp). apply (sd_object l k k'); [done|].
    clear E Hp. revert k' E'. induction IH as [|x l Hx _ IHl]; intros [|y k'] E; simplify_eq/=; constructor; auto.
Qed.

Lemma in_order_sorted l :
  NoDup (map (fun e => utf16 e.1) l) -> in_order key_before l <-> StronglySorted ordinal_lt (l : list (jsstring * json)).*1.
Proof.
  induction l as [|x l IH]; intros Hn; [split; [constructor|done]|]. apply NoDup_cons in Hn as [Hx Hn].
  specialize (IH Hn). cbn [in_order fmap list_fmap].
  assert (Hhead : Forall (fun y => key_before x y = true) l <-> Forall (ordinal_lt x.1) l.*1).
  { rewrite Forall_fmap, !Forall_forall. unfold compose. split; intros H y Hy; specialize (H y Hy).
    - rewrite key_before_spec, negb_true_iff in H. apply ordinal_lt_spec.
      destruct (units_lt_total (utf16 x.1) (utf16 y.1)) as [?|[?|Heq]]; [done|congruence|].
      exfalso. apply Hx. rewrite Heq. apply list_elem_of_fmap. by exists y.
    - apply ordinal_lt_spec in H. rewrite key_before_spec, negb_true_iff.
      destruct (units_lt (utf16 y.1) (utf16 x.1)) eqn:Eq; [|done].
      pose proof (units_lt_trans _ _ _ H Eq) as Hbad. by rewrite units_lt_irrefl in Hbad. }
  rewrite Hhead, IH. split; [intros [? ?]; by constructor|]. intros Hs. apply StronglySorted_inv in Hs. tauto.
Qed.

Lemma sorted_distinct l : StronglySorted ordinal_lt (l : list (jsstring * json)).*1 -> NoDup (map (fun e => utf16 e.1) l).
Proof.
  induction l as [|x l IH]; cbn [fmap list_fmap]; intros Hs; [constructor|]. apply StronglySorted_inv in Hs as [Hs Hx].
  constructor; [|auto]. intros Hin. apply list_elem_of_fmap in Hin as (y & E & Hy).
  rewrite Forall_fmap, Forall_forall in Hx. specialize (Hx y Hy). apply ordinal_lt_spec in Hx.
  by rewrite E, units_lt_irrefl in Hx.
Qed.

Lemma canon_sorted j : keys_distinct j -> keys_sorted (canon j).
Proof.
  induction j as [|b|z|s|l IH|l IH] using json_ind'; try done; simpl.
  - rewrite !foldr_Forall, Forall_map, !Forall_forall in *. auto.
  - intros [Hn Hd]. rewrite (foldr_Forall (fun e => keys_distinct e.2)) in Hd.
    rewrite (foldr_Forall (fun e => keys_sorted e.2)). split.
    + apply in_order_sorted; [|apply sort_by_in_order, key_before_total].
      rewrite (Permutation_map _ (sort_by_perm key_before (map _ l))). by rewrite canon_utf16.
    + rewrite sort_by_perm, Forall_map.
      rewrite !Forall_forall in *. intros e He. simpl. apply IH; auto.
Qed.

Lemma sorted_canon j : keys_sorted j -> canon j = j.
Proof.
  induction j as [|b|z|s|l IH|l IH] using json_ind'; try done; simpl.
  - rewrite foldr_Forall. intros Hs. f_equal. rewrite <- (map_id l) at 2. apply map_ext_Forall.
    rewrite Forall_forall in *. auto.
  - intros [Hs Hd]. rewrite (foldr_Forall (fun e => keys_sorted e.2)) in Hd. f_equal.
    assert (E : map (fun e : jsstring * json => (e.1, canon e.2)) l = l).
    { rewrite <- (map_id l) at 2. apply map_ext_Forall. rewrite Forall_forall in *. intros e He.
      rewrite IH by auto. by destruct e. }
    rewrite E. pose proof (sorted_distinct _ Hs) as Hn.
    apply (in_order_unique key_before); [|apply sort_by_perm|apply sort_by_in_order, key_before_total|by apply in_order_sorted].
    apply key_before_strict. by rewrite (Permutation_map _ (sort_by_perm key_before l)).
Qed.

Lemma reads_distinct h v j : heap_wf h -> reads h v j -> keys_distinct j.
Proof.
  intros Hh. revert v. induction j as [|b|z|s|l IH|l IH] using json_ind'; intros v Hr; try done; simpl.
  - inversion Hr as [| | | |r keys items js' _ _ Hi|]; subst. rewrite foldr_Forall. clear Hr. revert IH.
    induction Hi as [|i j items l (e & -> & He) _ IHl]; intros IH; [constructor|].
    apply Forall_cons in IH as [IHx IH]. constructor; eauto.
  - inversion Hr as [| | | | |r props kvs Ho Hi]; subst.
    pose proof (Forall_lookup_1 _ _ _ _ Hh Ho) as [Hn _]. rewrite (foldr_Forall (fun e => keys_distinct e.2)). split.
    + replace (map (fun e => utf16 e.1) l) with (map (fun p => utf16 p.1) props); [done|].
      clear - Hi. induction Hi as [|p e props l [E _] _ IHl]; [done|]. simpl. by rewrite E, IHl.
    + clear Hr Ho Hn. revert IH. induction Hi as [|p e props l (E & w & Ew & Hw) _ IHl]; intros IH; [constructor|].
      apply Forall_cons in IH as [IHx IH]. constructor; eauto.
Qed.

(** Plain data is read as it is, and from a heap with plain arrays nothing else is. *)
Lemma denotes_reads h v j : denotes h v j -> reads h v j.
Proof.
  revert v. induction j as [|b|z|s|l IH|l IH] using json_ind'; intros v Hd.
  1-4: inversion Hd; subst; constructor.
  - inversion Hd as [| | | |r items js' Ho Hi|]; subst. econstructor; [exact Ho|done|]. clear Hd Ho. revert IH.
    induction Hi as [|i j items l (w & -> & Hw) _ IHl]; intros IH; [constructor|].
    apply Forall_cons in IH as [IHx IH]. constructor; [|auto]. exists (EData w). split; [done|]. by apply IHx.
  - inversion Hd as [| | | | |r props kvs Ho Hi]; subst. econstructor; [exact Ho|]. clear Hd Ho. revert IH.
    induction Hi as [|p e props l (E & w & Ew & Hw) _ IHl]; intros IH; [constructor|].
    apply Forall_cons in IH as [IHx IH]. constructor; [|auto]. split; [done|]. exists w. split; [done|]. by apply IHx.
Qed.

Lemma reads_denotes h v j : plain_arrays h -> reads h v j -> denotes h v j.
Proof.
  intros Hh. revert v. induction j as [|b|z|s|l IH|l IH] using json_ind'; intros v Hd.
  1-4: inversion Hd; subst; constructor.
  - inversion Hd as [| | | |r keys items js' Ho Hk Hi|]; subst.
    pose proof (Forall_lookup_1 _ _ _ _ Hh Ho) as [Hbad Hdata]. simpl in Hbad, Hdata.
    assert (keys = []) as ->.
    { destruct keys as [|k keys]; [done|]. apply Forall_cons in Hbad as [Hb _]. simpl in Hk. by rewrite Hb in Hk. }
    econstructor; [exact Ho|]. clear Hd Ho Hbad. revert IH Hdata.
    induction Hi as [|i j items l (e & -> & He) _ IHl]; intros IH Hdata; [constructor|].
    apply Forall_cons in IH as [IHx IH], Hdata as [Hx Hdata]. constructor; [|auto].
    destruct e as [w|w]; [|done]. exists w. split; [done|]. by apply IHx.
  - inversion Hd as [| | | | |r props kvs Ho Hi]; subst. econstructor; [exact Ho|]. clear Hd Ho. revert IH.
    induction Hi as [|p e props l (E & w & Ew & Hw) _ IHl]; intros IH; [constructor|].
    apply Forall_cons in IH as [IHx IH]. constructor; [|auto]. split; [done|]. exists w. split; [done|]. by apply IHx.
Qed.

(** ** The guarantees *)

Lemma fuelled_start h : fuelled h (S (length h)) [].
Proof. split_and!; [constructor|constructor|simpl; lia]. Qed.

(**  The walk over a value ends: whatever the heap, shared
    and cyclic objects included, the depth of the walk is bounded by the number
    of objects, and the code returns a text or throws. *)
Theorem canonical_evidence_total (h : jheap) (v : jvalue) :
  heap_ok h -> ref_ok h v -> canonicalEvidenceJson h v <> Stuck.
Proof. intros Hh Hv. apply render_not_stuck; [done|done|apply fuelled_start]. Qed.

(** C39 (refinement).  On a heap without getters among array elements and without array
    keys that look like an index, a value is rendered exactly when it is the root of a
    finite tree of plain data (every other value, cyclic ones included, is refused), and
    its text is the JSON of that tree with the keys of each object in increasing order of
    their UTF-16 code units. *)
Theorem canonical_evidence_spec (h : jheap) (v : jvalue) (t : jsstring) :
  heap_wf h -> value_wf v -> plain_arrays h ->
  canonicalEvidenceJson h v = Done t
  <-> exists j k, denotes h v j /\ same_data j k /\ keys_sorted k /\ t = stringify k.
Proof.
  intros Hh _ Ha. split.
  - intros H. apply render_sound in H as (j & Hj & ->). exists j, (canon j). split_and!; [by apply reads_denotes| | |done].
    + apply canon_same_data. symmetry. apply sorted_canon, canon_sorted. by eapply reads_distinct.
    + apply canon_sorted. by eapply reads_distinct.
  - intros (j & k & Hd%denotes_reads & Hs & Hk & ->).
    rewrite <- (sorted_canon k Hk), <- (same_data_canon j k Hs) by (by eapply reads_distinct).
    apply render_complete; [done|apply fuelled_start|constructor].
Qed.

(** C38 (safety).  The text identifies the data: two values are rendered alike
    exactly when the documents that are read from them have the same entries, up to the
    order in which the keys of their objects are listed. *)
Theorem canonical_evidence_identity (h1 h2 : jheap) (v1 v2 : jvalue) (j1 j2 : json) :
  heap_wf h1 -> value_wf v1 -> heap_wf h2 -> value_wf v2 ->
  reads h1 v1 j1 -> reads h2 v2 j2 -> json_wf j1 -> json_wf j2 ->
  canonicalEvidenceJson h1 v1 = canonicalEvidenceJson h2 v2 <-> same_data j1 j2.
Proof.
  intros Hh1 _ Hh2 _ H1 H2 W1 W2. unfold canonicalEvidenceJson.
  rewrite (render_complete _ _ _ _ _ _ H1 (fuelled_start h1) (List.Forall_nil _)).
  rewrite (render_complete _ _ _ _ _ _ H2 (fuelled_start h2) (List.Forall_nil _)).
  split.
  - intros [= E]. by apply canon_same_data, evidence_text_inj.
  - intros E. unfold evidence_text. rewrite (same_data_canon j1 j2 E); [done|]. exact (reads_distinct h1 v1 j1 Hh1 H1).
Qed.

(** C40 (equivalence).  The order in which an object's properties were added
    does not change its text: objects with the same entries in another order
    render alike. *)
Theorem canonical_evidence_key_order (h : jheap) (r1 r2 : nat)
    (p1 p2 : list (jsstring * property)) (j : json) :
  h !! r1 = Some (OObject true false p1) -> h !! r2 = Some (OObject true false p2) ->
  NoDup (map (fun e => utf16 e.1) p1) -> p1 ≡ₚ p2 -> reads h (VRef r1) j ->
  canonicalEvidenceJson h (VRef r1) = Done (evidence_text j)
  /\ canonicalEvidenceJson h (VRef r2) = Done (evidence_text j).
Proof.
  intros H1 H2 Hn Hp Hj.
  inversion Hj as [| | | |? ? ? ? Hr|? ? kvs Hr Hk]; subst; [congruence|]. simplify_eq.
  assert (Hs : sort_by key_before p1 = sort_by key_before p2)
    by (apply sort_by_unique; [apply key_before_total|by apply key_before_strict|done]).
  assert (Hk' : Forall2 (prop_reads h) (sort_by key_before p2) (sort_by key_before kvs))
    by (rewrite <- Hs; apply Forall2_sort_by; [apply prop_reads_keys|exact Hk]).
  apply sorted_entries in Hk' as (kvs' & Hk' & E). unfold canonicalEvidenceJson. split.
  - by apply render_complete; [|apply fuelled_start|constructor].
  - rewrite (render_complete h (JObj kvs')); [|by econstructor|apply fuelled_start|constructor].
    by rewrite !evidence_text_obj, E.
Qed.

(**  Two gaps in the refusal of arrays that are not plain data: an
    element computed by a getter is read and rendered, and an own property whose
    name looks like an index but is beyond the array is dropped from the text. *)
Theorem canonical_evidence_array_gaps (v : jvalue) (h : jheap) (keys : list key) :
  existsb bad_array_key keys = false ->
  h !! 0%nat = Some (OArray keys [Some (EAccessor v)]) ->
  (forall t, canonicalEvidenceJson h (VRef 0) = Done t ->
     exists j, reads h v j /\ t = evidence_text (JArr [j]))
  /\ (forall j, reads h v j -> canonicalEvidenceJson h (VRef 0) = Done (evidence_text (JArr [j])))
  /\ is_index_key (js "4294967295") = true.
Proof.
  intros Hk H0. split_and!; [| |reflexivity].
  - intros t Ht. apply render_sound in Ht as (j & Hj & ->).
    inversion Hj as [| | | |? ? ? l Hr _ Hl|? ? ? Hr]; subst; [|congruence]. simplify_eq.
    inversion Hl as [|? j ? ? (e & Ee & He) Hnil]; subst. inversion Hnil; subst. simplify_eq.
    by exists j.
  - intros j Hj. apply render_complete; [|apply fuelled_start|constructor].
    econstructor; [exact H0|done|]. constructor; [|constructor]. eexists. split; [done|exact Hj].
Qed.

(** ** Instances *)

(** [{b: [x], a: x}] with [x = {k: 1}] shared, [{a: x, b: [x]}], and an array
    that holds itself. *)
Definition sample : jheap :=
  [ OObject true false [(js "b", PData (VRef 1)); (js "a", PData (VRef 2))];
    OArray [] [Some (EData (VRef 2))];
    OObject true false [(js "k", PData (VNumber 1))];
    OObject true false [(js "a", PData (VRef 2)); (js "b", PData (VRef 1))];
    OArray [] [Some (EData (VRef 4))] ].

Definition sample_json : json :=
  JObj [(js "b", JArr [JObj [(js "k", JNum 1)]]); (js "a", JObj [(js "k", JNum 1)])].
Definition sample_json' : json :=
  JObj [(js "a", JObj [(js "k", JNum 1)]); (js "b", JArr [JObj [(js "k", JNum 1)]])].

Lemma sample_shared : reads sample (VRef 2) (JObj [(js "k", JNum 1)]).
Proof.
  eapply rd_object; [reflexivity|]. constructor; [|constructor].
  split; [done|]. eexists. split; [reflexivity|constructor].
Qed.

Lemma sample_array : reads sample (VRef 1) (JArr [JObj [(js "k", JNum 1)]]).
Proof.
  eapply rd_array; [reflexivity|done|]. constructor; [|constructor].
  eexists. split; [reflexivity|apply sample_shared].
Qed.

Lemma sample_reads :
  reads sample (VRef 0) sample_json /\ reads sample (VRef 3) sample_json'.
Proof.
  split; (eapply rd_object; [reflexivity|]);
    repeat (constructor; [split; [done|]; eexists; split; [reflexivity|];
      first [apply sample_array|apply sample_shared]|]); constructor.
Qed.

Lemma canonical_evidence_total_witness : canonicalEvidenceJson sample (VRef 4) <> Stuck.
Proof.
  apply (canonical_evidence_total sample (VRef 4)).
  - unfold heap_ok. repeat (constructor; [simpl; repeat constructor; simpl; lia|]). constructor.
  - simpl. lia.
Defined.

Ltac solve_heap_wf :=
  repeat match goal with
  | |- heap_wf _ => unfold heap_wf
  | |- Forall _ [] => constructor
  | |- Forall _ (_ :: _) => constructor
  | |- object_wf (OObject _ _ _) => split; [apply (bool_decide_unpack _); vm_compute; exact I|]
  | |- object_wf (OArray _ _) => unfold object_wf
  | |- _ => progress simpl
  | |- _ => done
  | |- _ => lia
  end.

Lemma sample_wf : heap_wf sample.
Proof. unfold sample. solve_heap_wf. Qed.

Lemma sample_same : same_data sample_json sample_json'.
Proof.
  apply (sd_object _ _ [(js "b", JArr [JObj [(js "k", JNum 1)]]); (js "a", JObj [(js "k", JNum 1)])]);
    [apply Permutation_swap|].
  assert (Hk : same_data (JObj [(js "k", JNum 1)]) (JObj [(js "k", JNum 1)])).
  { apply (sd_object _ _ [(js "k", JNum 1)]); [done|]. repeat constructor. }
  constructor; [split; [done|]; constructor; repeat constructor; exact Hk|].
  constructor; [split; [done|exact Hk]|constructor].
Qed.

Lemma canonical_evidence_identity_witness :
  canonicalEvidenceJson sample (VRef 0) = canonicalEvidenceJson sample (VRef 3).
Proof.
  apply (canonical_evidence_identity sample sample (VRef 0) (VRef 3) sample_json sample_json').
  - exact sample_wf.
  - exact I.
  - exact sample_wf.
  - exact I.
  - apply sample_reads.
  - apply sample_reads.
  - simpl. unfold text_wf. repeat split; repeat constructor; simpl; lia.
  - simpl. unfold text_wf. repeat split; repeat constructor; simpl; lia.
  - exact sample_same.
Defined.

(** Keys that share a first code unit, and the text of the object. *)
Definition shared_prefix : jheap := [OObject true false [(js "ac", PData (VNumber 1)); (js "ab", PData (VNull))]].

Lemma canonical_evidence_spec_witness :
  exists t, canonicalEvidenceJson shared_prefix (VRef 0) = Done t
    /\ exists j k, denotes shared_prefix (VRef 0) j /\ same_data j k /\ keys_sorted k /\ t = stringify k.
Proof.
  exists (stringify (JObj [(js "ab", JNull); (js "ac", JNum 1)])).
  assert (H : canonicalEvidenceJson shared_prefix (VRef 0) = Done (stringify (JObj [(js "ab", JNull); (js "ac", JNum 1)])))
    by (vm_compute; reflexivity).
  split; [exact H|]. apply (canonical_evidence_spec shared_prefix (VRef 0)); [unfold shared_prefix; solve_heap_wf|exact I| |exact H].
  repeat constructor.
Defined.

Lemma canonical_evidence_key_order_witness :
  canonicalEvidenceJson sample (VRef 3) = Done (evidence_text sample_json').
Proof.
  destruct (canonical_evidence_key_order sample 0 3
    [(js "b", PData (VRef 1)); (js "a", PData (VRef 2))]
    [(js "a", PData (VRef 2)); (js "b", PData (VRef 1))] sample_json) as [_ H].
  - reflexivity.
  - reflexivity.
  - vm_compute. repeat constructor; set_solver.
  - apply Permutation_swap.
  - apply sample_reads.
  - rewrite H. vm_compute. reflexivity.
Defined.

Lemma canonical_evidence_array_gaps_witness :
  canonicalEvidenceJson [OArray [KString (js "4294967295")] [Some (EAccessor (VNumber 1))]] (VRef 0)
  = Done (js "[1]").
Proof.
  destruct (canonical_evidence_array_gaps (VNumber 1)
    [OArray [KString (js "4294967295")] [Some (EAccessor (VNumber 1))]] [KString (js "4294967295")])
    as (_ & H & _).
  - reflexivity.
  - reflexivity.
  - rewrite (H (JNum 1)); [vm_compute; reflexivity|constructor].
Defined.
