(* ===== verification/JsonParse.v ===== *)
(** * [JSON.parse]

    The text of a document back to a value: white space, escapes, surrogate pairs
    of escapes, duplicate keys (the last one wins, at the place of the first) and
    the numbers, each rounded to the nearest double.  A number that is not an
    integer after the rounding is [NFrac].  The parser takes as many levels as the
    text has characters, and one more. *)

From S2P Require Import Prelude JsString JsMap JsonText.

#[local] Open Scope Z_scope.

Inductive value :=
| VNull
| VBool (b : bool)
| VNum (n : num)
| VStr (s : jsstring)
| VArr (l : list value)
| VObj (l : list (jsstring * value)).

(** ** Numbers *)

(** [n / d] to the nearest integer, ties to the even one. *)
Definition round_even (n d : Z) : Z :=
  let q := n / d in
  let r := n mod d in
  if 2 * r <? d then q
  else if d <? 2 * r then q + 1
  else if Z.even q then q else q + 1.

(** The double nearest to [n / d] ([0 <= n], [0 < d]): 53 significant bits.  Below
    one it is an integer only when it rounds to 0 or to 1. *)
Definition nearest (n d : Z) : num :=
  if n <? d then
    if n * 2 ^ 1075 <=? d then NInt 0
    else if (2 ^ 54 - 1) * d <=? n * 2 ^ 54 then NInt 1
    else NFrac
  else
    let k := Z.log2 (n / d) - 52 in
    if 0 <=? k then
      let v := round_even n (d * 2 ^ k) * 2 ^ k in
      if 2 ^ 1024 <=? v then NFrac else NInt v
    else
      let q := round_even (n * 2 ^ (- k)) d in
      if q mod 2 ^ (- k) =? 0 then NInt (q / 2 ^ (- k)) else NFrac.

(** [digits * 10 ^ e], [count] being the number of digits; far beyond the range of
    doubles the power is not computed. *)
Definition scaled (digits count e : Z) : num :=
  if digits =? 0 then NInt 0
  else if 400 <? count + e then NFrac
  else if count + e <? -400 then NInt 0
  else if 0 <=? e then nearest (digits * 10 ^ e) 1
  else nearest digits (10 ^ (- e)).

Definition negated (n : num) : num :=
  match n with NInt z => NInt (- z) | NFrac => NFrac end.

Definition is_digitb (c : Z) : bool := (48 <=? c) && (c <=? 57).

(** The longest prefix of digits. *)
Fixpoint take_digits (s : jsstring) : jsstring * jsstring :=
  match s with
  | c :: s' => if is_digitb c then let '(d, r) := take_digits s' in (c :: d, r) else ([], s)
  | [] => ([], [])
  end.

(** The exponent, if there is one. *)
Definition parse_exponent (s : jsstring) : option (Z * jsstring) :=
  match s with
  | c :: s' =>
      if (c =? 101) || (c =? 69) then
        let '(sign, s'') := match s' with
                            | 43 :: t => (1, t)
                            | 45 :: t => (-1, t)
                            | _ => (1, s')
                            end in
        match take_digits s'' with
        | ([], _) => None
        | (ds, r) => Some (sign * digits_value ds, r)
        end
      else Some (0, s)
  | [] => Some (0, [])
  end.

Definition parse_fraction (s : jsstring) : option (jsstring * jsstring) :=
  match s with
  | 46 :: s' => match take_digits s' with ([], _) => None | (ds, r) => Some (ds, r) end
  | _ => Some ([], s)
  end.

Definition parse_unsigned (s : jsstring) : option (num * jsstring) :=
  match take_digits s with
  | ([], _) => None
  | (ip, r) =>
      if (match ip with 48 :: _ :: _ => true | _ => false end) then None
      else match parse_fraction r with
           | None => None
           | Some (fp, r') =>
               match parse_exponent r' with
               | None => None
               | Some (e, r'') =>
                   Some (scaled (digits_value (ip ++ fp)) (Z.of_nat (length (ip ++ fp)))
                           (e - Z.of_nat (length fp)), r'')
               end
           end
  end.

Definition parse_number (s : jsstring) : option (num * jsstring) :=
  match s with
  | 45 :: s' => match parse_unsigned s' with Some (n, r) => Some (negated n, r) | None => None end
  | _ => parse_unsigned s
  end.

(** ** Strings *)

Definition hex_value (c : Z) : option Z :=
  if is_digitb c then Some (c - 48)
  else if (97 <=? c) && (c <=? 102) then Some (c - 87)
  else if (65 <=? c) && (c <=? 70) then Some (c - 55)
  else None.

Definition parse_hex4 (s : jsstring) : option (Z * jsstring) :=
  match s with
  | a :: b :: c :: d :: r =>
      match hex_value a, hex_value b, hex_value c, hex_value d with
      | Some a, Some b, Some c, Some d => Some (4096 * a + 256 * b + 16 * c + d, r)
      | _, _, _, _ => None
      end
  | _ => None
  end.

(** The character of a one-letter escape. *)
Definition escaped (c : Z) : option Z :=
  if (c =? 34) || (c =? 92) || (c =? 47) then Some c
  else if c =? 98 then Some 8 else if c =? 102 then Some 12
  else if c =? 110 then Some 10 else if c =? 114 then Some 13
  else if c =? 116 then Some 9 else None.

(** A code unit put before a string: a high surrogate joins a low one. *)
Definition put_unit (u : Z) (s : jsstring) : jsstring :=
  match s with
  | l :: s' =>
      if (55296 <=? u) && (u <=? 56319) && (56320 <=? l) && (l <=? 57343)
      then (65536 + (u - 55296) * 1024 + (l - 56320)) :: s'
      else u :: s
  | [] => [u]
  end.

(** The rest of a string after its opening quote. *)
Fixpoint parse_chars (fuel : nat) (s : jsstring) : option (jsstring * jsstring) :=
  match fuel with
  | O => None
  | S fuel' =>
      match s with
      | 34 :: r => Some ([], r)
      | 92 :: 117 :: r =>
          match parse_hex4 r with
          | Some (u, r') =>
              match parse_chars fuel' r' with
              | Some (t, rest) => Some (put_unit u t, rest)
              | None => None
              end
          | None => None
          end
      | 92 :: c :: r =>
          match escaped c, parse_chars fuel' r with
          | Some c', Some (t, rest) => Some (c' :: t, rest)
          | _, _ => None
          end
      | c :: r =>
          if (c <? 32) || (c =? 92) then None
          else match parse_chars fuel' r with
               | Some (t, rest) => Some (c :: t, rest)
               | None => None
               end
      | [] => None
      end
  end.

(** ** Values *)

Fixpoint skip_space (s : jsstring) : jsstring :=
  match s with
  | c :: s' => if (c =? 32) || (c =? 9) || (c =? 10) || (c =? 13) then skip_space s' else s
  | [] => []
  end.

Fixpoint expect (word s : jsstring) : option jsstring :=
  match word, s with
  | [], _ => Some s
  | w :: word', c :: s' => if w =? c then expect word' s' else None
  | _, [] => None
  end.

(** A key and its colon. *)
Definition parse_key (fuel : nat) (s : jsstring) : option (jsstring * jsstring) :=
  match skip_space s with
  | 34 :: r =>
      match parse_chars fuel r with
      | Some (k, r') => match skip_space r' with 58 :: r'' => Some (k, r'') | _ => None end
      | None => None
      end
  | _ => None
  end.

Section Elements.
Context (parse : jsstring -> option (value * jsstring)).

(** Elements after the first: each is preceded by a comma, and a closer ends them. *)
Fixpoint parse_items (fuel : nat) (s : jsstring) : option (list value * jsstring) :=
  match fuel with
  | O => None
  | S fuel' =>
      match parse s with
      | Some (v, r) =>
          match skip_space r with
          | 44 :: r' =>
              match parse_items fuel' r' with Some (l, q) => Some (v :: l, q) | None => None end
          | 93 :: r' => Some ([v], r')
          | _ => None
          end
      | None => None
      end
  end.

Fixpoint parse_entries (fuel : nat) (s : jsstring)
    : option (list (jsstring * value) * jsstring) :=
  match fuel with
  | O => None
  | S fuel' =>
      match parse_key fuel s with
      | Some (k, r) =>
          match parse r with
          | Some (v, r') =>
              match skip_space r' with
              | 44 :: q =>
                  match parse_entries fuel' q with
                  | Some (l, q') => Some ((k, v) :: l, q')
                  | None => None
                  end
              | 125 :: q => Some ([(k, v)], q)
              | _ => None
              end
          | None => None
          end
      | None => None
      end
  end.
End Elements.

(** The properties of an object, from the entries of its text. *)
Definition of_entries (l : list (jsstring * value)) : list (jsstring * value) :=
  foldl (fun m e => map_set m e.1 e.2) [] l.

Fixpoint parse_value (fuel : nat) (s : jsstring) : option (value * jsstring) :=
  match fuel with
  | O => None
  | S fuel' =>
      match skip_space s with
      | 34 :: r =>
          match parse_chars fuel' r with Some (t, r') => Some (VStr t, r') | None => None end
      | 91 :: r =>
          match skip_space r with
          | 93 :: r' => Some (VArr [], r')
          | _ => match parse_items (parse_value fuel') fuel' r with
                 | Some (l, r') => Some (VArr l, r')
                 | None => None
                 end
          end
      | 123 :: r =>
          match skip_space r with
          | 125 :: r' => Some (VObj [], r')
          | _ => match parse_entries (parse_value fuel') fuel' r with
                 | Some (l, r') => Some (VObj (of_entries l), r')
                 | None => None
                 end
          end
      | 110 :: r => match expect (js "ull") r with Some r' => Some (VNull, r') | None => None end
      | 116 :: r => match expect (js "rue") r with Some r' => Some (VBool true, r') | None => None end
      | 102 :: r => match expect (js "alse") r with Some r' => Some (VBool false, r') | None => None end
      | s' => match parse_number s' with Some (n, r) => Some (VNum n, r) | None => None end
      end
  end.

(** [JSON.parse(text)]; [None] is the [SyntaxError]. *)
Definition JSON_parse (s : jsstring) : option value :=
  match parse_value (S (length s)) s with
  | Some (v, r) => match skip_space r with [] => Some v | _ => None end
  | None => None
  end.

(** The value a document denotes. *)
Fixpoint embed (j : json) : value :=
  match j with
  | JNull => VNull
  | JBool b => VBool b
  | JNum z => VNum (NInt z)
  | JStr s => VStr s
  | JArr l => VArr (map embed l)
  | JObj l => VObj (map (fun e => (e.1, embed e.2)) l)
  end.

(** ** Reading what [JSON.stringify] wrote *)

(** Strings of Unicode scalar values, safe integers and distinct keys. *)
Definition scalars (s : jsstring) : Prop := Forall (fun c => is_scalar c = true) s.

Fixpoint plain (j : json) : Prop :=
  match j with
  | JNum z => is_safe z = true
  | JStr s => scalars s
  | JArr l => foldr (fun j P => plain j /\ P) True l
  | JObj l => NoDup l.*1 /\ foldr (fun e P => (scalars e.1 /\ plain e.2) /\ P) True l
  | JNull | JBool _ => True
  end.

Lemma is_digitb_spec c : is_digitb c = true <-> is_digit c.
Proof. unfold is_digitb, is_digit. rewrite andb_true_iff, !Z.leb_le. done. Qed.

Lemma take_digits_app ds r :
  Forall is_digit ds -> match r with c :: _ => ~ is_digit c | [] => True end ->
  take_digits (ds ++ r) = (ds, r).
Proof.
  intros Hd Hr. induction Hd as [|c ds Hc _ IH]; simpl.
  - destruct r as [|c r]; [done|]. simpl. destruct (is_digitb c) eqn:E; [|done].
    by apply is_digitb_spec in E.
  - apply is_digitb_spec in Hc. rewrite Hc, IH. done.
Qed.

Lemma round_even_exact n d : 0 < d -> round_even (n * d) d = n.
Proof.
  intros Hd. unfold round_even. rewrite Z.div_mul, Z.mod_mul by lia.
  destruct (Z.ltb_spec (2 * 0) d); [done|lia].
Qed.

(** An integer of at most 53 bits is a double. *)
Lemma nearest_safe z : 0 < z <= MAX_SAFE_INTEGER -> nearest z 1 = NInt z.
Proof.
  intros Hz. unfold nearest. destruct (Z.ltb_spec z 1); [lia|]. rewrite Z.div_1_r.
  pose proof (Z.log2_nonneg z). pose proof (Z.log2_spec z ltac:(lia)).
  assert (Z.log2 z < 53) by (apply Z.log2_lt_pow2; unfold MAX_SAFE_INTEGER in Hz; lia).
  destruct (Z.leb_spec 0 (Z.log2 z - 52)).
  - replace (Z.log2 z - 52) with 0 by lia. change (2 ^ 0) with 1.
    pose proof (round_even_exact z 1 ltac:(lia)) as E. rewrite Z.mul_1_r in E.
    change (1 * 1) with 1. rewrite E, Z.mul_1_r.
    destruct (Z.leb_spec (2 ^ 1024) z); [|done].
    assert (MAX_SAFE_INTEGER < 2 ^ 1024) by (vm_compute; done). lia.
  - set (p := 2 ^ (- (Z.log2 z - 52))). assert (0 < p) by (apply Z.pow_pos_nonneg; lia).
    pose proof (round_even_exact (z * p) 1 ltac:(lia)) as E. rewrite Z.mul_1_r in E.
    rewrite E, Z.mod_mul, Z.div_mul by lia. done.
Qed.

Lemma scaled_safe z n : 0 <= z <= MAX_SAFE_INTEGER -> 0 <= n <= 400 -> scaled z n 0 = NInt z.
Proof.
  intros Hz Hn. unfold scaled. destruct (Z.eqb_spec z 0) as [->|]; [done|].
  destruct (Z.ltb_spec 400 (n + 0)); [lia|]. destruct (Z.ltb_spec (n + 0) (-400)); [lia|].
  simpl. rewrite Z.mul_1_r. apply nearest_safe. lia.
Qed.

(** The first digit of a positive number is not zero, and there are not many. *)
Lemma dec_digits_head fuel z :
  0 < z < 2 ^ (Z.of_nat fuel + 1) ->
  match dec_digits fuel z with 48 :: _ => False | _ => True end.
Proof.
  revert z; induction fuel as [|fuel IH]; intros z Hz.
  { simpl in *. assert (z = 1) as -> by lia. done. }
  cbn [dec_digits]. destruct (Z.ltb_spec z 10).
  - assert (z = 1 \/ z = 2 \/ z = 3 \/ z = 4 \/ z = 5 \/ z = 6 \/ z = 7 \/ z = 8 \/ z = 9) by lia.
    naive_solver.
  - assert (H2 : 2 ^ (Z.of_nat (S fuel) + 1) = 2 * 2 ^ (Z.of_nat fuel + 1)).
    { rewrite <- Z.pow_succ_r by lia. f_equal. lia. }
    assert (Hq : 0 < z / 10 < 2 ^ (Z.of_nat fuel + 1)).
    { split; [apply Z.div_str_pos; lia|]. apply Z.div_lt_upper_bound; lia. }
    specialize (IH _ Hq). destruct (dec_digits_spec fuel (z / 10)) as (_ & _ & Hn); [lia|].
    destruct (dec_digits fuel (z / 10)) as [|c l]; [done|]. exact IH.
Qed.

Lemma dec_digits_length fuel z : (length (dec_digits fuel z) <= S fuel)%nat.
Proof.
  revert z; induction fuel as [|fuel IH]; intros z; simpl; [lia|].
  destruct (z <? 10); simpl; [lia|]. rewrite length_app. simpl. specialize (IH (z / 10)). lia.
Qed.

Lemma stops_not_digit r : stops r -> match r with c :: _ => ~ is_digit c | [] => True end.
Proof. destruct r as [|c r]; [done|]. unfold is_digit. simpl. lia. Qed.

Lemma parse_tail r : stops r -> parse_fraction r = Some ([], r) /\ parse_exponent r = Some (0, r).
Proof. destruct r as [|c r]; [done|]. intros [->|[->| ->]]; done. Qed.

Lemma parse_unsigned_decimal z r :
  0 <= z <= MAX_SAFE_INTEGER -> stops r ->
  parse_unsigned (dec_digits (Z.to_nat (Z.log2 z)) z ++ r) = Some (NInt z, r).
Proof.
  intros Hz Hr. destruct (dec_digits_log z) as (Hv & Hd & Hn); [lia|].
  pose proof (dec_digits_length (Z.to_nat (Z.log2 z)) z) as Hl.
  assert (Hlog : Z.log2 z < 53).
  { destruct (Z.eq_dec z 0) as [->|]; [done|]. apply Z.log2_lt_pow2; unfold MAX_SAFE_INTEGER in Hz; lia. }
  assert (Hh : match dec_digits (Z.to_nat (Z.log2 z)) z with 48 :: _ :: _ => true | _ => false end
               = false).
  { destruct (Z.eq_dec z 0) as [->|]; [done|].
    pose proof (dec_digits_head (Z.to_nat (Z.log2 z)) z) as H.
    rewrite Z2Nat.id in H by apply Z.log2_nonneg.
    specialize (H ltac:(rewrite Z.add_1_r; split; [lia|apply Z.log2_spec; lia])).
    destruct (dec_digits _ z) as [|c [|c' l]]; try done; [by repeat case_match|].
    by repeat case_match. }
  unfold parse_unsigned. rewrite take_digits_app by (done || by apply stops_not_digit).
  destruct (dec_digits _ z) as [|c l] eqn:E; [done|]. rewrite Hh.
  destruct (parse_tail r Hr) as [-> ->]. rewrite app_nil_r, Hv. simpl length.
  change (0 - Z.of_nat 0) with 0. rewrite scaled_safe; [done|lia|]. simpl in Hl. lia.
Qed.

Lemma parse_number_decimal z r :
  is_safe z = true -> stops r -> parse_number (decimal z ++ r) = Some (NInt z, r).
Proof.
  intros Hz Hr. apply is_safe_spec in Hz. unfold decimal. destruct (Z.ltb_spec z 0).
  - cbn [app parse_number]. rewrite parse_unsigned_decimal by (done || lia).
    cbn [negated]. by rewrite Z.opp_involutive.
  - destruct (dec_digits_log z) as (_ & Hd & Hn); [lia|].
    transitivity (parse_unsigned (dec_digits (Z.to_nat (Z.log2 z)) z ++ r)).
    + destruct (dec_digits _ z) as [|c l]; [done|]. apply Forall_cons in Hd as [Hc _].
      unfold is_digit in Hc. cbn [app]. unfold parse_number.
      destruct c as [|p|p]; [done| |done]. do 6 (destruct p as [p|p|]; try done; try lia).
    + apply parse_unsigned_decimal; [lia|done].
Qed.

(** *** Strings *)

Lemma parse_chars_other fuel c r :
  c <> 34 -> c <> 92 ->
  parse_chars (S fuel) (c :: r) =
  if c <? 32 then None
  else match parse_chars fuel r with Some (t, rest) => Some (c :: t, rest) | None => None end.
Proof.
  intros H1 H2. cbn [parse_chars].
  destruct c as [|p|p]; [done| |done].
  do 7 (destruct p as [p|p|]; try (by rewrite ?orb_false_r); try lia).
Qed.

Lemma hex_value_digit d : 0 <= d < 16 -> hex_value (hex_digit d) = Some d.
Proof.
  intros Hd. unfold hex_digit, hex_value, is_digitb. destruct (Z.ltb_spec d 10).
  - replace ((48 <=? 48 + d) && (48 + d <=? 57)) with true by lia. f_equal. lia.
  - replace ((48 <=? 87 + d) && (87 + d <=? 57)) with false by lia.
    replace ((97 <=? 87 + d) && (87 + d <=? 102)) with true by lia. f_equal. lia.
Qed.

Lemma parse_hex4_hex4 c r : 0 <= c < 65536 -> parse_hex4 (hex4 c ++ r) = Some (c, r).
Proof.
  intros Hc. unfold hex4. cbn [app parse_hex4].
  rewrite !hex_value_digit by (apply Z.mod_pos_bound; lia). do 2 f_equal. zdiv_lia.
Qed.

(** One character of the text of a string. *)
Lemma parse_chars_char fuel c r :
  is_scalar c = true ->
  parse_chars (S fuel) (quote_char c ++ r) =
  match parse_chars fuel r with Some (t, rest) => Some (c :: t, rest) | None => None end.
Proof.
  intros Hc. unfold is_scalar in Hc. bool_prop. unfold quote_char.
  repeat match goal with |- context [if c =? ?x then _ else _] =>
    destruct (Z.eqb_spec c x) as [->|]; [reflexivity|] end.
  rewrite H0, orb_false_r. destruct (Z.ltb_spec c 32).
  - cbn [app parse_chars]. rewrite parse_hex4_hex4 by lia.
    destruct (parse_chars fuel r) as [[t rest]|]; [|done].
    unfold put_unit. destruct t as [|l t]; [done|].
    replace (55296 <=? c) with false by lia. done.
  - cbn [app]. rewrite parse_chars_other by done.
    destruct (Z.ltb_spec c 32); [lia|]. done.
Qed.

Lemma parse_chars_quoted fuel s r :
  scalars s -> (length s < fuel)%nat ->
  parse_chars fuel (mbind quote_char s ++ 34 :: r) = Some (s, r).
Proof.
  intros Hs. revert fuel; induction Hs as [|c s Hc _ IH]; intros [|fuel] Hf; simpl in Hf;
    try lia; [done|].
  cbn [mbind list_bind]. rewrite <- app_assoc, parse_chars_char by done.
  fold (mbind quote_char s). rewrite IH by lia. done.
Qed.

Lemma quote_body_length s : (length s <= length (mbind quote_char s))%nat.
Proof.
  induction s as [|c s IH]; [done|]. cbn [mbind list_bind]. rewrite length_app.
  fold (mbind quote_char s). simpl. enough (1 <= length (quote_char c))%nat by lia.
  unfold quote_char. repeat case_match; simpl; lia.
Qed.

Lemma parse_key_quote fuel k r :
  scalars k -> (length k < fuel)%nat -> parse_key fuel (quote k ++ 58 :: r) = Some (k, r).
Proof.
  intros Hk Hf. unfold parse_key, quote. cbn [app skip_space Z.eqb Pos.eqb orb].
  rewrite <- app_assoc. cbn [app]. rewrite parse_chars_quoted by done. done.
Qed.

(** *** Values *)

Lemma skip_space_stops r : stops r -> skip_space r = r.
Proof. destruct r as [|c r]; [done|]. intros [->|[->| ->]]; done. Qed.

Lemma skip_space_stringify j r : skip_space (stringify j ++ r) = stringify j ++ r.
Proof.
  destruct j as [|[]|z|s|l|l]; try done. destruct (decimal_chars z) as [Hd Hn]. simpl.
  destruct (decimal z) as [|c t]; [done|]. apply Forall_cons in Hd as [Hc _]. simpl.
  unfold is_number_char, is_digit in Hc.
  replace ((c =? 32) || (c =? 9) || (c =? 10) || (c =? 13)) with false by lia. done.
Qed.

(** What [parse_value] does once the white space is gone. *)
Definition reads (parse : jsstring -> option (value * jsstring)) (j : json) : Prop :=
  forall r, stops r -> parse (stringify j ++ r) = Some (embed j, r).

Lemma parse_items_reads parse fuel l r :
  Forall (reads parse) l -> l <> [] -> (length l <= fuel)%nat ->
  parse_items parse fuel (join (map stringify l) ++ 93 :: r) = Some (map embed l, r).
Proof.
  intros Hl. revert fuel. induction Hl as [|j l Hj Hl IH]; intros [|fuel] Hn Hf; simpl in Hf;
    try done; [lia|].
  destruct l as [|k l].
  - cbn [map join parse_items]. rewrite (Hj (93 :: r)) by (right; by left). done.
  - cbn [map]. rewrite join_cons by done. rewrite <- app_assoc. cbn [app parse_items].
    rewrite Hj by (by left). cbn [skip_space Z.eqb Pos.eqb orb].
    specialize (IH fuel ltac:(done) ltac:(simpl in *; lia)). cbn [map] in IH. rewrite IH. done.
Qed.

Definition entry_text (e : jsstring * json) : jsstring := quote e.1 ++ 58 :: stringify e.2.

Lemma entry_text_length e : (length e.1 < length (entry_text e))%nat.
Proof.
  unfold entry_text, quote. simpl. rewrite !length_app. simpl.
  pose proof (quote_body_length e.1). lia.
Qed.

Lemma parse_entries_reads parse fuel (l : list (jsstring * json)) r :
  Forall (fun e => scalars e.1 /\ reads parse e.2) l -> l <> [] ->
  (length (join (map entry_text l)) < fuel)%nat ->
  parse_entries parse fuel (join (map entry_text l) ++ 125 :: r)
  = Some (map (fun e => (e.1, embed e.2)) l, r).
Proof.
  intros Hl. revert fuel. induction Hl as [|[k j] l [Hk Hj] Hl IH]; intros [|fuel] Hn Hf;
    try done; [lia|]. cbn [fst snd] in Hk, Hj.
  pose proof (entry_text_length (k, j)) as Hlen. cbn [fst] in Hlen.
  destruct l as [|e l].
  - cbn [map join parse_entries] in *. unfold entry_text at 1. cbn [fst snd].
    rewrite <- app_assoc. cbn [app]. rewrite parse_key_quote by (done || lia).
    rewrite (Hj (125 :: r)) by (by right; right). done.
  - cbn [map] in *. rewrite join_cons in * by done. rewrite length_app in Hf. cbn [length] in Hf.
    unfold entry_text at 1. cbn [fst snd]. rewrite <- !app_assoc. cbn [app parse_entries].
    rewrite parse_key_quote by (done || lia).
    rewrite Hj by (by left). cbn [skip_space Z.eqb Pos.eqb orb].
    rewrite IH by (done || lia). done.
Qed.

Lemma of_entries_app m l :
  NoDup (m.*1 ++ l.*1) -> foldl (fun m (e : jsstring * value) => map_set m e.1 e.2) m l = m ++ l.
Proof.
  revert m. induction l as [|[k v] l IH]; intros m Hn; simpl; [by rewrite app_nil_r|].
  assert (Hk : k ∉ m.*1).
  { apply NoDup_app in Hn as (_ & Hn & _). intros Hk. apply (Hn k Hk). csimpl. left. }
  assert (E : map_set m k v = m ++ [(k, v)]).
  { clear Hn IH. induction m as [|[k' v'] m IH]; [done|]. simpl. csimpl in Hk.
    apply not_elem_of_cons in Hk as [Hne Hk].
    rewrite decide_False by done. by rewrite IH. }
  rewrite E, IH, <- app_assoc; [done|]. rewrite fmap_app, <- app_assoc. exact Hn.
Qed.

Lemma of_entries_id l : NoDup l.*1 -> of_entries l = l.
Proof. intros Hn. apply (of_entries_app []). done. Qed.

Lemma join_length (l : list jsstring) :
  Forall (fun p => p <> []) l -> (length l <= length (join l))%nat.
Proof.
  induction 1 as [|p l Hp _ IH]; [done|]. destruct p as [|c p]; [done|].
  destruct l as [|q l]; [simpl; lia|]. rewrite join_cons, length_app by done. simpl in *. lia.
Qed.

Lemma join_elem_length (l : list jsstring) p : p ∈ l -> (length p <= length (join l))%nat.
Proof.
  induction l as [|q l IH]; intros Hp; [by apply elem_of_nil in Hp|].
  destruct l as [|q' l]; [apply list_elem_of_singleton in Hp as ->; done|].
  rewrite join_cons, length_app by done. simpl.
  apply elem_of_cons in Hp as [->|Hp]; [lia|]. specialize (IH Hp). simpl in IH. lia.
Qed.

Lemma stringify_nonempty j : stringify j <> [].
Proof.
  intros E. destruct (stringify_head j []) as (c & t & E' & _). rewrite E in E'. done.
Qed.

Lemma parse_value_array fuel l r :
  Forall (reads (parse_value fuel)) l -> (length l <= fuel)%nat ->
  parse_value (S fuel) (stringify (JArr l) ++ r) = Some (VArr (map embed l), r).
Proof.
  intros Hl Hf. cbn [stringify]. unfold brackets. cbn [app parse_value skip_space Z.eqb Pos.eqb orb].
  rewrite <- app_assoc. cbn [app]. destruct l as [|j l]; [done|].
  destruct (join_begins (stringify j) (map stringify l) (stringify_begins j) (93 :: r))
    as (c & t & E & _ & H93 & _).
  assert (Hs : skip_space (join (map stringify (j :: l)) ++ 93 :: r)
               = join (map stringify (j :: l)) ++ 93 :: r).
  { cbn [map]. destruct (map stringify l); [apply skip_space_stringify|].
    rewrite join_cons, <- app_assoc by done. apply skip_space_stringify. }
  rewrite Hs, parse_items_reads by done. cbn [map] in *. rewrite E.
  destruct c as [|p|p]; [done| |done]. do 7 (destruct p as [p|p|]; try done; try lia).
Qed.

Lemma parse_value_object fuel l r :
  Forall (fun e => scalars e.1 /\ reads (parse_value fuel) e.2) l -> NoDup l.*1 ->
  (length (join (map entry_text l)) < fuel)%nat ->
  parse_value (S fuel) (stringify (JObj l) ++ r)
  = Some (VObj (map (fun e => (e.1, embed e.2)) l), r).
Proof.
  intros Hl Hn Hf. cbn [stringify]. unfold braces. cbn [app parse_value skip_space Z.eqb Pos.eqb orb].
  rewrite <- app_assoc, map_map. cbn [app fst snd].
  change (map (fun e => quote e.1 ++ 58 :: stringify e.2) l) with (map entry_text l).
  destruct l as [|e l]; [done|].
  destruct (join_begins (entry_text e) (map entry_text l) (entry_begins e) (125 :: r))
    as (c & t & E & _ & _ & H125).
  assert (Hs : skip_space (join (map entry_text (e :: l)) ++ 125 :: r)
               = join (map entry_text (e :: l)) ++ 125 :: r).
  { cbn [map]. destruct (map entry_text l); [done|]. rewrite join_cons, <- app_assoc by done. done. }
  rewrite Hs, parse_entries_reads by done.
  rewrite of_entries_id by (rewrite <- list_fmap_compose; exact Hn).
  cbn [map] in *. rewrite E.
  destruct c as [|p|p]; [done| |done]. do 7 (destruct p as [p|p|]; try done; try lia).
Qed.

Lemma parse_value_number fuel z r :
  is_safe z = true -> stops r ->
  parse_value (S fuel) (decimal z ++ r) = Some (VNum (NInt z), r).
Proof.
  intros Hz Hr. cbn [parse_value]. pose proof (skip_space_stringify (JNum z) r) as Hs.
  cbn [stringify] in Hs. rewrite Hs.
  pose proof (parse_number_decimal z r Hz Hr) as Hp. destruct (decimal_chars z) as [Hd Hn].
  destruct (decimal z) as [|c t]; [done|]. apply Forall_cons in Hd as [Hc _].
  unfold is_number_char, is_digit in Hc. cbn [app] in *.
  assert (c = 45 \/ c = 48 \/ c = 49 \/ c = 50 \/ c = 51 \/ c = 52 \/ c = 53 \/ c = 54 \/ c = 55
          \/ c = 56 \/ c = 57) as Hcases by lia.
  destruct Hcases as [->|[->|[->|[->|[->|[->|[->|[->|[->|[->| ->]]]]]]]]]]; by rewrite Hp.
Qed.

Lemma parse_value_stringify j :
  plain j -> forall fuel, (length (stringify j) < fuel)%nat -> reads (parse_value fuel) j.
Proof.
  induction j as [|b|z|s|l IH|l IH] using json_ind'; intros Hj fuel Hf r Hr;
    (destruct fuel as [|fuel]; [lia|]).
  - done.
  - by destruct b.
  - by apply parse_value_number.
  - cbn [stringify] in *. unfold quote in *. cbn [app parse_value skip_space Z.eqb Pos.eqb orb].
    rewrite <- app_assoc. cbn [app]. rewrite parse_chars_quoted; [done|done|].
    pose proof (quote_body_length s). simpl in Hf. rewrite length_app in Hf. simpl in Hf. lia.
  - simpl in Hj. rewrite foldr_Forall in Hj. cbn [stringify] in Hf. unfold brackets in Hf.
    simpl in Hf. rewrite length_app in Hf. simpl in Hf. apply parse_value_array.
    + rewrite Forall_forall in *. intros j Hin. apply IH; [done|by apply Hj|].
      pose proof (join_elem_length (map stringify l) (stringify j)
        ltac:(apply list_elem_of_fmap; eauto)). lia.
    + pose proof (join_length (map stringify l)) as Hlen. rewrite length_map in Hlen.
      specialize (Hlen ltac:(apply Forall_fmap, Forall_forall; intros; apply stringify_nonempty)). lia.
  - destruct Hj as [Hn Hj]. rewrite (foldr_Forall (fun e => scalars e.1 /\ plain e.2)) in Hj.
    cbn [stringify] in Hf. unfold braces in Hf. rewrite map_map in Hf. cbn [fst snd] in Hf.
    change (map (fun e => quote e.1 ++ 58 :: stringify e.2) l) with (map entry_text l) in Hf.
    simpl in Hf. rewrite length_app in Hf. simpl in Hf.
    apply parse_value_object; [|done|lia].
    rewrite Forall_forall in *. intros e Hin. destruct (Hj e Hin) as [Hk Hv]. split; [done|].
    apply IH; [done|done|].
    pose proof (join_elem_length (map entry_text l) (entry_text e)
      ltac:(apply list_elem_of_fmap; eauto)) as Hlen.
    unfold entry_text in Hlen at 1. rewrite length_app in Hlen. simpl in Hlen. lia.
Qed.

(** [JSON.parse(JSON.stringify(j))] is [j]. *)
Lemma JSON_parse_stringify j : plain j -> JSON_parse (stringify j) = Some (embed j).
Proof.
  intros Hj. unfold JSON_parse.
  pose proof (parse_value_stringify j Hj (S (length (stringify j))) ltac:(lia) [] I) as H.
  rewrite app_nil_r in H. by rewrite H.
Qed.

(** *** The text of a plain document is made of scalar values *)

Definition ascii (s : jsstring) : Prop := Forall (fun c => 0 <= c < 128) s.

Lemma ascii_scalars s : ascii s -> scalars s.
Proof.
  intros H. eapply Forall_impl; [exact H|]. intros c Hc. simpl in Hc.
  unfold is_scalar, is_surrogate. lia.
Qed.

Lemma decimal_ascii z : ascii (decimal z).
Proof.
  eapply Forall_impl; [apply decimal_chars|]. unfold is_number_char, is_digit. intros c. simpl. lia.
Qed.

Lemma quote_char_scalars c : is_scalar c = true -> scalars (quote_char c).
Proof.
  intros Hc. unfold quote_char.
  repeat (destruct (_ =? _); [by repeat constructor|]).
  destruct ((c <? 32) || is_surrogate c) eqn:E; [|by repeat constructor].
  apply ascii_scalars. unfold hex4.
  assert (Hh : forall d, 0 <= d < 16 -> 0 <= hex_digit d < 128)
    by (intros d Hd; unfold hex_digit; destruct (d <? 10); lia).
  repeat (apply Forall_cons; split; [lia || (apply Hh, Z.mod_pos_bound; lia)|]). constructor.
Qed.

Lemma quote_scalars s : scalars s -> scalars (quote s).
Proof.
  intros Hs. unfold quote, scalars. apply Forall_cons. split; [done|]. apply Forall_app.
  split; [|by repeat constructor]. apply Forall_bind.
  eapply Forall_impl; [exact Hs|]. intros c. apply quote_char_scalars.
Qed.

Lemma join_scalars l : Forall scalars l -> scalars (join l).
Proof.
  induction 1 as [|p l Hp _ IH]; [constructor|]. destruct l as [|q l]; [done|].
  rewrite join_cons by done. apply Forall_app. split; [done|]. apply Forall_cons. done.
Qed.

(** Every string of the document is made of scalar values. *)
Fixpoint texts (j : json) : Prop :=
  match j with
  | JStr s => scalars s
  | JArr l => foldr (fun j P => texts j /\ P) True l
  | JObj l => foldr (fun e P => (scalars e.1 /\ texts e.2) /\ P) True l
  | JNull | JBool _ | JNum _ => True
  end.

Lemma plain_texts j : plain j -> texts j.
Proof.
  induction j as [|b|z|s|l IH|l IH] using json_ind'; try done; simpl.
  - rewrite !foldr_Forall, !Forall_forall. rewrite Forall_forall in IH. auto.
  - rewrite (foldr_Forall (fun e => scalars e.1 /\ plain e.2)), (foldr_Forall (fun e => scalars e.1 /\ texts e.2)).
    rewrite !Forall_forall. rewrite Forall_forall in IH. intros [_ H] e He. destruct (H e He). auto.
Qed.

Lemma stringify_texts j : texts j -> scalars (stringify j).
Proof.
  induction j as [|b|z|s|l IH|l IH] using json_ind'; intros Hj.
  - by apply ascii_scalars; repeat constructor.
  - by apply ascii_scalars; destruct b; repeat constructor.
  - apply ascii_scalars, decimal_ascii.
  - by apply quote_scalars.
  - simpl in *. rewrite foldr_Forall in Hj. apply Forall_cons. split; [done|].
    apply Forall_app. split; [|by repeat constructor].
    apply join_scalars, Forall_fmap. rewrite Forall_forall in *. intros j Hin. by apply IH, Hj.
  - simpl in Hj. rewrite (foldr_Forall (fun e => scalars e.1 /\ texts e.2)) in Hj.
    apply Forall_cons. split; [done|]. apply Forall_app. split; [|by repeat constructor].
    rewrite map_map. apply join_scalars, Forall_fmap. rewrite Forall_forall in *.
    intros e Hin. destruct (Hj e Hin) as [Hk Hv]. cbn [fst snd compose].
    apply Forall_app. split; [by apply quote_scalars|]. apply Forall_cons. split; [done|]. by apply IH.
Qed.

Lemma stringify_scalars j : plain j -> scalars (stringify j).
Proof. intros H. by apply stringify_texts, plain_texts. Qed.

Lemma texts_wf j : texts j -> json_wf j.
Proof.
  assert (Hs : forall s, scalars s -> text_wf s).
  { intros s H. eapply Forall_impl; [exact H|]. intros c. unfold is_scalar. simpl. lia. }
  induction j as [|b|z|s|l IH|l IH] using json_ind'; try done; simpl; [auto| |].
  - rewrite !foldr_Forall, !Forall_forall. rewrite Forall_forall in IH. auto.
  - rewrite (foldr_Forall (fun e => scalars e.1 /\ texts e.2)), (foldr_Forall (fun e => text_wf e.1 /\ json_wf e.2)).
    rewrite !Forall_forall. rewrite Forall_forall in IH. intros H e He. destruct (H e He). auto.
Qed.
