(* ===== verification/Schema.v ===== *)
(** * Schemas

    The checks of the Zod schemas that several components share, as predicates on
    values of the right shape; a value of another shape throws the same
    [ZodError]. *)

From S2P Require Import Prelude JsString.

#[local] Open Scope Z_scope.

Definition ZodError : string := "ZodError".

Definition in_range (lo hi c : Z) : bool := (lo <=? c) && (c <=? hi).
Definition is_alnum (c : Z) : bool := in_range 65 90 c || in_range 97 122 c || in_range 48 57 c.

Definition is_hex (c : Z) : bool := in_range 48 57 c || in_range 97 102 c.

(** "sha256:" and 64 lower-case hexadecimal digits. *)
Definition is_sha256 (s : jsstring) : bool :=
  bool_decide (take 7 s = js "sha256:") && (Z.of_nat (length s) =? 71)
  && forallb is_hex (drop 7 s).

Definition safe_nonneg (z : Z) : bool := (0 <=? z) && (z <=? MAX_SAFE_INTEGER).
Definition safe_positive (z : Z) : bool := (1 <=? z) && (z <=? MAX_SAFE_INTEGER).
