(* ===== verification/Sql.v ===== *)
(** * Tables

    The store keeps its state in SQLite tables.  A table is the list of its
    rows in insertion order; a statement that breaks a PRIMARY KEY, UNIQUE,
    CHECK or REFERENCES constraint throws, and [MeshDatabase.transaction]
    ([src/src/storage/database.ts]) rolls the whole operation back. *)

From S2P Require Import Prelude.

#[local] Open Scope Z_scope.

Definition SQLITE_CONSTRAINT : string := "SQLITE_CONSTRAINT".

Section Table.
Context {R : Type}.

(** [SELECT ... WHERE p] on a key: the first row, if any. *)
Definition select_one (p : R -> bool) (t : list R) : option R := List.find p t.

(** [INSERT]: [conflict row r] when the UNIQUE constraints exclude both rows,
    [check] when the row meets its CHECK and REFERENCES constraints. *)
Definition insert_row (conflict : R -> R -> bool) (check : bool) (row : R) (t : list R)
  : res (list R) :=
  if existsb (conflict row) t || negb check then Err SQLITE_CONSTRAINT else Ok (t ++ [row]).

(** [INSERT OR IGNORE]. *)
Definition insert_or_ignore (conflict : R -> R -> bool) (row : R) (t : list R) : list R :=
  if existsb (conflict row) t then t else t ++ [row].

Lemma insert_row_inv conflict check row t t' :
  insert_row conflict check row t = Ok t' ->
  t' = t ++ [row] /\ existsb (conflict row) t = false /\ check = true.
Proof.
  unfold insert_row. destruct (existsb (conflict row) t), check; simpl; try discriminate.
  intros [= <-]. done.
Qed.

Lemma insert_row_err conflict check row t e :
  insert_row conflict check row t = Err e -> e = SQLITE_CONSTRAINT.
Proof. unfold insert_row. destruct (_ || _); congruence. Qed.

Lemma insert_row_ok conflict check row t :
  Forall (fun r => conflict row r = false) t -> check = true ->
  insert_row conflict check row t = Ok (t ++ [row]).
Proof.
  intros Ht ->. unfold insert_row. destruct (existsb (conflict row) t) eqn:E; [|done].
  apply existsb_exists in E as (r & Hr & E). rewrite Forall_forall in Ht.
  rewrite Ht in E; [done|]. by apply list_elem_of_In.
Qed.

Lemma existsb_false (p : R -> bool) (t : list R) :
  existsb p t = false <-> Forall (fun r => p r = false) t.
Proof.
  induction t as [|r t IH]; simpl; [by split|]. rewrite orb_false_iff, IH, Forall_cons. done.
Qed.

Lemma select_one_Some p t r : select_one p t = Some r -> r ∈ t /\ p r = true.
Proof. intros H. apply List.find_some in H as [H ?]. by rewrite list_elem_of_In. Qed.

Lemma select_one_None p t : select_one p t = None <-> Forall (fun r => p r = false) t.
Proof.
  split.
  - intros H. apply Forall_forall. intros r Hr. apply list_elem_of_In in Hr.
    by eapply List.find_none in H.
  - induction 1 as [|r t Hr _ IH]; simpl; [done|]. by rewrite Hr.
Qed.

Lemma select_one_app p t t' :
  select_one p (t ++ t') = match select_one p t with Some r => Some r | None => select_one p t' end.
Proof. induction t as [|r t IH]; simpl; [done|]. by destruct (p r). Qed.

Lemma select_one_snoc_hit p t r :
  Forall (fun x => p x = false) t -> p r = true -> select_one p (t ++ [r]) = Some r.
Proof.
  intros Ht Hr. rewrite select_one_app. apply select_one_None in Ht as ->. simpl. by rewrite Hr.
Qed.
End Table.
