(* ===== verification/MuxFrame.v ===== *)
(** * Frames of the direct runtime multiplexer

    The wire format of [src/src/transport/direct-runtime-mux.ts]: a 24-byte
    header, the stream id in UTF-8 and the payload, with [encodeFrame],
    [decodeFrame] and the validators they use. *)

From S2P Require Import Prelude JsString.

#[local] Open Scope Z_scope.

(** ** Constants *)

Definition MAGIC : Z := 0x4d594431.
Definition HEADER_BYTES : Z := 24.
Definition DEFAULT_RECEIVE_WINDOW_BYTES : Z := 4 * 1024 * 1024.
Definition DEFAULT_MAX_CHUNK_BYTES : Z := 48 * 1024.
Definition DEFAULT_MAX_STREAMS : Z := 256.
Definition DEFAULT_MAX_PENDING_WRITE_BYTES : Z := 64 * 1024 * 1024.
Definition MAX_STREAM_ID_BYTES : Z := 256.
Definition MAX_METADATA_BYTES : Z := 8 * 1024.
Definition MAX_RESET_REASON_BYTES : Z := 1024.
Definition MAX_CREDIT_BYTES : Z := 64 * 1024 * 1024.

(** ** Data *)

Inductive FrameType := Open | Data | Acknowledge | Close | Reset.

#[export] Instance FrameType_eq_dec : EqDecision FrameType.
Proof. solve_decision. Defined.

Definition frame_code (t : FrameType) : Z :=
  match t with Open => 1 | Data => 2 | Acknowledge => 3 | Close => 4 | Reset => 5 end.

Definition frame_of_code (z : Z) : option FrameType :=
  if z =? 1 then Some Open else if z =? 2 then Some Data
  else if z =? 3 then Some Acknowledge else if z =? 4 then Some Close
  else if z =? 5 then Some Reset else None.

Record RuntimeFrame := Frame {
  type : FrameType;
  streamId : jsstring;
  offset : Z;
  creditBytes : Z;
  payload : bytes;
}.

#[export] Instance RuntimeFrame_eq_dec : EqDecision RuntimeFrame.
Proof. solve_decision. Defined.

(** ** Validators *)

Definition boundedText (value : jsstring) (maximumBytes : Z) (code : string) : res jsstring :=
  let normalized := trim value in
  throw_if (match normalized with [] => true | _ => false end
            || (maximumBytes <? byteLength (utf8_encode normalized))
            || existsb is_control normalized) with code ;;
  Ok normalized.

Definition validateStreamId (value : jsstring) : res jsstring :=
  boundedText value MAX_STREAM_ID_BYTES "direct_mux_stream_id_is_invalid".

Definition boundedInteger (value : num) (minimum maximum : Z) (code : string) : res Z :=
  match value with
  | NInt z =>
      throw_if (negb (is_safe z) || (z <? minimum) || (maximum <? z)) with code ;; Ok z
  | NFrac => Err code
  end.

Definition maximumPayload (t : FrameType) (maximumChunkBytes : Z) : Z :=
  match t with
  | Data => maximumChunkBytes
  | Open => MAX_METADATA_BYTES
  | Reset => MAX_RESET_REASON_BYTES
  | Acknowledge | Close => 0
  end.

(** ** Encoder and decoder *)

Definition encode_header (t : FrameType) (idBytes off credit payloadBytes : Z) : bytes :=
  be_write 4 MAGIC ++ be_write 1 (frame_code t) ++ be_write 1 0
  ++ be_write 2 idBytes ++ be_write 8 off ++ be_write 4 credit
  ++ be_write 4 payloadBytes.

Definition encodeFrame (frame : RuntimeFrame) (maximumChunkBytes : Z) : res bytes :=
  let? normalized := validateStreamId (streamId frame) in
  let id := utf8_encode normalized in
  throw_if (MAX_STREAM_ID_BYTES <? byteLength id)
    with "direct_mux_stream_id_is_too_large" ;;
  throw_if (negb (is_safe (offset frame)) || (offset frame <? 0))
    with "direct_mux_frame_offset_is_invalid" ;;
  throw_if (negb (is_safe (creditBytes frame)) || (creditBytes frame <? 0)
            || (MAX_CREDIT_BYTES <? creditBytes frame))
    with "direct_mux_frame_credit_is_invalid" ;;
  throw_if (maximumPayload (type frame) maximumChunkBytes <? byteLength (payload frame))
    with "direct_mux_frame_payload_is_invalid" ;;
  Ok (encode_header (type frame) (byteLength id) (offset frame) (creditBytes frame)
        (byteLength (payload frame)) ++ id ++ payload frame).

Definition decodeFrame (value : bytes) (maximumChunkBytes : Z) : res RuntimeFrame :=
  throw_if (byteLength value <? HEADER_BYTES) with "direct_mux_frame_is_truncated" ;;
  throw_if (negb (be_read (subarray value 0 4) =? MAGIC))
    with "direct_mux_frame_magic_is_invalid" ;;
  match frame_of_code (be_read (subarray value 4 5)) with
  | None => Err "direct_mux_frame_type_is_invalid"
  | Some t =>
      throw_if (negb (be_read (subarray value 5 6) =? 0))
        with "direct_mux_frame_type_is_invalid" ;;
      let streamIdBytes := be_read (subarray value 6 8) in
      let off := be_read (subarray value 8 16) in
      let credit := be_read (subarray value 16 20) in
      let payloadBytes := be_read (subarray value 20 24) in
      throw_if ((streamIdBytes <? 1) || (MAX_STREAM_ID_BYTES <? streamIdBytes)
                || negb (is_safe off)
                || negb (HEADER_BYTES + streamIdBytes + payloadBytes =? byteLength value))
        with "direct_mux_frame_shape_is_invalid" ;;
      let? id := validateStreamId
        (utf8_decode (subarray value HEADER_BYTES (HEADER_BYTES + streamIdBytes))) in
      let frame := Frame t id off credit
        (drop (Z.to_nat (HEADER_BYTES + streamIdBytes)) value) in
      let? _ := encodeFrame frame maximumChunkBytes in
      Ok frame
  end.

(** ** Normalisation *)

Lemma boundedText_inv (s t : jsstring) (n : Z) (code : string) :
  boundedText s n code = Ok t ->
  t = trim s /\ t <> [] /\ byteLength (utf8_encode t) <= n
  /\ existsb is_control t = false.
Proof.
  unfold boundedText. intros H. inv_step H. bool_prop.
  split_and!; [done| |done|done].
  intros Ht. rewrite Ht in *. done.
Qed.

(** A text that passed validation passes it again unchanged. *)
Lemma boundedText_idem (s t : jsstring) (n : Z) (code : string) :
  boundedText s n code = Ok t -> boundedText t n code = Ok t.
Proof.
  intros H. assert (H' := H). apply boundedText_inv in H as (-> & _).
  unfold boundedText in *. by rewrite (trim_id (trim s)) by apply trim_is_trimmed.
Qed.

Lemma utf8_char_length (c : Z) : 1 <= byteLength (utf8_char c).
Proof.
  unfold utf8_char, utf8_scalar.
  repeat case_match; unfold byteLength; simpl; lia.
Qed.

Lemma utf8_encode_length (s : jsstring) :
  s <> [] -> 1 <= byteLength (utf8_encode s).
Proof.
  destruct s as [|c s]; [done|]. intros _. simpl. rewrite byteLength_app.
  pose proof (utf8_char_length c). pose proof (byteLength_nonneg (utf8_encode s)).
  unfold utf8_encode in *. lia.
Qed.

(** ** The codec *)

Section Header.
Context (t : FrameType) (n off credit p : Z) (rest : bytes).
Let h := encode_header t n off credit p.

Lemma header_magic : subarray (h ++ rest) 0 4 = be_write 4 MAGIC.
Proof. reflexivity. Qed.
Lemma header_type : subarray (h ++ rest) 4 5 = be_write 1 (frame_code t).
Proof. reflexivity. Qed.
Lemma header_zero : subarray (h ++ rest) 5 6 = be_write 1 0.
Proof. reflexivity. Qed.
Lemma header_id : subarray (h ++ rest) 6 8 = be_write 2 n.
Proof. reflexivity. Qed.
Lemma header_offset : subarray (h ++ rest) 8 16 = be_write 8 off.
Proof. reflexivity. Qed.
Lemma header_credit : subarray (h ++ rest) 16 20 = be_write 4 credit.
Proof. reflexivity. Qed.
Lemma header_payload : subarray (h ++ rest) 20 24 = be_write 4 p.
Proof. reflexivity. Qed.
Lemma header_length : length h = 24%nat.
Proof. reflexivity. Qed.
End Header.

Lemma frame_of_frame_code (t : FrameType) : frame_of_code (frame_code t) = Some t.
Proof. by destruct t. Qed.

Lemma maximumPayload_bound (t : FrameType) (m : Z) :
  m <= 60 * 1024 -> maximumPayload t m <= 60 * 1024.
Proof. destruct t; simpl; unfold MAX_METADATA_BYTES, MAX_RESET_REASON_BYTES; lia. Qed.

(** What the encoder has checked when it accepts a frame. *)
Lemma encodeFrame_inv (f : RuntimeFrame) (m : Z) (b : bytes) :
  encodeFrame f m = Ok b ->
  let id := trim (streamId f) in
  validateStreamId (streamId f) = Ok id
  /\ 1 <= byteLength (utf8_encode id) <= MAX_STREAM_ID_BYTES
  /\ 0 <= offset f <= MAX_SAFE_INTEGER
  /\ 0 <= creditBytes f <= MAX_CREDIT_BYTES
  /\ byteLength (payload f) <= maximumPayload (type f) m
  /\ b = encode_header (type f) (byteLength (utf8_encode id)) (offset f)
           (creditBytes f) (byteLength (payload f)) ++ utf8_encode id ++ payload f.
Proof.
  unfold encodeFrame. destruct (validateStreamId (streamId f)) as [id|] eqn:Hid; [|done].
  intros H. inv_step H. bool_prop.
  assert (Hi := Hid). apply boundedText_inv in Hi as (-> & Hne & Hle & _).
  repeat match goal with H : is_safe _ = true |- _ => apply is_safe_spec in H end.
  pose proof (utf8_encode_length _ Hne).
  split_and!; try done; lia.
Qed.

Lemma frame_id_part (h u p : bytes) :
  length h = 24%nat -> subarray (h ++ u ++ p) 24 (24 + byteLength u) = u.
Proof.
  intros Hh. unfold subarray.
  replace (Z.to_nat 24) with (length h) by lia. rewrite drop_app_length.
  replace (Z.to_nat (24 + byteLength u - 24)) with (length u)
    by (unfold byteLength; lia).
  apply take_app_length.
Qed.

Lemma frame_payload_part (h u p : bytes) :
  length h = 24%nat -> drop (Z.to_nat (24 + byteLength u)) (h ++ u ++ p) = p.
Proof.
  intros Hh. rewrite app_assoc.
  replace (Z.to_nat (24 + byteLength u)) with (length (h ++ u))
    by (rewrite length_app; unfold byteLength; lia).
  apply drop_app_length.
Qed.

Lemma frame_total_length (h u p : bytes) :
  length h = 24%nat -> byteLength (h ++ u ++ p) = 24 + byteLength u + byteLength p.
Proof. intros Hh. rewrite !byteLength_app. unfold byteLength at 1. lia. Qed.

(** Decoding an encoded frame gives it back, its stream id normalised, for
    every frame the encoder accepts whose id has no lone surrogate. *)
Lemma decode_encode (f : RuntimeFrame) (m : Z) (b : bytes) :
  m <= 60 * 1024 ->
  Forall (fun c => is_scalar c = true) (trim (streamId f)) ->
  encodeFrame f m = Ok b ->
  decodeFrame b m = Ok (Frame (type f) (trim (streamId f)) (offset f) (creditBytes f)
                          (payload f)).
Proof.
  intros Hm Hsc He. assert (He' := He).
  apply encodeFrame_inv in He as (Hid & Hlen & Hoff & Hcr & Hpay & ->).
  pose proof (maximumPayload_bound (type f) m Hm).
  pose proof (byteLength_nonneg (payload f)).
  assert (Hid2 : validateStreamId (trim (streamId f)) = Ok (trim (streamId f)))
    by (eapply boundedText_idem; exact Hid).
  unfold MAX_STREAM_ID_BYTES, MAX_CREDIT_BYTES, MAX_SAFE_INTEGER in *.
  set (id := trim (streamId f)) in *. set (u := utf8_encode id) in *.
  unfold decodeFrame.
  rewrite header_magic, header_type, header_zero, header_id, header_offset,
    header_credit, header_payload.
  rewrite !be_read_write_small by (unfold MAGIC; destruct (type f); simpl; lia).
  rewrite frame_of_frame_code, frame_total_length by reflexivity.
  unfold HEADER_BYTES, MAX_STREAM_ID_BYTES.
  replace (is_safe (offset f)) with true
    by (symmetry; apply is_safe_spec; unfold MAX_SAFE_INTEGER; lia).
  rewrite !Z.eqb_refl, !(proj2 (Z.ltb_ge _ _)) by lia. cbn [negb orb Z.eqb].
  rewrite frame_id_part by reflexivity. unfold u at 1.
  rewrite utf8_round_trip by done. rewrite Hid2, frame_payload_part by reflexivity.
  unfold encodeFrame in He' |- *. cbn [streamId type offset creditBytes payload].
  rewrite Hid2. rewrite Hid in He'. fold u in He' |- *.
  repeat (case_match; [done|]). done.
Qed.

(** A decoded frame is one the encoder accepts: normalised id, safe offset,
    bounded credit and payload, and the frame length is exactly accounted for. *)
Lemma decodeFrame_inv (b : bytes) (m : Z) (f : RuntimeFrame) :
  decodeFrame b m = Ok f ->
  is_ok (encodeFrame f m) = true
  /\ streamId f = trim (streamId f)
  /\ 0 <= offset f <= MAX_SAFE_INTEGER
  /\ 0 <= creditBytes f <= MAX_CREDIT_BYTES
  /\ byteLength (payload f) <= maximumPayload (type f) m.
Proof.
  unfold decodeFrame. intros H. inv_step H.
  match goal with E : encodeFrame _ _ = Ok _ |- _ => rename E into He end.
  match goal with E : validateStreamId _ = Ok _ |- _ => rename E into Hv end.
  split; [by rewrite He|].
  apply encodeFrame_inv in He as (_ & _ & ? & ? & ? & _). cbn in *.
  split_and!; try lia. apply boundedText_inv in Hv as (-> & _).
  symmetry. apply trim_id, trim_is_trimmed.
Qed.

(**  The wire format: a frame the encoder accepts decodes to
    itself (with its stream id trimmed), and a decoded frame has a normalised id,
    a safe offset, a bounded credit and a payload within its type's limit, so
    that it can be encoded again. *)
Theorem mux_frame_round_trip (m : Z) :
  m <= 60 * 1024 ->
  (forall f b, Forall (fun c => is_scalar c = true) (trim (streamId f)) ->
     encodeFrame f m = Ok b ->
     decodeFrame b m = Ok (Frame (type f) (trim (streamId f)) (offset f) (creditBytes f)
                             (payload f)))
  /\ (forall f b, decodeFrame b m = Ok f ->
     is_ok (encodeFrame f m) = true /\ streamId f = trim (streamId f)
     /\ 0 <= offset f <= MAX_SAFE_INTEGER /\ 0 <= creditBytes f <= MAX_CREDIT_BYTES
     /\ byteLength (payload f) <= maximumPayload (type f) m).
Proof.
  intros Hm. split; intros f b.
  - by apply decode_encode.
  - apply decodeFrame_inv.
Qed.
