(* ===== verification/Mux.v ===== *)
(** * The direct runtime multiplexer

    [DirectRuntimeMux] of [src/src/transport/direct-runtime-mux.ts]: resumable
    byte streams with per-stream credit over one authenticated channel.

    Stream objects are shared by reference between the stream table, the
    callers and the suspended async functions, so they live in a [heap] and a
    reference is an index into it; an entry of [streams] maps an id to a
    reference, and a reference may outlive its entry.

    Each async function is cut at its [await]s.  The part that runs at once is
    a function on the mux; what remains is a continuation in [conts], and
    [resume] runs it when the awaited promise settles.  Continuations may be
    resumed in any order: every interleaving JavaScript allows is one of the
    model's.  What the mux does to the outside (events emitted, frames handed to
    the channel, chunks handed to a data handler) is recorded in [trace].
    Listeners and data handlers are application code: what they do to the mux
    is a later input. *)

From S2P Require Import Prelude JsString JsMap MuxFrame.

#[local] Open Scope Z_scope.

(** ** Data *)

Inductive error := ECode (code : string) | EText (text : jsstring).

Record PendingWrite := Write { w_data : bytes; w_offset : Z }.
Record IncomingChunk := Chunk { c_offset : Z; c_data : bytes }.

Record StreamState := State {
  sid : jsstring;
  metadata : bytes;
  localOpened : bool;
  remoteOpened : bool;
  localClosed : bool;
  remoteClosed : bool;
  sendOffset : Z;
  acknowledgedOffset : Z;
  receiveOffset : Z;
  sendCreditBytes : Z;
  receiveBufferedBytes : Z;
  pendingWriteBytes : Z;
  pendingWrites : list PendingWrite;
  incoming : list IncomingChunk;
  drainingIncoming : bool;
  handler : bool;
}.

(** Setters of the fields the code assigns. *)

Definition set_remoteOpened (v : bool) (s : StreamState) : StreamState :=
  State (sid s) (metadata s) (localOpened s) v (localClosed s) (remoteClosed s)
    (sendOffset s) (acknowledgedOffset s) (receiveOffset s) (sendCreditBytes s)
    (receiveBufferedBytes s) (pendingWriteBytes s) (pendingWrites s) (incoming s)
    (drainingIncoming s) (handler s).
Definition set_localClosed (v : bool) (s : StreamState) : StreamState :=
  State (sid s) (metadata s) (localOpened s) (remoteOpened s) v (remoteClosed s)
    (sendOffset s) (acknowledgedOffset s) (receiveOffset s) (sendCreditBytes s)
    (receiveBufferedBytes s) (pendingWriteBytes s) (pendingWrites s) (incoming s)
    (drainingIncoming s) (handler s).
Definition set_remoteClosed (v : bool) (s : StreamState) : StreamState :=
  State (sid s) (metadata s) (localOpened s) (remoteOpened s) (localClosed s) v
    (sendOffset s) (acknowledgedOffset s) (receiveOffset s) (sendCreditBytes s)
    (receiveBufferedBytes s) (pendingWriteBytes s) (pendingWrites s) (incoming s)
    (drainingIncoming s) (handler s).
Definition set_sendOffset (v : Z) (s : StreamState) : StreamState :=
  State (sid s) (metadata s) (localOpened s) (remoteOpened s) (localClosed s)
    (remoteClosed s) v (acknowledgedOffset s) (receiveOffset s) (sendCreditBytes s)
    (receiveBufferedBytes s) (pendingWriteBytes s) (pendingWrites s) (incoming s)
    (drainingIncoming s) (handler s).
Definition set_acknowledgedOffset (v : Z) (s : StreamState) : StreamState :=
  State (sid s) (metadata s) (localOpened s) (remoteOpened s) (localClosed s)
    (remoteClosed s) (sendOffset s) v (receiveOffset s) (sendCreditBytes s)
    (receiveBufferedBytes s) (pendingWriteBytes s) (pendingWrites s) (incoming s)
    (drainingIncoming s) (handler s).
Definition set_receiveOffset (v : Z) (s : StreamState) : StreamState :=
  State (sid s) (metadata s) (localOpened s) (remoteOpened s) (localClosed s)
    (remoteClosed s) (sendOffset s) (acknowledgedOffset s) v (sendCreditBytes s)
    (receiveBufferedBytes s) (pendingWriteBytes s) (pendingWrites s) (incoming s)
    (drainingIncoming s) (handler s).
Definition set_sendCreditBytes (v : Z) (s : StreamState) : StreamState :=
  State (sid s) (metadata s) (localOpened s) (remoteOpened s) (localClosed s)
    (remoteClosed s) (sendOffset s) (acknowledgedOffset s) (receiveOffset s) v
    (receiveBufferedBytes s) (pendingWriteBytes s) (pendingWrites s) (incoming s)
    (drainingIncoming s) (handler s).
Definition set_receiveBufferedBytes (v : Z) (s : StreamState) : StreamState :=
  State (sid s) (metadata s) (localOpened s) (remoteOpened s) (localClosed s)
    (remoteClosed s) (sendOffset s) (acknowledgedOffset s) (receiveOffset s)
    (sendCreditBytes s) v (pendingWriteBytes s) (pendingWrites s) (incoming s)
    (drainingIncoming s) (handler s).
Definition set_pendingWriteBytes (v : Z) (s : StreamState) : StreamState :=
  State (sid s) (metadata s) (localOpened s) (remoteOpened s) (localClosed s)
    (remoteClosed s) (sendOffset s) (acknowledgedOffset s) (receiveOffset s)
    (sendCreditBytes s) (receiveBufferedBytes s) v (pendingWrites s) (incoming s)
    (drainingIncoming s) (handler s).
Definition set_pendingWrites (v : list PendingWrite) (s : StreamState) : StreamState :=
  State (sid s) (metadata s) (localOpened s) (remoteOpened s) (localClosed s)
    (remoteClosed s) (sendOffset s) (acknowledgedOffset s) (receiveOffset s)
    (sendCreditBytes s) (receiveBufferedBytes s) (pendingWriteBytes s) v (incoming s)
    (drainingIncoming s) (handler s).
Definition set_incoming (v : list IncomingChunk) (s : StreamState) : StreamState :=
  State (sid s) (metadata s) (localOpened s) (remoteOpened s) (localClosed s)
    (remoteClosed s) (sendOffset s) (acknowledgedOffset s) (receiveOffset s)
    (sendCreditBytes s) (receiveBufferedBytes s) (pendingWriteBytes s) (pendingWrites
    s) v (drainingIncoming s) (handler s).
Definition set_drainingIncoming (v : bool) (s : StreamState) : StreamState :=
  State (sid s) (metadata s) (localOpened s) (remoteOpened s) (localClosed s)
    (remoteClosed s) (sendOffset s) (acknowledgedOffset s) (receiveOffset s)
    (sendCreditBytes s) (receiveBufferedBytes s) (pendingWriteBytes s) (pendingWrites
    s) (incoming s) v (handler s).
Definition set_handler (v : bool) (s : StreamState) : StreamState :=
  State (sid s) (metadata s) (localOpened s) (remoteOpened s) (localClosed s)
    (remoteClosed s) (sendOffset s) (acknowledgedOffset s) (receiveOffset s)
    (sendCreditBytes s) (receiveBufferedBytes s) (pendingWriteBytes s) (pendingWrites
    s) (incoming s) (drainingIncoming s) v.

Record mux_limits := Limits {
  receiveWindowBytes : Z;
  maximumChunkBytes : Z;
  maximumStreams : Z;
  maximumPendingWriteBytes : Z;
}.

(** What a suspended async function still has to do. *)
Inductive cont :=
| KPump                                        (* pump, at await channel.send *)
| KDrainHandler (ref : nat) (chunk : IncomingChunk)  (* drainIncoming, at await handler *)
| KDrainAck (ref : nat)                        (* drainIncoming, at await queueAcknowledgement *)
| KDrainReset (ref target : nat) (reason : jsstring) (chunk : IncomingChunk)
                                               (* drainIncoming, at await resetStream *)
| KReset (target : nat) (reason : jsstring)    (* resetStream, at await queueFrame *)
| KCloseStream (ref : nat)                     (* closeStream, at await queueFrame *)
| KMuxClose.                                   (* close, at await channel.close *)

Inductive event :=
| EvStream (ref : nat)
| EvEnd (ref : nat)
| EvReset (ref : nat) (e : error)
| EvError (ref : nat) (e : error)
| EvMuxError (e : error)
| EvMuxClose
| EvSend (frame : bytes)
| EvDeliver (ref : nat) (data : bytes) (at_ : Z)
| EvWriteRejected (ref : nat) (at_ : Z) (e : error)
| EvChannelClose.

Record mux := Mux {
  heap : list StreamState;
  streams : list (jsstring * nat);
  controlFrames : list bytes;
  dataFrames : list (jsstring * list bytes);
  dataRoundRobin : list jsstring;
  pumping : bool;
  closed : bool;
  conts : list cont;
  trace : list event;
}.

Definition set_heap (v : list StreamState) (m : mux) : mux :=
  Mux v (streams m) (controlFrames m) (dataFrames m) (dataRoundRobin m) (pumping m)
    (closed m) (conts m) (trace m).
Definition set_streams (v : list (jsstring * nat)) (m : mux) : mux :=
  Mux (heap m) v (controlFrames m) (dataFrames m) (dataRoundRobin m) (pumping m)
    (closed m) (conts m) (trace m).
Definition set_controlFrames (v : list bytes) (m : mux) : mux :=
  Mux (heap m) (streams m) v (dataFrames m) (dataRoundRobin m) (pumping m) (closed m)
    (conts m) (trace m).
Definition set_dataFrames (v : list (jsstring * list bytes)) (m : mux) : mux :=
  Mux (heap m) (streams m) (controlFrames m) v (dataRoundRobin m) (pumping m) (closed
    m) (conts m) (trace m).
Definition set_dataRoundRobin (v : list jsstring) (m : mux) : mux :=
  Mux (heap m) (streams m) (controlFrames m) (dataFrames m) v (pumping m) (closed m)
    (conts m) (trace m).
Definition set_pumping (v : bool) (m : mux) : mux :=
  Mux (heap m) (streams m) (controlFrames m) (dataFrames m) (dataRoundRobin m) v
    (closed m) (conts m) (trace m).
Definition set_closed (v : bool) (m : mux) : mux :=
  Mux (heap m) (streams m) (controlFrames m) (dataFrames m) (dataRoundRobin m)
    (pumping m) v (conts m) (trace m).
Definition set_conts (v : list cont) (m : mux) : mux :=
  Mux (heap m) (streams m) (controlFrames m) (dataFrames m) (dataRoundRobin m)
    (pumping m) (closed m) v (trace m).
Definition set_trace (v : list event) (m : mux) : mux :=
  Mux (heap m) (streams m) (controlFrames m) (dataFrames m) (dataRoundRobin m)
    (pumping m) (closed m) (conts m) v.

Definition empty_mux : mux := Mux [] [] [] [] [] false false [] [].

Definition emit (e : event) (m : mux) : mux := set_trace (trace m ++ [e]) m.
Definition suspend (k : cont) (m : mux) : mux := set_conts (conts m ++ [k]) m.

(** Mutation of a stream object. *)
Definition upd (ref : nat) (f : StreamState -> StreamState) (m : mux) : mux :=
  set_heap (alter f ref (heap m)) m.

Definition nonempty {A} (l : list A) : bool :=
  match l with [] => false | _ => true end.

(** ** Construction *)

Record mux_options := Options {
  o_receiveWindowBytes : option num;
  o_maximumChunkBytes : option num;
  o_maximumStreams : option num;
  o_maximumPendingWriteBytes : option num;
}.

Definition or_default (o : option num) (d : Z) : num :=
  match o with Some n => n | None => NInt d end.

(** The constructor's validation of its options. *)
Definition mux_new (options : mux_options) : res mux_limits :=
  let? window := boundedInteger
    (or_default (o_receiveWindowBytes options) DEFAULT_RECEIVE_WINDOW_BYTES)
    1024 (64 * 1024 * 1024) "direct_mux_receive_window_is_invalid" in
  let? chunk := boundedInteger
    (or_default (o_maximumChunkBytes options) DEFAULT_MAX_CHUNK_BYTES)
    256 (60 * 1024) "direct_mux_chunk_limit_is_invalid" in
  let? streams := boundedInteger
    (or_default (o_maximumStreams options) DEFAULT_MAX_STREAMS)
    1 4096 "direct_mux_stream_limit_is_invalid" in
  let? pending := boundedInteger
    (or_default (o_maximumPendingWriteBytes options) DEFAULT_MAX_PENDING_WRITE_BYTES)
    1024 (64 * 1024 * 1024) "direct_mux_pending_write_limit_is_invalid" in
  Ok (Limits window chunk streams pending).

Definition createState (id : jsstring) (meta : bytes) (localOpened remoteOpened : bool)
  : StreamState :=
  State id meta localOpened remoteOpened false false 0 0 0 0 0 0 [] [] false false.

(** ** The frame queues and the pump *)

(** The loop of [nextDataFrame]: the entries of the round robin that have no
    frame are dropped until one has. *)
Fixpoint next_data (rr : list jsstring) (df : list (jsstring * list bytes))
  : option bytes * list jsstring * list (jsstring * list bytes) :=
  match rr with
  | [] => (None, [], df)
  | id :: rr' =>
      match map_get df id with
      | Some (frame :: queue) =>
          if nonempty queue then (Some frame, rr' ++ [id], map_set df id queue)
          else (Some frame, rr', map_delete df id)
      | Some [] | None => next_data rr' (map_delete df id)
      end
  end.

Definition nextDataFrame (m : mux) : option bytes * mux :=
  let '(frame, rr, df) := next_data (dataRoundRobin m) (dataFrames m) in
  (frame, set_dataRoundRobin rr (set_dataFrames df m)).

(** [this.controlFrames.shift() ?? this.nextDataFrame()]. *)
Definition take_frame (m : mux) : option bytes * mux :=
  match controlFrames m with
  | frame :: rest => (Some frame, set_controlFrames rest m)
  | [] => nextDataFrame m
  end.

Definition has_frames (m : mux) : bool :=
  nonempty (controlFrames m) || (0 <? map_size (dataFrames m)).

(** One turn of the loop of [pump]: up to the next [await], or to the end of
    the function.  The re-entrant call in [finally] takes [fuel]. *)
Fixpoint pump_loop (fuel : nat) (m : mux) : mux :=
  let finally_ m :=
    let m := set_pumping false m in
    if negb (closed m) && has_frames m then
      match fuel with
      | O => m
      | S fuel' => pump_loop fuel' (set_pumping true m)
      end
    else m in
  if closed m then finally_ m
  else match take_frame m with
       | (Some frame, m') => suspend KPump (emit (EvSend frame) m')
       | (None, m') => finally_ m'
       end.

Definition pump (m : mux) : mux :=
  if pumping m || closed m then m else pump_loop 1 (set_pumping true m).

Definition push_data (id : jsstring) (encoded : bytes) (m : mux) : mux :=
  match map_get (dataFrames m) id with
  | Some queue => set_dataFrames (map_set (dataFrames m) id (queue ++ [encoded])) m
  | None =>
      set_dataRoundRobin (dataRoundRobin m ++ [id])
        (set_dataFrames (map_set (dataFrames m) id [encoded]) m)
  end.

(** ** Streams *)

(** [this.dataRoundRobin.splice(index, 1)] at the first index of the id. *)
Fixpoint remove_first (id : jsstring) (l : list jsstring) : list jsstring :=
  match l with
  | [] => []
  | x :: l' => if decide (x = id) then l' else x :: remove_first id l'
  end.

Definition drop_queue (id : jsstring) (m : mux) : mux :=
  set_dataRoundRobin (remove_first id (dataRoundRobin m))
    (set_dataFrames (map_delete (dataFrames m) id) m).

Definition failStream (ref : nat) (e : error) (m : mux) : mux :=
  match heap m !! ref with
  | None => m
  | Some st =>
      if negb (map_has (streams m) (sid st)) then m
      else
        let m := set_streams (map_delete (streams m) (sid st)) m in
        let m := foldl (fun m w => emit (EvWriteRejected ref (w_offset w) e) m) m
                   (pendingWrites st) in
        let m := upd ref (fun s =>
          set_receiveBufferedBytes 0 (set_incoming [] (set_pendingWriteBytes 0
            (set_pendingWrites [] (set_remoteClosed true (set_localClosed true s)))))) m in
        let m := drop_queue (sid st) m in
        emit (EvError ref e) (emit (EvReset ref e) m)
  end.

Definition failStreams (e : error) (m : mux) : mux :=
  foldl (fun m ref => failStream ref e m) m (map_values (streams m)).

Definition fail (e : error) (m : mux) : mux :=
  if closed m then m
  else emit EvMuxClose (emit (EvMuxError e) (failStreams e (set_closed true m))).

Definition collectStream (ref : nat) (m : mux) : mux :=
  match heap m !! ref with
  | None => m
  | Some st =>
      if localClosed st && remoteClosed st && negb (nonempty (pendingWrites st))
         && (receiveBufferedBytes st =? 0)
      then drop_queue (sid st) (set_streams (map_delete (streams m) (sid st)) m)
      else m
  end.

(** The reason sent when a stream is refused for capacity,
    ["direct_mux_stream_capacity_exceeded"]. *)
Definition capacity_exceeded_text : jsstring :=
  map (fun a => Z.of_nat (Ascii.nat_of_ascii a))
    (String.list_ascii_of_string "direct_mux_stream_capacity_exceeded").

Section WithLimits.
Context (lim : mux_limits).

Definition ensureOpen : SE mux unit :=
  let! c := se_gets closed in
  fail_if c with "direct_mux_is_closed" ;; se_ret tt.

Definition requiredStream (id : jsstring) : SE mux (nat * StreamState) :=
  let! id := se_lift (validateStreamId id) in
  let! m := se_get in
  match map_get (streams m) id with
  | None => se_throw "direct_mux_stream_not_found"
  | Some ref =>
      match heap m !! ref with
      | Some st => se_ret (ref, st)
      | None => se_throw "direct_mux_stream_not_found"
      end
  end.

Definition queueFrame (frame : RuntimeFrame) (control : bool) : SE mux unit :=
  do! ensureOpen ;;
  let! encoded := se_lift (encodeFrame frame (maximumChunkBytes lim)) in
  do! se_modify (fun m =>
    if control then set_controlFrames (controlFrames m ++ [encoded]) m
    else push_data (streamId frame) encoded m) ;;
  se_modify pump.

Definition queueAcknowledgement (st : StreamState) (credit : Z) : SE mux unit :=
  queueFrame (Frame Acknowledge (sid st) (receiveOffset st) credit []) true.

(** The loop of [flushWrites] over the pending writes of a stream. *)
Fixpoint flush_loop (ref : nat) (ws : list PendingWrite) : SE mux unit :=
  match ws with
  | [] => se_ret tt
  | next :: ws' =>
      let! h := se_gets heap in
      match h !! ref with
      | None => se_ret tt
      | Some st =>
          if sendCreditBytes st <? byteLength (w_data next) then se_ret tt
          else
            do! se_modify (upd ref (fun s =>
              set_sendCreditBytes (sendCreditBytes s - byteLength (w_data next))
                (set_pendingWriteBytes (pendingWriteBytes s - byteLength (w_data next))
                  (set_pendingWrites ws' s)))) ;;
            do! queueFrame (Frame Data (sid st) (w_offset next) 0 (w_data next)) false ;;
            flush_loop ref ws'
      end
  end.

Definition flushWrites (ref : nat) : SE mux unit :=
  let! m := se_get in
  match heap m !! ref with
  | None => se_ret tt
  | Some st =>
      if closed m || negb (remoteOpened st) then se_ret tt
      else flush_loop ref (pendingWrites st)
  end.

(** *** Receiving *)

(** The part of [drainIncoming] from the test of its loop: the next chunk goes
    to the handler, or the loop ends and a closed stream is collected. *)
Definition drain_loop (ref : nat) (m : mux) : mux :=
  match heap m !! ref with
  | None => m
  | Some st =>
      match incoming st with
      | chunk :: rest =>
          suspend (KDrainHandler ref chunk)
            (emit (EvDeliver ref (c_data chunk) (c_offset chunk))
              (upd ref (set_incoming rest) m))
      | [] =>
          let m := if remoteClosed st && (receiveBufferedBytes st =? 0)
                   then collectStream ref (emit (EvEnd ref) m) else m in
          upd ref (set_drainingIncoming false) m
      end
  end.

Definition scheduleIncomingDrain (ref : nat) (m : mux) : mux :=
  match heap m !! ref with
  | None => m
  | Some st =>
      if drainingIncoming st || negb (handler st) then m
      else drain_loop ref (upd ref (set_drainingIncoming true) m)
  end.

Definition receiveOpen (frame : RuntimeFrame) : SE mux unit :=
  fail_if (negb (offset frame =? 0) || (creditBytes frame <? 1))
    with "direct_mux_open_frame_is_invalid" ;;
  let! m := se_get in
  fail_if (map_has (streams m) (streamId frame))
    with "direct_mux_stream_is_duplicate" ;;
  if maximumStreams lim <=? map_size (streams m) then
    queueFrame (Frame Reset (streamId frame) 0 0
      (utf8_encode (capacity_exceeded_text))) true
  else
    let ref := length (heap m) in
    let st := set_sendCreditBytes (creditBytes frame)
                (createState (streamId frame) (payload frame) false true) in
    do! se_modify (fun m => set_streams (map_set (streams m) (sid st) ref)
                              (set_heap (heap m ++ [st]) m)) ;;
    do! queueFrame (Frame Acknowledge (sid st) 0 (receiveWindowBytes lim) []) true ;;
    se_modify (emit (EvStream ref)).

Definition receiveData (frame : RuntimeFrame) : SE mux unit :=
  fail_if (negb (creditBytes frame =? 0) || (byteLength (payload frame) <? 1))
    with "direct_mux_data_frame_is_invalid" ;;
  let! '(ref, st) := requiredStream (streamId frame) in
  fail_if (remoteClosed st) with "direct_mux_data_after_close" ;;
  let endOffset := offset frame + byteLength (payload frame) in
  if offset frame <? receiveOffset st then
    if endOffset <=? receiveOffset st then queueAcknowledgement st 0
    else se_throw "direct_mux_overlapping_replay"
  else
    let queuedEnd := receiveOffset st + receiveBufferedBytes st in
    fail_if (negb (offset frame =? queuedEnd))
      with "direct_mux_receive_offset_mismatch" ;;
    fail_if (receiveWindowBytes lim
             <? receiveBufferedBytes st + byteLength (payload frame))
      with "direct_mux_receive_window_exceeded" ;;
    do! se_modify (upd ref (fun s =>
      set_incoming (incoming s ++ [Chunk (offset frame) (payload frame)])
        (set_receiveBufferedBytes
          (receiveBufferedBytes s + byteLength (payload frame)) s))) ;;
    se_modify (scheduleIncomingDrain ref).

Definition receiveAcknowledgement (frame : RuntimeFrame) : SE mux unit :=
  fail_if (negb (byteLength (payload frame) =? 0) || (creditBytes frame <? 0))
    with "direct_mux_ack_frame_is_invalid" ;;
  let! '(ref, st) := requiredStream (streamId frame) in
  fail_if ((offset frame <? acknowledgedOffset st) || (sendOffset st <? offset frame))
    with "direct_mux_ack_offset_is_invalid" ;;
  let credit := sendCreditBytes st + creditBytes frame in
  do! se_modify (upd ref (fun s =>
    set_sendCreditBytes credit
      (set_acknowledgedOffset (offset frame)
        (if localOpened s && negb (remoteOpened s) && (offset frame =? 0)
         then set_remoteOpened true s else s)))) ;;
  fail_if (receiveWindowBytes lim <? credit) with "direct_mux_credit_overflow" ;;
  flushWrites ref.

Definition receiveClose (frame : RuntimeFrame) : SE mux unit :=
  fail_if (negb (creditBytes frame =? 0) || negb (byteLength (payload frame) =? 0))
    with "direct_mux_close_frame_is_invalid" ;;
  let! '(ref, st) := requiredStream (streamId frame) in
  fail_if (negb (offset frame =? receiveOffset st + receiveBufferedBytes st))
    with "direct_mux_close_offset_is_invalid" ;;
  do! se_modify (upd ref (set_remoteClosed true)) ;;
  if receiveBufferedBytes st =? 0 then
    se_modify (fun m => collectStream ref (emit (EvEnd ref) m))
  else se_ret tt.

Definition receiveReset (frame : RuntimeFrame) : SE mux unit :=
  let! m := se_get in
  match map_get (streams m) (streamId frame) with
  | None => se_ret tt
  | Some ref =>
      let text := utf8_decode (payload frame) in
      let reason := if nonempty text then EText text
                    else ECode "direct_mux_remote_reset" in
      se_modify (failStream ref reason)
  end.

Definition handleFrame (frame : RuntimeFrame) : SE mux unit :=
  match type frame with
  | Open => receiveOpen frame
  | Data => receiveData frame
  | Acknowledge => receiveAcknowledgement frame
  | Close => receiveClose frame
  | Reset => receiveReset frame
  end.

Definition receiveFrame (value : bytes) (m : mux) : mux :=
  if closed m then m
  else match (let! frame := se_lift (decodeFrame value (maximumChunkBytes lim)) in
              handleFrame frame) m with
       | (Ok _, m') => m'
       | (Err code, m') => fail (ECode code) m'
       end.

(** *** The API *)

Definition openStream (id : jsstring) (meta : bytes) : SE mux nat :=
  do! ensureOpen ;;
  let! id := se_lift (validateStreamId id) in
  let! m := se_get in
  fail_if (map_has (streams m) id) with "direct_mux_stream_is_duplicate" ;;
  fail_if (maximumStreams lim <=? map_size (streams m))
    with "direct_mux_stream_capacity_exceeded" ;;
  fail_if (MAX_METADATA_BYTES <? byteLength meta)
    with "direct_mux_metadata_is_too_large" ;;
  let ref := length (heap m) in
  do! se_modify (fun m =>
    set_streams (map_set (streams m) id ref)
      (set_heap (heap m ++ [createState id meta true false]) m)) ;;
  do! queueFrame (Frame Open id 0 (receiveWindowBytes lim) meta) true ;;
  se_ret ref.

(** The loop of [write]: pieces of at most [chunk] bytes, with the offsets
    they will have in the stream.  [fuel] bounds the number of pieces. *)
Fixpoint pieces (fuel : nat) (chunk : nat) (data : bytes) (at_ : Z) : list PendingWrite :=
  match fuel, data with
  | S fuel', _ :: _ =>
      let piece := take chunk data in
      Write piece at_ :: pieces fuel' chunk (drop chunk data) (at_ + byteLength piece)
  | _, _ => []
  end.

Definition enqueue_writes (ws : list PendingWrite) (s : StreamState) : StreamState :=
  let n := zsum (fun w => byteLength (w_data w)) ws in
  set_sendOffset (sendOffset s + n)
    (set_pendingWriteBytes (pendingWriteBytes s + n)
      (set_pendingWrites (pendingWrites s ++ ws) s)).

Definition write (id : jsstring) (value : bytes) : SE mux unit :=
  do! ensureOpen ;;
  let! '(ref, st) := requiredStream id in
  fail_if (localClosed st) with "direct_mux_stream_is_closed" ;;
  fail_if (byteLength value <? 1) with "direct_mux_write_is_empty" ;;
  let projected := Z.max 0 (pendingWriteBytes st + byteLength value
                            - sendCreditBytes st) in
  fail_if (maximumPendingWriteBytes lim <? projected)
    with "direct_mux_pending_write_capacity_exceeded" ;;
  let ws := pieces (length value) (Z.to_nat (maximumChunkBytes lim)) value
              (sendOffset st) in
  do! se_modify (upd ref (enqueue_writes ws)) ;;
  flushWrites ref.

Definition setDataHandler (id : jsstring) : SE mux unit :=
  let! '(ref, _) := requiredStream id in
  do! se_modify (upd ref (set_handler true)) ;;
  se_modify (scheduleIncomingDrain ref).

Definition closeStream (id : jsstring) : SE mux unit :=
  let! '(ref, st) := requiredStream id in
  if localClosed st then se_ret tt
  else
    do! se_modify (upd ref (set_localClosed true)) ;;
    do! queueFrame (Frame Close (sid st) (sendOffset st) 0 []) true ;;
    se_modify (suspend (KCloseStream ref)).

(** [resetStream] up to its [await]: the stream object it will fail. *)
Definition reset_begin (id : jsstring) (reason : jsstring) : SE mux nat :=
  let! '(ref, st) := requiredStream id in
  let! text := se_lift (boundedText reason MAX_RESET_REASON_BYTES
                          "direct_mux_reset_reason_is_invalid") in
  do! queueFrame (Frame Reset (sid st) (receiveOffset st) 0 (utf8_encode text)) true ;;
  se_ret ref.

Definition resetStream (id : jsstring) (reason : jsstring) : SE mux unit :=
  let! ref := reset_begin id reason in
  se_modify (suspend (KReset ref reason)).

Definition close (m : mux) : mux :=
  if closed m then m
  else
    let m := failStreams (ECode "direct_mux_closed") (set_closed true m) in
    suspend KMuxClose (emit EvChannelClose
      (set_dataRoundRobin [] (set_dataFrames [] (set_controlFrames []
        (set_streams [] m))))).

(** *** Continuations *)

(** How the awaited promise settles. *)
Inductive outcome := Resolved | Rejected (message : jsstring).

(** [scheduleIncomingDrain]'s [catch], after the [finally] of [drainIncoming]. *)
Definition drain_rejected (ref : nat) (e : error) (m : mux) : mux :=
  let m := upd ref (set_drainingIncoming false) m in
  match heap m !! ref with
  | None => m
  | Some st =>
      if closed m || negb (map_has (streams m) (sid st)) then m else fail e m
  end.

(** [drainIncoming] after the handler took a chunk. *)
Definition drain_handled (ref : nat) (chunk : IncomingChunk) (m : mux) : mux :=
  match heap m !! ref with
  | None => m
  | Some st =>
      if closed m || negb (map_has (streams m) (sid st)) then
        upd ref (set_drainingIncoming false) m
      else
        let n := byteLength (c_data chunk) in
        let st' := set_receiveBufferedBytes (receiveBufferedBytes st - n)
                     (set_receiveOffset (receiveOffset st + n) st) in
        match queueAcknowledgement st' n (upd ref (fun _ => st') m) with
        | (Ok _, m') => suspend (KDrainAck ref) m'
        | (Err code, m') => drain_rejected ref (ECode code) m'
        end
  end.

(** [drainIncoming] after the handler threw. *)
Definition drain_threw (ref : nat) (chunk : IncomingChunk) (message : jsstring) (m : mux) : mux :=
  match heap m !! ref with
  | None => m
  | Some st =>
      match reset_begin (sid st) message m with
      | (Ok target, m') => suspend (KDrainReset ref target message chunk) m'
      | (Err code, m') => drain_rejected ref (ECode code) m'
      end
  end.

Definition resume (k : cont) (o : outcome) (m : mux) : mux :=
  match k, o with
  | KPump, Resolved => pump_loop 1 m
  | KPump, Rejected e => set_pumping false (fail (EText e) m)
  | KDrainHandler ref chunk, Resolved => drain_handled ref chunk m
  | KDrainHandler ref chunk, Rejected e => drain_threw ref chunk e m
  | KDrainAck ref, Resolved => drain_loop ref m
  | KDrainAck ref, Rejected e => drain_rejected ref (EText e) m
  | KDrainReset ref target reason _, Resolved =>
      upd ref (set_drainingIncoming false) (failStream target (EText reason) m)
  | KDrainReset ref _ _ _, Rejected e => drain_rejected ref (EText e) m
  | KReset target reason, Resolved => failStream target (EText reason) m
  | KReset _ _, Rejected _ => m
  | KCloseStream ref, Resolved => collectStream ref m
  | KCloseStream _, Rejected _ => m
  | KMuxClose, _ => emit EvMuxClose m
  end.

(** ** Runs *)

Inductive input :=
| IOpen (id : jsstring) (meta : bytes)
| IWrite (id : jsstring) (data : bytes)
| ISetHandler (id : jsstring)
| ICloseStream (id : jsstring)
| IResetStream (id reason : jsstring)
| IClose
| IReceive (frame : bytes)
| IChannelError (message : jsstring)
| IChannelClose
| IResume (n : nat) (o : outcome).

(** One input; a throw reaches the caller and leaves the mutations made. *)
Definition mux_step (i : input) (m : mux) : mux :=
  match i with
  | IOpen id meta => snd (openStream id meta m)
  | IWrite id data => snd (write id data m)
  | ISetHandler id => snd (setDataHandler id m)
  | ICloseStream id => snd (closeStream id m)
  | IResetStream id reason => snd (resetStream id reason m)
  | IClose => close m
  | IReceive frame => receiveFrame frame m
  | IChannelError e => fail (EText e) m
  | IChannelClose => fail (ECode "direct_mux_channel_closed") m
  | IResume n o =>
      match conts m !! n with
      | Some k => resume k o (set_conts (delete n (conts m)) m)
      | None => m
      end
  end.

Definition mux_run (inputs : list input) (m : mux) : mux :=
  foldl (fun m i => mux_step i m) m inputs.
End WithLimits.
