(* ===== verification/MuxInv.v ===== *)
(** * Invariants of the multiplexer

    What holds of the stream table, the stream objects, the frame queues and
    the suspended continuations in every state a mux can reach, whatever the
    peer, the application and the scheduler do. *)

From S2P Require Import Prelude JsString JsMap MuxFrame Mux.

#[local] Open Scope Z_scope.

(** ** What the suspended continuations and the trace hold of a stream *)

Definition chunk_len (c : IncomingChunk) : Z := byteLength (c_data c).
Definition write_len (w : PendingWrite) : Z := byteLength (w_data w).

(** Bytes of [ref] handed to its data handler and not yet accounted for. *)
Definition inflight_of (ref : nat) (k : cont) : Z :=
  match k with
  | KDrainHandler r chunk | KDrainReset r _ _ chunk =>
      if decide (r = ref) then chunk_len chunk else 0
  | _ => 0
  end.

(** Suspended runs of [drainIncoming] on [ref]. *)
Definition drain_of (ref : nat) (k : cont) : Z :=
  match k with
  | KDrainHandler r _ | KDrainAck r | KDrainReset r _ _ _ =>
      if decide (r = ref) then 1 else 0
  | _ => 0
  end.

(** A drain that resets its stream will fail an object of the same id. *)
Definition stray_of (ids : list jsstring) (k : cont) : Z :=
  match k with
  | KDrainReset r t _ _ =>
      match ids !! r, ids !! t with
      | Some a, Some b => if decide (a = b) then 0 else 1
      | _, _ => 1
      end
  | _ => 0
  end.

Definition pump_of (k : cont) : Z := match k with KPump => 1 | _ => 0 end.

Definition inflight (ref : nat) (ks : list cont) : Z := zsum (inflight_of ref) ks.
Definition drains (ref : nat) (ks : list cont) : Z := zsum (drain_of ref) ks.
Definition strays (ids : list jsstring) (ks : list cont) : Z := zsum (stray_of ids) ks.
Definition sids (h : list StreamState) : list jsstring := sid <$> h.
Definition pumps (ks : list cont) : Z := zsum pump_of ks.

(** The chunks handed to the data handler of [ref], in order. *)
Definition delivery (ref : nat) (e : event) : option IncomingChunk :=
  match e with
  | EvDeliver r data at_ => if decide (r = ref) then Some (Chunk at_ data) else None
  | _ => None
  end.

Definition deliveries (ref : nat) (tr : list event) : list IncomingChunk :=
  omap (delivery ref) tr.

Definition delivered (ref : nat) (tr : list event) : Z :=
  zsum chunk_len (deliveries ref tr).

Definition flag (b : bool) : Z := if b then 1 else 0.

#[global] Arguments inflight : simpl never.
#[global] Arguments drains : simpl never.
#[global] Arguments strays : simpl never.
#[global] Arguments sids : simpl never.
#[global] Arguments pumps : simpl never.
#[global] Arguments deliveries : simpl never.
#[global] Arguments delivered : simpl never.

(** ** The invariant *)

(** Of a stream object in the table. *)
Record live_ok (window : Z) (ks : list cont) (tr : list event) (ref : nat)
    (st : StreamState) : Prop := {
  ok_ack : 0 <= acknowledgedOffset st <= sendOffset st;
  ok_credit : 0 <= sendCreditBytes st;
  ok_pending : pendingWriteBytes st = zsum write_len (pendingWrites st);
  ok_writes : contiguous w_offset write_len
                (sendOffset st - pendingWriteBytes st) (pendingWrites st);
  ok_buffered : receiveBufferedBytes st
                = inflight ref ks + zsum chunk_len (incoming st);
  ok_window : receiveBufferedBytes st <= window;
  ok_inflight : 0 <= inflight ref ks;
  ok_received : delivered ref tr = receiveOffset st + inflight ref ks;
}.

(** Of every stream object, also one that left the table. *)
Record object_ok (ks : list cont) (tr : list event) (ref : nat)
    (st : StreamState) : Prop := {
  ok_drains : drains ref ks = flag (drainingIncoming st);
  ok_incoming : contiguous c_offset chunk_len (delivered ref tr) (incoming st);
}.

(** Of the mux, with [extra] the continuation that is being run. *)
Record core (lim : mux_limits) (extra : list cont) (m : mux) : Prop := {
  core_wf : map_wf (streams m);
  core_live : forall id ref, map_get (streams m) id = Some ref ->
    exists st, heap m !! ref = Some st /\ sid st = id
    /\ live_ok (receiveWindowBytes lim) (extra ++ conts m) (trace m) ref st;
  core_objects : forall ref st, heap m !! ref = Some st ->
    object_ok (extra ++ conts m) (trace m) ref st;
  core_deliveries : forall ref,
    contiguous c_offset chunk_len 0 (deliveries ref (trace m));
  core_fresh : forall ref, (length (heap m) <= ref)%nat ->
    deliveries ref (trace m) = [] /\ inflight ref (extra ++ conts m) = 0
    /\ drains ref (extra ++ conts m) = 0;
  core_strays : strays (sids (heap m)) (extra ++ conts m) = 0;
  core_ids : Forall (fun id => trim id = id) (sids (heap m));
  core_size : map_size (streams m) <= Z.max 0 (maximumStreams lim);
}.

(** Of the frame queues. *)
Record queues (m : mux) : Prop := {
  q_wf : map_wf (dataFrames m);
  q_rr : NoDup (dataRoundRobin m);
  q_same : forall id, id ∈ dataRoundRobin m <-> id ∈ map_keys (dataFrames m);
  q_filled : forall id q, map_get (dataFrames m) id = Some q -> q <> [];
}.

(** All of it, with [extra] the continuation that is being run. *)
Record mux_inv_at (lim : mux_limits) (extra : list cont) (m : mux) : Prop := {
  inv_core : core lim extra m;
  inv_queues : queues m;
  inv_pump : pumps (extra ++ conts m) = flag (pumping m);
  inv_closed : closed m = true -> streams m = [];
}.

Definition mux_inv (lim : mux_limits) (m : mux) : Prop := mux_inv_at lim [] m.

(** ** Changes that leave the streams alone *)

(** What [core] reads of a mux. *)
Record same_streams (m m' : mux) : Prop := {
  ss_heap : heap m' = heap m;
  ss_streams : streams m' = streams m;
  ss_inflight : forall ref, inflight ref (conts m') = inflight ref (conts m);
  ss_drains : forall ref, drains ref (conts m') = drains ref (conts m);
  ss_strays : forall ids, strays ids (conts m') = strays ids (conts m);
  ss_deliveries : forall ref, deliveries ref (trace m') = deliveries ref (trace m);
}.

#[export] Instance same_streams_preorder : PreOrder same_streams.
Proof.
  split.
  - intros m. by constructor.
  - intros a b c [] []. constructor; intros; etrans; eauto.
Qed.

Lemma inflight_app ref (a b : list cont) :
  inflight ref (a ++ b) = inflight ref a + inflight ref b.
Proof. apply zsum_app. Qed.

Lemma drains_app ref (a b : list cont) :
  drains ref (a ++ b) = drains ref a + drains ref b.
Proof. apply zsum_app. Qed.

Lemma strays_app ids (a b : list cont) :
  strays ids (a ++ b) = strays ids a + strays ids b.
Proof. apply zsum_app. Qed.

Lemma deliveries_app ref (a b : list event) :
  deliveries ref (a ++ b) = deliveries ref a ++ deliveries ref b.
Proof. apply omap_app. Qed.

Lemma live_ok_ext window ks ks' tr tr' ref st :
  inflight ref ks' = inflight ref ks ->
  deliveries ref tr' = deliveries ref tr ->
  live_ok window ks tr ref st -> live_ok window ks' tr' ref st.
Proof.
  intros Hk Ht []. unfold delivered in *.
  constructor; unfold delivered; rewrite ?Hk, ?Ht; auto.
Qed.

Lemma object_ok_ext ks ks' tr tr' ref st :
  drains ref ks' = drains ref ks ->
  deliveries ref tr' = deliveries ref tr ->
  object_ok ks tr ref st -> object_ok ks' tr' ref st.
Proof.
  intros Hk Ht []. unfold delivered in *.
  constructor; unfold delivered; rewrite ?Hk, ?Ht; auto.
Qed.

Lemma core_same lim extra m m' : same_streams m m' -> core lim extra m -> core lim extra m'.
Proof.
  intros [Hh Hs Hi Hd Hst Ht] [H1 H2 H3 H4 H5 H7 H8 H6].
  constructor; rewrite ?Hs, ?Hh; auto.
  - intros id ref Hg. destruct (H2 id ref Hg) as (st & ? & ? & ?).
    exists st. split_and!; [done..|].
    eapply live_ok_ext; [| |done]; rewrite ?inflight_app, ?Hi, ?Ht; done.
  - intros ref st Hr. eapply object_ok_ext; [| |by apply H3];
      rewrite ?drains_app, ?Hd, ?Ht; done.
  - intros ref. rewrite Ht. auto.
  - intros ref Hr. destruct (H5 ref Hr) as (? & ? & ?).
    rewrite Ht, inflight_app, drains_app, Hi, Hd, <- inflight_app, <- drains_app. auto.
  - by rewrite strays_app, Hst, <- strays_app.
Qed.

Lemma same_emit (e : event) (m : mux) :
  (forall ref, delivery ref e = None) -> same_streams m (emit e m).
Proof.
  intros He. constructor; simpl; auto. intros ref.
  rewrite deliveries_app. simpl. unfold deliveries at 2; simpl.
  rewrite He. apply app_nil_r.
Qed.

Lemma same_suspend (k : cont) (m : mux) :
  (forall ref, drain_of ref k = 0) -> same_streams m (suspend k m).
Proof.
  intros Hd.
  assert (Hk : (forall ref, inflight_of ref k = 0) /\ (forall ids, stray_of ids k = 0)).
  { destruct k as [|r c|r|r t e c|t e|r|]; try done; specialize (Hd r); simpl in Hd;
      by rewrite decide_True in Hd. }
  destruct Hk as [Hi Hs]. constructor; simpl; auto; intros ref.
  - rewrite inflight_app. unfold inflight at 2; simpl. rewrite Hi. lia.
  - rewrite drains_app. unfold drains at 2; simpl. rewrite Hd. lia.
  - rewrite strays_app. unfold strays at 2; simpl. rewrite Hs. lia.
Qed.

#[export] Hint Resolve same_emit same_suspend : myc.

(** ** The queues and the pump *)

Lemma remove_first_elem (id x : jsstring) (l : list jsstring) :
  NoDup l -> (x ∈ remove_first id l <-> x ∈ l /\ x <> id).
Proof.
  induction l as [|y l IH]; simpl; [set_solver|].
  intros [Hy Hl]%NoDup_cons. specialize (IH Hl).
  case_decide; subst; [|set_solver].
  split; [|set_solver]. intros Hx. split; [set_solver|]. by intros ->.
Qed.

Lemma remove_first_NoDup (id : jsstring) (l : list jsstring) :
  NoDup l -> NoDup (remove_first id l).
Proof.
  induction l as [|y l IH]; simpl; [done|].
  intros [Hy Hl]%NoDup_cons. case_decide; [done|].
  apply NoDup_cons; split; [|auto].
  intros Hin. by apply remove_first_elem in Hin as [? _].
Qed.

Lemma map_keys_delete_elem {V} (df : list (jsstring * V)) (id x : jsstring) :
  map_wf df -> (x ∈ map_keys (map_delete df id) <-> x ∈ map_keys df /\ x <> id).
Proof.
  intros Hwf. rewrite <- !map_has_In. unfold map_has.
  destruct (decide (x = id)) as [->|Hne].
  - rewrite map_get_delete_eq by done. naive_solver.
  - rewrite map_get_delete_ne by done. naive_solver.
Qed.

Lemma map_get_delete_Some {V} (df : list (jsstring * V)) (id x : jsstring) v :
  map_wf df -> map_get (map_delete df id) x = Some v -> map_get df x = Some v.
Proof.
  intros Hwf. destruct (decide (x = id)) as [->|Hne].
  - by rewrite map_get_delete_eq.
  - by rewrite map_get_delete_ne.
Qed.

Definition queues_of (rr : list jsstring) (df : list (jsstring * list bytes)) : Prop :=
  map_wf df /\ NoDup rr /\ (forall id, id ∈ rr <-> id ∈ map_keys df)
  /\ (forall id q, map_get df id = Some q -> q <> []).

Lemma queues_split (m : mux) : queues m <-> queues_of (dataRoundRobin m) (dataFrames m).
Proof. split; [intros []; red; auto|intros (? & ? & ? & ?); by constructor]. Qed.

Lemma queues_fields (m m' : mux) :
  queues m -> dataRoundRobin m' = dataRoundRobin m -> dataFrames m' = dataFrames m ->
  queues m'.
Proof. intros Hq Hr Hd. apply queues_split. rewrite Hr, Hd. by apply queues_split. Qed.

Lemma queues_of_drop rr df id :
  queues_of rr df -> queues_of (remove_first id rr) (map_delete df id).
Proof.
  intros (H1 & H2 & H3 & H4). split_and!.
  - by apply map_wf_delete.
  - by apply remove_first_NoDup.
  - intros x. rewrite remove_first_elem, map_keys_delete_elem by done. naive_solver.
  - intros x q Hq. eapply H4, map_get_delete_Some; eauto.
Qed.

(** The round robin after one data frame was taken: [next_data] takes the first
    frame of the first stream, which goes to the end of the round robin when it
    has more. *)
Lemma next_data_spec rr df :
  queues_of rr df ->
  match rr with
  | [] => next_data rr df = (None, [], df) /\ df = []
  | id :: rr' => exists f q, map_get df id = Some (f :: q)
      /\ next_data rr df =
         (if nonempty q then (Some f, rr' ++ [id], map_set df id q)
          else (Some f, rr', map_delete df id))
  end.
Proof.
  intros (H1 & H2 & H3 & H4). destruct rr as [|id rr'].
  - split; [done|]. destruct df as [|[k v] df]; [done|].
    exfalso. apply (not_elem_of_nil k), H3. set_solver.
  - assert (Hin : map_has df id = true) by (apply map_has_In, H3; set_solver).
    unfold map_has in Hin. destruct (map_get df id) as [[|f q]|] eqn:E; try done.
    + by destruct (H4 id []).
    + exists f, q. split; [done|]. simpl. by rewrite E.
Qed.

Lemma next_data_queues rr df o rr' df' :
  queues_of rr df -> next_data rr df = (o, rr', df') -> queues_of rr' df'.
Proof.
  intros Hq Hn. pose proof (next_data_spec rr df Hq) as Hs.
  destruct rr as [|id rr0]; [destruct Hs as [Hs ->]; congruence|].
  destruct Hs as (f & q & Hg & Hs). rewrite Hn in Hs.
  assert (Hq' := Hq). destruct Hq as (H1 & [H2a H2b]%NoDup_cons & H3 & H4).
  destruct q as [|f' q]; simplify_eq/=.
  - apply (queues_of_drop _ _ id) in Hq'. simpl in Hq'.
    by rewrite decide_True in Hq'.
  - split_and!.
    + by apply map_wf_set.
    + apply NoDup_app; split_and!; [done| |apply NoDup_singleton].
      intros x Hx Hi%list_elem_of_singleton. by subst.
    + intros x. rewrite map_keys_set. unfold map_has. rewrite Hg.
      rewrite <- H3. set_solver.
    + intros x l. rewrite map_get_set. case_decide; [by intros [= <-]|apply H4].
Qed.

(** [pump] and [take_frame] touch only the queues, [pumping], the pump's own
    continuation and the trace of frames sent. *)
Record quiet (m m' : mux) : Prop := {
  quiet_same : same_streams m m';
  quiet_queues : queues m -> queues m';
  quiet_closed : closed m' = closed m;
}.

#[export] Instance quiet_preorder : PreOrder quiet.
Proof.
  split.
  - intros m. constructor; [reflexivity|done|done].
  - intros a b c [] []. constructor; [by etrans|auto|congruence].
Qed.

Lemma same_fields (m m' : mux) :
  heap m' = heap m -> streams m' = streams m -> conts m' = conts m ->
  trace m' = trace m -> same_streams m m'.
Proof. intros Hh Hs Hc Ht. constructor; intros; congruence. Qed.

Lemma take_frame_quiet (m : mux) (o : option bytes) (m' : mux) :
  queues m -> take_frame m = (o, m') ->
  quiet m m' /\ pumping m' = pumping m /\ conts m' = conts m
  /\ (o = None -> has_frames m' = false).
Proof.
  intros Hq H. unfold take_frame in H.
  destruct (controlFrames m) as [|f rest] eqn:E; simplify_eq/=.
  - unfold nextDataFrame in H.
    destruct (next_data (dataRoundRobin m) (dataFrames m)) as [[f rr] df] eqn:En.
    simplify_eq/=. split_and!; try done.
    + constructor; [by apply same_fields| |done]. intros _. apply queues_split. simpl.
      eapply next_data_queues; [by apply queues_split|done].
    + intros ->. unfold has_frames. simpl. rewrite E. simpl.
      pose proof (next_data_spec _ _ (proj1 (queues_split m) Hq)) as Hs.
      destruct (dataRoundRobin m) as [|id rr0].
      * destruct Hs as [Hs Hd]. rewrite En in Hs. simplify_eq. by rewrite Hd.
      * destruct Hs as (? & q & _ & Hs). rewrite En in Hs. by destruct q.
  - split_and!; try done. constructor; [by apply same_fields| |done].
    intros [?? ? ?]. by constructor.
Qed.

Lemma quiet_fields (m m' : mux) :
  heap m' = heap m -> streams m' = streams m -> conts m' = conts m ->
  trace m' = trace m -> closed m' = closed m ->
  dataRoundRobin m' = dataRoundRobin m -> dataFrames m' = dataFrames m -> quiet m m'.
Proof.
  intros ????? Hr Hd. constructor; [by apply same_fields| |done].
  rewrite !queues_split. by rewrite Hr, Hd.
Qed.

Lemma quiet_emit (e : event) (m : mux) :
  (forall ref, delivery ref e = None) -> quiet m (emit e m).
Proof.
  intros He. constructor; [by apply same_emit| |done]. by rewrite !queues_split.
Qed.

Lemma quiet_suspend (k : cont) (m : mux) :
  (forall ref, drain_of ref k = 0) -> quiet m (suspend k m).
Proof.
  intros Hd. constructor; [by apply same_suspend| |done]. by rewrite !queues_split.
Qed.

(** The loop of the pump ends with the pump idle, or suspended on one frame;
    the re-entrant call in its [finally] is never needed, so the result does
    not depend on the fuel. *)
Lemma pump_loop_spec (fuel : nat) (m : mux) :
  queues m -> pumping m = true ->
  quiet m (pump_loop fuel m)
  /\ pumps (conts (pump_loop fuel m))
     = pumps (conts m) + flag (pumping (pump_loop fuel m))
  /\ pump_loop fuel m = pump_loop 0 m.
Proof.
  intros Hq Hp.
  assert (Hidle : forall m, quiet m (set_pumping false m)) by (intros; by apply quiet_fields).
  destruct fuel; simpl; destruct (closed m) eqn:Hc; simpl; rewrite ?Hc; simpl;
    try (split_and!; [auto|lia|done]);
    destruct (take_frame m) as [[f|] m'] eqn:Ht;
    destruct (take_frame_quiet m _ m' Hq Ht) as (Hqt & Hpm & Hcm & Hnone).
  1,3: split_and!; [|simpl; rewrite Hcm, Hpm, Hp; unfold pumps; rewrite zsum_app; simpl; lia|done];
    (etrans; [exact Hqt|]); (etrans; [|by apply quiet_suspend]); by apply quiet_emit.
  all: specialize (Hnone eq_refl); unfold has_frames in *; simpl;
    rewrite Hnone, andb_false_r; simpl;
    (split_and!; [etrans; [exact Hqt|auto]|rewrite Hcm; lia|done]).
Qed.

(** A change the stream invariants do not see, that also keeps the pump's
    count of its own continuation. *)
Record silent (m m' : mux) : Prop := {
  silent_quiet : quiet m m';
  silent_pump : queues m ->
    pumps (conts m') - flag (pumping m') = pumps (conts m) - flag (pumping m);
}.

#[export] Instance silent_preorder : PreOrder silent.
Proof.
  split.
  - intros m. by constructor.
  - intros a b c [Hab Pab] [Hbc Pbc]. constructor; [by etrans|].
    intros Hq. rewrite Pbc by (by apply (quiet_queues _ _ Hab)). auto.
Qed.

Lemma pump_silent (m : mux) : queues m -> silent m (pump m).
Proof.
  intros Hq. unfold pump. destruct (pumping m) eqn:Hp; cbn [orb]; [done|].
  destruct (closed m) eqn:Hc; [done|].
  assert (Hs : quiet m (set_pumping true m)) by (by apply quiet_fields).
  destruct (pump_loop_spec 1 (set_pumping true m)) as (Hl & Hk & _);
    [by apply (quiet_queues _ _ Hs)|done|].
  constructor; [etrans; [exact Hs|exact Hl]|]. intros _.
  rewrite Hk. cbn [set_pumping conts]. rewrite Hp. cbn [flag]. lia.
Qed.

Lemma silent_emit (e : event) (m : mux) :
  (forall ref, delivery ref e = None) -> silent m (emit e m).
Proof. intros He. constructor; [by apply quiet_emit|done]. Qed.

Lemma silent_suspend (k : cont) (m : mux) :
  (forall ref, drain_of ref k = 0) -> pump_of k = 0 -> silent m (suspend k m).
Proof.
  intros Hd Hk. constructor; [by apply quiet_suspend|]. intros _.
  unfold suspend, pumps. cbn [set_conts conts pumping]. rewrite zsum_app.
  simpl. lia.
Qed.

Lemma inv_silent lim extra (m m' : mux) :
  silent m m' -> mux_inv_at lim extra m -> mux_inv_at lim extra m'.
Proof.
  intros [[Hs Hq Hc] Hp] [H1 H2 H3 H4]. specialize (Hp H2).
  constructor; [by eapply core_same|auto| |].
  - unfold pumps in *. rewrite zsum_app in *. lia.
  - rewrite Hc, (ss_streams _ _ Hs). auto.
Qed.

Lemma queues_push_data (id : jsstring) (b : bytes) (m : mux) :
  queues m -> queues (push_data id b m).
Proof.
  rewrite !queues_split. intros (H1 & H2 & H3 & H4). unfold push_data.
  destruct (map_get (dataFrames m) id) as [q|] eqn:E; simpl.
  - split_and!; [by apply map_wf_set|done| |].
    + intros x. rewrite map_keys_set. unfold map_has. by rewrite E.
    + intros x l. rewrite map_get_set. case_decide; [|apply H4].
      intros [= <-]. by destruct q.
  - assert (Hn : id ∉ map_keys (dataFrames m)) by (by apply map_get_None).
    split_and!; [by apply map_wf_set| | |].
    + apply NoDup_app; split_and!; [done| |apply NoDup_singleton].
      intros x Hx Hi%list_elem_of_singleton. subst. by apply Hn, H3.
    + intros x. rewrite map_keys_set. unfold map_has. rewrite E.
      rewrite !elem_of_app, H3. done.
    + intros x l. rewrite map_get_set. case_decide; [by intros [= <-]|apply H4].
Qed.

Lemma push_data_fields (id : jsstring) (b : bytes) (m : mux) :
  let m' := push_data id b m in
  heap m' = heap m /\ streams m' = streams m /\ conts m' = conts m
  /\ trace m' = trace m /\ closed m' = closed m /\ pumping m' = pumping m.
Proof. unfold push_data. by destruct (map_get (dataFrames m) id). Qed.

(** Queueing a frame does not touch the streams. *)
Lemma queueFrame_silent lim (f : RuntimeFrame) (control : bool) (m : mux) :
  queues m -> silent m (snd (queueFrame lim f control m)).
Proof.
  intros Hq. unfold queueFrame, ensureOpen, se_bind, se_gets, se_lift, se_modify.
  destruct (closed m) eqn:Hc; [done|]. simpl.
  destruct (encodeFrame f (maximumChunkBytes lim)) as [b|code]; [|done]. simpl.
  destruct control.
  - assert (Hs : silent m (set_controlFrames (controlFrames m ++ [b]) m))
      by (constructor; [by apply quiet_fields|done]).
    etrans; [exact Hs|]. apply pump_silent.
    by apply (quiet_queues _ _ (silent_quiet _ _ Hs)).
  - destruct (push_data_fields (streamId f) b m) as (?&?&?&?&?&?).
    assert (Hs : silent m (push_data (streamId f) b m)).
    { constructor; [constructor; [by apply same_fields| |done]|].
      - apply queues_push_data.
      - intros _. congruence. }
    etrans; [exact Hs|]. apply pump_silent. by apply queues_push_data.
Qed.

(** ** Changes to streams *)

Lemma inv_suspend lim extra (k : cont) (m : mux) :
  mux_inv_at lim (k :: extra) m -> mux_inv_at lim extra (suspend k m).
Proof.
  assert (Hz : forall (f : cont -> Z) (a b : list cont),
    zsum f (a ++ b ++ [k]) = zsum f ((k :: a) ++ b))
    by (intros; simpl; rewrite !zsum_app; simpl; lia).
  intros [[H1 H2 H3 H4 H5 H7 H8 H6] Hq Hp Hc].
  constructor; [constructor; auto|by apply (queues_fields m)| |done].
  - intros id ref Hg. destruct (H2 id ref Hg) as (st & ? & ? & Hok).
    exists st. split_and!; [done..|]. eapply live_ok_ext; [|done|exact Hok].
    apply Hz.
  - intros ref st Hr. eapply object_ok_ext; [|done|by apply H3]. apply Hz.
  - intros ref Hr. destruct (H5 ref Hr) as (? & Hi & Hd). split_and!; [done| |];
      unfold inflight, drains in *; cbn [suspend set_conts conts]; by rewrite Hz.
  - unfold strays in *. cbn [suspend set_conts conts heap]. by rewrite Hz.
  - unfold pumps in *. cbn [suspend set_conts conts pumping]. by rewrite Hz.
Qed.

Lemma inv_take lim (n : nat) (k : cont) (m : mux) :
  conts m !! n = Some k -> mux_inv lim m ->
  mux_inv_at lim [k] (set_conts (delete n (conts m)) m).
Proof.
  intros Hn.
  assert (Hz : forall (f : cont -> Z),
    zsum f ([k] ++ delete n (conts m)) = zsum f ([] ++ conts m))
    by (intros; simpl; rewrite (zsum_delete f _ _ k) by done; lia).
  intros [[H1 H2 H3 H4 H5 H7 H8 H6] Hq Hp Hc].
  constructor; [constructor; auto|by apply (queues_fields m)| |done].
  - intros id ref Hg. destruct (H2 id ref Hg) as (st & ? & ? & Hok).
    exists st. split_and!; [done..|]. eapply live_ok_ext; [|done|exact Hok].
    apply Hz.
  - intros ref st Hr. eapply object_ok_ext; [|done|by apply H3]. apply Hz.
  - intros ref Hr. destruct (H5 ref Hr) as (? & Hi & Hd). split_and!; [done| |];
      unfold inflight, drains in *; cbn [set_conts conts]; by rewrite Hz.
  - unfold strays in *. cbn [set_conts conts heap]. by rewrite Hz.
  - unfold pumps in *. cbn [set_conts conts pumping]. by rewrite Hz.
Qed.

Lemma heap_upd_eq ref f (m : mux) st :
  heap m !! ref = Some st -> heap (upd ref f m) !! ref = Some (f st).
Proof. intros H. simpl. by rewrite list_lookup_alter_eq, H. Qed.

Lemma heap_upd_ne ref r f (m : mux) :
  r <> ref -> heap (upd ref f m) !! r = heap m !! r.
Proof. intros H. simpl. by rewrite list_lookup_alter_ne. Qed.

Lemma sids_upd ref f (m : mux) st :
  heap m !! ref = Some st -> sid (f st) = sid st ->
  sids (heap (upd ref f m)) = sids (heap m).
Proof.
  intros Hr Hs. apply list_eq. intros r. unfold sids. rewrite !list_lookup_fmap.
  destruct (decide (r = ref)) as [->|Hne].
  - rewrite (heap_upd_eq _ _ _ st), Hr by done. simpl. by rewrite Hs.
  - by rewrite heap_upd_ne.
Qed.

(** Mutating one stream object, while the run of its drain moves from [x] to
    [x']. *)
Lemma inv_upd lim x x' (m : mux) ref f st :
  mux_inv_at lim x m ->
  heap m !! ref = Some st ->
  sid (f st) = sid st ->
  (forall r, r <> ref -> inflight r x' = inflight r x /\ drains r x' = drains r x) ->
  pumps x' = pumps x -> strays (sids (heap m)) (x' ++ conts m) = 0 ->
  object_ok (x' ++ conts m) (trace m) ref (f st) ->
  (map_get (streams m) (sid st) = Some ref ->
   live_ok (receiveWindowBytes lim) (x ++ conts m) (trace m) ref st ->
   live_ok (receiveWindowBytes lim) (x' ++ conts m) (trace m) ref (f st)) ->
  mux_inv_at lim x' (upd ref f m).
Proof.
  intros [[H1 H2 H3 H4 H5 H7 H8 H6] Hq Hp Hc] Hr Hs Hx Hpx Hsx Ho Hl.
  constructor; [constructor; auto|by apply (queues_fields m)| |done].
  - intros id r Hg. destruct (H2 id r Hg) as (st' & Hst' & Hid & Hok).
    destruct (decide (r = ref)) as [->|Hne].
    + simplify_eq. exists (f st). split_and!; [by apply heap_upd_eq|done|].
      by apply Hl.
    + exists st'. rewrite heap_upd_ne by done. split_and!; [done..|].
      destruct (Hx r Hne) as [Hxi _].
      eapply live_ok_ext; [|done|exact Hok]. simpl. rewrite !inflight_app. lia.
  - intros r st' Hst'. destruct (decide (r = ref)) as [->|Hne].
    + rewrite (heap_upd_eq _ _ _ st) in Hst' by done. by simplify_eq.
    + rewrite heap_upd_ne in Hst' by done. destruct (Hx r Hne) as [_ Hxd].
      eapply object_ok_ext; [|done|by apply H3]. simpl. rewrite !drains_app. lia.
  - intros r Hlen. simpl in Hlen. rewrite length_alter in Hlen.
    assert (r <> ref) by (intros ->; apply lookup_lt_Some in Hr; lia).
    destruct (H5 r Hlen) as (Hdel & Hi & Hd), (Hx r) as [Hxi Hxd]; [done|].
    rewrite inflight_app in Hi |- *. rewrite drains_app in Hd |- *.
    simpl in *. split_and!; [done|lia|lia].
  - by rewrite (sids_upd _ _ _ st).
  - by rewrite (sids_upd _ _ _ st).
  - unfold pumps in *. rewrite zsum_app in *. simpl in *. lia.
Qed.

(** The common case: no drain starts or ends. *)
Lemma inv_mutate lim x (m : mux) ref f st :
  mux_inv_at lim x m ->
  heap m !! ref = Some st ->
  sid (f st) = sid st ->
  (object_ok (x ++ conts m) (trace m) ref st ->
   object_ok (x ++ conts m) (trace m) ref (f st)) ->
  (map_get (streams m) (sid st) = Some ref ->
   live_ok (receiveWindowBytes lim) (x ++ conts m) (trace m) ref st ->
   live_ok (receiveWindowBytes lim) (x ++ conts m) (trace m) ref (f st)) ->
  mux_inv_at lim x (upd ref f m).
Proof.
  intros Hinv Hr Hs Ho Hl. apply (inv_upd lim x x m ref f st); auto.
  - apply (core_strays _ _ _ (inv_core _ _ _ Hinv)).
  - apply Ho, (core_objects _ _ _ (inv_core _ _ _ Hinv) _ _ Hr).
Qed.

(** A stream leaves the table; its frames leave the queue. *)
Lemma inv_remove lim x (m : mux) id :
  mux_inv_at lim x m -> mux_inv_at lim x (set_streams (map_delete (streams m) id) m).
Proof.
  intros [[H1 H2 H3 H4 H5 H7 H8 H6] Hq Hp Hc].
  constructor; [constructor; auto|by apply (queues_fields m)|done|].
  - simpl. by apply map_wf_delete.
  - simpl. intros k ref Hg. by eapply H2, map_get_delete_Some.
  - simpl. etrans; [apply map_size_delete|done].
  - simpl. intros Hcl. by rewrite (Hc Hcl).
Qed.

Lemma inv_drop_queue lim x (m : mux) id :
  mux_inv_at lim x m -> mux_inv_at lim x (drop_queue id m).
Proof.
  intros [[H1 H2 H3 H4 H5 H7 H8 H6] Hq Hp Hc].
  constructor; [constructor; auto| |done|done].
  apply queues_split. simpl. by apply queues_of_drop, queues_split.
Qed.

Lemma silent_rejections ref e (ws : list PendingWrite) (m : mux) :
  silent m (foldl (fun m w => emit (EvWriteRejected ref (w_offset w) e) m) m ws).
Proof.
  revert m; induction ws as [|w ws IH]; intros m; simpl; [done|].
  etrans; [|apply IH]. by apply silent_emit.
Qed.

Lemma inv_failStream lim x ref e (m : mux) :
  mux_inv_at lim x m -> mux_inv_at lim x (failStream ref e m).
Proof.
  intros Hinv. unfold failStream. destruct (heap m !! ref) as [st|] eqn:Hr; [|done].
  destruct (map_has (streams m) (sid st)) eqn:Hh; [|done]. cbn [negb].
  apply inv_silent with (m := drop_queue (sid st) (upd ref (fun s =>
    set_receiveBufferedBytes 0 (set_incoming [] (set_pendingWriteBytes 0
      (set_pendingWrites [] (set_remoteClosed true (set_localClosed true s))))))
    (foldl (fun m w => emit (EvWriteRejected ref (w_offset w) e) m)
      (set_streams (map_delete (streams m) (sid st)) m) (pendingWrites st)))).
  { etrans; by apply silent_emit. }
  apply inv_drop_queue.
  set (m1 := set_streams (map_delete (streams m) (sid st)) m).
  assert (H1 : mux_inv_at lim x m1) by (by apply inv_remove).
  pose proof (silent_rejections ref e (pendingWrites st) m1) as Hs.
  set (m2 := foldl _ m1 _) in *.
  assert (H2 : mux_inv_at lim x m2) by (by eapply inv_silent).
  destruct Hs as [[Hss _ _] _].
  assert (Hr2 : heap m2 !! ref = Some st) by (by rewrite (ss_heap _ _ Hss)).
  apply (inv_mutate lim x m2 ref _ st); try done.
  - intros [Hd _]. by constructor.
  - rewrite (ss_streams _ _ Hss). simpl.
    rewrite map_get_delete_eq; [done|]. apply (core_wf _ _ _ (inv_core _ _ _ Hinv)).
Qed.

Lemma inv_collectStream lim x ref (m : mux) :
  mux_inv_at lim x m -> mux_inv_at lim x (collectStream ref m).
Proof.
  intros Hinv. unfold collectStream. destruct (heap m !! ref) as [st|]; [|done].
  case_match; [|done]. by apply inv_drop_queue, inv_remove.
Qed.

(** Failing the streams of a table empties it. *)
Lemma failStream_streams ref e (m : mux) :
  streams (failStream ref e m) =
    match heap m !! ref with
    | Some st => if map_has (streams m) (sid st) then map_delete (streams m) (sid st)
                 else streams m
    | None => streams m
    end.
Proof.
  unfold failStream. destruct (heap m !! ref) as [st|]; [|done].
  destruct (map_has (streams m) (sid st)); [|done]. cbn [negb].
  pose proof (silent_rejections ref e (pendingWrites st)
    (set_streams (map_delete (streams m) (sid st)) m)) as [[Hs _ _] _].
  cbn. by rewrite (ss_streams _ _ Hs).
Qed.

Lemma failStream_closed ref e (m : mux) : closed (failStream ref e m) = closed m.
Proof.
  unfold failStream. destruct (heap m !! ref) as [st|]; [|done].
  destruct (map_has (streams m) (sid st)); [|done]. cbn [negb].
  pose proof (silent_rejections ref e (pendingWrites st)
    (set_streams (map_delete (streams m) (sid st)) m)) as [[_ _ Hc] _].
  cbn. by rewrite Hc.
Qed.

(** The invariant of the streams alone, which also holds between [closed = true]
    and the removal of the last stream. *)
Definition open_inv lim x (m : mux) : Prop := mux_inv_at lim x (set_closed false m).

Lemma open_inv_intro lim x (m : mux) b :
  mux_inv_at lim x m -> open_inv lim x (set_closed b m).
Proof.
  intros [[H1 H2 H3 H4 H5 H7 H8 H6] Hq Hp Hc].
  constructor; [by constructor|by apply (queues_fields m)|done|done].
Qed.

Lemma open_inv_elim lim x (m : mux) :
  open_inv lim x m -> (closed m = true -> streams m = []) -> mux_inv_at lim x m.
Proof.
  intros [[H1 H2 H3 H4 H5 H7 H8 H6] Hq Hp _] Hc.
  constructor; [by constructor|by apply (queues_fields (set_closed false m))|done|done].
Qed.

Lemma set_closed_rejections b ref e (ws : list PendingWrite) (m : mux) :
  set_closed b (foldl (fun m w => emit (EvWriteRejected ref (w_offset w) e) m) m ws)
  = foldl (fun m w => emit (EvWriteRejected ref (w_offset w) e) m) (set_closed b m) ws.
Proof. revert m; induction ws as [|w ws IH]; intros m; simpl; [done|]. by rewrite IH. Qed.

Lemma failStream_set_closed b ref e (m : mux) :
  failStream ref e (set_closed b m) = set_closed b (failStream ref e m).
Proof.
  unfold failStream. cbn [set_closed heap streams].
  destruct (heap m !! ref) as [st|]; [|done].
  destruct (map_has (streams m) (sid st)); [|done]. cbn [negb].
  change (set_streams (map_delete (streams m) (sid st)) (set_closed b m))
    with (set_closed b (set_streams (map_delete (streams m) (sid st)) m)).
  by rewrite <- set_closed_rejections.
Qed.

Lemma open_inv_failStream lim x ref e (m : mux) :
  open_inv lim x m -> open_inv lim x (failStream ref e m).
Proof.
  unfold open_inv. intros H. rewrite <- failStream_set_closed. by apply inv_failStream.
Qed.

Lemma open_inv_failStreams lim x e (m : mux) :
  open_inv lim x m ->
  open_inv lim x (failStreams e m) /\ streams (failStreams e m) = []
  /\ closed (failStreams e m) = closed m.
Proof.
  unfold failStreams. intros H.
  remember (map_values (streams m)) as refs eqn:E.
  revert m H E; induction refs as [|r refs IH]; intros m H E.
  - simpl. destruct (streams m) as [|[k v] s] eqn:Es; [done|]. simpl in E. done.
  - destruct (streams m) as [|[k v] s] eqn:Es; [done|]. simpl in E. simplify_eq.
    simpl. assert (Hm := inv_core _ _ _ H).
    destruct (core_live _ _ _ Hm k v) as (st & Hst & Hid & _).
    { simpl. rewrite Es. simpl. by rewrite decide_True. }
    simpl in Hst.
    assert (Hs : streams (failStream v e m) = s).
    { rewrite failStream_streams, Hst, Es, Hid. unfold map_has. simpl.
      by rewrite !decide_True. }
    destruct (IH (failStream v e m)) as (? & ? & Hcl).
    + by apply open_inv_failStream.
    + by rewrite Hs.
    + split_and!; [done..|]. by rewrite Hcl, failStream_closed.
Qed.

Lemma inv_fail lim x e (m : mux) :
  mux_inv_at lim x m -> mux_inv_at lim x (fail e m) /\ closed (fail e m) = true
  /\ streams (fail e m) = [].
Proof.
  intros H. unfold fail. destruct (closed m) eqn:Hc.
  { split_and!; [done|done|by apply (inv_closed _ _ _ H)]. }
  destruct (open_inv_failStreams lim x e (set_closed true m)) as (Ho & Hs & Hcl).
  { by apply open_inv_intro. }
  split_and!; [|done|done].
  eapply inv_silent; [etrans; by apply silent_emit|].
  apply open_inv_elim; [done|]. by rewrite Hs.
Qed.
