(* ===== verification/MuxSteps.v ===== *)
(** * The multiplexer's invariant is preserved

    Every operation, frame handler and continuation of the mux keeps
    [mux_inv]. *)

From S2P Require Import Prelude JsString JsMap MuxFrame Mux MuxInv.

#[local] Open Scope Z_scope.

(** ** Draining *)

Lemma inflight_cons_same ref chunk ks :
  inflight ref (KDrainHandler ref chunk :: ks) = chunk_len chunk + inflight ref ks.
Proof. unfold inflight; simpl. by rewrite decide_True. Qed.

Lemma inflight_cons_other r k ks :
  inflight_of r k = 0 -> inflight r (k :: ks) = inflight r ks.
Proof. unfold inflight; simpl. lia. Qed.

Lemma drains_cons r k ks : drains r (k :: ks) = drain_of r k + drains r ks.
Proof. done. Qed.

(** A chunk is handed to the handler of [ref]. *)
Lemma inv_deliver lim x ref (m : mux) st chunk rest :
  mux_inv_at lim (KDrainAck ref :: x) m ->
  heap m !! ref = Some st ->
  incoming st = chunk :: rest ->
  mux_inv_at lim (KDrainHandler ref chunk :: x)
    (emit (EvDeliver ref (c_data chunk) (c_offset chunk)) (upd ref (set_incoming rest) m)).
Proof.
  intros [[H1 H2 H3 H4 H5 H7 H8 H6] Hq Hp Hc] Hr Hin.
  assert (Hdel : forall r, deliveries r (trace m ++
      [EvDeliver ref (c_data chunk) (c_offset chunk)])
    = deliveries r (trace m) ++ (if decide (ref = r) then [chunk] else [])).
  { intros r. rewrite deliveries_app. f_equal. unfold deliveries; simpl.
    case_decide; [|done]. by destruct chunk. }
  destruct (H3 ref st Hr) as [Hd Hcont]. rewrite Hin in Hcont. simpl in Hcont.
  destruct Hcont as (Hoff & Hpos & Hcont).
  assert (Hdr : forall r, drains r (KDrainHandler ref chunk :: x)
    = drains r (KDrainAck ref :: x)) by done.
  constructor; [constructor; auto|by apply (queues_fields m)|done|done].
  - intros id r Hg. destruct (H2 id r Hg) as (st' & Hst' & Hid & Hok).
    destruct (decide (r = ref)) as [->|Hne].
    + simplify_eq. exists (set_incoming rest st).
      split_and!; [by apply heap_upd_eq|done|].
      destruct Hok as [O1 O2 O3 O4 O5 O6 O7 O8]. rewrite Hin in O5. simpl in O5.
      cbn [app] in *. rewrite inflight_cons_other in O5, O7, O8 by done.
      constructor; cbn [app set_incoming sendOffset acknowledgedOffset sendCreditBytes
        pendingWriteBytes pendingWrites receiveBufferedBytes receiveOffset incoming
        emit upd set_trace set_heap conts trace];
        rewrite ?inflight_cons_same; auto; try lia.
      unfold delivered in *. rewrite Hdel, decide_True, zsum_app by done. simpl. lia.
    + exists st'. cbn [emit set_trace heap]. rewrite heap_upd_ne by done.
      split_and!; [done..|]. eapply live_ok_ext; [| |exact Hok].
      * cbn [app]. unfold inflight; simpl. rewrite decide_False by done. done.
      * cbn [emit upd set_trace set_heap trace]. rewrite Hdel, decide_False by done.
        apply app_nil_r.
  - intros r st' Hst'. cbn [emit set_trace heap] in Hst'.
    destruct (decide (r = ref)) as [->|Hne].
    + rewrite (heap_upd_eq _ _ _ st) in Hst' by done. simplify_eq.
      constructor; [exact Hd|]. cbn [emit upd set_trace set_heap trace set_incoming incoming].
      unfold delivered in *. rewrite Hdel, decide_True, zsum_app by done. simpl.
      by rewrite Z.add_0_r.
    + rewrite heap_upd_ne in Hst' by done.
      eapply object_ok_ext; [| |by apply H3]; [done|].
      cbn [emit upd set_trace set_heap trace]. rewrite Hdel, decide_False by done.
      apply app_nil_r.
  - intros r. cbn [emit upd set_trace set_heap trace]. rewrite Hdel.
    case_decide; subst; [|rewrite app_nil_r; apply H4].
    apply contiguous_app; split; [apply H4|]. simpl. unfold delivered in *. lia.
  - intros r Hlen. cbn [emit upd set_trace set_heap heap trace conts] in *.
    rewrite length_alter in Hlen.
    assert (ref <> r) by (intros ->; apply lookup_lt_Some in Hr; lia).
    destruct (H5 r Hlen) as (D & I & J). rewrite Hdel, decide_False, D by done.
    split_and!; [done| |done]. rewrite <- I. unfold inflight; simpl.
    by rewrite decide_False.
  - cbn [emit set_trace heap conts]. rewrite (sids_upd _ _ _ st) by done. exact H7.
  - cbn [emit set_trace heap]. by rewrite (sids_upd _ _ _ st).
Qed.

Lemma drain_facts ref k :
  drain_of ref k = 1 ->
  (forall r, r <> ref -> inflight_of r k = 0 /\ drain_of r k = 0) /\ pump_of k = 0.
Proof.
  intros Hk. split; [|by destruct k]. intros r Hne.
  destruct k as [|q c|q|q t e c|t e|q|]; simpl in *; try done;
    destruct (decide (q = ref)) as [->|]; try done; by rewrite !decide_False.
Qed.

Lemma strays_nonneg ids ks : 0 <= strays ids ks.
Proof.
  unfold strays. apply zsum_nonneg, Forall_forall. intros k _.
  destruct k; simpl; repeat case_match; lia.
Qed.

Lemma strays_cons ids k ks :
  strays ids (k :: ks) = 0 -> stray_of ids k = 0 /\ strays ids ks = 0.
Proof.
  intros H. pose proof (strays_nonneg ids ks). pose proof (strays_nonneg ids [k]).
  unfold strays in *. simpl in *. lia.
Qed.

Lemma drains_nonneg ref ks : 0 <= drains ref ks.
Proof.
  unfold drains. apply zsum_nonneg, Forall_forall. intros k _.
  destruct k; simpl; repeat case_decide; lia.
Qed.

(** The drain that is being run is the only one of its stream. *)
Lemma inv_drain_only lim k ref (m : mux) :
  mux_inv_at lim [k] m -> drain_of ref k = 1 ->
  (ref < length (heap m))%nat /\ drains ref (conts m) = 0.
Proof.
  intros Hinv Hk. pose proof (drains_nonneg ref (conts m)).
  destruct (decide (ref < length (heap m))%nat) as [Hlt|Hge].
  - split; [done|]. destruct (lookup_lt_is_Some_2 _ _ Hlt) as [st Hr].
    destruct (core_objects _ _ _ (inv_core _ _ _ Hinv) _ _ Hr) as [Hd _].
    cbn [app] in Hd. rewrite drains_cons, Hk in Hd.
    destruct (drainingIncoming st); simpl in Hd; lia.
  - destruct (core_fresh _ _ _ (inv_core _ _ _ Hinv) ref) as (_ & _ & Hd); [lia|].
    cbn [app] in Hd. rewrite drains_cons, Hk in Hd. lia.
Qed.

Definition not_live (ref : nat) (m : mux) : Prop :=
  forall st, heap m !! ref = Some st -> map_get (streams m) (sid st) <> Some ref.

(** A run of [drainIncoming] on [ref] ends, holding no chunk or after its stream
    left the table. *)
Lemma inv_drain_end lim k ref (m : mux) :
  mux_inv_at lim [k] m -> drain_of ref k = 1 ->
  inflight_of ref k = 0 \/ not_live ref m ->
  mux_inv lim (upd ref (set_drainingIncoming false) m).
Proof.
  intros Hinv Hd1 Hk. destruct (inv_drain_only _ _ _ _ Hinv Hd1) as [Hlen Hd0].
  destruct (drain_facts _ _ Hd1) as [Hother Hp0].
  destruct (lookup_lt_is_Some_2 _ _ Hlen) as [st Hr].
  apply (inv_upd lim [k] [] m ref _ st); try done.
  - intros r Hne. destruct (Hother r Hne) as [Hi Hd].
    rewrite drains_cons, inflight_cons_other by done. lia.
  - unfold pumps; simpl. lia.
  - pose proof (core_strays _ _ _ (inv_core _ _ _ Hinv)) as Hs.
    by apply strays_cons in Hs as [_ ?].
  - pose proof (core_objects _ _ _ (inv_core _ _ _ Hinv) _ _ Hr) as [_ Hc].
    constructor; [exact Hd0|exact Hc].
  - intros Hg Hok. destruct Hk as [Hk|Hk]; [|by destruct (Hk st Hr)].
    destruct Hok as [O1 O2 O3 O4 O5 O6 O7 O8]. cbn [app] in *.
    rewrite inflight_cons_other in O5, O7, O8 by done. by constructor.
Qed.

(** The continuation being run, exchanged for one that holds the same. *)
Lemma inv_swap lim k k' (m : mux) :
  (forall r, inflight_of r k' = inflight_of r k) ->
  (forall r, drain_of r k' = drain_of r k) -> pump_of k' = pump_of k ->
  stray_of (sids (heap m)) k' = 0 ->
  mux_inv_at lim [k] m -> mux_inv_at lim [k'] m.
Proof.
  intros Hi Hd Hp Hs [[H1 H2 H3 H4 H5 H7 H8 H6] Hq Hpm Hc].
  assert (Hi' : forall r ks, inflight r (k' :: ks) = inflight r (k :: ks))
    by (intros; unfold inflight; simpl; by rewrite Hi).
  assert (Hd' : forall r ks, drains r (k' :: ks) = drains r (k :: ks))
    by (intros; rewrite !drains_cons; by rewrite Hd).
  cbn [app] in *. constructor; [constructor; auto|done| |done]; cbn [app].
  - intros id r Hg. destruct (H2 id r Hg) as (st & ? & ? & ?). exists st.
    split_and!; [done..|]. eapply live_ok_ext; [apply Hi'|done|done].
  - intros r st Hr. eapply object_ok_ext; [apply Hd'|done|by apply H3].
  - intros r Hr. rewrite Hi', Hd'. auto.
  - apply strays_cons in H7 as [_ H7]. unfold strays in *. simpl. lia.
  - unfold pumps in *. simpl in *. lia.
Qed.

Lemma drain_of_ack ref : drain_of ref (KDrainAck ref) = 1.
Proof. simpl. by rewrite decide_True. Qed.

Lemma inv_drain_loop lim ref (m : mux) :
  mux_inv_at lim [KDrainAck ref] m -> mux_inv lim (drain_loop ref m).
Proof.
  intros Hinv.
  destruct (inv_drain_only _ _ ref _ Hinv (drain_of_ack ref)) as [Hlt Hd0].
  unfold drain_loop. destruct (lookup_lt_is_Some_2 _ _ Hlt) as [st Hr]. rewrite Hr.
  destruct (incoming st) as [|chunk rest] eqn:Hin.
  - apply (inv_drain_end lim (KDrainAck ref)); [|apply drain_of_ack|by left].
    case_match; [|done]. apply inv_collectStream.
    eapply inv_silent; [by apply silent_emit|done].
  - apply inv_suspend. by eapply inv_deliver.
Qed.

Lemma inv_scheduleDrain lim ref (m : mux) :
  mux_inv lim m -> mux_inv lim (scheduleIncomingDrain ref m).
Proof.
  intros Hinv. unfold scheduleIncomingDrain.
  destruct (heap m !! ref) as [st|] eqn:Hr; [|done].
  destruct (drainingIncoming st) eqn:Hdr; [done|].
  destruct (handler st); [|done]. cbn [orb negb].
  apply inv_drain_loop.
  apply (inv_upd lim [] [KDrainAck ref] m ref _ st); try done.
  - intros r Hne. unfold drains; simpl. by rewrite decide_False.
  - apply (core_strays _ _ _ (inv_core _ _ _ Hinv)).
  - pose proof (core_objects _ _ _ (inv_core _ _ _ Hinv) _ _ Hr) as [Hd Hc].
    rewrite Hdr in Hd. constructor; [|exact Hc].
    cbn [app] in *. rewrite drains_cons, Hd. simpl. by rewrite decide_True.
  - intros _ [O1 O2 O3 O4 O5 O6 O7 O8]. by constructor.
Qed.

(** ** Sending *)

Lemma object_ok_send ks tr ref st st' :
  drainingIncoming st' = drainingIncoming st -> incoming st' = incoming st ->
  object_ok ks tr ref st -> object_ok ks tr ref st'.
Proof. intros Hd Hi []. constructor; congruence. Qed.

Lemma inv_queueFrame lim x f control (m : mux) :
  mux_inv_at lim x m ->
  mux_inv_at lim x (snd (queueFrame lim f control m))
  /\ same_streams m (snd (queueFrame lim f control m)).
Proof.
  intros Hinv. pose proof (queueFrame_silent lim f control m (inv_queues _ _ _ Hinv)) as Hs.
  split; [by eapply inv_silent|]. apply (quiet_same _ _ (silent_quiet _ _ Hs)).
Qed.

Lemma inv_flush_loop lim x ref ws (m : mux) st :
  mux_inv_at lim x m -> heap m !! ref = Some st -> pendingWrites st = ws ->
  mux_inv_at lim x (snd (flush_loop lim ref ws m)).
Proof.
  revert m st; induction ws as [|w ws IH]; intros m st Hinv Hr Hw; [done|].
  cbn [flush_loop]. unfold se_bind, se_gets, se_modify at 1. rewrite Hr.
  destruct (Z.ltb_spec (sendCreditBytes st) (byteLength (w_data w))) as [|Hcr]; [done|].
  set (m1 := upd ref _ m).
  assert (Hm1 : mux_inv_at lim x m1).
  { apply (inv_mutate lim x m ref _ st); try done.
    - by apply object_ok_send.
    - intros _ [O1 O2 O3 O4 O5 O6 O7 O8]. rewrite Hw in O3, O4. simpl in O3, O4.
      destruct O4 as (_ & Hpos & O4).
      change (byteLength (w_data w)) with (write_len w) in *.
      constructor; simpl; auto; try lia.
      replace (sendOffset st - (pendingWriteBytes st - write_len w))
        with (sendOffset st - pendingWriteBytes st + write_len w) by lia.
      done. }
  destruct (inv_queueFrame lim x (Frame Data (sid st) (w_offset w) 0 (w_data w)) false m1 Hm1)
    as [Hm2 Hs].
  destruct (queueFrame lim _ false m1) as [[u|code] m2]; [|done].
  apply ss_heap in Hs. simpl in Hs, Hm2.
  eapply IH; [done|rewrite Hs; by apply heap_upd_eq|done].
Qed.

Lemma inv_flushWrites lim x ref (m : mux) :
  mux_inv_at lim x m -> mux_inv_at lim x (snd (flushWrites lim ref m)).
Proof.
  intros Hinv. unfold flushWrites, se_bind, se_get.
  destruct (heap m !! ref) as [st|] eqn:Hr; [|done].
  case_match; [done|]. by eapply inv_flush_loop.
Qed.

Lemma requiredStream_inv id (m : mux) r m' :
  requiredStream id m = (r, m') ->
  m' = m /\ match r with
            | Ok (ref, st) => map_get (streams m) (trim id) = Some ref
                              /\ heap m !! ref = Some st
            | Err _ => True
            end.
Proof.
  unfold requiredStream, se_bind, se_lift, se_get, se_ret, se_throw.
  destruct (validateStreamId id) as [t|code] eqn:Hv; [|by intros [= <- <-]].
  apply boundedText_inv in Hv as (-> & _).
  destruct (map_get (streams m) (trim id)) as [ref|] eqn:Hg; [|by intros [= <- <-]].
  destruct (heap m !! ref) as [st|] eqn:Hh; by intros [= <- <-].
Qed.

(** The object [requiredStream] returns is the one in the table. *)
Lemma required_live lim x id (m : mux) ref st :
  mux_inv_at lim x m -> map_get (streams m) id = Some ref -> heap m !! ref = Some st ->
  sid st = id /\ live_ok (receiveWindowBytes lim) (x ++ conts m) (trace m) ref st.
Proof.
  intros Hinv Hg Hh.
  destruct (core_live _ _ _ (inv_core _ _ _ Hinv) _ _ Hg) as (st' & ? & ? & ?).
  by simplify_eq.
Qed.

Lemma pieces_spec fuel chunk data at_ :
  (0 < chunk)%nat ->
  contiguous w_offset write_len at_ (pieces fuel chunk data at_)
  /\ ((length data <= fuel)%nat ->
      mjoin (map w_data (pieces fuel chunk data at_)) = data)
  /\ Forall (fun w => write_len w <= Z.of_nat chunk) (pieces fuel chunk data at_).
Proof.
  intros Hc. revert data at_; induction fuel as [|fuel IH]; intros data at_; simpl.
  { split_and!; [done| |constructor]. destruct data; simpl; [done|lia]. }
  destruct data as [|b data]; [simpl; split_and!; [done|done|constructor]|].
  destruct (IH (drop chunk (b :: data)) (at_ + byteLength (take chunk (b :: data))))
    as (H1 & H2 & H3).
  assert (Hpos : 0 < byteLength (take chunk (b :: data)))
    by (unfold byteLength; rewrite length_take; simpl; lia).
  split_and!.
  - simpl. done.
  - intros Hlen. simpl. rewrite H2; [apply take_drop|].
    rewrite length_drop. simpl in *. lia.
  - constructor; [|done]. unfold write_len, byteLength. simpl. rewrite length_take. lia.
Qed.

Lemma inv_write lim x id data (m : mux) :
  1 <= maximumChunkBytes lim ->
  mux_inv_at lim x m -> mux_inv_at lim x (snd (write lim id data m)).
Proof.
  intros Hl Hinv. unfold write, ensureOpen, se_bind, se_gets, se_modify at 1.
  destruct (closed m); [done|]. cbn [se_ret].
  destruct (requiredStream id m) as [[[ref st]|code] m'] eqn:Hrq;
    apply requiredStream_inv in Hrq as [-> Hq]; [|done].
  destruct Hq as [Hg Hr].
  destruct (localClosed st); [done|]. case_match; [done|]. case_match; [done|].
  apply inv_flushWrites.
  destruct (pieces_spec (length data) (Z.to_nat (maximumChunkBytes lim)) data
    (sendOffset st)) as (Hc & _ & _); [lia|].
  set (ws := pieces _ _ _ _) in *.
  apply (inv_mutate lim x m ref _ st); try done.
  - by apply object_ok_send.
  - intros _ [O1 O2 O3 O4 O5 O6 O7 O8]. pose proof (contiguous_nonneg _ _ _ _ Hc).
    change (zsum (fun w => byteLength (w_data w)) ws) with (zsum write_len ws) in *.
    constructor; simpl;
      change (zsum (fun w => byteLength (w_data w)) ws) with (zsum write_len ws);
      auto; try lia.
    + rewrite zsum_app. lia.
    + apply contiguous_app.
      match goal with |- contiguous _ _ ?s _ /\ _ =>
        replace s with (sendOffset st - pendingWriteBytes st) by lia end.
      split; [done|]. rewrite <- O3.
      match goal with |- contiguous _ _ ?s _ => replace s with (sendOffset st) by lia end.
      done.
Qed.

(** ** Opening *)

Lemma strays_grow ids more ks : strays ids ks = 0 -> strays (ids ++ more) ks = 0.
Proof.
  induction ks as [|k ks IH]; [done|]. intros [Hk Hks]%strays_cons.
  unfold strays in *. simpl. rewrite IH by done.
  destruct k as [|r c|r|r t e c|t e|r|]; try done. simpl in *.
  destruct (ids !! r) eqn:Er, (ids !! t) eqn:Et; try done.
  by rewrite !(lookup_app_l_Some ids more _ _ Er), !(lookup_app_l_Some ids more _ _ Et), Hk.
Qed.

Lemma inv_new lim x (m : mux) st :
  mux_inv_at lim x m ->
  closed m = false ->
  map_has (streams m) (sid st) = false ->
  map_size (streams m) < maximumStreams lim ->
  0 <= receiveWindowBytes lim -> 0 <= sendCreditBytes st -> trim (sid st) = sid st ->
  (exists lo ro meta id, st = set_sendCreditBytes (sendCreditBytes st)
                               (createState id meta lo ro)) ->
  mux_inv_at lim x (set_streams (map_set (streams m) (sid st) (length (heap m)))
                      (set_heap (heap m ++ [st]) m)).
Proof.
  intros [[H1 H2 H3 H4 H5 H7 H8 H6] Hq Hp Hc] Hcl Hnew Hsize Hw Hcr Htrim (lo & ro & meta & id & Hst).
  destruct (H5 (length (heap m)) ltac:(done)) as (Hdel & Hinf & Hdr).
  assert (Hold : forall ref s, heap m !! ref = Some s -> (heap m ++ [st]) !! ref = Some s)
    by (intros; by apply lookup_app_l_Some).
  constructor; [constructor; auto|by apply (queues_fields m)|done|].
  - simpl. by apply map_wf_set.
  - cbn [set_streams set_heap streams heap conts trace]. intros k ref.
    rewrite map_get_set. case_decide as Hk; intros Hg.
    + simplify_eq. exists st. rewrite list_lookup_middle by done. split_and!; [done..|].
      rewrite Hst. constructor; simpl; try lia; try done.
      unfold delivered. rewrite Hdel. simpl. lia.
    + destruct (H2 k ref Hg) as (s & Hs & ? & ?). exists s. auto.
  - cbn [set_streams set_heap heap conts trace]. intros ref s Hs.
    apply lookup_app_Some in Hs as [Hs|[Hge Hs]]; [by apply H3|].
    apply list_lookup_singleton_Some in Hs as [Hz ->].
    replace ref with (length (heap m)) by lia. rewrite Hst. by constructor.
  - cbn [set_streams set_heap heap conts trace]. intros ref. rewrite length_app. simpl.
    intros Hlen. apply H5. lia.
  - cbn [set_streams set_heap heap conts]. unfold sids. rewrite fmap_app.
    by apply strays_grow.
  - cbn [set_streams set_heap heap]. unfold sids. rewrite fmap_app.
    apply Forall_app; split; [done|]. by repeat constructor.
  - simpl. rewrite map_size_set, Hnew. lia.
  - simpl. congruence.
Qed.

Section Handlers.
Context (lim : mux_limits).
Context (Hwindow : 0 <= receiveWindowBytes lim) (Hchunk : 1 <= maximumChunkBytes lim).

Lemma inv_openStream id meta (m : mux) :
  mux_inv lim m -> mux_inv lim (snd (openStream lim id meta m)).
Proof.
  intros Hinv. unfold openStream, ensureOpen, se_bind, se_gets, se_lift, se_get,
    se_modify at 1.
  destruct (closed m) eqn:Hcl; [done|]. cbn [se_ret].
  destruct (validateStreamId id) as [t|code] eqn:Hv; [|done].
  apply boundedText_inv in Hv as (Ht & _).
  assert (trim t = t) by (rewrite Ht; apply trim_id, trim_is_trimmed).
  destruct (map_has (streams m) t) eqn:Hh; [done|].
  destruct (Z.leb_spec (maximumStreams lim) (map_size (streams m))); [done|].
  case_match; [done|].
  set (m1 := set_streams _ _).
  assert (Hm1 : mux_inv lim m1).
  { apply (inv_new lim [] m (createState t meta true false)); try done.
    by exists true, false, meta, t. }
  destruct (inv_queueFrame lim [] (Frame Open t 0 (receiveWindowBytes lim) meta) true m1 Hm1)
    as [Hm2 _].
  by destruct (queueFrame lim _ true m1) as [[u|code] m2].
Qed.

Lemma inv_receiveOpen f (m : mux) :
  mux_inv lim m -> closed m = false -> trim (streamId f) = streamId f -> mux_inv lim (snd (receiveOpen lim f m)).
Proof.
  intros Hinv Hcl Ht. unfold receiveOpen.
  destruct (negb (offset f =? 0)); [done|].
  destruct (Z.ltb_spec (creditBytes f) 1); [done|]. cbn [orb].
  unfold se_bind at 1, se_get.
  destruct (map_has (streams m) (streamId f)) eqn:Hh; [done|].
  destruct (Z.leb_spec (maximumStreams lim) (map_size (streams m))).
  { by apply inv_queueFrame. }
  unfold se_bind, se_modify at 1.
  set (st := set_sendCreditBytes _ _). set (m1 := set_streams _ _).
  assert (Hm1 : mux_inv lim m1).
  { apply (inv_new lim [] m st); try done; simpl; [lia|].
    by exists false, true, (payload f), (streamId f). }
  destruct (inv_queueFrame lim []
    (Frame Acknowledge (sid st) 0 (receiveWindowBytes lim) []) true m1 Hm1) as [Hm2 _].
  destruct (queueFrame lim _ true m1) as [[u|code] m2]; [|done].
  simpl. eapply inv_silent; [by apply silent_emit|done].
Qed.

Lemma inv_receiveData f (m : mux) :
  mux_inv lim m -> mux_inv lim (snd (receiveData lim f m)).
Proof.
  intros Hinv. unfold receiveData. case_match; [done|]. bool_prop.
  unfold se_bind at 1. destruct (requiredStream (streamId f) m) as [[[ref st]|c] m'] eqn:Hrq;
    apply requiredStream_inv in Hrq as [-> Hq]; [|done].
  destruct Hq as [Hg Hr]. destruct (remoteClosed st); [done|].
  destruct (Z.ltb_spec (offset f) (receiveOffset st)).
  { case_match; [|done]. by apply inv_queueFrame. }
  destruct (Z.eqb_spec (offset f) (receiveOffset st + receiveBufferedBytes st)) as [Ho|];
    [|done]. cbn [negb].
  destruct (Z.ltb_spec (receiveWindowBytes lim)
    (receiveBufferedBytes st + byteLength (payload f))); [done|].
  unfold se_bind, se_modify. cbn [snd]. apply inv_scheduleDrain.
  destruct (required_live lim [] _ m ref st Hinv Hg Hr) as [Hid Hlive].
  apply (inv_mutate lim [] m ref _ st); try done.
  - intros [Hd Hc]. constructor; [exact Hd|]. simpl. apply contiguous_app. split; [done|].
    destruct Hlive as [O1 O2 O3 O4 O5 O6 O7 O8]. simpl. unfold chunk_len at 2; simpl.
    split_and!; [lia|lia|done].
  - intros _ [O1 O2 O3 O4 O5 O6 O7 O8]. constructor; simpl; auto; try lia.
    rewrite zsum_app. simpl in *.
    change (chunk_len (Chunk (offset f) (payload f))) with (byteLength (payload f)). lia.
Qed.

Lemma inv_receiveAcknowledgement f (m : mux) :
  mux_inv lim m -> mux_inv lim (snd (receiveAcknowledgement lim f m)).
Proof.
  intros Hinv. unfold receiveAcknowledgement. case_match; [done|]. bool_prop.
  unfold se_bind at 1. destruct (requiredStream (streamId f) m) as [[[ref st]|c] m'] eqn:Hrq;
    apply requiredStream_inv in Hrq as [-> Hq]; [|done].
  destruct Hq as [Hg Hr]. case_match; [done|]. bool_prop.
  unfold se_bind, se_modify. set (m1 := upd ref _ m).
  assert (Hm1 : mux_inv lim m1).
  { apply (inv_mutate lim [] m ref _ st); try done.
    - simpl. by case_match.
    - apply object_ok_send; simpl; by case_match.
    - intros _ [O1 O2 O3 O4 O5 O6 O7 O8].
      destruct (localOpened st && negb (remoteOpened st) && (offset f =? 0));
        constructor; simpl; auto; try lia. }
  case_match; [done|]. by apply inv_flushWrites.
Qed.

Lemma inv_receiveClose f (m : mux) :
  mux_inv lim m -> mux_inv lim (snd (receiveClose f m)).
Proof.
  intros Hinv. unfold receiveClose. case_match; [done|].
  unfold se_bind at 1. destruct (requiredStream (streamId f) m) as [[[ref st]|c] m'] eqn:Hrq;
    apply requiredStream_inv in Hrq as [-> Hq]; [|done].
  destruct Hq as [Hg Hr]. case_match; [done|].
  unfold se_bind, se_modify. set (m1 := upd ref _ m).
  assert (Hm1 : mux_inv lim m1).
  { apply (inv_mutate lim [] m ref _ st); try done.
    - by apply object_ok_send.
    - intros _ [O1 O2 O3 O4 O5 O6 O7 O8]. by constructor. }
  case_match; [|done]. simpl. apply inv_collectStream.
  eapply inv_silent; [by apply silent_emit|done].
Qed.

Lemma inv_handleFrame f (m : mux) :
  mux_inv lim m -> closed m = false -> trim (streamId f) = streamId f -> mux_inv lim (snd (handleFrame lim f m)).
Proof.
  intros Hinv Hcl Ht. unfold handleFrame. destruct (type f).
  - by apply inv_receiveOpen.
  - by apply inv_receiveData.
  - by apply inv_receiveAcknowledgement.
  - by apply inv_receiveClose.
  - unfold receiveReset, se_bind, se_get. destruct (map_get _ _); [|done].
    by apply inv_failStream.
Qed.

Lemma inv_receiveFrame b (m : mux) :
  mux_inv lim m -> mux_inv lim (receiveFrame lim b m).
Proof.
  intros Hinv. unfold receiveFrame. destruct (closed m) eqn:Hcl; [done|].
  unfold se_bind, se_lift.
  destruct (decodeFrame b (maximumChunkBytes lim)) as [f|code] eqn:Hdec.
  - apply decodeFrame_inv in Hdec as (_ & Ht & _). symmetry in Ht.
    pose proof (inv_handleFrame f m Hinv Hcl Ht) as H.
    destruct (handleFrame lim f m) as [[u|code] m']; [done|]. by apply inv_fail.
  - by apply inv_fail.
Qed.

(** ** The rest of the API *)

Lemma inv_setDataHandler id (m : mux) :
  mux_inv lim m -> mux_inv lim (snd (setDataHandler id m)).
Proof.
  intros Hinv. unfold setDataHandler, se_bind at 1.
  destruct (requiredStream id m) as [[[ref st]|c] m'] eqn:Hrq;
    apply requiredStream_inv in Hrq as [-> Hq]; [|done].
  destruct Hq as [Hg Hr]. unfold se_bind, se_modify. cbn [snd].
  apply inv_scheduleDrain. apply (inv_mutate lim [] m ref _ st); try done.
  - by apply object_ok_send.
  - intros _ [O1 O2 O3 O4 O5 O6 O7 O8]. by constructor.
Qed.

Lemma inv_closeStream id (m : mux) :
  mux_inv lim m -> mux_inv lim (snd (closeStream lim id m)).
Proof.
  intros Hinv. unfold closeStream, se_bind at 1.
  destruct (requiredStream id m) as [[[ref st]|c] m'] eqn:Hrq;
    apply requiredStream_inv in Hrq as [-> Hq]; [|done].
  destruct Hq as [Hg Hr]. destruct (localClosed st); [done|].
  unfold se_bind, se_modify at 1. set (m1 := upd ref _ m).
  assert (Hm1 : mux_inv lim m1).
  { apply (inv_mutate lim [] m ref _ st); try done.
    - by apply object_ok_send.
    - intros _ [O1 O2 O3 O4 O5 O6 O7 O8]. by constructor. }
  destruct (inv_queueFrame lim [] (Frame Close (sid st) (sendOffset st) 0 []) true m1 Hm1)
    as [Hm2 _].
  destruct (queueFrame lim _ true m1) as [[u|code] m2]; [|done].
  simpl. eapply inv_silent; [by apply silent_suspend|done].
Qed.

Lemma inv_reset_begin x id reason (m : mux) :
  mux_inv_at lim x m -> mux_inv_at lim x (snd (reset_begin lim id reason m))
    /\ same_streams m (snd (reset_begin lim id reason m)).
Proof.
  intros Hinv. unfold reset_begin, se_bind, se_lift.
  destruct (requiredStream id m) as [[[ref st]|c] m'] eqn:Hrq;
    apply requiredStream_inv in Hrq as [-> Hq]; [|by split; [done|reflexivity]].
  destruct (boundedText _ _ _) as [t|code];
    [|by split; [done|reflexivity]].
  destruct (inv_queueFrame lim x (Frame Reset (sid st) (receiveOffset st) 0 (utf8_encode t))
    true m Hinv) as [Hm2 Hs].
  by destruct (queueFrame lim _ true m) as [[u|code] m2].
Qed.

Lemma inv_resetStream id reason (m : mux) :
  mux_inv lim m -> mux_inv lim (snd (resetStream lim id reason m)).
Proof.
  intros Hinv. destruct (inv_reset_begin [] id reason m Hinv) as [Hm _].
  unfold resetStream, se_bind.
  destruct (reset_begin lim id reason m) as [[r|code] m']; [|done].
  simpl. eapply inv_silent; [by apply silent_suspend|done].
Qed.

Lemma inv_close (m : mux) : mux_inv lim m -> mux_inv lim (close m).
Proof.
  intros Hinv. unfold close. destruct (closed m) eqn:Hcl; [done|].
  destruct (open_inv_failStreams lim [] (ECode "direct_mux_closed") (set_closed true m))
    as (Ho & Hs & Hc); [by apply open_inv_intro|].
  set (m1 := failStreams _ _) in *.
  eapply inv_silent; [by apply silent_suspend|].
  eapply inv_silent; [by apply silent_emit|].
  destruct Ho as [[H1 H2 H3 H4 H5 H6] Hq Hp _]. simpl in *. rewrite Hs in *.
  constructor; [constructor; simpl; auto; done| |done|done].
  constructor; simpl; [apply map_wf_nil|apply NoDup_nil_2|set_solver|done].
Qed.

(** ** Continuations *)

Lemma rejections_trace r e ws (m : mux) :
  foldl (fun m w => emit (EvWriteRejected r (w_offset w) e) m) m ws
  = set_trace (trace m ++ map (fun w => EvWriteRejected r (w_offset w) e) ws) m.
Proof.
  revert m; induction ws as [|w ws IH]; intros m; simpl.
  - rewrite app_nil_r. by destruct m.
  - rewrite IH. simpl. by rewrite <- app_assoc.
Qed.

Lemma failStream_undrain ref r e (m : mux) :
  failStream r e (upd ref (set_drainingIncoming false) m)
  = upd ref (set_drainingIncoming false) (failStream r e m).
Proof.
  set (g := if decide (r = ref) then set_drainingIncoming false else (fun s => s)).
  assert (Hh : heap (upd ref (set_drainingIncoming false) m) !! r = g <$> heap m !! r).
  { unfold g. case_decide; subst; simpl.
    - by rewrite list_lookup_alter_eq.
    - rewrite list_lookup_alter_ne by done. by destruct (heap m !! r). }
  unfold failStream. rewrite Hh. destruct (heap m !! r) as [st|]; [|done].
  cbn [fmap option_fmap option_map].
  assert (Hs : sid (g st) = sid st) by (unfold g; by case_decide).
  assert (Hw : pendingWrites (g st) = pendingWrites st) by (unfold g; by case_decide).
  rewrite Hs, Hw, !rejections_trace. cbn [upd set_heap streams].
  destruct (map_has (streams m) (sid st)); [|done].
  unfold upd, drop_queue, emit. cbn. f_equal.
  destruct (decide (r = ref)) as [->|Hne].
  - by rewrite !list_alter_alter_eq.
  - by rewrite list_alter_alter_ne.
Qed.

Lemma fail_undrain ref e (m : mux) :
  fail e (upd ref (set_drainingIncoming false) m)
  = upd ref (set_drainingIncoming false) (fail e m).
Proof.
  unfold fail. change (closed (upd ref (set_drainingIncoming false) m)) with (closed m).
  destruct (closed m); [done|].
  assert (Hf : failStreams e (set_closed true (upd ref (set_drainingIncoming false) m))
    = upd ref (set_drainingIncoming false) (failStreams e (set_closed true m))).
  { unfold failStreams. cbn [set_closed streams upd set_heap].
    change (set_closed true (upd ref (set_drainingIncoming false) m))
      with (upd ref (set_drainingIncoming false) (set_closed true m)).
    generalize (set_closed true m) as m0. generalize (map_values (streams m)) as refs.
    intros refs; induction refs as [|r refs IH]; intros m0; [done|].
    simpl. rewrite <- IH. by rewrite failStream_undrain. }
  by rewrite Hf.
Qed.

Lemma not_live_empty ref (m : mux) : streams m = [] -> not_live ref m.
Proof. intros Hs st _. by rewrite Hs. Qed.

Lemma inv_drain_rejected k ref e (m : mux) :
  mux_inv_at lim [k] m -> drain_of ref k = 1 -> mux_inv lim (drain_rejected ref e m).
Proof.
  intros Hinv Hd. unfold drain_rejected.
  destruct (inv_drain_only _ _ ref _ Hinv Hd) as [Hlt _].
  destruct (lookup_lt_is_Some_2 _ _ Hlt) as [st Hr].
  rewrite (heap_upd_eq _ _ _ st) by done. cbn [set_drainingIncoming sid upd set_heap
    closed streams].
  destruct (closed m) eqn:Hcl; [|destruct (map_has (streams m) (sid st)) eqn:Hh];
    cbn [orb negb].
  - apply (inv_drain_end lim k); [done|done|right].
    apply not_live_empty, (inv_closed _ _ _ Hinv Hcl).
  - rewrite fail_undrain. destruct (inv_fail lim [k] e m Hinv) as (Hf & _ & Hs).
    apply (inv_drain_end lim k); [done|done|right]. by apply not_live_empty.
  - apply (inv_drain_end lim k); [done|done|right]. intros st' Hst'.
    replace st' with st by congruence.
    unfold map_has in Hh. by destruct (map_get (streams m) (sid st)).
Qed.

(** A drain at its handler becomes a drain that holds no chunk. *)
Lemma inv_drain_handled ref chunk (m : mux) :
  mux_inv_at lim [KDrainHandler ref chunk] m -> mux_inv lim (drain_handled lim ref chunk m).
Proof.
  intros Hinv.
  assert (Hd1 : drain_of ref (KDrainHandler ref chunk) = 1)
    by (simpl; by rewrite decide_True).
  destruct (inv_drain_only _ _ ref _ Hinv Hd1) as [Hlt Hd0].
  unfold drain_handled. destruct (lookup_lt_is_Some_2 _ _ Hlt) as [st Hr]. rewrite Hr.
  destruct (closed m || negb (map_has (streams m) (sid st))) eqn:Hgone.
  { apply (inv_drain_end lim (KDrainHandler ref chunk)); [done|done|right].
    intros st' Hr'. replace st' with st by congruence.
    apply orb_true_iff in Hgone as [Hcl|Hno].
    - by rewrite (inv_closed _ _ _ Hinv Hcl).
    - unfold map_has in Hno. by destruct (map_get (streams m) (sid st)). }
  set (st' := set_receiveBufferedBytes _ _). set (m1 := upd ref _ m).
  assert (Hm1 : mux_inv_at lim [KDrainAck ref] m1).
  { apply (inv_upd lim [KDrainHandler ref chunk] [KDrainAck ref] m ref _ st); try done.
    - intros r Hne. unfold inflight, drains; simpl. by rewrite !decide_False.
    - apply (core_strays _ _ _ (inv_core _ _ _ Hinv)).
    - apply (object_ok_send _ _ _ st); [done|done|].
      pose proof (core_objects _ _ _ (inv_core _ _ _ Hinv) _ _ Hr) as [? ?].
      by constructor.
    - intros _ [O1 O2 O3 O4 O5 O6 O7 O8]. cbn [app] in *.
      rewrite inflight_cons_same in O5, O7, O8.
      assert (0 <= inflight ref (conts m)).
      { apply zsum_nonneg, Forall_forall. intros k _. destruct k; simpl; try lia;
          (case_decide; [|lia]); apply byteLength_nonneg. }
      pose proof (byteLength_nonneg (c_data chunk)).
      change (chunk_len chunk) with (byteLength (c_data chunk)) in *.
      constructor; simpl; rewrite ?inflight_cons_other by done; auto; lia. }
  destruct (inv_queueFrame lim [KDrainAck ref] (Frame Acknowledge (sid st')
    (receiveOffset st') (byteLength (c_data chunk)) []) true m1 Hm1) as [Hm2 _].
  unfold queueAcknowledgement.
  destruct (queueFrame lim _ true m1) as [[u|code] m2].
  - by apply inv_suspend.
  - apply (inv_drain_rejected (KDrainAck ref)); [done|apply drain_of_ack].
Qed.

Lemma inv_drain_threw ref chunk message (m : mux) :
  mux_inv_at lim [KDrainHandler ref chunk] m ->
  mux_inv lim (drain_threw lim ref chunk message m).
Proof.
  intros Hinv.
  assert (Hd1 : drain_of ref (KDrainHandler ref chunk) = 1)
    by (simpl; by rewrite decide_True).
  destruct (inv_drain_only _ _ ref _ Hinv Hd1) as [Hlt Hd0].
  unfold drain_threw. destruct (lookup_lt_is_Some_2 _ _ Hlt) as [st Hr]. rewrite Hr.
  destruct (inv_reset_begin _ (sid st) message m Hinv) as [Hm1 Hs].
  destruct (reset_begin lim (sid st) message m) as [[target|code] m1] eqn:Hrb;
    simpl in Hm1, Hs; [|by eapply inv_drain_rejected].
  assert (Ht : exists s, heap m !! target = Some s /\ sid s = sid st).
  { unfold reset_begin, se_bind, se_lift in Hrb.
    destruct (requiredStream (sid st) m) as [[[r s]|c] m'] eqn:Hrq;
      apply requiredStream_inv in Hrq as [-> Hq]; [|done].
    destruct (boundedText _ _ _); [|done].
    destruct (queueFrame lim _ true m) as [[u|code] m2]; [|done].
    injection Hrb as <- <-. destruct Hq as [Hg Hh]. exists s. split; [done|].
    destruct (required_live _ _ _ _ _ _ Hinv Hg Hh) as [-> _].
    pose proof (core_ids _ _ _ (inv_core _ _ _ Hinv)) as Hids.
    rewrite Forall_lookup in Hids. apply (Hids ref). unfold sids.
    by rewrite list_lookup_fmap, Hr. }
  apply inv_suspend. apply (inv_swap lim (KDrainHandler ref chunk)); try done.
  simpl. destruct Ht as (s & Hs1 & Hs2).
  unfold sids. rewrite !list_lookup_fmap, (ss_heap _ _ Hs), Hr, Hs1. simpl.
  by rewrite decide_True.
Qed.

Lemma failStream_sids r e (m : mux) : sids (heap (failStream r e m)) = sids (heap m).
Proof.
  unfold failStream. destruct (heap m !! r) as [st|] eqn:Hr; [|done].
  destruct (map_has (streams m) (sid st)); [|done]. cbn [negb].
  rewrite rejections_trace. cbn [emit set_trace drop_queue set_dataRoundRobin
    set_dataFrames heap]. etrans; [by apply (sids_upd r _ _ st)|done].
Qed.

Lemma inv_drain_reset ref target reason chunk (m : mux) :
  mux_inv_at lim [KDrainReset ref target reason chunk] m ->
  mux_inv lim (upd ref (set_drainingIncoming false) (failStream target (EText reason) m)).
Proof.
  intros Hinv.
  assert (Hd1 : drain_of ref (KDrainReset ref target reason chunk) = 1)
    by (simpl; by rewrite decide_True).
  apply (inv_drain_end lim (KDrainReset ref target reason chunk));
    [by apply inv_failStream|done|right].
  intros st Hst Hg.
  pose proof (core_strays _ _ _ (inv_core _ _ _ Hinv)) as Hs.
  apply strays_cons in Hs as [Hs _]. simpl in Hs.
  assert (Hsid : sids (heap m) !! ref = Some (sid st)).
  { rewrite <- (failStream_sids target (EText reason)). unfold sids.
    by rewrite list_lookup_fmap, Hst. }
  rewrite Hsid in Hs. unfold sids in Hs. rewrite list_lookup_fmap in Hs.
  destruct (heap m !! target) as [t|] eqn:Ht; [|done]. simpl in Hs.
  destruct (decide (sid st = sid t)) as [Heq|]; [|done].
  rewrite failStream_streams, Ht, <- Heq in Hg.
  destruct (map_has (streams m) (sid st)) eqn:Hh.
  - by rewrite map_get_delete_eq in Hg by apply (core_wf _ _ _ (inv_core _ _ _ Hinv)).
  - unfold map_has in Hh. by rewrite Hg in Hh.
Qed.

(** A continuation that is no drain holds nothing of a stream. *)
Lemma core_drop k (m : mux) :
  (forall ref, drain_of ref k = 0) -> core lim [k] m -> core lim [] m.
Proof.
  intros Hd [H1 H2 H3 H4 H5 H7 H8 H6].
  pose proof (same_suspend k empty_mux Hd) as Hs. destruct Hs as [_ _ Hi _ Hst _].
  assert (Hi0 : forall r, inflight_of r k = 0)
    by (intros r; specialize (Hi r); unfold inflight in Hi; simpl in Hi; lia).
  cbn [app] in *. constructor; auto; cbn [app].
  - intros id r Hg. destruct (H2 id r Hg) as (st & ? & ? & ?). exists st.
    split_and!; [done..|].
    eapply live_ok_ext; [symmetry; by apply inflight_cons_other|done|done].
  - intros r st Hr. eapply object_ok_ext; [|done|by apply H3].
    rewrite drains_cons, Hd. done.
  - intros r Hr. destruct (H5 r Hr) as (? & ? & ?).
    rewrite inflight_cons_other, drains_cons, Hd in * by done. auto.
  - by apply strays_cons in H7 as [_ ?].
Qed.

Lemma inv_drop_cont k (m : mux) :
  (forall ref, drain_of ref k = 0) -> pump_of k = 0 ->
  mux_inv_at lim [k] m -> mux_inv lim m.
Proof.
  intros Hd Hp [Hcore Hq Hpm Hc].
  constructor; [by apply (core_drop k)|done| |done].
  unfold pumps in *. simpl in *. lia.
Qed.

Lemma pumps_nonneg ks : 0 <= pumps ks.
Proof. apply zsum_nonneg, Forall_forall. intros k _. destruct k; simpl; lia. Qed.

Lemma pumps_cons k ks : pumps (k :: ks) = pump_of k + pumps ks.
Proof. done. Qed.

Lemma inv_pump_resumed (m : mux) :
  mux_inv_at lim [KPump] m -> mux_inv lim (pump_loop 1 m).
Proof.
  intros [Hcore Hq Hp Hcl]. cbn [app] in Hp. rewrite pumps_cons in Hp. simpl in Hp.
  pose proof (pumps_nonneg (conts m)).
  destruct (pumping m) eqn:Hpm; simpl in Hp; [|lia].
  destruct (pump_loop_spec 1 m Hq Hpm) as (Hqt & Hk & _).
  constructor.
  - eapply core_same; [exact (quiet_same _ _ Hqt)|]. by apply (core_drop KPump).
  - by apply (quiet_queues _ _ Hqt).
  - cbn [app]. rewrite Hk. lia.
  - rewrite (quiet_closed _ _ Hqt), (ss_streams _ _ (quiet_same _ _ Hqt)). done.
Qed.

Lemma inv_pump_failed e (m : mux) :
  mux_inv_at lim [KPump] m -> mux_inv lim (set_pumping false (fail e m)).
Proof.
  intros Hinv. destruct (inv_fail lim [KPump] e m Hinv) as (Hf & Hcl & Hs).
  destruct Hf as [Hcore Hq Hp Hc]. cbn [app] in Hp. rewrite pumps_cons in Hp.
  pose proof (pumps_nonneg (conts (fail e m))).
  constructor; [|by apply (queues_fields (fail e m))| |done].
  - eapply core_same; [by apply (same_fields (fail e m))|]. by apply (core_drop KPump).
  - cbn [app set_pumping conts pumping flag]. simpl in Hp.
    destruct (pumping (fail e m)); simpl in Hp; lia.
Qed.

Lemma inv_resume k o (m : mux) : mux_inv_at lim [k] m -> mux_inv lim (resume lim k o m).
Proof.
  intros Hinv. destruct k as [|ref c|ref|ref t e c|t e|ref|], o as [|msg]; simpl.
  - by apply inv_pump_resumed.
  - by apply inv_pump_failed.
  - by apply inv_drain_handled.
  - by apply inv_drain_threw.
  - by apply inv_drain_loop.
  - eapply inv_drain_rejected; [done|apply drain_of_ack].
  - by apply inv_drain_reset with (chunk := c).
  - eapply inv_drain_rejected; [done|]. simpl. by rewrite decide_True.
  - by apply inv_failStream, (inv_drop_cont (KReset t e)).
  - by apply (inv_drop_cont (KReset t e)).
  - by apply inv_collectStream, (inv_drop_cont (KCloseStream ref)).
  - by apply (inv_drop_cont (KCloseStream ref)).
  - eapply inv_silent; [by apply silent_emit|]. by apply (inv_drop_cont KMuxClose).
  - eapply inv_silent; [by apply silent_emit|]. by apply (inv_drop_cont KMuxClose).
Qed.

Lemma mux_inv_step i (m : mux) : mux_inv lim m -> mux_inv lim (mux_step lim i m).
Proof.
  intros Hinv. destruct i as [id meta|id d|id|id|id r| |b|e| |n o]; simpl.
  - by apply inv_openStream.
  - by apply inv_write.
  - by apply inv_setDataHandler.
  - by apply inv_closeStream.
  - by apply inv_resetStream.
  - by apply inv_close.
  - by apply inv_receiveFrame.
  - by apply inv_fail.
  - by apply inv_fail.
  - destruct (conts m !! n) as [k|] eqn:Hk; [|done]. apply inv_resume. by apply inv_take.
Qed.

Lemma mux_inv_empty : mux_inv lim empty_mux.
Proof.
  constructor; [constructor|constructor| |]; simpl; try done; try (by intros ? ? ?).
  - apply map_wf_nil.
  - unfold map_size; simpl; lia.
  - apply map_wf_nil.
  - apply NoDup_nil_2.
Qed.

Lemma mux_inv_run inputs (m : mux) : mux_inv lim m -> mux_inv lim (mux_run lim inputs m).
Proof.
  revert m; induction inputs as [|i inputs IH]; intros m Hm; [done|].
  simpl. by apply IH, mux_inv_step.
Qed.
End Handlers.
