(* ===== verification/MuxActs.v ===== *)
(** * The steps of the multiplexer, cut into acts

    Every step of an open mux is a sequence of single acts: a change of one stream
    object, a stream entering or leaving the table, a frame queued and the pump run.
    Two things follow from the acts for whole runs: what a stream may hold to send stays
    within the limits, and a stream that waits in the round robin moves towards its
    front. *)

From S2P Require Import Prelude JsString JsMap MuxFrame Mux MuxInv MuxSteps.

#[local] Open Scope Z_scope.

(** ** Frames sent *)

Definition sent_of (e : event) : option bytes :=
  match e with EvSend b => Some b | _ => None end.

(** The frames handed to the channel, in order. *)
Definition sent (tr : list event) : list bytes := omap sent_of tr.

Lemma sent_app a b : sent (a ++ b) = sent a ++ sent b.
Proof. apply omap_app. Qed.

(** A frame of type [Data], by the byte of its header. *)
Definition is_data (b : bytes) : bool := be_read (subarray b 4 5) =? frame_code Data.

(** The data frames among those sent. *)
Definition data_sent (tr : list event) : nat := length (List.filter is_data (sent tr)).

Lemma data_sent_app a b : data_sent (a ++ b) = (data_sent a + data_sent b)%nat.
Proof. unfold data_sent. by rewrite sent_app, List.filter_app, length_app. Qed.

Lemma encoded_type f n b : encodeFrame f n = Ok b -> is_data b = bool_decide (type f = Data).
Proof.
  intros H. apply encodeFrame_inv in H as (_ & _ & _ & _ & _ & ->). unfold is_data.
  rewrite header_type, be_read_write_small by (by destruct (type f)). by destruct (type f).
Qed.

(** ** What a stream may hold to send *)

(** Credit within the window this side grants itself (within what a frame can carry, for
    a stream the peer opened), and pending writes within the limit beyond the credit. *)
Definition send_ok (lim : mux_limits) (st : StreamState) : Prop :=
  0 <= sendCreditBytes st <= (if localOpened st then receiveWindowBytes lim else MAX_CREDIT_BYTES)
  /\ pendingWriteBytes st <= maximumPendingWriteBytes lim + sendCreditBytes st.

Definition limits_ok (lim : mux_limits) (m : mux) : Prop :=
  forall id ref st, map_get (streams m) id = Some ref -> heap m !! ref = Some st -> send_ok lim st.

(** ** Acts *)

Inductive act (lim : mux_limits) (m : mux) : mux -> Prop :=
| act_quiet m' tr :
    heap m' = heap m -> streams m' = streams m -> controlFrames m' = controlFrames m ->
    dataFrames m' = dataFrames m -> dataRoundRobin m' = dataRoundRobin m -> pumping m' = pumping m ->
    closed m' = closed m -> trace m' = trace m ++ tr -> sent tr = [] -> act lim m m'
| act_upd ref f :
    (forall st, heap m !! ref = Some st -> send_ok lim st -> send_ok lim (f st)) -> act lim m (upd ref f m)
| act_open st :
    map_has (streams m) (sid st) = false -> send_ok lim st ->
    act lim m (set_streams (map_set (streams m) (sid st) (length (heap m))) (set_heap (heap m ++ [st]) m))
| act_unlist id : act lim m (set_streams (map_delete (streams m) id) m)
| act_drop id : map_get (streams m) id = None -> act lim m (drop_queue id m)
| act_control b : is_data b = false -> act lim m (pump (set_controlFrames (controlFrames m ++ [b]) m))
| act_data id b : is_data b = true -> act lim m (pump (push_data id b m))
| act_pump : pumping m = true -> act lim m (pump_loop 1 m).

Abbreviation acts lim := (rtc (act lim)).

Lemma acts_emit lim e m : sent_of e = None -> acts lim m (emit e m).
Proof. intros He. apply rtc_once. apply (act_quiet lim m _ [e]); try done. unfold sent. simpl. by rewrite He. Qed.

Lemma acts_suspend lim k m : acts lim m (suspend k m).
Proof. apply rtc_once. apply (act_quiet lim m _ []); try done. simpl. by rewrite app_nil_r. Qed.

Lemma acts_upd lim ref f m :
  (forall st, heap m !! ref = Some st -> send_ok lim st -> send_ok lim (f st)) -> acts lim m (upd ref f m).
Proof. intros H. by apply rtc_once, act_upd. Qed.

Lemma send_ok_same lim st st' :
  localOpened st' = localOpened st -> sendCreditBytes st' = sendCreditBytes st ->
  pendingWriteBytes st' = pendingWriteBytes st -> send_ok lim st -> send_ok lim st'.
Proof. unfold send_ok. by intros -> -> ->. Qed.

(** ** The pump *)

(** With frames to send it sends one and waits; without, it stops. *)
Lemma pump_loop_cases m :
  queues m -> pumping m = true -> closed m = false ->
  (exists b m1, take_frame m = (Some b, m1) /\ pump_loop 1 m = suspend KPump (emit (EvSend b) m1))
  \/ (has_frames m = false /\ pump_loop 1 m = set_pumping false (take_frame m).2
      /\ controlFrames (take_frame m).2 = controlFrames m /\ dataFrames (take_frame m).2 = dataFrames m
      /\ dataRoundRobin (take_frame m).2 = dataRoundRobin m).
Proof.
  intros Hq Hp Hc. destruct (take_frame m) as [[b|] m1] eqn:Ht.
  - left. exists b, m1. split; [done|]. cbn [pump_loop]. by rewrite Hc, Ht.
  - right. destruct (take_frame_quiet m None m1 Hq Ht) as (Hqt & Hpm & _ & Hnone). specialize (Hnone eq_refl).
    assert (Hsame : controlFrames m1 = controlFrames m /\ dataFrames m1 = dataFrames m /\ dataRoundRobin m1 = dataRoundRobin m).
    { unfold take_frame in Ht. destruct (controlFrames m) as [|c rest] eqn:Ec; [|done]. unfold nextDataFrame in Ht.
      pose proof (next_data_spec _ _ (proj1 (queues_split m) Hq)) as Hs. destruct (dataRoundRobin m) as [|id rr] eqn:Er.
      - destruct Hs as [Hs Hd]. rewrite Hs in Ht. injection Ht as <-. simpl. by rewrite Ec.
      - destruct Hs as (f & q & _ & Hs). rewrite Hs in Ht. by destruct q. }
    destruct Hsame as (E1 & E2 & E3). split_and!; [|cbn [pump_loop]|done..].
    + unfold has_frames in *. by rewrite E1, E2 in Hnone.
    + assert (Hh : has_frames (set_pumping false m1) = false) by exact Hnone.
      rewrite Hc, Ht, Hh, andb_false_r. done.
Qed.

Lemma pump_loop_closed m : closed m = true -> pump_loop 1 m = set_pumping false m.
Proof. intros Hc. cbn [pump_loop]. rewrite Hc. cbn [set_pumping closed]. by rewrite Hc. Qed.

(** The frame that is sent, and what is left of the queues. *)
Lemma take_frame_cases m b m1 :
  queues m -> take_frame m = (Some b, m1) ->
  heap m1 = heap m /\ streams m1 = streams m /\ pumping m1 = pumping m /\ closed m1 = closed m /\ trace m1 = trace m
  /\ ((controlFrames m = b :: controlFrames m1 /\ dataFrames m1 = dataFrames m /\ dataRoundRobin m1 = dataRoundRobin m)
      \/ (controlFrames m = [] /\ controlFrames m1 = []
          /\ exists id rr q, dataRoundRobin m = id :: rr /\ map_get (dataFrames m) id = Some (b :: q)
             /\ dataRoundRobin m1 = (if nonempty q then rr ++ [id] else rr)
             /\ dataFrames m1 = (if nonempty q then map_set (dataFrames m) id q else map_delete (dataFrames m) id))).
Proof.
  intros Hq Ht. unfold take_frame in Ht. destruct (controlFrames m) as [|c rest] eqn:Ec.
  - unfold nextDataFrame in Ht. pose proof (next_data_spec _ _ (proj1 (queues_split m) Hq)) as Hs.
    destruct (dataRoundRobin m) as [|id rr] eqn:Er; [destruct Hs as [Hs _]; by rewrite Hs in Ht|].
    destruct Hs as (f & q & Hg & Hs). rewrite Hs in Ht.
    destruct q as [|g q]; injection Ht as <- <-; (split_and!; try done); right; (split_and!; try done);
      [by exists id, rr, []|by exists id, rr, (g :: q)].
  - injection Ht as <- <-. split_and!; try done. by left.
Qed.

Lemma take_frame_heap m : heap (take_frame m).2 = heap m.
Proof.
  unfold take_frame, nextDataFrame. destruct (controlFrames m); [|done]. by destruct (next_data _ _) as [[? ?] ?].
Qed.

Lemma pump_loop_heap n m : heap (pump_loop n m) = heap m.
Proof.
  revert m. induction n as [|n IH]; intros m; cbn [pump_loop]; pose proof (take_frame_heap m) as Ht;
    destruct (take_frame m) as [[b|] m1]; simpl in Ht; repeat case_match; simpl; rewrite ?IH; simpl; congruence.
Qed.

Lemma queueFrame_heap lim f control m : heap (queueFrame lim f control m).2 = heap m.
Proof.
  unfold queueFrame, ensureOpen, se_bind, se_gets, se_lift, se_modify. destruct (closed m); [done|]. simpl.
  destruct (encodeFrame _ _); [|done]. simpl. unfold pump. case_match; rewrite ?pump_loop_heap; simpl;
    (destruct control; [done|]); unfold push_data; by destruct (map_get _ _).
Qed.

(** ** What the acts keep *)

Record base_inv (lim : mux_limits) (m : mux) : Prop := {
  bi_wf : map_wf (streams m);
  bi_queues : queues m;
  bi_controls : Forall (fun b => is_data b = false) (controlFrames m);
  bi_data : forall id q, map_get (dataFrames m) id = Some q -> Forall (fun b => is_data b = true) q;
  bi_limits : limits_ok lim m;
}.

(** The pump runs while there are frames. *)
Definition drained (m : mux) : Prop := closed m = false -> pumping m = false -> has_frames m = false.

Lemma base_same lim m m' :
  heap m' = heap m -> streams m' = streams m -> controlFrames m' = controlFrames m ->
  dataFrames m' = dataFrames m -> dataRoundRobin m' = dataRoundRobin m -> base_inv lim m -> base_inv lim m'.
Proof.
  intros Hh Hs Hc Hd Hr [H1 H2 H3 H5 H4]. constructor; rewrite ?Hs, ?Hc, ?Hd; [done|by eapply queues_fields|done|done|].
  intros id ref st. rewrite Hs, Hh. apply H4.
Qed.

Lemma pump_loop_keeps lim m : base_inv lim m -> pumping m = true -> base_inv lim (pump_loop 1 m) /\ drained (pump_loop 1 m).
Proof.
  intros Hb Hp. destruct (closed m) eqn:Hc.
  { rewrite pump_loop_closed by done. split; [by apply (base_same lim m)|]. intros H. simpl in H. congruence. }
  pose proof Hb as [H1 H2 H3 H5 H4].
  destruct (pump_loop_cases m H2 Hp Hc) as [(b & m1 & Ht & ->)|(Hf & -> & E1 & E2 & E3)].
  - destruct (take_frame_quiet m _ m1 H2 Ht) as (Hqt & Hpm & _). pose proof (quiet_queues _ _ Hqt H2) as Hq1.
    destruct (take_frame_cases m b m1 H2 Ht) as (Eh & Es & _ & _ & _ & Hcase). split.
    + apply (base_same lim m1); try done. constructor; [by rewrite Es|done| | |].
      * destruct Hcase as [(Ec & _)|(_ & -> & _)]; [|constructor]. rewrite Ec in H3. by apply Forall_cons in H3 as [_ ?].
      * destruct Hcase as [(_ & -> & _)|(_ & _ & id & rr & q & _ & Eg & _ & ->)]; [exact H5|]. intros i p Hp'.
        pose proof (H5 _ _ Eg) as Hall. apply Forall_cons in Hall as [_ Hall]. destruct (nonempty q).
        -- rewrite map_get_set in Hp'. case_decide; [by injection Hp' as <-|by eapply H5].
        -- apply map_get_delete_Some in Hp'; [by eapply H5|apply (q_wf _ H2)].
      * intros id ref st. rewrite Es, Eh. apply H4.
    + intros _ H. simpl in H. rewrite Hpm in H. congruence.
  - destruct (take_frame m) as [o m1] eqn:Ht. destruct (take_frame_quiet m o m1 H2 Ht) as ([Hss _ Hcc] & _).
    simpl in *. split.
    + apply (base_same lim m); try done; [apply (ss_heap _ _ Hss)|apply (ss_streams _ _ Hss)].
    + intros _ _. unfold has_frames in *. simpl. by rewrite E1, E2.
Qed.

Lemma pump_keeps lim m : base_inv lim m -> base_inv lim (pump m) /\ drained (pump m).
Proof.
  intros Hb. unfold pump. destruct (pumping m) eqn:Hp; cbn [orb].
  - split; [done|]. intros _ H. congruence.
  - destruct (closed m) eqn:Hc; [split; [done|]; intros H; congruence|].
    apply pump_loop_keeps; [|done]. by apply (base_same lim m).
Qed.

Lemma push_data_base lim id b m : is_data b = true -> base_inv lim m -> base_inv lim (push_data id b m).
Proof.
  intros Hb [H1 H2 H3 H5 H4]. destruct (push_data_fields id b m) as (Hh & Hs & _). constructor.
  - by rewrite Hs.
  - by apply queues_push_data.
  - unfold push_data. by destruct (map_get _ _).
  - intros i q. unfold push_data. destruct (map_get (dataFrames m) id) as [q0|] eqn:E; simpl; rewrite map_get_set;
      (case_decide; [|apply H5]); intros Hq; injection Hq as <-; [apply Forall_app; split; [by eapply H5|]|]; by constructor.
  - intros i ref st. rewrite Hs, Hh. apply H4.
Qed.

Lemma map_size_delete_zero {V} (df : list (jsstring * V)) id : (0 <? map_size df) = false -> (0 <? map_size (map_delete df id)) = false.
Proof. rewrite !Z.ltb_ge. pose proof (map_size_delete df id). lia. Qed.

Lemma act_keeps lim m m' : act lim m m' -> base_inv lim m -> drained m -> base_inv lim m' /\ drained m'.
Proof.
  intros [m1 tr Hh Hs Hc Hd Hr Hp Hcl Ht Hq|ref f Hf|st Hn Hst|id|id Hn|b Hb|id b Hb|Hp] Hbase Hdr.
  - split; [by apply (base_same lim m)|]. unfold drained, has_frames in *. by rewrite Hcl, Hp, Hc, Hd.
  - split; [|done]. pose proof Hbase as [H1 H2 H3 H5 H4]. constructor; [done|by apply (queues_fields m)|done|done|].
    intros id r st Hg Hst. simpl in Hg, Hst. destruct (decide (ref = r)) as [->|Hne].
    + rewrite list_lookup_alter_eq in Hst. destruct (heap m !! r) as [s|] eqn:Er; [|done].
      injection Hst as <-. apply Hf; [done|]. by eapply H4.
    + rewrite list_lookup_alter_ne in Hst by done. by eapply H4.
  - split; [|done]. pose proof Hbase as [H1 H2 H3 H5 H4]. constructor; [by apply map_wf_set|by apply (queues_fields m)|done|done|].
    intros id r s Hg Hs. simpl in Hg, Hs. rewrite map_get_set in Hg. case_decide.
    + injection Hg as <-. rewrite list_lookup_middle in Hs by done. by injection Hs as <-.
    + assert (Hlt := Hs). apply lookup_app_Some in Hs as [Hs|[Hge Hs]]; [by eapply H4|].
      apply list_lookup_singleton_Some in Hs as [_ <-]. done.
  - split; [|done]. pose proof Hbase as [H1 H2 H3 H5 H4]. constructor; [by apply map_wf_delete|by apply (queues_fields m)|done|done|].
    intros i r s Hg Hs. simpl in Hg. apply map_get_delete_Some in Hg; [|done]. by eapply H4.
  - split.
    + pose proof Hbase as [H1 H2 H3 H5 H4]. constructor; [done| |done| |done].
      * apply queues_split. simpl. by apply queues_of_drop, queues_split.
      * simpl. intros i q Hq. apply map_get_delete_Some in Hq; [by eapply H5|apply (q_wf _ H2)].
    + intros Hc Hp. specialize (Hdr Hc Hp). unfold has_frames in *. simpl. apply orb_false_iff in Hdr as [-> Hz].
      by apply map_size_delete_zero.
  - apply pump_keeps. pose proof Hbase as [H1 H2 H3 H5 H4]. constructor; [done|by apply (queues_fields m)| |done|done].
    simpl. apply Forall_app. by split; [|constructor].
  - by apply pump_keeps, push_data_base.
  - by apply pump_loop_keeps.
Qed.

(** ** Waiting in the round robin *)

(** The stream object [ref] of [id] has left the table; or the frame [f] has been sent,
    after at most [i] data frames; or it is the next one of [id], which is at most so far
    from the front that [i] data frames suffice, those sent since included. *)
Definition served (id : jsstring) (ref : nat) (f : bytes) (i : nat) (tr0 : list event) (m : mux) : Prop :=
  map_get (streams m) id <> Some ref
  \/ exists tr, trace m = tr0 ++ tr
     /\ ((exists tr1 tr2, tr = tr1 ++ EvSend f :: tr2 /\ (data_sent tr1 <= i)%nat)
         \/ (exists j q, dataRoundRobin m !! j = Some id /\ map_get (dataFrames m) id = Some (f :: q)
              /\ (j + data_sent tr <= i)%nat)).

Lemma remove_first_lookup id x l j :
  x <> id -> l !! j = Some x -> exists j', (j' <= j)%nat /\ remove_first id l !! j' = Some x.
Proof.
  intros Hne. revert j. induction l as [|y l IH]; intros j Hj; [done|]. simpl. case_decide as E.
  - destruct j as [|j]; simpl in Hj; [congruence|]. exists j. split; [lia|done].
  - destruct j as [|j]; simpl in Hj; [by exists 0%nat; split; [lia|]|].
    destruct (IH j Hj) as (j' & ? & ?). exists (S j'). split; [lia|done].
Qed.

(** The same queues, and nothing but other frames sent. *)
Lemma served_same id ref f i tr0 m m' tr :
  (map_get (streams m') id = Some ref -> map_get (streams m) id = Some ref) ->
  (forall j q, dataRoundRobin m !! j = Some id -> map_get (dataFrames m) id = Some (f :: q) ->
     exists j' q', (j' <= j)%nat /\ dataRoundRobin m' !! j' = Some id /\ map_get (dataFrames m') id = Some (f :: q')) ->
  trace m' = trace m ++ tr -> data_sent tr = 0%nat -> served id ref f i tr0 m -> served id ref f i tr0 m'.
Proof.
  intros Hs Hq Ht Hz [Hg|(t & E & H)]; [left; auto|]. right. exists (t ++ tr). split; [by rewrite Ht, E, app_assoc|].
  destruct H as [(t1 & t2 & -> & Hle)|(j & q & Hj & Hdf & Hle)].
  - left. exists t1, (t2 ++ tr). split; [by rewrite <- app_assoc|done].
  - right. destruct (Hq j q Hj Hdf) as (j' & q' & Hle' & Hj' & Hdf'). exists j', q'. split_and!; [done|done|].
    rewrite data_sent_app. lia.
Qed.

Lemma pump_loop_served lim id ref f i tr0 m :
  base_inv lim m -> pumping m = true -> served id ref f i tr0 m -> served id ref f i tr0 (pump_loop 1 m).
Proof.
  intros [H1 H2 H3 H5 H4] Hp Hs. destruct (closed m) eqn:Hc.
  { rewrite pump_loop_closed by done. apply (served_same _ _ _ _ _ m _ []); try done; [eauto|]. simpl. by rewrite app_nil_r. }
  destruct (pump_loop_cases m H2 Hp Hc) as [(b & m1 & Ht & ->)|(Hf & -> & E1 & E2 & E3)].
  - destruct (take_frame_cases m b m1 H2 Ht) as (Eh & Es & _ & _ & Etr & Hcase).
    destruct Hcase as [(Ec & Ed & Er)|(_ & _ & id0 & rr & q0 & Er & Eg & Er' & Ed')].
    + apply (served_same _ _ _ _ _ m _ [EvSend b]); simpl; rewrite ?Es, ?Ed, ?Er, ?Etr; try done; [eauto|].
      rewrite Ec in H3. apply Forall_cons in H3 as [Hb _]. unfold data_sent. simpl. by rewrite Hb.
    + destruct Hs as [Hg|(t & E & H)]; [left; simpl; by rewrite Es|]. right. exists (t ++ [EvSend b]).
      split; [simpl; by rewrite Etr, E, app_assoc|].
      destruct H as [(t1 & t2 & -> & Hle)|(j & q & Hj & Hdf & Hle)].
      { left. exists t1, (t2 ++ [EvSend b]). split; [by rewrite <- app_assoc|done]. }
      rewrite Er in Hj. destruct j as [|j]; simpl in Hj.
      * injection Hj as ->. rewrite Hdf in Eg. injection Eg as -> ->. left. exists t, []. split; [done|lia].
      * right. assert (Hne : id <> id0).
        { pose proof (q_rr _ H2) as Hn. rewrite Er in Hn. apply NoDup_cons in Hn as [Hn _]. intros ->.
          apply Hn. by apply list_elem_of_lookup_2 in Hj. }
        exists j, q. simpl. rewrite Er', Ed'. split_and!.
        -- destruct (nonempty q0); [by apply lookup_app_l_Some|done].
        -- destruct (nonempty q0); [by rewrite map_get_set_ne|by rewrite map_get_delete_ne].
        -- rewrite data_sent_app. assert (data_sent [EvSend b] <= 1)%nat by (unfold data_sent; simpl; destruct (is_data b); simpl; lia).
           lia.
  - destruct (take_frame m) as [o m1] eqn:Ht. destruct (take_frame_quiet m o m1 H2 Ht) as ([Hss _ _] & _). simpl in *.
    assert (Etr : trace m1 = trace m).
    { unfold take_frame, nextDataFrame in Ht. destruct (controlFrames m); [|by injection Ht as _ <-].
      destruct (next_data _ _) as [[? ?] ?]. by injection Ht as _ <-. }
    apply (served_same _ _ _ _ _ m _ []); simpl; rewrite ?(ss_streams _ _ Hss), ?E2, ?E3, ?Etr, ?app_nil_r; try done. eauto.
Qed.

Lemma pump_served lim id ref f i tr0 m :
  base_inv lim m -> served id ref f i tr0 m -> served id ref f i tr0 (pump m).
Proof.
  intros Hb Hs. unfold pump. destruct (_ || _); [done|]. apply (pump_loop_served lim); [by apply (base_same lim m)|done|].
  apply (served_same _ _ _ _ _ m _ []); simpl; rewrite ?app_nil_r; try done. eauto.
Qed.

Lemma act_served lim id ref f i tr0 m m' :
  act lim m m' -> base_inv lim m -> (ref < length (heap m))%nat -> served id ref f i tr0 m -> served id ref f i tr0 m'.
Proof.
  intros [m1 tr Hh Hs Hc Hd Hr Hp Hcl Ht Hq|r g Hf|st Hn Hst|id0|id0 Hn|b Hb|id0 b Hb|Hp] Hbase Hlt Hsv.
  - apply (served_same _ _ _ _ _ m _ tr); rewrite ?Hs, ?Hd, ?Hr; try done; [eauto|]. unfold data_sent. by rewrite Hq.
  - apply (served_same _ _ _ _ _ m _ []); simpl; rewrite ?app_nil_r; try done. eauto.
  - apply (served_same _ _ _ _ _ m _ []); simpl; rewrite ?app_nil_r; try done; [|eauto].
    rewrite map_get_set. case_decide; [|done]. intros Hr'. injection Hr' as <-. lia.
  - apply (served_same _ _ _ _ _ m _ []); simpl; rewrite ?app_nil_r; try done; [|eauto].
    intros Hg. apply map_get_delete_Some in Hg; [done|apply Hbase].
  - destruct (decide (id = id0)) as [->|Hne]; [left; simpl; by rewrite Hn|].
    apply (served_same _ _ _ _ _ m _ []); simpl; rewrite ?app_nil_r; try done. intros j q Hj Hdf.
    destruct (remove_first_lookup id0 id (dataRoundRobin m) j Hne Hj) as (j' & Hle & Hj').
    exists j', q. split_and!; [done|done|]. by rewrite map_get_delete_ne.
  - apply (pump_served lim).
    + pose proof Hbase as [H1 H2 H3 H5 H4]. constructor; [done|by apply (queues_fields m)| |done|done].
      simpl. apply Forall_app. by split; [|constructor].
    + apply (served_same _ _ _ _ _ m _ []); simpl; rewrite ?app_nil_r; try done. eauto.
  - apply (pump_served lim); [by apply push_data_base|]. destruct (push_data_fields id0 b m) as (_ & Es & _ & Et & _).
    apply (served_same _ _ _ _ _ m _ []); rewrite ?Es, ?Et, ?app_nil_r; try done. intros j q Hj Hdf. unfold push_data.
    destruct (decide (id = id0)) as [->|Hne].
    + rewrite Hdf. exists j, (q ++ [b]). simpl. split_and!; [lia|done|]. by rewrite map_get_set_eq.
    + exists j, q. split; [lia|]. destruct (map_get (dataFrames m) id0); simpl.
      * split; [done|]. by rewrite map_get_set_ne.
      * split; [by apply lookup_app_l_Some|]. by rewrite map_get_set_ne.
  - by apply (pump_loop_served lim).
Qed.

(** ** Every step is a sequence of acts *)

Section Walk.
Context (lim : mux_limits).
Context (Hwindow : 0 <= receiveWindowBytes lim <= MAX_CREDIT_BYTES) (Hchunk : 1 <= maximumChunkBytes lim)
  (Hpending : 0 <= maximumPendingWriteBytes lim).

Definition act_inv (m : mux) : Prop := base_inv lim m /\ drained m.

Lemma acts_inv m m' : acts lim m m' -> act_inv m -> act_inv m'.
Proof. induction 1 as [|x y z Hxy _ IH]; [done|]. intros [Hb Hd]. apply IH. by apply (act_keeps lim x). Qed.

Lemma queueFrame_acts f control m :
  (type f = Data <-> control = false) -> acts lim m (queueFrame lim f control m).2.
Proof.
  intros Ht. unfold queueFrame, ensureOpen, se_bind, se_gets, se_lift, se_modify. destruct (closed m); [reflexivity|].
  simpl. destruct (encodeFrame f (maximumChunkBytes lim)) as [b|code] eqn:E; [|reflexivity]. simpl. apply rtc_once.
  destruct control; [apply act_control|apply act_data]; rewrite (encoded_type _ _ _ E);
    [apply bool_decide_eq_false; intros Hd; by apply Ht in Hd|apply bool_decide_eq_true; by apply Ht].
Qed.

Lemma acts_quiet m m' tr :
  heap m' = heap m -> streams m' = streams m -> controlFrames m' = controlFrames m ->
  dataFrames m' = dataFrames m -> dataRoundRobin m' = dataRoundRobin m -> pumping m' = pumping m ->
  closed m' = closed m -> trace m' = trace m ++ tr -> sent tr = [] -> acts lim m m'.
Proof. intros. apply rtc_once. by apply (act_quiet lim m m' tr). Qed.

(** A stream leaves the table with its queue. *)
Lemma drop_acts id m :
  act_inv m -> map_get (streams m) id = None -> acts lim m (drop_queue id m).
Proof. intros _ Hn. by apply rtc_once, act_drop. Qed.

Lemma failStream_acts ref e m : act_inv m -> acts lim m (failStream ref e m).
Proof.
  intros Hi. unfold failStream. destruct (heap m !! ref) as [st|]; [|reflexivity].
  destruct (map_has (streams m) (sid st)); [|reflexivity]. cbn [negb]. rewrite rejections_trace.
  set (m1 := set_streams (map_delete (streams m) (sid st)) m).
  etransitivity; [apply rtc_once, act_unlist|]. fold m1.
  set (m2 := set_trace _ m1).
  etransitivity.
  { apply (acts_quiet m1 m2 (map (fun w => EvWriteRejected ref (w_offset w) e) (pendingWrites st))); try done.
    unfold sent. clear. induction (pendingWrites st) as [|w l IH]; [done|]. simpl. exact IH. }
  set (g := fun s => _). etransitivity; [apply (acts_upd lim ref g m2)|].
  { intros s _ [Hc Hp]. split; simpl; [done|]. lia. }
  etransitivity; [apply rtc_once, (act_drop lim _ (sid st))|].
  { simpl. apply map_get_delete_eq. apply Hi. }
  etransitivity; by apply acts_emit.
Qed.

Lemma collectStream_acts ref m : act_inv m -> acts lim m (collectStream ref m).
Proof.
  intros Hi. unfold collectStream. destruct (heap m !! ref) as [st|]; [|reflexivity]. case_match; [|reflexivity].
  etransitivity; [apply rtc_once, (act_unlist lim m (sid st))|]. apply rtc_once, act_drop.
  simpl. apply map_get_delete_eq. apply Hi.
Qed.

Lemma fail_closed e m : closed (fail e m) = true.
Proof.
  unfold fail. destruct (closed m) eqn:Hc; [done|]. simpl. unfold failStreams.
  assert (H : forall refs m0, closed (foldl (fun m ref => failStream ref e m) m0 refs) = closed m0).
  { intros refs. induction refs as [|r refs IH]; intros m0; [done|]. simpl. by rewrite IH, failStream_closed. }
  by rewrite H.
Qed.

Lemma flush_loop_acts ref ws m st :
  heap m !! ref = Some st -> acts lim m (flush_loop lim ref ws m).2.
Proof.
  revert m st. induction ws as [|w ws IH]; intros m st Hr; [reflexivity|]. cbn [flush_loop].
  unfold se_bind at 1, se_gets. rewrite Hr. destruct (Z.ltb_spec (sendCreditBytes st) (byteLength (w_data w))); [reflexivity|].
  unfold se_bind, se_modify at 1. set (m1 := upd ref _ m). transitivity m1; [unfold m1; apply acts_upd|].
  { intros s Hs [Hc Hp]. rewrite Hr in Hs. injection Hs as <-. pose proof (byteLength_nonneg (w_data w)). split; simpl; [destruct (localOpened st); lia|lia]. }
  pose proof (queueFrame_acts (Frame Data (sid st) (w_offset w) 0 (w_data w)) false m1 ltac:(done)) as Hq.
  pose proof (queueFrame_heap lim (Frame Data (sid st) (w_offset w) 0 (w_data w)) false m1) as Hh.
  destruct (queueFrame lim _ false m1) as [[u|code] m2]; cbn [snd] in *; [|exact Hq].
  etransitivity; [exact Hq|]. eapply IH. rewrite Hh. by apply heap_upd_eq.
Qed.

Lemma flushWrites_acts ref m : acts lim m (flushWrites lim ref m).2.
Proof.
  unfold flushWrites, se_bind, se_get. destruct (heap m !! ref) as [st|] eqn:Hr; [|reflexivity].
  case_match; [reflexivity|]. by eapply flush_loop_acts.
Qed.

Lemma drain_loop_acts ref m : act_inv m -> acts lim m (drain_loop ref m).
Proof.
  intros Hi. unfold drain_loop. destruct (heap m !! ref) as [st|]; [|reflexivity]. destruct (incoming st) as [|chunk rest].
  - assert (Hend : forall m1, acts lim m1 (upd ref (set_drainingIncoming false) m1))
      by (intros m1; apply acts_upd; intros s _; by apply send_ok_same).
    case_match; [|apply Hend]. etransitivity; [|apply Hend].
    etransitivity; [by apply (acts_emit lim (EvEnd ref))|].
    apply collectStream_acts. apply (acts_inv m); [by apply acts_emit|done].
  - etransitivity; [apply (acts_upd lim ref (set_incoming rest))|]; [intros s _; by apply send_ok_same|].
    etransitivity; [by apply (acts_emit lim (EvDeliver ref (c_data chunk) (c_offset chunk)))|]. apply acts_suspend.
Qed.

Lemma scheduleDrain_acts ref m : act_inv m -> acts lim m (scheduleIncomingDrain ref m).
Proof.
  intros Hi. unfold scheduleIncomingDrain. destruct (heap m !! ref) as [st|]; [|reflexivity]. case_match; [reflexivity|].
  assert (Hu : acts lim m (upd ref (set_drainingIncoming true) m)).
  { apply acts_upd. intros s _. by apply send_ok_same. }
  etransitivity; [exact Hu|]. apply drain_loop_acts. by apply (acts_inv m).
Qed.

(** *** Frames received *)

Lemma receiveOpen_acts f m m' :
  creditBytes f <= MAX_CREDIT_BYTES -> receiveOpen lim f m = (Ok tt, m') -> acts lim m m'.
Proof.
  intros Hcr. unfold receiveOpen. destruct (_ || _) eqn:Hg; [done|]. bool_prop. unfold se_bind at 1, se_get.
  destruct (map_has (streams m) (streamId f)) eqn:Hh; [done|].
  destruct (maximumStreams lim <=? map_size (streams m)).
  { intros Hr'. pose proof (queueFrame_acts (Frame Reset (streamId f) 0 0 (utf8_encode capacity_exceeded_text)) true m ltac:(done)) as Ha.
    by rewrite Hr' in Ha. }
  set (st := set_sendCreditBytes (creditBytes f) _). unfold se_bind, se_modify at 1. set (m1 := set_streams _ _).
  assert (Hu : acts lim m m1).
  { apply rtc_once, (act_open lim m st); [done|]. split; simpl; lia. }
  pose proof (queueFrame_acts (Frame Acknowledge (sid st) 0 (receiveWindowBytes lim) []) true m1 ltac:(done)) as Ha.
  destruct (queueFrame lim _ true m1) as [[u|code] m2]; [|done]. intros Hr'. injection Hr' as <-.
  etransitivity; [exact Hu|]. etransitivity; [exact Ha|]. by apply acts_emit.
Qed.

Lemma receiveData_acts f m m' : act_inv m -> receiveData lim f m = (Ok tt, m') -> acts lim m m'.
Proof.
  intros Hi. unfold receiveData. case_match; [done|]. unfold se_bind at 1.
  destruct (requiredStream (streamId f) m) as [[[ref st]|c] m0] eqn:Hrq; apply requiredStream_inv in Hrq as [-> Hq]; [|done].
  destruct (remoteClosed st); [done|]. destruct (offset f <? receiveOffset st).
  { destruct (_ <=? _); [|done]. unfold queueAcknowledgement. intros Hr'.
    pose proof (queueFrame_acts (Frame Acknowledge (sid st) (receiveOffset st) 0 []) true m ltac:(done)) as Ha. by rewrite Hr' in Ha. }
  case_match; [done|]. case_match; [done|]. unfold se_bind, se_modify. cbv beta. intros Hr'. cbv beta iota in Hr'. injection Hr' as <-.
  match goal with |- acts lim m (scheduleIncomingDrain ref ?x) => assert (Hu : acts lim m x) end.
  { apply acts_upd. intros s _. by apply send_ok_same. }
  etransitivity; [exact Hu|]. apply scheduleDrain_acts. by apply (acts_inv m).
Qed.

Lemma receiveAcknowledgement_acts f m m' :
  0 <= creditBytes f -> receiveAcknowledgement lim f m = (Ok tt, m') -> acts lim m m'.
Proof.
  intros Hcr. unfold receiveAcknowledgement. case_match; [done|]. unfold se_bind at 1.
  destruct (requiredStream (streamId f) m) as [[[ref st]|c] m0] eqn:Hrq; apply requiredStream_inv in Hrq as [-> Hq]; [|done].
  destruct Hq as [_ Hr]. case_match; [done|]. unfold se_bind, se_modify. set (m1 := upd ref _ m).
  destruct (Z.ltb_spec (receiveWindowBytes lim) (sendCreditBytes st + creditBytes f)) as [|Hle]; [done|]. intros Hr'.
  assert (Hu : acts lim m m1).
  { apply acts_upd. intros s Hs [Hc Hp]. rewrite Hr in Hs. injection Hs as <-.
    destruct (localOpened st && negb (remoteOpened st) && (offset f =? 0)); split; simpl; try lia;
      destruct (localOpened st); lia. }
  etransitivity; [exact Hu|]. pose proof (flushWrites_acts ref m1) as Ha. by rewrite Hr' in Ha.
Qed.

Lemma receiveClose_acts f m m' : act_inv m -> receiveClose f m = (Ok tt, m') -> acts lim m m'.
Proof.
  intros Hi. unfold receiveClose. case_match; [done|]. unfold se_bind at 1.
  destruct (requiredStream (streamId f) m) as [[[ref st]|c] m0] eqn:Hrq; apply requiredStream_inv in Hrq as [-> Hq]; [|done].
  case_match; [done|]. unfold se_bind, se_modify. set (m1 := upd ref _ m).
  assert (Hu : acts lim m m1) by (apply acts_upd; intros s _; by apply send_ok_same).
  case_match; [|by intros Hr'; injection Hr' as <-]. intros Hr'. injection Hr' as <-. etransitivity; [exact Hu|].
  etransitivity; [by apply (acts_emit lim (EvEnd ref))|]. apply collectStream_acts.
  apply (acts_inv m); [|done]. etransitivity; [exact Hu|]. by apply acts_emit.
Qed.

Lemma receiveFrame_acts b m : act_inv m -> acts lim m (receiveFrame lim b m) \/ closed (receiveFrame lim b m) = true.
Proof.
  intros Hi. unfold receiveFrame. destruct (closed m); [by left|]. unfold se_bind, se_lift.
  destruct (decodeFrame b (maximumChunkBytes lim)) as [f|code] eqn:Hdec; [|right; apply fail_closed].
  apply decodeFrame_inv in Hdec as (_ & _ & _ & Hcr & _).
  destruct (handleFrame lim f m) as [[[]|code] m'] eqn:Hh; [left|right; apply fail_closed].
  unfold handleFrame in Hh. destruct (type f).
  - apply (receiveOpen_acts f); [lia|done].
  - by apply (receiveData_acts f).
  - apply (receiveAcknowledgement_acts f); [lia|done].
  - by apply (receiveClose_acts f).
  - unfold receiveReset, se_bind, se_get in Hh. destruct (map_get _ _) as [ref|]; [|by injection Hh as <-].
    unfold se_modify in Hh. injection Hh as <-. by apply failStream_acts.
Qed.

(** *** Calls *)

Lemma openStream_acts id meta m : acts lim m (openStream lim id meta m).2.
Proof.
  unfold openStream, ensureOpen, se_bind, se_gets, se_lift, se_get, se_modify at 1.
  destruct (closed m); [reflexivity|]. cbn [se_ret]. destruct (validateStreamId id) as [t|]; [|reflexivity].
  destruct (map_has (streams m) t) eqn:Hh; [reflexivity|]. case_match; [reflexivity|]. case_match; [reflexivity|].
  set (m1 := set_streams _ _). assert (Hu : acts lim m m1).
  { apply rtc_once, (act_open lim m (createState t meta true false)); [done|]. split; simpl; lia. }
  etransitivity; [exact Hu|].
  pose proof (queueFrame_acts (Frame Open t 0 (receiveWindowBytes lim) meta) true m1 ltac:(done)) as Ha.
  by destruct (queueFrame lim _ true m1) as [[u|code] m2].
Qed.

Lemma writes_length ws : zsum write_len ws = byteLength (mjoin (map w_data ws)).
Proof. induction ws as [|w ws IH]; [done|]. simpl. by rewrite byteLength_app, <- IH. Qed.

Lemma pieces_length data at_ :
  zsum write_len (pieces (length data) (Z.to_nat (maximumChunkBytes lim)) data at_) = byteLength data.
Proof.
  destruct (pieces_spec (length data) (Z.to_nat (maximumChunkBytes lim)) data at_) as (_ & Hj & _); [lia|].
  specialize (Hj ltac:(lia)). by rewrite writes_length, Hj.
Qed.

Lemma write_acts id data m : acts lim m (write lim id data m).2.
Proof.
  unfold write, ensureOpen, se_bind, se_gets, se_modify at 1. destruct (closed m); [reflexivity|]. cbn [se_ret].
  destruct (requiredStream id m) as [[[ref st]|code] m'] eqn:Hrq; apply requiredStream_inv in Hrq as [-> Hq]; [|reflexivity].
  destruct Hq as [_ Hr]. destruct (localClosed st); [reflexivity|]. case_match; [reflexivity|].
  destruct (Z.ltb_spec (maximumPendingWriteBytes lim)
    (Z.max 0 (pendingWriteBytes st + byteLength data - sendCreditBytes st))) as [|Hle]; [reflexivity|].
  set (m1 := upd ref _ m). assert (Hu : acts lim m m1).
  { apply acts_upd. intros s Hs [Hc Hp]. rewrite Hr in Hs. injection Hs as <-. split; [exact Hc|].
    cbn [enqueue_writes set_sendOffset set_pendingWriteBytes pendingWriteBytes sendCreditBytes].
    pose proof (pieces_length data (sendOffset st)) as Hz. unfold write_len in Hz. rewrite Hz. simpl. lia. }
  etransitivity; [exact Hu|]. apply flushWrites_acts.
Qed.

Lemma setDataHandler_acts id m : act_inv m -> acts lim m (setDataHandler id m).2.
Proof.
  intros Hi. unfold setDataHandler, se_bind at 1.
  destruct (requiredStream id m) as [[[ref st]|c] m'] eqn:Hrq; apply requiredStream_inv in Hrq as [-> Hq]; [|reflexivity].
  unfold se_bind, se_modify. cbn [snd]. set (m1 := upd ref _ m).
  assert (Hu : acts lim m m1) by (apply acts_upd; intros s _; by apply send_ok_same).
  etransitivity; [exact Hu|]. apply scheduleDrain_acts. by apply (acts_inv m).
Qed.

Lemma closeStream_acts id m : acts lim m (closeStream lim id m).2.
Proof.
  unfold closeStream, se_bind at 1.
  destruct (requiredStream id m) as [[[ref st]|c] m'] eqn:Hrq; apply requiredStream_inv in Hrq as [-> Hq]; [|reflexivity].
  destruct (localClosed st); [reflexivity|]. unfold se_bind, se_modify at 1. set (m1 := upd ref _ m).
  assert (Hu : acts lim m m1) by (apply acts_upd; intros s _; by apply send_ok_same).
  etransitivity; [exact Hu|].
  pose proof (queueFrame_acts (Frame Close (sid st) (sendOffset st) 0 []) true m1 ltac:(done)) as Ha.
  destruct (queueFrame lim _ true m1) as [[u|code] m2]; [|done]. etransitivity; [exact Ha|]. apply acts_suspend.
Qed.

Lemma reset_begin_acts id reason m : acts lim m (reset_begin lim id reason m).2.
Proof.
  unfold reset_begin, se_bind, se_lift.
  destruct (requiredStream id m) as [[[ref st]|c] m'] eqn:Hrq; apply requiredStream_inv in Hrq as [-> Hq]; [|reflexivity].
  destruct (boundedText _ _ _) as [t|]; [|reflexivity].
  pose proof (queueFrame_acts (Frame Reset (sid st) (receiveOffset st) 0 (utf8_encode t)) true m ltac:(done)) as Ha.
  by destruct (queueFrame lim _ true m) as [[u|code] m2].
Qed.

Lemma resetStream_acts id reason m : acts lim m (resetStream lim id reason m).2.
Proof.
  unfold resetStream, se_bind. pose proof (reset_begin_acts id reason m) as Ha.
  destruct (reset_begin lim id reason m) as [[r|code] m']; [|done]. etransitivity; [exact Ha|]. apply acts_suspend.
Qed.

(** *** Continuations *)

Abbreviation walk m m' := (acts lim m m' \/ closed m' = true).

Lemma walk_acts m m1 m' : acts lim m m1 -> walk m1 m' -> walk m m'.
Proof. intros H1 [H2|H2]; [left; by etransitivity|by right]. Qed.

Lemma drain_rejected_acts ref e m : walk m (drain_rejected ref e m).
Proof.
  unfold drain_rejected. set (m1 := upd ref _ m).
  assert (Hu : acts lim m m1) by (apply acts_upd; intros s _; by apply send_ok_same).
  destruct (heap m1 !! ref); [|by left]. case_match; [by left|]. right. apply fail_closed.
Qed.

Lemma drain_handled_acts ref chunk m : walk m (drain_handled lim ref chunk m).
Proof.
  unfold drain_handled. destruct (heap m !! ref) as [st|] eqn:Hr; [|by left]. case_match.
  { left. apply acts_upd. intros s _. by apply send_ok_same. }
  set (st' := set_receiveBufferedBytes _ _). set (m1 := upd ref _ m). apply (walk_acts m m1).
  { apply acts_upd. intros s Hs. rewrite Hr in Hs. injection Hs as <-. by apply send_ok_same. }
  unfold queueAcknowledgement.
  pose proof (queueFrame_acts (Frame Acknowledge (sid st') (receiveOffset st') (byteLength (c_data chunk)) []) true m1 ltac:(done)) as Ha.
  destruct (queueFrame lim _ true m1) as [[u|code] m2]; apply (walk_acts m1 m2); try exact Ha.
  - left. apply acts_suspend.
  - apply drain_rejected_acts.
Qed.

Lemma drain_threw_acts ref chunk message m : walk m (drain_threw lim ref chunk message m).
Proof.
  unfold drain_threw. destruct (heap m !! ref) as [st|]; [|by left]. pose proof (reset_begin_acts (sid st) message m) as Ha.
  destruct (reset_begin lim (sid st) message m) as [[target|code] m1]; apply (walk_acts m m1); try exact Ha.
  - left. apply acts_suspend.
  - apply drain_rejected_acts.
Qed.

Lemma resume_acts k o m :
  act_inv m -> (k = KPump -> pumping m = true) -> walk m (resume lim k o m).
Proof.
  intros Hi Hk. destruct k as [|ref c|ref|ref t e c|t e|ref|], o as [|msg]; cbn [resume].
  - left. by apply rtc_once, act_pump, Hk.
  - right. apply fail_closed.
  - apply drain_handled_acts.
  - apply drain_threw_acts.
  - left. by apply drain_loop_acts.
  - apply drain_rejected_acts.
  - left. etransitivity; [by apply (failStream_acts t (EText e))|]. apply acts_upd. intros s _. by apply send_ok_same.
  - apply drain_rejected_acts.
  - left. by apply failStream_acts.
  - by left.
  - left. by apply collectStream_acts.
  - by left.
  - left. by apply acts_emit.
  - left. by apply acts_emit.
Qed.

Lemma step_acts i m : mux_inv lim m -> act_inv m -> walk m (mux_step lim i m).
Proof.
  intros Hinv Hi. destruct i as [id meta|id d|id|id|id r| |b|e| |n o]; cbn [mux_step].
  - left. apply openStream_acts.
  - left. apply write_acts.
  - left. by apply setDataHandler_acts.
  - left. apply closeStream_acts.
  - left. apply resetStream_acts.
  - unfold close. destruct (closed m); [by left|]. right. simpl.
    destruct (open_inv_failStreams lim [] (ECode "direct_mux_closed") (set_closed true m)) as (_ & _ & Hc);
      [by apply open_inv_intro|]. by rewrite Hc.
  - by apply receiveFrame_acts.
  - right. apply fail_closed.
  - right. apply fail_closed.
  - destruct (conts m !! n) as [k|] eqn:Hn; [|by left]. set (m1 := set_conts _ m).
    assert (Hu : acts lim m m1) by (apply (acts_quiet m m1 []); try done; simpl; by rewrite app_nil_r).
    apply (walk_acts m m1); [done|]. apply resume_acts; [by apply (acts_inv m)|]. intros ->.
    pose proof (inv_pump _ _ _ (inv_take lim n KPump m Hn Hinv)) as Hp. cbn [app] in Hp. rewrite pumps_cons in Hp.
    pose proof (pumps_nonneg (conts m1)). fold m1 in Hp. simpl in Hp.
    change (pumping m1) with (pumping m) in *. destruct (pumping m); [done|]. simpl in *. lia.
Qed.
End Walk.

(** ** Runs *)

Lemma act_heap_grows lim m m' : act lim m m' -> (length (heap m) <= length (heap m'))%nat.
Proof.
  intros [m1 tr Hh|ref f|st|id|id|b|id b Hb|Hp]; simpl; try done.
  - by rewrite Hh.
  - by rewrite length_alter.
  - rewrite length_app. lia.
  - unfold pump. case_match; rewrite ?pump_loop_heap; done.
  - unfold pump. case_match; rewrite ?pump_loop_heap; simpl; unfold push_data; by destruct (map_get _ _).
  - change (length (heap m) <= length (heap (pump_loop 1 m)))%nat. by rewrite pump_loop_heap.
Qed.

Lemma acts_served lim id ref f i tr0 m m' :
  acts lim m m' -> act_inv lim m -> (ref < length (heap m))%nat -> served id ref f i tr0 m -> served id ref f i tr0 m'.
Proof.
  induction 1 as [|x y z Hxy _ IH]; [done|]. intros [Hb Hd] Hl Hs. apply IH.
  - by apply (act_keeps lim x).
  - pose proof (act_heap_grows lim x y Hxy). lia.
  - by apply (act_served lim _ _ _ _ _ x).
Qed.

Lemma acts_heap lim m m' : acts lim m m' -> (length (heap m) <= length (heap m'))%nat.
Proof. induction 1 as [|x y z Hxy _ IH]; [done|]. apply act_heap_grows in Hxy. lia. Qed.
