(* ===== verification/MuxProps.v ===== *)
(** * Properties of the multiplexer

    The guarantees of [DirectRuntimeMux] in every reachable state, and the
    behaviours that break them. *)

From S2P Require Import Prelude JsString JsMap MuxFrame Mux MuxInv MuxSteps MuxActs.

#[local] Open Scope Z_scope.

(** ** Limits *)

Lemma boundedInteger_inv n lo hi code z :
  boundedInteger n lo hi code = Ok z -> lo <= z <= hi.
Proof.
  unfold boundedInteger. intros H. inv_step H. bool_prop. lia.
Qed.

Lemma mux_new_inv o lim :
  mux_new o = Ok lim ->
  1024 <= receiveWindowBytes lim <= 64 * 1024 * 1024
  /\ 256 <= maximumChunkBytes lim <= 60 * 1024
  /\ 1 <= maximumStreams lim <= 4096
  /\ 1024 <= maximumPendingWriteBytes lim <= 64 * 1024 * 1024.
Proof.
  unfold mux_new. intros H. inv_step H.
  repeat match goal with E : boundedInteger _ _ _ _ = Ok _ |- _ =>
    apply boundedInteger_inv in E end.
  simpl. lia.
Qed.

(** The states a mux reaches from its construction. *)
Definition reachable (o : mux_options) (lim : mux_limits) (m : mux) : Prop :=
  mux_new o = Ok lim /\ exists inputs, m = mux_run lim inputs empty_mux.

Lemma reachable_inv o lim m : reachable o lim m -> mux_inv lim m.
Proof.
  intros [Hn [inputs ->]]. apply mux_new_inv in Hn.
  apply mux_inv_run; [lia|lia|]. apply mux_inv_empty; lia.
Qed.

(** ** Closing is final *)

(** [m'] is still closed, has sent nothing more and has no stream. *)
Definition still_closed (m m' : mux) : Prop :=
  closed m' = true /\ streams m' = [] /\ sent (trace m') = sent (trace m).

Lemma still_emit e m : sent_of e = None -> closed m = true -> streams m = [] ->
  still_closed m (emit e m).
Proof.
  intros He Hc Hs. split_and!; [done..|]. simpl. rewrite sent_app. unfold sent at 2. simpl.
  rewrite He. apply app_nil_r.
Qed.

Lemma failStream_closed_id ref e m : streams m = [] -> failStream ref e m = m.
Proof. intros Hs. unfold failStream. destruct (heap m !! ref); [|done]. by rewrite Hs. Qed.

Lemma required_closed id m :
  streams m = [] -> exists code, requiredStream id m = (Err code, m).
Proof.
  intros Hs. unfold requiredStream, se_bind, se_lift, se_get, se_throw.
  destruct (validateStreamId id); [|by eexists]. rewrite Hs. by eexists.
Qed.

Lemma collect_closed ref m : closed m = true -> streams m = [] ->
  still_closed m (collectStream ref m).
Proof.
  intros Hc Hs. unfold collectStream. destruct (heap m !! ref); [|done].
  case_match; [|done]. split_and!; simpl; [done|by rewrite Hs|done].
Qed.

Lemma drain_rejected_closed ref e m : closed m = true -> streams m = [] ->
  still_closed m (drain_rejected ref e m).
Proof.
  intros Hc Hs. unfold drain_rejected. case_match; [|done].
  simpl. rewrite Hc. done.
Qed.

Lemma drain_loop_closed ref m : closed m = true -> streams m = [] ->
  still_closed m (drain_loop ref m).
Proof.
  intros Hc Hs. unfold drain_loop. destruct (heap m !! ref) as [st|]; [|done].
  destruct (incoming st) as [|c rest].
  - case_match; [|done].
    destruct (still_emit (EvEnd ref) m) as (Hc' & Hs' & Ht); [done..|].
    destruct (collect_closed ref (emit (EvEnd ref) m) Hc' Hs') as (? & ? & Ht').
    split_and!; [done..|]. simpl. by rewrite Ht', Ht.
  - destruct (still_emit (EvDeliver ref (c_data c) (c_offset c))
      (upd ref (set_incoming rest) m)) as (? & ? & ?); done.
Qed.

Lemma resume_closed lim k o m : closed m = true -> streams m = [] ->
  still_closed m (resume lim k o m).
Proof.
  intros Hc Hs. destruct k as [|ref c|ref|ref t e c|t e|ref|], o as [|msg]; simpl;
    rewrite ?failStream_closed_id by done; try done.
  - rewrite Hc. done.
  - unfold fail. rewrite Hc. done.
  - unfold drain_handled. destruct (heap m !! ref); [|done]. by rewrite Hc.
  - unfold drain_threw. destruct (heap m !! ref) as [st|]; [|done].
    destruct (required_closed (sid st) m Hs) as [code Hr].
    unfold reset_begin, se_bind. rewrite Hr. by apply drain_rejected_closed.
  - by apply drain_loop_closed.
  - by apply drain_rejected_closed.
  - by apply drain_rejected_closed.
  - by apply collect_closed.
  - by apply still_emit.
  - by apply still_emit.
Qed.

Lemma step_closed lim i m : closed m = true -> streams m = [] ->
  still_closed m (mux_step lim i m).
Proof.
  intros Hc Hs. destruct i as [id meta|id d|id|id|id r| |b|e| |n o]; simpl.
  - unfold openStream, ensureOpen, se_bind, se_gets. by rewrite Hc.
  - unfold write, ensureOpen, se_bind, se_gets. by rewrite Hc.
  - destruct (required_closed id m Hs) as [code Hr].
    unfold setDataHandler, se_bind. by rewrite Hr.
  - destruct (required_closed id m Hs) as [code Hr].
    unfold closeStream, se_bind. by rewrite Hr.
  - destruct (required_closed id m Hs) as [code Hr].
    unfold resetStream, reset_begin, se_bind. by rewrite Hr.
  - unfold close. by rewrite Hc.
  - unfold receiveFrame. by rewrite Hc.
  - unfold fail. by rewrite Hc.
  - unfold fail. by rewrite Hc.
  - destruct (conts m !! n) as [k|]; [|done].
    by apply (resume_closed lim k o (set_conts (delete n (conts m)) m)).
Qed.

Lemma run_closed lim inputs m : closed m = true -> streams m = [] ->
  still_closed m (mux_run lim inputs m).
Proof.
  revert m; induction inputs as [|i inputs IH]; intros m Hc Hs; [done|]. simpl.
  destruct (step_closed lim i m Hc Hs) as (Hc' & Hs' & Ht).
  destruct (IH _ Hc' Hs') as (? & ? & Ht'). split_and!; [done..|]. by rewrite Ht', Ht.
Qed.

(** ** Flushing *)

(** What one call of [flushWrites] takes from the pending writes. *)
Fixpoint affordable (credit : Z) (ws : list PendingWrite) : list PendingWrite * list PendingWrite :=
  match ws with
  | [] => ([], [])
  | w :: ws' =>
      if credit <? write_len w then ([], ws)
      else let (go, stay) := affordable (credit - write_len w) ws' in (w :: go, stay)
  end.

Definition queued_frame lim (st : StreamState) (w : PendingWrite) : bool :=
  is_ok (encodeFrame (Frame Data (sid st) (w_offset w) 0 (w_data w)) (maximumChunkBytes lim)).

Lemma queueFrame_ok lim f control m :
  closed m = false -> is_ok (encodeFrame f (maximumChunkBytes lim)) = true ->
  fst (queueFrame lim f control m) = Ok tt.
Proof.
  intros Hc He. unfold queueFrame, ensureOpen, se_bind, se_gets, se_lift. rewrite Hc.
  simpl. by destruct (encodeFrame f (maximumChunkBytes lim)).
Qed.

Lemma flush_loop_spec lim ref ws m st :
  queues m -> closed m = false ->
  heap m !! ref = Some st -> pendingWrites st = ws ->
  Forall (fun w => queued_frame lim st w = true) ws ->
  let (go, stay) := affordable (sendCreditBytes st) ws in
  exists m', flush_loop lim ref ws m = (Ok tt, m')
  /\ heap m' !! ref = Some (set_sendCreditBytes (sendCreditBytes st - zsum write_len go)
       (set_pendingWriteBytes (pendingWriteBytes st - zsum write_len go)
         (set_pendingWrites stay st))).
Proof.
  revert m st; induction ws as [|w ws IH]; intros m st Hq Hc Hr Hw Hok.
  { simpl. exists m. split; [done|]. rewrite Hr. rewrite !Z.sub_0_r.
    destruct st; simpl in *; by subst. }
  cbn [affordable flush_loop]. unfold se_bind at 1, se_gets. rewrite Hr.
  change (write_len w) with (byteLength (w_data w)).
  destruct (Z.ltb_spec (sendCreditBytes st) (byteLength (w_data w))).
  { exists m. split; [done|]. rewrite Hr. simpl. rewrite !Z.sub_0_r.
    destruct st; simpl in *; by subst. }
  apply Forall_cons in Hok as [Hok1 Hok].
  unfold se_bind at 1, se_modify at 1. set (m1 := upd ref _ m).
  set (f := Frame Data (sid st) (w_offset w) 0 (w_data w)).
  assert (Hq1 : queues m1) by (by apply (queues_fields m)).
  pose proof (queueFrame_silent lim f false m1 Hq1) as Hs.
  pose proof (queueFrame_ok lim f false m1 Hc Hok1) as Hfst.
  unfold se_bind. destruct (queueFrame lim f false m1) as [r m2]. simpl in Hfst, Hs.
  subst r. destruct Hs as [[Hss Hqq Hcc] _].
  set (st1 := set_sendCreditBytes (sendCreditBytes st - byteLength (w_data w))
    (set_pendingWriteBytes (pendingWriteBytes st - byteLength (w_data w))
      (set_pendingWrites ws st))).
  assert (Hr2 : heap m2 !! ref = Some st1)
    by (rewrite (ss_heap _ _ Hss); unfold m1; by rewrite (heap_upd_eq _ _ _ st)).
  specialize (IH m2 st1 (Hqq Hq1) ltac:(by rewrite Hcc) Hr2 eq_refl Hok).
  cbn [st1 set_sendCreditBytes sendCreditBytes set_pendingWriteBytes set_pendingWrites] in IH.
  destruct (affordable (sendCreditBytes st - byteLength (w_data w)) ws) as [go stay].
  destruct IH as (m' & Hrun & Hh). exists m'. split; [done|]. rewrite Hh. f_equal.
  unfold st1, set_sendCreditBytes, set_pendingWriteBytes, set_pendingWrites. simpl.
  change (write_len w) with (byteLength (w_data w)). f_equal; lia.
Qed.

Lemma affordable_spec credit ws :
  0 <= credit ->
  let (go, stay) := affordable credit ws in
  ws = go ++ stay /\ zsum write_len go <= credit
  /\ match stay with [] => True | w :: _ => credit - zsum write_len go < write_len w end.
Proof.
  revert credit; induction ws as [|w ws IH]; intros credit Hc; [done|].
  simpl. destruct (Z.ltb_spec credit (write_len w)); simpl; [split_and!; [done|lia|lia]|].
  specialize (IH (credit - write_len w) ltac:(lia)).
  destruct (affordable (credit - write_len w) ws) as [go stay].
  destruct IH as (-> & ? & ?). simpl. split_and!; [done|lia|].
  destruct stay; [done|lia].
Qed.

(** ** Runs as acts *)

Lemma mux_run_inv o lim inputs m : mux_new o = Ok lim -> mux_inv lim m -> mux_inv lim (mux_run lim inputs m).
Proof. intros Hn. apply mux_new_inv in Hn. apply mux_inv_run; lia. Qed.

Lemma act_inv_empty lim : act_inv lim empty_mux.
Proof.
  split; [|done]. constructor; try done; [constructor|]. apply queues_split. split_and!; try constructor; done.
Qed.

(** A run is a sequence of acts as long as the mux is open. *)
Lemma run_walk o lim inputs m :
  mux_new o = Ok lim -> mux_inv lim m -> act_inv lim m ->
  acts lim m (mux_run lim inputs m) \/ closed (mux_run lim inputs m) = true.
Proof.
  intros Hn. pose proof (mux_new_inv _ _ Hn) as Hl. revert m.
  induction inputs as [|i inputs IH]; intros m Hm Ha; [by left|]. simpl.
  assert (Hm1 : mux_inv lim (mux_step lim i m)) by (apply (mux_inv_step lim); [lia|lia|done]).
  destruct (step_acts lim) with (i := i) (m := m) as [Hs|Hc]; [unfold MAX_CREDIT_BYTES; lia|lia|lia|done|done| |].
  - apply walk_acts with (1 := Hs). apply IH; [done|]. by apply (acts_inv lim m).
  - right. by apply run_closed, (inv_closed _ _ _ Hm1).
Qed.

Lemma reachable_acts o lim m : reachable o lim m -> closed m = true \/ act_inv lim m.
Proof.
  intros Hr. pose proof Hr as [Hn [inputs ->]]. pose proof (mux_new_inv _ _ Hn) as Hl.
  destruct (run_walk o lim inputs empty_mux) as [Ha|Hc]; [done|apply mux_inv_empty; lia|apply act_inv_empty| |by left].
  right. apply (acts_inv lim empty_mux); [done|apply act_inv_empty].
Qed.

Lemma reachable_limits o lim m id ref st :
  reachable o lim m -> map_get (streams m) id = Some ref -> heap m !! ref = Some st -> send_ok lim st.
Proof.
  intros Hr Hg Hst. destruct (reachable_acts o lim m Hr) as [Hc|[Hb _]]; [|by apply (bi_limits _ _ Hb id ref)].
  apply reachable_inv in Hr. rewrite (inv_closed _ _ _ Hr Hc) in Hg. done.
Qed.

Lemma pumps_lookup ks : 0 < pumps ks -> exists n : nat, ks !! n = Some KPump.
Proof.
  induction ks as [|k ks IH]; [done|]. rewrite pumps_cons. intros H. destruct k; [by exists 0%nat|..];
    (destruct IH as [n Hn]; [simpl in H; lia|by exists (S n)]).
Qed.

Lemma queued_next m i id :
  queues m -> dataRoundRobin m !! i = Some id -> exists f q, map_get (dataFrames m) id = Some (f :: q).
Proof.
  intros Hq Hi. assert (Hin : map_has (dataFrames m) id = true)
    by (apply map_has_In, (q_same _ Hq); by eapply list_elem_of_lookup_2).
  unfold map_has in Hin. destruct (map_get (dataFrames m) id) as [[|f q]|] eqn:E; try done; [|by exists f, q].
  by destruct (q_filled _ Hq id []).
Qed.

Lemma queued_has_frames m id q : map_get (dataFrames m) id = Some q -> has_frames m = true.
Proof. intros H. unfold has_frames. destruct (dataFrames m); [done|]. apply orb_true_r. Qed.

(** While frames are queued, the continuation of the pump is there, and resumed it sends
    a frame: a data frame when no control frame waits. *)
Lemma pump_goes_on lim m :
  mux_inv lim m -> act_inv lim m -> closed m = false -> has_frames m = true ->
  exists n b, conts m !! n = Some KPump
  /\ trace (mux_step lim (IResume n Resolved) m) = trace m ++ [EvSend b]
  /\ (controlFrames m = [] -> is_data b = true).
Proof.
  intros Hm [Hb Hd] Hc Hf. assert (Hp : pumping m = true).
  { destruct (pumping m) eqn:Hp; [done|]. by rewrite Hd in Hf. }
  pose proof (inv_pump _ _ _ Hm) as Hk. cbn [app] in Hk. rewrite Hp in Hk.
  destruct (pumps_lookup (conts m)) as [n Hn]; [simpl in Hk; lia|]. exists n.
  cbn [mux_step]. rewrite Hn. set (m1 := set_conts _ m). cbn [resume].
  assert (Hq : queues m1) by (apply (queues_fields m); try done; apply Hb).
  destruct (pump_loop_cases m1 Hq Hp Hc) as [(b & m2 & Ht & ->)|(Hf' & _)]; [|by change (has_frames m1) with (has_frames m) in Hf'; congruence].
  exists b. destruct (take_frame_cases m1 b m2 Hq Ht) as (_ & _ & _ & _ & Etr & Hcase).
  split_and!; [done|simpl; by rewrite Etr|]. intros Hnc.
  destruct Hcase as [(Ec & _)|(_ & _ & id & rr & q & _ & Eg & _)].
  - simpl in Ec. by rewrite Hnc in Ec.
  - pose proof (bi_data _ _ Hb _ _ Eg) as Hall. by apply Forall_cons in Hall as [? _].
Qed.

(** ** Transfer of a write *)

Definition data_frame (id : jsstring) (w : PendingWrite) : RuntimeFrame :=
  Frame Data id (w_offset w) 0 (w_data w).

(** The receiver of a stream without a data handler, expecting offset [o]. *)
Definition expects (lim : mux_limits) (m : mux) (id : jsstring) (ref : nat)
    (chunks : list IncomingChunk) (o room : Z) : Prop :=
  closed m = false /\ map_get (streams m) id = Some ref
  /\ exists st, heap m !! ref = Some st /\ remoteClosed st = false /\ handler st = false
     /\ incoming st = chunks /\ receiveOffset st + receiveBufferedBytes st = o
     /\ 0 <= receiveBufferedBytes st
     /\ room = receiveWindowBytes lim - receiveBufferedBytes st.

Lemma receive_data_frame lim m id ref chunks o room w b :
  maximumChunkBytes lim <= 60 * 1024 ->
  Forall (fun c => is_scalar c = true) id -> trim id = id ->
  expects lim m id ref chunks o room ->
  w_offset w = o -> 0 < write_len w <= room ->
  encodeFrame (data_frame id w) (maximumChunkBytes lim) = Ok b ->
  expects lim (receiveFrame lim b m) id ref (chunks ++ [Chunk (w_offset w) (w_data w)])
    (o + write_len w) (room - write_len w).
Proof.
  intros Hl Hsc Ht (Hc & Hg & st & Hr & Hrc & Hh & Hin & Ho & Hb & Hroom) Hw Hlen He.
  unfold write_len in *.
  assert (Hv : validateStreamId id = Ok id).
  { apply encodeFrame_inv in He as (Hv & _). simpl in Hv. by rewrite Ht in Hv. }
  apply decode_encode in He; [|done|simpl; by rewrite Ht]. simpl in He. rewrite Ht in He.
  unfold receiveFrame. rewrite Hc. unfold se_bind at 1, se_lift. rewrite He.
  unfold handleFrame, receiveData. cbn [type creditBytes payload streamId offset].
  rewrite (proj2 (Z.ltb_ge (byteLength (w_data w)) 1)) by lia. cbn [negb orb Z.eqb].
  unfold se_bind at 1, requiredStream, se_bind at 1, se_lift. rewrite Hv.
  unfold se_bind at 1, se_get. rewrite Hg, Hr. unfold se_ret. rewrite Hrc.
  rewrite (proj2 (Z.ltb_ge (w_offset w) (receiveOffset st))) by lia.
  rewrite (proj2 (Z.eqb_eq (w_offset w) _)) by lia. cbn [negb].
  rewrite (proj2 (Z.ltb_ge (receiveWindowBytes lim) _)) by lia.
  unfold se_bind, se_modify. set (m1 := upd ref _ m).
  assert (Hr1 := heap_upd_eq ref (fun s => set_incoming (incoming s
      ++ [Chunk (w_offset w) (w_data w)]) (set_receiveBufferedBytes
      (receiveBufferedBytes s + byteLength (w_data w)) s)) m st Hr).
  fold m1 in Hr1. unfold scheduleIncomingDrain. rewrite Hr1.
  cbn [set_incoming set_receiveBufferedBytes drainingIncoming handler]. rewrite Hh.
  rewrite orb_true_r. split_and!; [done|done|]. eexists. split; [exact Hr1|]. simpl.
  rewrite Hin. split_and!; try done; lia.
Qed.

Lemma receive_data_frames lim m id ref chunks o room ws bs :
  maximumChunkBytes lim <= 60 * 1024 ->
  Forall (fun c => is_scalar c = true) id -> trim id = id ->
  expects lim m id ref chunks o room ->
  contiguous w_offset write_len o ws -> zsum write_len ws <= room ->
  Forall2 (fun w b => encodeFrame (data_frame id w) (maximumChunkBytes lim) = Ok b) ws bs ->
  expects lim (mux_run lim (map IReceive bs) m) id ref
    (chunks ++ map (fun w => Chunk (w_offset w) (w_data w)) ws)
    (o + zsum write_len ws) (room - zsum write_len ws).
Proof.
  intros Hl Hsc Ht Hm Hcont Hsum Hbs. revert m chunks o room Hm Hcont Hsum.
  induction Hbs as [|w b ws bs He _ IH]; intros m chunks o room Hm Hcont Hsum.
  { simpl. rewrite app_nil_r, Z.add_0_r, Z.sub_0_r. done. }
  simpl in Hcont, Hsum. destruct Hcont as (Ho & Hpos & Hcont).
  pose proof (contiguous_nonneg _ _ _ _ Hcont).
  eapply receive_data_frame in Hm; [|done..| |exact He]; [|lia].
  specialize (IH _ _ _ _ Hm Hcont ltac:(lia)).
  simpl. rewrite Z.add_assoc. replace (room - (write_len w + zsum write_len ws))
    with (room - write_len w - zsum write_len ws) by lia.
  rewrite <- app_assoc in IH. exact IH.
Qed.

Lemma map_chunk_data ws :
  map c_data (map (fun w => Chunk (w_offset w) (w_data w)) ws) = map w_data ws.
Proof. induction ws; simpl; congruence. Qed.

Lemma mjoin_app {A} (a b : list (list A)) : mjoin (a ++ b) = mjoin a ++ mjoin b.
Proof. induction a as [|x a IH]; [done|]. simpl. by rewrite IH, app_assoc. Qed.

(** ** The guarantees *)

(** C10 (invariant).  In every state a mux can reach, the number of streams is
    within its limit, and each stream in the table keeps its books: received
    bytes not yet acknowledged stay within the receive window and are exactly
    the chunks queued plus the chunk in the handler; the acknowledged offset
    does not pass the send offset; credit is never overdrawn and stays within the
    receive window of this side on a stream it opened, within what an open frame
    can grant (64 MiB) on one the peer opened; the pending writes exceed the
    credit by at most [maximumPendingWriteBytes]; and they are the contiguous tail
    of the stream that ends at [sendOffset], with [pendingWriteBytes] their
    total. *)
Theorem mux_flow_control (o : mux_options) (lim : mux_limits) (m : mux) :
  reachable o lim m ->
  map_size (streams m) <= maximumStreams lim
  /\ forall id ref, map_get (streams m) id = Some ref ->
     exists st, heap m !! ref = Some st /\ sid st = id
     /\ 0 <= receiveBufferedBytes st <= receiveWindowBytes lim
     /\ receiveBufferedBytes st = inflight ref (conts m) + zsum chunk_len (incoming st)
     /\ 0 <= acknowledgedOffset st <= sendOffset st
     /\ 0 <= sendCreditBytes st <= (if localOpened st then receiveWindowBytes lim else MAX_CREDIT_BYTES)
     /\ pendingWriteBytes st <= maximumPendingWriteBytes lim + sendCreditBytes st
     /\ pendingWriteBytes st = zsum write_len (pendingWrites st)
     /\ contiguous w_offset write_len (sendOffset st - pendingWriteBytes st)
          (pendingWrites st).
Proof.
  intros Hr. pose proof (mux_new_inv _ _ (proj1 Hr)) as Hl. pose proof (reachable_limits o lim m) as Hlim.
  specialize (fun id ref st => Hlim id ref st Hr). apply reachable_inv in Hr as [Hcore _ _ _]. split.
  - pose proof (core_size _ _ _ Hcore). lia.
  - intros id ref Hg. destruct (core_live _ _ _ Hcore _ _ Hg) as (st & Hst & Hid & Hok).
    destruct (core_objects _ _ _ Hcore _ _ Hst) as [_ Hc].
    destruct (Hlim _ _ _ Hg Hst) as [Hcr Hpe].
    apply contiguous_nonneg in Hc. destruct Hok. exists st. cbn [app] in *.
    split_and!; try done; lia.
Qed.

(** C11 (safety).  In every reachable state the chunks that were handed to the
    data handler of a stream object follow one another from offset 0 without
    gap, overlap or repetition, at most one chunk is in its handler, and for a
    stream in the table the bytes delivered are the bytes acknowledged plus the
    chunk in the handler. *)
Theorem mux_in_order_delivery (o : mux_options) (lim : mux_limits) (m : mux) (ref : nat) :
  reachable o lim m ->
  contiguous c_offset chunk_len 0 (deliveries ref (trace m))
  /\ drains ref (conts m) <= 1
  /\ (forall id st, map_get (streams m) id = Some ref -> heap m !! ref = Some st ->
      zsum chunk_len (deliveries ref (trace m)) = receiveOffset st + inflight ref (conts m)).
Proof.
  intros Hr. apply reachable_inv in Hr as [Hcore _ _ _]. split_and!.
  - apply (core_deliveries _ _ _ Hcore).
  - destruct (heap m !! ref) as [st|] eqn:E.
    + destruct (core_objects _ _ _ Hcore _ _ E) as [Hd _]. cbn [app] in Hd. rewrite Hd.
      by destruct (drainingIncoming st).
    + apply lookup_ge_None in E. destruct (core_fresh _ _ _ Hcore ref E) as (_ & _ & Hd).
      cbn [app] in Hd. lia.
  - intros id st Hg Hst. destruct (core_live _ _ _ Hcore _ _ Hg) as (st' & Hst' & _ & Hok).
    simplify_eq. apply (ok_received _ _ _ _ _ Hok).
Qed.

(** Failing closed: once a reachable mux is closed, by a protocol
    violation, a channel error or a call of [close], no later input, whatever it
    is, reopens it, puts a stream in its table or makes it send a frame. *)
Theorem mux_closed_final (o : mux_options) (lim : mux_limits) (m : mux) (inputs : list input) :
  reachable o lim m -> closed m = true ->
  let m' := mux_run lim inputs m in
  closed m' = true /\ streams m' = [] /\ sent (trace m') = sent (trace m).
Proof.
  intros Hr Hc. apply reachable_inv in Hr as [_ _ _ Hcl]. by apply run_closed; auto.
Qed.

(** One call of [flushWrites] on an open stream takes the
    longest prefix of the pending writes that the credit pays for, spends
    exactly its length and leaves the rest pending, in order. *)
Theorem mux_flush_maximal (o : mux_options) (lim : mux_limits) (m : mux) (id : jsstring)
    (ref : nat) (st : StreamState) :
  reachable o lim m -> closed m = false ->
  map_get (streams m) id = Some ref -> heap m !! ref = Some st -> remoteOpened st = true ->
  Forall (fun w => queued_frame lim st w = true) (pendingWrites st) ->
  exists m' st' go stay, flushWrites lim ref m = (Ok tt, m')
  /\ heap m' !! ref = Some st'
  /\ pendingWrites st = go ++ stay /\ pendingWrites st' = stay
  /\ zsum write_len go <= sendCreditBytes st
  /\ sendCreditBytes st' = sendCreditBytes st - zsum write_len go
  /\ pendingWriteBytes st' = zsum write_len stay
  /\ match stay with [] => True | w :: _ => sendCreditBytes st' < write_len w end.
Proof.
  intros Hr Hc Hg Hst Hro Hok. apply reachable_inv in Hr as [Hcore Hq _ _].
  destruct (core_live _ _ _ Hcore _ _ Hg) as (st0 & Hst0 & _ & Hlive). simplify_eq.
  pose proof (flush_loop_spec lim ref _ m st Hq Hc Hst eq_refl Hok) as Hf.
  pose proof (affordable_spec (sendCreditBytes st) (pendingWrites st) (ok_credit _ _ _ _ _ Hlive))
    as Ha.
  destruct (affordable (sendCreditBytes st) (pendingWrites st)) as [go stay].
  destruct Hf as (m' & Hrun & Hh), Ha as (Happ & Hle & Hmax).
  exists m'. eexists. exists go, stay. split_and!; [|exact Hh|done|done|done|done| |done].
  - unfold flushWrites, se_bind, se_get. by rewrite Hst, Hc, Hro.
  - simpl. pose proof (ok_pending _ _ _ _ _ Hlive) as Hp.
    rewrite Happ, zsum_app in Hp. lia.
Qed.

(** C12 (liveness).  Round robin: take a stream of the table at position [i] of the
    round robin, and [f] the next of its data frames.  However the mux goes on (other
    streams write, frames arrive, continuations resume in any order), as long as the
    stream stays in the table [f] is sent after at most [i] other data frames: either
    it has been, or at most [i] data frames were sent so far, [f] is still next in its
    queue, and the continuation of the pump is there, which sends one more frame when
    it is resumed, a data frame once no control frame waits. *)
Theorem mux_round_robin_fair (o : mux_options) (lim : mux_limits) (m : mux) (i : nat)
    (id : jsstring) (ref : nat) :
  reachable o lim m -> dataRoundRobin m !! i = Some id -> map_get (streams m) id = Some ref ->
  exists f q, map_get (dataFrames m) id = Some (f :: q)
  /\ forall inputs, let m' := mux_run lim inputs m in
     map_get (streams m') id = Some ref ->
     exists tr, trace m' = trace m ++ tr
     /\ ((exists tr1 tr2, tr = tr1 ++ EvSend f :: tr2 /\ (data_sent tr1 <= i)%nat)
         \/ (exists j q', dataRoundRobin m' !! j = Some id /\ map_get (dataFrames m') id = Some (f :: q')
              /\ (j + data_sent tr <= i)%nat
              /\ exists n b, conts m' !! n = Some KPump
                 /\ trace (mux_step lim (IResume n Resolved) m') = trace m' ++ [EvSend b]
                 /\ (controlFrames m' = [] -> is_data b = true))).
Proof.
  intros Hr Hi Hg. pose proof (reachable_inv _ _ _ Hr) as Hm. destruct (reachable_acts _ _ _ Hr) as [Hc|Ha].
  { by rewrite (inv_closed _ _ _ Hm Hc) in Hg. }
  destruct (queued_next m i id (inv_queues _ _ _ Hm) Hi) as (f & q & Hdf). exists f, q. split; [done|].
  intros inputs m' Hg'. pose proof (mux_run_inv o lim inputs m (proj1 Hr) Hm) as Hm'. fold m' in Hm'.
  assert (Hc' : closed m' = false).
  { destruct (closed m') eqn:Hc'; [|done]. by rewrite (inv_closed _ _ _ Hm' Hc') in Hg'. }
  destruct (run_walk o lim inputs m (proj1 Hr) Hm Ha) as [Hw|Hw]; fold m' in Hw; [|congruence].
  pose proof (acts_inv lim m m' Hw Ha) as Ha'.
  destruct (acts_served lim id ref f i (trace m) m m' Hw Ha) as [Hno|(tr & Etr & Hcase)]; [| |done|].
  - destruct (core_live _ _ _ (inv_core _ _ _ Hm) _ _ Hg) as (st & Hst & _). by apply lookup_lt_Some in Hst.
  - right. exists []. split; [by rewrite app_nil_r|]. right. exists i, q. split_and!; [done|done|]. unfold data_sent. simpl. lia.
  - exists tr. split; [done|]. destruct Hcase as [Hs|(j & q' & Hj & Hdf' & Hle)]; [by left|]. right. exists j, q'.
    split_and!; [done..|]. apply pump_goes_on; [done..|]. by apply (queued_has_frames m' id (f :: q')).
Qed.

(**  Transfer of a write: the pieces [write] cuts a buffer
    into, sent as data frames in order, are accepted by a receiver that expects
    their first offset and has room, and what it queues for its handler is the
    buffer, byte for byte. *)
Theorem mux_transfer (o : mux_options) (lim : mux_limits) (m : mux) (id : jsstring)
    (ref : nat) (at_ room : Z) (data : bytes) (bs : list bytes) :
  mux_new o = Ok lim ->
  Forall (fun c => is_scalar c = true) id -> trim id = id ->
  expects lim m id ref [] at_ room -> byteLength data <= room ->
  let ws := pieces (length data) (Z.to_nat (maximumChunkBytes lim)) data at_ in
  Forall2 (fun w b => encodeFrame (data_frame id w) (maximumChunkBytes lim) = Ok b) ws bs ->
  exists chunks, expects lim (mux_run lim (map IReceive bs) m) id ref chunks
                   (at_ + byteLength data) (room - byteLength data)
  /\ mjoin (map c_data chunks) = data
  /\ contiguous c_offset chunk_len at_ chunks
  /\ Forall (fun c => chunk_len c <= maximumChunkBytes lim) chunks.
Proof.
  intros Hn Hsc Ht Hm Hroom ws Hbs. apply mux_new_inv in Hn.
  destruct (pieces_spec (length data) (Z.to_nat (maximumChunkBytes lim)) data at_)
    as (Hc & Hj & Hle); [lia|]. specialize (Hj ltac:(lia)).
  assert (Hsum : zsum write_len ws = byteLength data)
    by (rewrite writes_length; unfold ws; by rewrite Hj).
  assert (Hrun : expects lim (mux_run lim (map IReceive bs) m) id ref
    ([] ++ map (fun w => Chunk (w_offset w) (w_data w)) ws)
    (at_ + zsum write_len ws) (room - zsum write_len ws))
    by (apply receive_data_frames; try done; lia).
  rewrite Hsum in Hrun. eexists. split; [exact Hrun|]. simpl. split_and!.
  - by rewrite map_chunk_data.
  - revert Hc. unfold ws. generalize (pieces (length data) (Z.to_nat (maximumChunkBytes lim))
      data at_). intros l. revert at_ Hm Hj Hle ws Hbs Hsum Hrun. clear. intros at_ _ _ _ _ _ _ _.
    revert at_; induction l as [|w l IH]; intros at_; [done|]. simpl.
    intros (? & ? & ?). by split_and!; [| |apply IH].
  - apply Forall_map. eapply Forall_impl; [exact Hle|]. simpl. intros w Hw.
    unfold chunk_len, write_len in *. simpl. lia.
Qed.

(** ** Behaviours that break the protocol *)

(** Failing streams sends nothing and leaves the mux open or closed. *)
Definition hush (m m' : mux) : Prop :=
  closed m' = closed m /\ sent (trace m') = sent (trace m).

Lemma hush_emit e m m' : sent_of e = None -> hush m m' -> hush m (emit e m').
Proof.
  intros He [Hc Hs]. split; [done|]. simpl. rewrite sent_app, Hs.
  unfold sent at 2. simpl. rewrite He. apply app_nil_r.
Qed.

Lemma hush_foldl {A} (f : mux -> A -> mux) l m m' :
  (forall a m1, hush m m1 -> hush m (f m1 a)) -> hush m m' -> hush m (foldl f m' l).
Proof. intros Hf. revert m'; induction l as [|a l IH]; simpl; auto. Qed.

Lemma hush_failStream ref e m m' : hush m m' -> hush m (failStream ref e m').
Proof.
  intros Hq. unfold failStream. destruct (heap m' !! ref) as [st|]; [|done].
  case_match; [done|]. do 2 (apply hush_emit; [done|]).
  apply (hush_foldl (fun m w => emit (EvWriteRejected ref (w_offset w) e) m)); [|done].
  intros. by apply hush_emit.
Qed.

Lemma hush_fail e m : closed m = false ->
  closed (fail e m) = true /\ sent (trace (fail e m)) = sent (trace m).
Proof.
  intros Hc. unfold fail. rewrite Hc. apply (hush_emit _ (set_closed true m)); [done|].
  apply hush_emit; [done|]. apply hush_foldl; [|done]. intros. by apply hush_failStream.
Qed.

(** A data handler that throws is meant to cost its stream: the
    stream is reset with the handler's message.  When the message is not a valid
    reset reason (it is empty, blank, too long, or has a control character) the
    reset itself is refused and the whole mux, with every other stream, fails. *)
Theorem mux_handler_error_fails_mux (o : mux_options) (lim : mux_limits) (m : mux) (n ref : nat)
    (chunk : IncomingChunk) (st : StreamState) (message : jsstring) :
  reachable o lim m -> closed m = false ->
  conts m !! n = Some (KDrainHandler ref chunk) ->
  heap m !! ref = Some st -> map_get (streams m) (sid st) = Some ref ->
  validateStreamId (sid st) = Ok (sid st) ->
  is_ok (boundedText message MAX_RESET_REASON_BYTES "direct_mux_reset_reason_is_invalid") = false ->
  let m' := mux_step lim (IResume n (Rejected message)) m in
  closed m' = true /\ streams m' = [] /\ sent (trace m') = sent (trace m).
Proof.
  intros Hr Hc Hn Hst Hg Hv Hbad m'.
  assert (Hinv : mux_inv lim m') by
    (pose proof (mux_new_inv _ _ (proj1 Hr)); apply mux_inv_step; [lia|lia|by eapply reachable_inv]).
  assert (Hm' : exists code, m' = fail (ECode code)
            (upd ref (set_drainingIncoming false) (set_conts (delete n (conts m)) m))).
  { unfold m'. simpl. rewrite Hn. unfold resume, drain_threw. simpl. rewrite Hst.
    unfold reset_begin, requiredStream, se_bind, se_lift, se_get, se_ret. simpl.
    rewrite Hv, Hg. simpl. rewrite Hst.
    destruct (boundedText _ _ _) as [|code]; [done|]. exists code.
    unfold drain_rejected. rewrite (heap_upd_eq _ _ _ st) by done. simpl. rewrite Hc.
    unfold map_has. by rewrite Hg. }
  destruct Hm' as [code Hm'].
  destruct (hush_fail (ECode code) (upd ref (set_drainingIncoming false)
    (set_conts (delete n (conts m)) m)) Hc) as [Hcl Hs]. rewrite <- Hm' in Hcl, Hs.
  split_and!; [done| |done]. by apply (inv_closed _ _ _ Hinv).
Qed.
