(* ===== verification/MuxExamples.v ===== *)
(** * Runs of the multiplexer

    Concrete runs: the two that show how the mux departs from its protocol, and
    the inputs at which the guarantees of [MuxProps] are instantiated. *)

From S2P Require Import Prelude JsString JsMap MuxFrame Mux MuxInv MuxSteps MuxActs MuxProps.

#[local] Open Scope Z_scope.

Definition opts : mux_options :=
  Options (Some (NInt 4096)) (Some (NInt 256)) (Some (NInt 4)) (Some (NInt 4096)).
Definition lim : mux_limits := Limits 4096 256 4 4096.

Definition id_a : jsstring := [97].
Definition id_b : jsstring := [98].

(** The bytes of a frame of stream [id]. *)
Definition wire (t : FrameType) (id : jsstring) (o c : Z) (p : bytes) : bytes :=
  match encodeFrame (Frame t id o c p) 256 with Ok b => b | Err _ => [] end.

(** A sender that writes 300 bytes and closes its stream before the channel has
    taken the first of its two data frames. *)
Definition sender_inputs : list input :=
  [ IOpen id_a []; IResume 0 Resolved; IReceive (wire Acknowledge id_a 0 4096 []);
    IWrite id_a (repeat 7 300); ICloseStream id_a;
    IResume 0 Resolved; IResume 1 Resolved; IResume 0 Resolved ].

(** A receiver whose handler takes one chunk; the peer's reset arrives while the
    acknowledgement of the chunk is being sent. *)
Definition receiver_inputs : list input :=
  [ IReceive (wire Open id_a 0 4096 []); ISetHandler id_a; IResume 0 Resolved;
    IReceive (wire Data id_a 0 0 [1; 2]); IResume 0 Resolved;
    IReceive (wire Reset id_a 0 0 []); IResume 0 Resolved; IResume 0 Resolved ].

(** The events of a stream that its owner sees. *)
Definition owner_event (e : event) : option event :=
  match e with EvEnd _ | EvReset _ _ | EvError _ _ => Some e | _ => None end.

(** [closeStream] does not wait for the data its stream has
    queued: the close frame goes to the control queue, which the pump empties
    first.  A sender that writes 300 bytes and closes sends the close frame
    between its two data frames, and the receiver of these frames, which has
    every byte in order so far, fails its whole mux on the close. *)
Theorem mux_close_overtakes_data :
  let frames := sent (trace (mux_run lim sender_inputs empty_mux)) in
  omap (fun b => match decodeFrame b 256 with Ok f => Some (type f, offset f) | Err _ => None end)
    frames = [(Open, 0); (Data, 0); (Close, 300); (Data, 256)]
  /\ let m := mux_run lim (map IReceive (take 2 frames)) empty_mux in
     let m' := mux_run lim (map IReceive (take 3 frames)) empty_mux in
     closed m = false /\ closed m' = true
     /\ last (trace m') = Some EvMuxClose
     /\ EvMuxError (ECode "direct_mux_close_offset_is_invalid") ∈ trace m'.
Proof.
  split; [vm_compute; reflexivity|]. split_and!; try (vm_compute; reflexivity).
  apply (list_elem_of_lookup_2 _ 4%nat). vm_compute. reflexivity.
Qed.

(**  A stream that was reset still reports a normal end: the drain
    loop that resumes after its acknowledgement was sent does not look whether
    the stream is still in the table, finds the object closed and empty, and
    emits "end" after "reset" and "error". *)
Theorem mux_end_after_reset :
  omap owner_event (trace (mux_run lim receiver_inputs empty_mux))
  = [EvReset 0 (ECode "direct_mux_remote_reset"); EvError 0 (ECode "direct_mux_remote_reset");
     EvEnd 0].
Proof. vm_compute. reflexivity. Qed.

(** An end whose peer has a larger window fails on the credit that the peer grants it. *)
Theorem mux_unequal_windows :
  let m := mux_run lim [IOpen id_a []; IResume 0 Resolved; IReceive (wire Acknowledge id_a 0 8192 [])] empty_mux in
  closed m = true /\ EvMuxError (ECode "direct_mux_credit_overflow") ∈ trace m.
Proof.
  split; [vm_compute; reflexivity|]. apply (list_elem_of_lookup_2 _ 3%nat). vm_compute. reflexivity.
Qed.

(** ** Instances of the guarantees *)

(** A mux with an open stream [a], credit for part of what it has pending, and a
    second stream whose data is queued behind. *)
Definition busy_inputs : list input :=
  [ IOpen id_a []; IOpen id_b []; IResume 0 Resolved;
    IReceive (wire Acknowledge id_a 0 600 []); IReceive (wire Acknowledge id_b 0 600 []);
    IWrite id_a (repeat 7 1000); IWrite id_b (repeat 9 300) ].
Definition busy : mux := mux_run lim busy_inputs empty_mux.

Definition closed_mux : mux := mux_run lim [IOpen id_a []; IChannelClose] empty_mux.

Definition receiving : mux :=
  mux_run lim [IReceive (wire Open id_a 0 4096 []); IResume 0 Resolved] empty_mux.

Definition handling : mux :=
  mux_run lim [ IReceive (wire Open id_a 0 4096 []); ISetHandler id_a; IResume 0 Resolved;
                IReceive (wire Data id_a 0 0 [1; 2]) ] empty_mux.

Lemma mux_flow_control_witness :
  map_size (streams busy) <= 4
  /\ exists st, heap busy !! 0%nat = Some st
     /\ pendingWriteBytes st = zsum write_len (pendingWrites st)
     /\ sendCreditBytes st <= 4096 /\ pendingWriteBytes st <= 4096 + sendCreditBytes st
     /\ (sendCreditBytes st, pendingWriteBytes st) = (88, 488).
Proof.
  assert (Hr : reachable opts lim busy) by (split; [reflexivity|exists busy_inputs; reflexivity]).
  destruct (mux_flow_control opts lim busy Hr) as [Hs Hall]. split; [exact Hs|].
  destruct (Hall id_a 0%nat ltac:(vm_compute; reflexivity)) as (st & Hst & _ & _ & _ & _ & Hc & Hw & Hp & _).
  exists st. pose proof Hst as Hst'. vm_compute in Hst'. injection Hst' as Hst'.
  assert (Hl : localOpened st = true) by (rewrite <- Hst'; reflexivity). rewrite Hl in Hc.
  split; [exact Hst|]. split; [exact Hp|]. split; [exact (proj2 Hc)|]. split; [exact Hw|].
  rewrite <- Hst'. reflexivity.
Defined.

Lemma mux_in_order_delivery_witness :
  contiguous c_offset chunk_len 0 (deliveries 0 (trace handling))
  /\ deliveries 0 (trace handling) = [Chunk 0 [1; 2]].
Proof.
  assert (Hr : reachable opts lim handling) by (split; [reflexivity|eexists; reflexivity]).
  split; [exact (proj1 (mux_in_order_delivery opts lim handling 0 Hr))|vm_compute; reflexivity].
Defined.

Lemma mux_closed_final_witness :
  closed (mux_run lim busy_inputs closed_mux) = true.
Proof.
  assert (Hr : reachable opts lim closed_mux) by (split; [reflexivity|eexists; reflexivity]).
  exact (proj1 (mux_closed_final opts lim closed_mux busy_inputs Hr ltac:(vm_compute; reflexivity))).
Defined.

Lemma mux_flush_maximal_witness :
  exists m', flushWrites lim 0 busy = (Ok tt, m').
Proof.
  assert (Hr : reachable opts lim busy) by (split; [reflexivity|exists busy_inputs; reflexivity]).
  destruct (heap busy !! 0%nat) as [st|] eqn:Hst; [|vm_compute in Hst; discriminate].
  assert (Hst' := Hst). vm_compute in Hst'. injection Hst' as Hst'.
  destruct (mux_flush_maximal opts lim busy id_a 0 st Hr ltac:(vm_compute; reflexivity)
    ltac:(vm_compute; reflexivity) Hst) as (m' & ? & ? & ? & Hf & _).
  - rewrite <- Hst'. reflexivity.
  - rewrite <- Hst'. apply Forall_fold_right. vm_compute. auto.
  - exists m'. exact Hf.
Defined.

(** Stream [a] gets credit for all it has written, and the pump goes on twice. *)
Definition fair_inputs : list input :=
  [IReceive (wire Acknowledge id_a 0 1000 []); IResume 0 Resolved; IResume 0 Resolved].

(** Stream [b], second in the round robin, is served after one frame of [a], which has
    four queued by then. *)
Lemma mux_round_robin_fair_witness :
  exists f q tr1 tr2, map_get (dataFrames busy) id_b = Some (f :: q)
  /\ trace (mux_run lim fair_inputs busy) = trace busy ++ tr1 ++ EvSend f :: tr2 /\ (data_sent tr1 <= 1)%nat.
Proof.
  assert (Hr : reachable opts lim busy) by (split; [reflexivity|exists busy_inputs; reflexivity]).
  destruct (mux_round_robin_fair opts lim busy 1 id_b 1 Hr ltac:(vm_compute; reflexivity) ltac:(vm_compute; reflexivity))
    as (f & q & Hf & Hrun).
  destruct (Hrun fair_inputs ltac:(vm_compute; reflexivity)) as (tr & Htr & [(tr1 & tr2 & -> & Hle)|(j & q' & _ & _ & Hle & _)]).
  - exists f, q, tr1, tr2. auto.
  - exfalso. pose proof (f_equal data_sent Htr) as Hd. rewrite data_sent_app in Hd.
    replace (data_sent (trace (mux_run lim fair_inputs busy))) with 2%nat in Hd by (vm_compute; reflexivity).
    replace (data_sent (trace busy)) with 0%nat in Hd by (vm_compute; reflexivity). lia.
Defined.

Lemma mux_transfer_witness :
  exists chunks, expects lim (mux_run lim (map IReceive
      [wire Data id_a 0 0 (repeat 7 256); wire Data id_a 256 0 (repeat 7 44)]) receiving)
    id_a 0 chunks 300 3796
  /\ mjoin (map c_data chunks) = repeat 7 300.
Proof.
  destruct (mux_transfer opts lim receiving id_a 0 0 4096 (repeat 7 300)
    [wire Data id_a 0 0 (repeat 7 256); wire Data id_a 256 0 (repeat 7 44)])
    as (chunks & He & Hj & _).
  - reflexivity.
  - repeat constructor.
  - reflexivity.
  - split; [vm_compute; reflexivity|]. split; [vm_compute; reflexivity|].
    eexists. split; [vm_compute; reflexivity|].
    repeat (split; [vm_compute; first [reflexivity|discriminate]|]). vm_compute. reflexivity.
  - vm_compute. discriminate.
  - replace (pieces _ _ _ _) with [Write (repeat 7 256) 0; Write (repeat 7 44) 256]
      by (vm_compute; reflexivity).
    constructor; [vm_compute; reflexivity|].
    constructor; [vm_compute; reflexivity|constructor].
  - exists chunks. split; [exact He|exact Hj].
Defined.

Lemma mux_frame_round_trip_witness :
  decodeFrame (wire Data id_a 5 0 [1; 2; 3]) 256 = Ok (Frame Data id_a 5 0 [1; 2; 3]).
Proof.
  apply (proj1 (mux_frame_round_trip 256 ltac:(lia)) (Frame Data id_a 5 0 [1; 2; 3])).
  - repeat constructor.
  - vm_compute. reflexivity.
Defined.

Lemma mux_handler_error_fails_mux_witness :
  closed (mux_step lim (IResume 0 (Rejected [])) handling) = true.
Proof.
  assert (Hr : reachable opts lim handling) by (split; [reflexivity|eexists; reflexivity]).
  destruct (heap handling !! 0%nat) as [st|] eqn:Hst; [|vm_compute in Hst; discriminate].
  assert (Hst' := Hst). vm_compute in Hst'. injection Hst' as Hst'.
  apply (mux_handler_error_fails_mux opts lim handling 0 0 (Chunk 0 [1; 2]) st [] Hr).
  - vm_compute. reflexivity.
  - vm_compute. reflexivity.
  - exact Hst.
  - rewrite <- Hst'. vm_compute. reflexivity.
  - rewrite <- Hst'. vm_compute. reflexivity.
  - vm_compute. reflexivity.
Defined.
