(* ===== verification/Ledger.v ===== *)
(** * The economic ledger

    [EconomicLedger] of [src/src/economy/economic-ledger.ts] with the receipts
    of [src/src/contracts/economic-settlement-receipt.ts]: pricing policies,
    settlement of a job into double-entry ledger rows, reputation and signed
    receipts.  The database is a record of tables; an operation that throws
    leaves it as it was ([MeshDatabase.transaction]).  The [created_at] and
    [updated_at] columns, which nothing reads but as a label, are left out, and a
    stored JSON document is kept as the value it is the text of. *)

From S2P Require Import Prelude JsString JsMap JsSort JsonText CanonicalJson Schema Sql.

#[local] Open Scope Z_scope.

(** ** Data *)

Inductive RouteClass := LocalComplete | RemoteReplica | DistributedPipeline.
#[export] Instance RouteClass_eq_dec : EqDecision RouteClass.
Proof. solve_decision. Defined.

Definition route_text (r : RouteClass) : string :=
  match r with
  | LocalComplete => "local-complete"
  | RemoteReplica => "remote-replica"
  | DistributedPipeline => "distributed-pipeline"
  end.

Record PricingPolicyInput := PolicyInput {
  modelId : jsstring;
  routeClass : RouteClass;
  version : Z;
  inputMicrounitsPerToken : Z;
  outputMicrounitsPerToken : Z;
  platformFeeBps : Z;
  effectiveAt : Z;
  retiredAt : option Z;
}.

Record PricingPolicy := Policy { policy_id : jsstring; policy : PricingPolicyInput }.

Inductive RecoveryMode := RecoveryNone | PromptReplay | DeterministicPrefixReplay.
Definition recovery_text (m : RecoveryMode) : string :=
  match m with
  | RecoveryNone => "none"
  | PromptReplay => "prompt-replay"
  | DeterministicPrefixReplay => "deterministic-prefix-replay"
  end.

Record ExecutionRecovery := Recovery {
  mode : RecoveryMode; attempts : Z; replayedTokenEvents : Z }.

Record Contributor := Contribution { nodeId : jsstring; weight : Z }.

Record SettlementInput := Settlement {
  jobId : jsstring;
  executionReceiptId : jsstring;
  contributionEvidenceId : jsstring;
  pricingPolicyId : jsstring;
  executionRecovery : ExecutionRecovery;
  payerAccountId : jsstring;
  inputTokens : Z;
  outputTokens : Z;
  contributors : list Contributor;
  createdAt : Z;
}.

Record Credit := Credited { creditNode : jsstring; amountMicrounits : Z }.

(** *** Physical contribution evidence, as stored *)

Record Participant := Participated { partNode : jsstring; stageCount : Z }.
Record Evidence := EvidenceDoc {
  ev_id : jsstring;
  ev_jobId : jsstring;
  ev_executionReceiptId : jsstring;
  participants : list Participant;
  physicalBoundaryCount : Z;
}.

(** *** Receipts *)

Record ReceiptBody := Body {
  rb_settlementId : jsstring;
  rb_jobId : jsstring;
  rb_executionReceiptId : jsstring;
  rb_contributionEvidenceId : jsstring;
  rb_pricingPolicyId : jsstring;
  rb_executionRecovery : option ExecutionRecovery;
  rb_payerAccountHash : jsstring;
  rb_gross : Z;
  rb_provider : Z;
  rb_platform : Z;
  rb_credits : list Credit;          (* creditNode holds nodeIdHash *)
  rb_createdAt : Z;
}.

Record Receipt := SignedReceipt {
  body : ReceiptBody; receiptId : jsstring; keyId : jsstring; signature : bytes }.

(** *** Tables *)

Inductive OwnerKind := Account | Node | Platform.
#[export] Instance OwnerKind_eq_dec : EqDecision OwnerKind.
Proof. solve_decision. Defined.
Definition owner_text (k : OwnerKind) : string :=
  match k with Account => "account" | Node => "node" | Platform => "platform" end.

Inductive Category := Usage | Work | PlatformFee.
#[export] Instance Category_eq_dec : EqDecision Category.
Proof. solve_decision. Defined.
Definition category_text (c : Category) : string :=
  match c with Usage => "usage" | Work => "work" | PlatformFee => "platform_fee" end.

Record AccountRow := AccountOf { a_id : jsstring; ownerKind : OwnerKind; ownerId : jsstring }.

Record SettlementRow := SettlementOf {
  s_id : jsstring;
  s_input : SettlementInput;
  s_gross : Z;
  s_provider : Z;
  s_platform : Z;
  requestDigest : jsstring;
}.

Record EntryRow := Entry {
  e_id : jsstring;
  e_settlement : jsstring;
  e_account : jsstring;
  category : Category;
  amount : Z;
}.

Record Reputation := Rep {
  verifiedJobs : Z;
  verifiedStageCount : Z;
  verifiedPhysicalBoundaries : Z;
  earnedMicrounits : Z;
  lastEvidenceId : jsstring;
}.

Record db := Db {
  pricing_policies : list PricingPolicy;
  settlements : list SettlementRow;
  accounts : list AccountRow;
  entries : list EntryRow;
  receipts : list (jsstring * Receipt);
  evidence : list (jsstring * Evidence);
  reputation : list (jsstring * Reputation);
}.

Definition empty_db : db := Db [] [] [] [] [] [] [].

Definition set_policies v d := Db v (settlements d) (accounts d) (entries d) (receipts d) (evidence d) (reputation d).
Definition set_settlements v d := Db (pricing_policies d) v (accounts d) (entries d) (receipts d) (evidence d) (reputation d).
Definition set_accounts v d := Db (pricing_policies d) (settlements d) v (entries d) (receipts d) (evidence d) (reputation d).
Definition set_entries v d := Db (pricing_policies d) (settlements d) (accounts d) v (receipts d) (evidence d) (reputation d).
Definition set_receipts v d := Db (pricing_policies d) (settlements d) (accounts d) (entries d) v (evidence d) (reputation d).
Definition set_evidence v d := Db (pricing_policies d) (settlements d) (accounts d) (entries d) (receipts d) v (reputation d).
Definition set_reputation v d := Db (pricing_policies d) (settlements d) (accounts d) (entries d) (receipts d) (evidence d) v.

(** The economic result returned to the caller. *)
Record EconomicSettlement := Settled {
  settled_row : SettlementRow;
  contributorCredits : list Credit;
  receipt : Receipt;
}.

(** ** Schemas *)

(** [z.string().min(1).max(256)] with the class of identifiers: a letter or
    digit, then letters, digits and . _ : / - *)
Definition is_identifier (s : jsstring) : bool :=
  match s with
  | [] => false
  | c :: s' =>
      is_alnum c
      && forallb (fun d => is_alnum d || (d =? 46) || (d =? 95) || (d =? 58) || (d =? 47) || (d =? 45)) s'
      && (utf16_length s <=? 256)
  end.

Definition pricing_valid (p : PricingPolicyInput) : bool :=
  (is_identifier (modelId p) || bool_decide (modelId p = js "*"))
  && safe_positive (version p)
  && safe_nonneg (inputMicrounitsPerToken p) && safe_nonneg (outputMicrounitsPerToken p)
  && ((0 <=? platformFeeBps p) && (platformFeeBps p <=? 10000))
  && safe_nonneg (effectiveAt p)
  && match retiredAt p with
     | None => true
     | Some r => safe_positive r && (effectiveAt p <? r)
     end.

Definition recovery_valid (r : ExecutionRecovery) : bool :=
  safe_positive (attempts r) && safe_nonneg (replayedTokenEvents r).

Definition settlement_valid (i : SettlementInput) : bool :=
  is_identifier (jobId i) && is_sha256 (executionReceiptId i)
  && is_sha256 (contributionEvidenceId i) && is_sha256 (pricingPolicyId i)
  && recovery_valid (executionRecovery i) && is_identifier (payerAccountId i)
  && safe_nonneg (inputTokens i) && safe_nonneg (outputTokens i)
  && forallb (fun c => is_identifier (nodeId c) && safe_positive (weight c)) (contributors i)
  && ((1 <=? Z.of_nat (length (contributors i))) && (Z.of_nat (length (contributors i)) <=? 1024))
  && safe_nonneg (createdAt i)
  && bool_decide (NoDup (map nodeId (contributors i))).

Definition evidence_valid (e : Evidence) : bool :=
  is_sha256 (ev_id e) && is_sha256 (ev_executionReceiptId e)
  && ((1 <=? utf16_length (ev_jobId e)) && (utf16_length (ev_jobId e) <=? 256))
  && ((1 <=? Z.of_nat (length (participants e))) && (Z.of_nat (length (participants e)) <=? 256))
  && forallb (fun p => (1 <=? utf16_length (partNode p)) && (utf16_length (partNode p) <=? 256)
                       && (1 <=? stageCount p)) (participants e)
  && (0 <=? physicalBoundaryCount e).

(** The hashes of a receipt's contributors, in the order the schema wants:
    [hashes[index - 1] > hash] for no index. *)
Fixpoint ascending (l : list jsstring) : bool :=
  match l with
  | x :: (y :: _) as l' => negb (units_lt (utf16 y) (utf16 x)) && ascending l'
  | _ => true
  end.

Definition receipt_valid (b : ReceiptBody) : bool :=
  is_sha256 (rb_settlementId b) && is_identifier (rb_jobId b)
  && is_sha256 (rb_executionReceiptId b) && is_sha256 (rb_contributionEvidenceId b)
  && is_sha256 (rb_pricingPolicyId b)
  && match rb_executionRecovery b with Some r => recovery_valid r | None => true end
  && is_sha256 (rb_payerAccountHash b)
  && safe_nonneg (rb_gross b) && safe_nonneg (rb_provider b) && safe_nonneg (rb_platform b)
  && forallb (fun c => is_sha256 (creditNode c) && safe_nonneg (amountMicrounits c)) (rb_credits b)
  && ((1 <=? Z.of_nat (length (rb_credits b))) && (Z.of_nat (length (rb_credits b)) <=? 1024))
  && safe_nonneg (rb_createdAt b)
  && (rb_provider b + rb_platform b =? rb_gross b)
  && (zsum amountMicrounits (rb_credits b) =? rb_provider b)
  && bool_decide (NoDup (map creditNode (rb_credits b)))
  && ascending (map creditNode (rb_credits b)).

(** ** Documents that are hashed *)

Definition text (s : string) : json := JStr (js s).

Definition policy_fields (p : PricingPolicyInput) : list (jsstring * json) :=
  [ (js "modelId", JStr (modelId p)); (js "routeClass", text (route_text (routeClass p)));
    (js "version", JNum (version p));
    (js "inputMicrounitsPerToken", JNum (inputMicrounitsPerToken p));
    (js "outputMicrounitsPerToken", JNum (outputMicrounitsPerToken p));
    (js "platformFeeBps", JNum (platformFeeBps p)); (js "effectiveAt", JNum (effectiveAt p));
    (js "retiredAt", match retiredAt p with Some r => JNum r | None => JNull end) ].

Definition recovery_doc (r : ExecutionRecovery) : json :=
  JObj [ (js "mode", text (recovery_text (mode r))); (js "attempts", JNum (attempts r));
         (js "replayedTokenEvents", JNum (replayedTokenEvents r)) ].

Definition input_fields (i : SettlementInput) : list (jsstring * json) :=
  [ (js "jobId", JStr (jobId i)); (js "executionReceiptId", JStr (executionReceiptId i));
    (js "contributionEvidenceId", JStr (contributionEvidenceId i));
    (js "pricingPolicyId", JStr (pricingPolicyId i));
    (js "executionRecovery", recovery_doc (executionRecovery i));
    (js "payerAccountId", JStr (payerAccountId i)); (js "inputTokens", JNum (inputTokens i));
    (js "outputTokens", JNum (outputTokens i));
    (js "contributors", JArr (map (fun c =>
       JObj [(js "nodeId", JStr (nodeId c)); (js "weight", JNum (weight c))]) (contributors i)));
    (js "createdAt", JNum (createdAt i)) ].

Definition credit_doc (name : string) (c : Credit) : json :=
  JObj [(js name, JStr (creditNode c)); (js "amountMicrounits", JNum (amountMicrounits c))].

Definition policy_doc (p : PricingPolicyInput) : json :=
  JObj ((js "schema", text "mycellios-pricing-policy/1") :: policy_fields p).
Definition request_doc (i : SettlementInput) : json :=
  JObj ((js "schema", text "mycellios-economic-settlement-request/1") :: input_fields i).
Definition settlement_doc (request : jsstring) (gross provider platform : Z) (credits : list Credit) : json :=
  JObj [ (js "schema", text "mycellios-economic-settlement/1"); (js "requestDigest", JStr request);
         (js "gross", JNum gross); (js "provider", JNum provider); (js "platform", JNum platform);
         (js "credits", JArr (map (credit_doc "nodeId") credits)) ].
Definition account_doc (kind : OwnerKind) (owner : jsstring) : json :=
  JObj [ (js "schema", text "mycellios-economic-account/1"); (js "ownerKind", text (owner_text kind));
         (js "ownerId", JStr owner); (js "asset", text "MYC_MICROCREDITS") ].
Definition entry_doc (settlement account : jsstring) (c : Category) (a : Z) : json :=
  JObj [ (js "schema", text "mycellios-economic-ledger-entry/1"); (js "settlementId", JStr settlement);
         (js "accountId", JStr account); (js "category", text (category_text c)); (js "amount", JNum a) ].
Definition owner_doc (kind : OwnerKind) (owner : jsstring) : json :=
  JObj [(js "kind", text (owner_text kind)); (js "id", JStr owner)].
Definition receipt_fields (b : ReceiptBody) : list (jsstring * json) :=
  [ (js "schema", text "mycellios-economic-settlement-receipt/1");
    (js "settlementId", JStr (rb_settlementId b)); (js "jobId", JStr (rb_jobId b));
    (js "executionReceiptId", JStr (rb_executionReceiptId b));
    (js "contributionEvidenceId", JStr (rb_contributionEvidenceId b));
    (js "pricingPolicyId", JStr (rb_pricingPolicyId b)) ]
  ++ match rb_executionRecovery b with Some r => [(js "executionRecovery", recovery_doc r)] | None => [] end
  ++ [ (js "asset", text "MYC_MICROCREDITS"); (js "payerAccountHash", JStr (rb_payerAccountHash b));
    (js "grossMicrounits", JNum (rb_gross b)); (js "providerMicrounits", JNum (rb_provider b));
    (js "platformMicrounits", JNum (rb_platform b));
    (js "contributorCredits", JArr (map (credit_doc "nodeIdHash") (rb_credits b)));
    (js "createdAt", JNum (rb_createdAt b)) ].

(** ** Operations *)

(** [safeBigIntToNumber]. *)
Definition safeBigIntToNumber (value : Z) (error : string) : res Z :=
  throw_if ((value <? 0) || (MAX_SAFE_INTEGER <? value)) with error ;; Ok value.

Fixpoint mapM_res {A B} (f : A -> res B) (l : list A) : res (list B) :=
  match l with
  | [] => Ok []
  | x :: l' => let? y := f x in let? ys := mapM_res f l' in Ok (y :: ys)
  end.

(** The loop of [distribute] that hands out the remainder. *)
Fixpoint give_remainder (remainder : Z) (credits : list Credit) : list Credit :=
  match credits with
  | [] => []
  | c :: cs =>
      if remainder =? 0 then credits
      else Credited (creditNode c) (amountMicrounits c + 1) :: give_remainder (remainder - 1) cs
  end.

Section Ledger.
Context (sha256_hex : bytes -> jsstring).              (* node:crypto *)
Context (localeCompare : jsstring -> jsstring -> Z).   (* the host's collation *)
Context (key_id : jsstring) (key_is_ed25519 : bool) (sign : bytes -> bytes).

Definition sha (j : json) : jsstring := digest sha256_hex j.

Definition by_node (l r : Contributor) : bool := localeCompare (nodeId l) (nodeId r) <=? 0.

Definition distribute (total : Z) (cs : list Contributor) : res (list Credit) :=
  let ordered := sort_by by_node cs in
  let totalWeight := zsum weight ordered in
  let? credits := mapM_res (fun c =>
    let? a := safeBigIntToNumber (Z.quot (total * weight c) totalWeight)
                "economic_settlement_amount_is_unsafe" in
    Ok (Credited (nodeId c) a)) ordered in
  Ok (give_remainder (total - zsum amountMicrounits credits) credits).

(** *** Pricing *)

Definition registerPricingPolicy (value : PricingPolicyInput) (d : db) : res (PricingPolicy * db) :=
  throw_if (negb (pricing_valid value)) with ZodError ;;
  let id := sha (policy_doc value) in
  match select_one (fun p => bool_decide (policy_id p = id)) (pricing_policies d) with
  | Some _ => Ok (Policy id value, d)
  | None =>
      throw_if (existsb (fun p => bool_decide (modelId (policy p) = modelId value)
                                  && bool_decide (routeClass (policy p) = routeClass value)
                                  && (version (policy p) =? version value)) (pricing_policies d))
        with "economic_pricing_version_conflict" ;;
      Ok (Policy id value, set_policies (pricing_policies d ++ [Policy id value]) d)
  end.

Definition readPricingPolicy (id : jsstring) (d : db) : res PricingPolicy :=
  throw_if (negb (is_sha256 id)) with ZodError ;;
  match select_one (fun p => bool_decide (policy_id p = id)) (pricing_policies d) with
  | None => Err "economic_pricing_policy_not_found"
  | Some p => Ok p
  end.

(** [ORDER BY CASE WHEN model_id = ? THEN 0 ELSE 1 END, version DESC]. *)
Definition policy_before (model : jsstring) (p q : PricingPolicy) : bool :=
  let rank x := if bool_decide (modelId (policy x) = model) then 0 else 1 in
  (rank p <? rank q) || ((rank p =? rank q) && (version (policy q) <=? version (policy p))).

Definition policy_applies (model : jsstring) (route : RouteClass) (at_ : Z) (p : PricingPolicy) : bool :=
  (bool_decide (modelId (policy p) = model) || bool_decide (modelId (policy p) = js "*"))
  && bool_decide (routeClass (policy p) = route) && (effectiveAt (policy p) <=? at_)
  && match retiredAt (policy p) with None => true | Some r => at_ <? r end.

Definition resolvePricingPolicy (model : jsstring) (route : RouteClass) (at_ : Z) (d : db)
  : res (option PricingPolicy) :=
  throw_if (negb (is_identifier model)) with ZodError ;;
  match sort_by (policy_before model)
          (List.filter (policy_applies model route at_) (pricing_policies d)) with
  | [] => Ok None
  | p :: _ => let? q := readPricingPolicy (policy_id p) d in Ok (Some q)
  end.

Definition default_pricing (route : RouteClass) : PricingPolicyInput :=
  PolicyInput (js "*") route 1 1 4 1500 0 None.

Definition registerDefaultInternalPricing (d : db) : res (list PricingPolicy * db) :=
  let? '(p, d) := registerPricingPolicy (default_pricing RemoteReplica) d in
  let? '(q, d) := registerPricingPolicy (default_pricing DistributedPipeline) d in
  Ok ([p; q], d).

(** *** Receipts *)

Definition receipt_text (b : ReceiptBody) (id key : jsstring) : bytes :=
  utf8_encode (evidence_text (JObj (receipt_fields b
    ++ [(js "receiptId", JStr id); (js "keyId", JStr key)]))).

Definition signEconomicSettlementReceipt (b : ReceiptBody) : res Receipt :=
  throw_if (negb (receipt_valid b)) with ZodError ;;
  throw_if (negb (is_identifier key_id)) with ZodError ;;
  throw_if (negb key_is_ed25519) with "economic_receipt_private_key_is_not_ed25519" ;;
  let id := sha (JObj (receipt_fields b)) in
  let sig := sign (receipt_text b id key_id) in
  throw_if (negb (is_sha256 id) || negb (byteLength sig =? 64)) with ZodError ;;
  Ok (SignedReceipt b id key_id sig).

(** [verify] is the pinned public key's verification; [pinned_is_valid] and
    [pinned_is_ed25519] say what [createPublicKey] made of the pinned key. *)
Definition verifyEconomicSettlementReceipt (pinned_key_id : jsstring)
    (pinned_is_valid pinned_is_ed25519 : bool) (verify : bytes -> bytes -> bool)
    (r : Receipt) : res Receipt :=
  throw_if (negb (receipt_valid (body r)) || negb (is_sha256 (receiptId r))
            || negb (is_identifier (keyId r)) || negb (byteLength (signature r) =? 64))
    with ZodError ;;
  throw_if (negb (bool_decide (sha (JObj (receipt_fields (body r))) = receiptId r)))
    with "economic_receipt_identity_mismatch" ;;
  throw_if (negb (bool_decide (keyId r = pinned_key_id))) with "economic_receipt_key_id_mismatch" ;;
  throw_if (negb pinned_is_valid) with "economic_receipt_public_key_is_invalid" ;;
  throw_if (negb pinned_is_ed25519) with "economic_receipt_public_key_is_not_ed25519" ;;
  throw_if (negb (verify (receipt_text (body r) (receiptId r) (keyId r)) (signature r)))
    with "economic_receipt_signature_verification_failed" ;;
  Ok r.

(** *** Rows *)

Definition account_id (kind : OwnerKind) (owner : jsstring) : jsstring := sha (account_doc kind owner).

Definition account_conflict (a b : AccountRow) : bool :=
  bool_decide (a_id a = a_id b)
  || (bool_decide (ownerKind a = ownerKind b) && bool_decide (ownerId a = ownerId b)).

Definition ensureAccount (kind : OwnerKind) (owner : jsstring) (d : db) : jsstring * db :=
  let id := account_id kind owner in
  (id, set_accounts (insert_or_ignore account_conflict (AccountOf id kind owner) (accounts d)) d).

Definition entry_conflict (a b : EntryRow) : bool :=
  bool_decide (e_id a = e_id b)
  || (bool_decide (e_settlement a = e_settlement b) && bool_decide (e_account a = e_account b)
      && bool_decide (category a = category b)).

Definition insertEntry (settlement account : jsstring) (c : Category) (a : Z) (d : db) : res db :=
  let row := Entry (sha (entry_doc settlement account c a)) settlement account c a in
  let check := negb (a =? 0)
    && existsb (fun s => bool_decide (s_id s = settlement)) (settlements d)
    && existsb (fun r => bool_decide (a_id r = account)) (accounts d) in
  let? t := insert_row entry_conflict check row (entries d) in
  Ok (set_entries t d).

Definition assertBalanced (settlement : jsstring) (d : db) : res unit :=
  throw_if (negb (zsum amount (List.filter (fun e => bool_decide (e_settlement e = settlement))
                                 (entries d)) =? 0))
    with "economic_ledger_is_unbalanced" ;; Ok tt.

(** The loop that credits the contributors. *)
Fixpoint insert_credits (settlement : jsstring) (credits : list Credit) (d : db) : res db :=
  match credits with
  | [] => Ok d
  | c :: cs =>
      if amountMicrounits c =? 0 then insert_credits settlement cs d
      else
        let '(account, d) := ensureAccount Node (creditNode c) d in
        let? d := insertEntry settlement account Work (amountMicrounits c) d in
        insert_credits settlement cs d
  end.

(** The upsert of one participant's reputation. *)
Definition bump_reputation (ev : Evidence) (credits : list Credit) (p : Participant) (d : db) : db :=
  let earned := match select_one (fun c => bool_decide (creditNode c = partNode p)) credits with
                | Some c => amountMicrounits c | None => 0 end in
  let row := match map_get (reputation d) (partNode p) with
    | None => Rep 1 (stageCount p) (physicalBoundaryCount ev) earned (ev_id ev)
    | Some r => Rep (verifiedJobs r + 1) (verifiedStageCount r + stageCount p)
                  (verifiedPhysicalBoundaries r + physicalBoundaryCount ev)
                  (earnedMicrounits r + earned) (ev_id ev)
    end in
  set_reputation (map_set (reputation d) (partNode p) row) d.

(** The entries of a settlement that credit work, with the owners of their
    accounts, in the byte order of the owners. *)
Definition work_credits (settlement : jsstring) (d : db) : list Credit :=
  sort_by (fun a b => negb (units_lt (utf8_encode (creditNode b)) (utf8_encode (creditNode a))))
    (omap (fun e =>
       if bool_decide (e_settlement e = settlement) && bool_decide (category e = Work) then
         match select_one (fun a => bool_decide (a_id a = e_account e)) (accounts d) with
         | Some a => Some (Credited (ownerId a) (amount e))
         | None => None
         end
       else None) (entries d)).

Definition readSettlement (id : jsstring) (d : db) : res EconomicSettlement :=
  match select_one (fun s => bool_decide (s_id s = id)) (settlements d) with
  | None => Err "economic_settlement_not_found"
  | Some row =>
      match map_get (receipts d) id with
      | None => Err "economic_settlement_receipt_not_found"
      | Some r => Ok (Settled row (work_credits id d) r)
      end
  end.

(** *** Settlement *)

Definition settlement_conflict (a b : SettlementRow) : bool :=
  bool_decide (s_id a = s_id b) || bool_decide (jobId (s_input a) = jobId (s_input b))
  || bool_decide (executionReceiptId (s_input a) = executionReceiptId (s_input b))
  || bool_decide (contributionEvidenceId (s_input a) = contributionEvidenceId (s_input b)).

Definition settlement_check (row : SettlementRow) (d : db) : bool :=
  existsb (fun e => bool_decide (e.1 = contributionEvidenceId (s_input row))) (evidence d)
  && existsb (fun p => bool_decide (policy_id p = pricingPolicyId (s_input row))) (pricing_policies d)
  && (0 <=? s_gross row) && (0 <=? s_provider row) && (0 <=? s_platform row)
  && (s_gross row =? s_provider row + s_platform row).

Definition receipt_conflict (a b : jsstring * Receipt) : bool :=
  bool_decide (a.1 = b.1) || bool_decide (receiptId a.2 = receiptId b.2).

(** The nodes of the evidence are the nodes to be credited. *)
Definition same_nodes (ev : Evidence) (i : SettlementInput) : bool :=
  let before a b := negb (units_lt (utf16 b) (utf16 a)) in
  bool_decide (sort_by before (map partNode (participants ev))
               = sort_by before (map nodeId (contributors i))).

(** The amounts of a settlement: gross, provider and platform. *)
Definition price (i : SettlementInput) (p : PricingPolicyInput) : res (Z * Z * Z) :=
  let? gross := safeBigIntToNumber
    (inputTokens i * inputMicrounitsPerToken p + outputTokens i * outputMicrounitsPerToken p)
    "economic_settlement_amount_is_unsafe" in
  throw_if (gross <=? 0) with "economic_settlement_amount_is_zero" ;;
  let? provider := safeBigIntToNumber (Z.quot (gross * (10000 - platformFeeBps p)) 10000)
    "economic_settlement_amount_is_unsafe" in
  Ok (gross, provider, gross - provider).

(** The checks of [settle] before anything is written. *)
Definition settle_guards (i : SettlementInput) (d : db) : res (PricingPolicy * Evidence) :=
  throw_if (existsb (fun s => bool_decide (executionReceiptId (s_input s) = executionReceiptId i))
              (settlements d)) with "economic_settlement_receipt_replay" ;;
  let? p := readPricingPolicy (pricingPolicyId i) d in
  match map_get (evidence d) (contributionEvidenceId i) with
  | None => Err "economic_contribution_evidence_not_found"
  | Some ev =>
      throw_if (negb (evidence_valid ev)) with ZodError ;;
      throw_if (negb (bool_decide (ev_jobId ev = jobId i))
                || negb (bool_decide (ev_executionReceiptId ev = executionReceiptId i)))
        with "economic_contribution_evidence_binding_is_invalid" ;;
      throw_if (negb (same_nodes ev i))
        with "economic_contributors_do_not_match_physical_evidence" ;;
      throw_if ((createdAt i <? effectiveAt (policy p))
                || match retiredAt (policy p) with None => false | Some r => r <=? createdAt i end)
        with "economic_pricing_policy_is_not_effective" ;;
      Ok (p, ev)
  end.

(** The rows of a settlement: its entries, balanced. *)
Definition post_entries (id : jsstring) (i : SettlementInput) (gross platform : Z)
    (credits : list Credit) (d : db) : res db :=
  let '(payer, d) := ensureAccount Account (payerAccountId i) d in
  let '(platformAccount, d) := ensureAccount Platform (js "mycellios") d in
  let? d := insertEntry id payer Usage (- gross) d in
  let? d := insert_credits id credits d in
  let? d := if 0 <? platform then insertEntry id platformAccount PlatformFee platform d else Ok d in
  let? _ := assertBalanced id d in
  Ok d.

Definition by_hash (a b : Credit) : bool := localeCompare (creditNode a) (creditNode b) <=? 0.

Definition receipt_body (id : jsstring) (i : SettlementInput) (p : PricingPolicy) (ev : Evidence)
    (gross provider platform : Z) (credits : list Credit) : ReceiptBody :=
  Body id (jobId i) (executionReceiptId i) (ev_id ev) (policy_id p) (Some (executionRecovery i))
    (sha (owner_doc Account (payerAccountId i))) gross provider platform
    (sort_by by_hash (map (fun c => Credited (sha (owner_doc Node (creditNode c)))
                                       (amountMicrounits c)) credits))
    (createdAt i).

(** The part of [settle] that writes a new settlement. *)
Definition settle_new (i : SettlementInput) (request : jsstring) (d : db) : res (EconomicSettlement * db) :=
  let? '(p, ev) := settle_guards i d in
  let? '(gross, provider, platform) := price i (policy p) in
  let? credits := distribute provider (contributors i) in
  let id := sha (settlement_doc request gross provider platform credits) in
  let row := SettlementOf id i gross provider platform request in
  let? t := insert_row settlement_conflict (settlement_check row d) row (settlements d) in
  let? d := post_entries id i gross platform credits (set_settlements t d) in
  throw_if (negb (existsb (fun e => bool_decide (e.1 = ev_id ev)) (evidence d)))
    with "SQLITE_CONSTRAINT" ;;
  let d := foldl (fun d q => bump_reputation ev credits q d) d (participants ev) in
  let? r := signEconomicSettlementReceipt (receipt_body id i p ev gross provider platform credits) in
  let? t := insert_row receipt_conflict true (id, r) (receipts d) in
  let d := set_receipts t d in
  let? s := readSettlement id d in
  Ok (s, d).

Definition settle (i : SettlementInput) (d : db) : res (EconomicSettlement * db) :=
  throw_if (negb (settlement_valid i)) with ZodError ;;
  let request := sha (request_doc i) in
  match select_one (fun s => bool_decide (jobId (s_input s) = jobId i)) (settlements d) with
  | Some replay =>
      throw_if (negb (bool_decide (requestDigest replay = request)))
        with "economic_settlement_job_conflict" ;;
      let? s := readSettlement (s_id replay) d in Ok (s, d)
  | None => settle_new i request d
  end.

(** *** Queries *)

(** The ids of the accounts of an owner. *)
Definition owner_entries (kind : OwnerKind) (owner : jsstring) (d : db) : list EntryRow :=
  a ← List.filter (fun a => bool_decide (ownerKind a = kind) && bool_decide (ownerId a = owner))
        (accounts d);
  List.filter (fun e => bool_decide (e_account e = a_id a)) (entries d).

Definition balance (kind : OwnerKind) (owner : jsstring) (d : db) : res Z :=
  throw_if (negb (is_identifier owner)) with ZodError ;;
  Ok (zsum amount (owner_entries kind owner d)).

Record AccountSummary := Summary {
  balanceMicrounits : Z; settledJobs : Z; lifetimeMicrounits : Z }.

Definition summary (kind : OwnerKind) (owner : jsstring) (d : db) : res AccountSummary :=
  throw_if (negb (is_identifier owner)) with ZodError ;;
  let es := owner_entries kind owner d in
  Ok (Summary (zsum amount es)
        (Z.of_nat (length (remove_dups (map e_settlement es))))
        (zsum (fun e => if 0 <? amount e then amount e else 0) es)).

Definition settlementReceiptForPayer (settlement payer : jsstring) (d : db) : res (option Receipt) :=
  throw_if (negb (is_sha256 settlement) || negb (is_identifier payer)) with ZodError ;;
  match select_one (fun s => bool_decide (s_id s = settlement)
                             && bool_decide (payerAccountId (s_input s) = payer)) (settlements d) with
  | None => Ok None
  | Some s => Ok (map_get (receipts d) (s_id s))
  end.

Definition nodeReputation (node : jsstring) (d : db) : res (option Reputation) :=
  throw_if (negb (is_identifier node)) with ZodError ;;
  Ok (map_get (reputation d) node).

(** ** Histories *)

(** What happens to the database: the operations above, and evidence stored by
    the certifying authority. *)
Inductive ledger_op :=
| OpPricing (p : PricingPolicyInput)
| OpEvidence (id : jsstring) (e : Evidence)
| OpSettle (i : SettlementInput).

Definition ledger_step (o : ledger_op) (d : db) : db :=
  match o with
  | OpPricing p => match registerPricingPolicy p d with Ok (_, d') => d' | Err _ => d end
  | OpEvidence id e => if map_has (evidence d) id then d else set_evidence (evidence d ++ [(id, e)]) d
  | OpSettle i => match settle i d with Ok (_, d') => d' | Err _ => d end
  end.

Definition ledger_run (os : list ledger_op) (d : db) : db := foldl (fun d o => ledger_step o d) d os.
End Ledger.

#[global] Arguments sha : simpl never.
#[global] Arguments account_id : simpl never.
#[global] Arguments receipt_text : simpl never.
