(* ===== verification/LedgerProps.v ===== *)
(** * Properties of the economic ledger

    Exact distribution, double-entry conservation over every history,
    exactly-once settlement, the movement of balances, and the integrity of
    receipts. *)

From S2P Require Import Prelude JsString JsMap JsSort JsonText CanonicalJson Schema Sql Ledger.

#[local] Open Scope Z_scope.

(** Membership in a list of literals. *)
Ltac listed := apply list_elem_of_In; repeat (first [left; reflexivity | right]).

(** ** Distribution *)

Definition share (total W : Z) (c : Contributor) : Z := total * weight c / W.

Lemma mapM_res_ok {A B} (f : A -> res B) (g : A -> B) l :
  Forall (fun x => f x = Ok (g x)) l -> mapM_res f l = Ok (map g l).
Proof. induction 1 as [|x l Hx _ IH]; simpl; [done|]. by rewrite Hx, IH. Qed.

Lemma zsum_weight_pos cs : Forall (fun c => 1 <= weight c) cs -> Z.of_nat (length cs) <= zsum weight cs.
Proof. induction 1; simpl; lia. Qed.

Lemma shares_sum total W cs :
  0 <= total -> 0 < W ->
  W * zsum (share total W) cs <= total * zsum weight cs
  /\ total * zsum weight cs <= W * (zsum (share total W) cs) + (W - 1) * Z.of_nat (length cs).
Proof.
  intros Ht HW. induction cs as [|c cs [IH1 IH2]]; simpl zsum; simpl length; [lia|].
  unfold share at 1 3.
  pose proof (Z.div_mod (total * weight c) W ltac:(lia)).
  pose proof (Z.mod_pos_bound (total * weight c) W HW). lia.
Qed.

Lemma give_remainder_spec r credits :
  0 <= r <= Z.of_nat (length credits) ->
  zsum amountMicrounits (give_remainder r credits) = zsum amountMicrounits credits + r
  /\ map creditNode (give_remainder r credits) = map creditNode credits
  /\ Forall2 (fun c k => amountMicrounits c <= amountMicrounits k <= amountMicrounits c + 1)
       credits (give_remainder r credits).
Proof.
  revert r; induction credits as [|c cs IH]; intros r Hr; simpl in *.
  { split_and!; [lia|done|constructor]. }
  destruct (Z.eqb_spec r 0) as [->|Hne].
  - simpl. split_and!; [lia|done|]. constructor; [lia|].
    clear. induction cs as [|k cs IH]; [constructor|]. constructor; [lia|done].
  - destruct (IH (r - 1)) as (Hs & Hm & Hf); [lia|]. simpl. rewrite Hs, Hm.
    split_and!; [lia|done|]. constructor; [simpl; lia|done].
Qed.

Lemma shares_within total W l credits :
  let base := map (fun c => Credited (nodeId c) (share total W c)) l in
  map creditNode credits = map creditNode base ->
  Forall2 (fun c k => amountMicrounits c <= amountMicrounits k <= amountMicrounits c + 1) base credits ->
  Forall2 (fun c k => creditNode k = nodeId c
    /\ share total W c <= amountMicrounits k <= share total W c + 1) l credits.
Proof.
  simpl. revert credits; induction l as [|c l IH]; intros credits Hm Hf; simpl in Hf;
    inversion Hf; subst; [constructor|].
  simpl in Hm. injection Hm as Hn Hm. constructor; [split; [done|assumption]|]. by apply IH.
Qed.

Section Distribution.
Context (localeCompare : jsstring -> jsstring -> Z).

Lemma distribute_credits total cs :
  0 <= total <= MAX_SAFE_INTEGER -> Forall (fun c => 1 <= weight c) cs -> cs <> [] ->
  let ordered := sort_by (by_node localeCompare) cs in
  let W := zsum weight cs in
  let credits := map (fun c => Credited (nodeId c) (share total W c)) ordered in
  distribute localeCompare total cs
    = Ok (give_remainder (total - zsum amountMicrounits credits) credits)
  /\ 0 <= total - zsum amountMicrounits credits < Z.of_nat (length credits).
Proof.
  intros Ht Hw Hne ordered W credits.
  assert (HW : Z.of_nat (length cs) <= W) by (by apply zsum_weight_pos).
  assert (Hlen : (0 < length cs)%nat) by (destruct cs; simpl; [done|lia]).
  assert (Hord : Forall (fun c => 1 <= weight c) ordered) by (unfold ordered; by rewrite sort_by_perm).
  assert (HWo : zsum weight ordered = W) by apply zsum_sort_by.
  assert (Hwle : forall c, c ∈ ordered -> weight c <= W).
  { intros c Hc. rewrite <- HWo. clear -Hc Hord.
    induction Hc as [c l|c c' l _ IH]; apply Forall_cons in Hord as [H1 H2]; simpl.
    - pose proof (zsum_weight_pos l H2). lia.
    - specialize (IH H2). lia. }
  split.
  - unfold distribute. fold ordered. rewrite HWo.
    rewrite (mapM_res_ok _ (fun c => Credited (nodeId c) (share total W c))); [done|].
    apply Forall_forall. intros c Hc. rewrite Forall_forall in Hord.
    specialize (Hord c Hc). specialize (Hwle c Hc).
    rewrite Z.quot_div_nonneg by nia. fold (share total W c).
    assert (Hsh : 0 <= share total W c <= total).
    { unfold share. split; [apply Z.div_pos; nia|].
      apply Z.div_le_upper_bound; [lia|]. nia. }
    unfold safeBigIntToNumber.
    rewrite (proj2 (Z.ltb_ge _ _)), (proj2 (Z.ltb_ge _ _)) by lia. done.
  - assert (Hsum : zsum amountMicrounits credits = zsum (share total W) ordered).
    { unfold credits. clear. induction ordered; simpl; lia. }
    assert (Hlc : length credits = length cs).
    { unfold credits. rewrite length_map. unfold ordered. by rewrite (sort_by_perm (by_node _) cs). }
    destruct (shares_sum total W ordered) as [H1 H2]; [lia|lia|].
    rewrite HWo in H1, H2. rewrite Hsum, Hlc.
    assert (Hlo : length ordered = length cs) by (unfold ordered; by rewrite sort_by_perm).
    rewrite Hlo in H2. split; nia.
Qed.
End Distribution.

(** ** Posting *)

(** The tables other than the accounts and the entries are as they were. *)
Definition same_rest (d d' : db) : Prop :=
  pricing_policies d' = pricing_policies d /\ settlements d' = settlements d
  /\ receipts d' = receipts d /\ evidence d' = evidence d /\ reputation d' = reputation d.

#[global] Instance same_rest_preorder : PreOrder same_rest.
Proof.
  split; [by intros d|]. intros a b c (? & ? & ? & ? & ?) (? & ? & ? & ? & ?).
  split_and!; congruence.
Qed.

Definition entry_key (e : EntryRow) : jsstring * Category * Z := (e_account e, category e, amount e).

(** The entries of settlement [id], with their amounts added up. *)
Definition of_settlement (id : jsstring) (es : list EntryRow) : list EntryRow :=
  List.filter (fun e => bool_decide (e_settlement e = id)) es.
Definition total_of (id : jsstring) (c : Category) (es : list EntryRow) : Z :=
  zsum amount (List.filter (fun e => bool_decide (category e = c)) (of_settlement id es)).

Lemma filter_all {A} (p : A -> bool) l : Forall (fun x => p x = true) l -> List.filter p l = l.
Proof. induction 1 as [|x l Hx _ IH]; simpl; [done|]. by rewrite Hx, IH. Qed.

Lemma filter_none {A} (p : A -> bool) l : Forall (fun x => p x = false) l -> List.filter p l = [].
Proof. induction 1 as [|x l Hx _ IH]; simpl; [done|]. by rewrite Hx, IH. Qed.

Section Posting.
Context (sha256_hex : bytes -> jsstring).
Abbreviation aid := (account_id sha256_hex).

Definition account_ok (a : AccountRow) : Prop := a_id a = aid (ownerKind a) (ownerId a).

(** Every account has the id of its owner, no owner has two, and every entry
    belongs to an account. *)
Definition books (d : db) : Prop :=
  Forall account_ok (accounts d)
  /\ NoDup (map (fun a => (ownerKind a, ownerId a)) (accounts d))
  /\ Forall (fun e => e_account e ∈ map a_id (accounts d)) (entries d).

(** The rows a settlement writes: account, category and amount. *)
Definition posted_credits (credits : list Credit) : list (jsstring * Category * Z) :=
  omap (fun c => if amountMicrounits c =? 0 then None
                 else Some (aid Node (creditNode c), Work, amountMicrounits c)) credits.
Definition posted (i : SettlementInput) (gross platform : Z) (credits : list Credit) :=
  (aid Account (payerAccountId i), Usage, - gross) :: posted_credits credits
  ++ (if 0 <? platform then [(aid Platform (js "mycellios"), PlatformFee, platform)] else []).

(** Accounts are only added, and the books stay in order. *)
Definition grows (d d' : db) : Prop :=
  (forall a, a ∈ accounts d -> a ∈ accounts d') /\ (books d -> books d').

(** [d'] is [d] with the rows [keys] of settlement [id] posted. *)
Definition posts (id : jsstring) (keys : list (jsstring * Category * Z)) (d d' : db) : Prop :=
  same_rest d d' /\ grows d d'
  /\ (exists es, entries d' = entries d ++ es /\ map entry_key es = keys
      /\ Forall (fun e => e_settlement e = id /\ amount e <> 0) es).

Lemma posts_refl id d : posts id [] d d.
Proof. split; [done|]. split; [done|]. exists []. rewrite app_nil_r. by repeat split. Qed.

Lemma posts_trans id k1 k2 d1 d2 d3 :
  posts id k1 d1 d2 -> posts id k2 d2 d3 -> posts id (k1 ++ k2) d1 d3.
Proof.
  intros (Hr1 & Hb1 & es1 & E1 & M1 & F1) (Hr2 & Hb2 & es2 & E2 & M2 & F2).
  split; [by etrans|]. split; [by destruct Hb1, Hb2; split; auto|]. exists (es1 ++ es2).
  rewrite E2, E1, map_app, M1, M2, app_assoc. split_and!; [done..|]. by apply Forall_app.
Qed.

Lemma posts_ensureAccount id kind owner d :
  posts id [] d (ensureAccount sha256_hex kind owner d).2.
Proof.
  unfold ensureAccount. simpl. split; [done|]. split; [|exists []; simpl; rewrite app_nil_r; by repeat split].
  unfold grows, insert_or_ignore. simpl.
  destruct (existsb _ (accounts d)) eqn:E; [done|]. split; [set_solver|]. intros (Ha & Hn & He).
  apply existsb_false in E. split_and!; simpl.
  - apply Forall_app. split; [done|]. by repeat constructor.
  - rewrite map_app. apply NoDup_app. split_and!; [done| |apply NoDup_singleton].
    intros o Ho Ho'. apply list_elem_of_singleton in Ho'. simpl in Ho'. subst o.
    apply list_elem_of_fmap in Ho as (a & Ea & Ha'). injection Ea as E1 E2.
    rewrite Forall_forall in E. specialize (E a Ha'). unfold account_conflict in E. simpl in E.
    apply orb_false_iff in E as [_ E]. by rewrite !bool_decide_eq_true_2 in E by done.
  - eapply Forall_impl; [exact He|]. simpl. intros e Hin. rewrite map_app. set_solver.
Qed.

Lemma insertEntry_inv id account c a d d' :
  insertEntry sha256_hex id account c a d = Ok d' -> posts id [(account, c, a)] d d'.
Proof.
  unfold insertEntry. intros H.
  destruct (insert_row _ _ _ _) as [t|] eqn:E; [|discriminate]. injection H as <-.
  apply insert_row_inv in E as (-> & _ & Hc). bool_prop.
  split; [done|]. split; [split; [done|]|].
  - intros (Ha & Hn & He). split_and!; simpl; [done..|]. apply Forall_app. split; [done|].
    constructor; [|constructor]. simpl.
    match goal with H : existsb _ (accounts d) = true |- _ =>
      apply existsb_exists in H as (r & Hr & E); bool_prop; subst account end.
    apply list_elem_of_fmap. exists r. split; [done|]. by apply list_elem_of_In.
  - eexists. split; [done|]. split; [done|]. constructor; [|constructor]. simpl. done.
Qed.

Lemma insertEntry_err id account c a d e :
  insertEntry sha256_hex id account c a d = Err e -> e = SQLITE_CONSTRAINT.
Proof.
  unfold insertEntry. intros H. destruct (insert_row _ _ _ _) as [t|e'] eqn:E; [discriminate|].
  apply insert_row_err in E. congruence.
Qed.

Lemma insert_credits_inv id credits d d' :
  insert_credits sha256_hex id credits d = Ok d' -> posts id (posted_credits credits) d d'.
Proof.
  revert d; induction credits as [|c cs IH]; intros d H; simpl in H.
  { injection H as <-. apply posts_refl. }
  unfold posted_credits. csimpl. destruct (amountMicrounits c =? 0); [by apply IH|].
  destruct (insertEntry _ _ _ _ _ _) as [d1|] eqn:E; [|discriminate].
  apply insertEntry_inv in E. apply IH in H.
  eapply (posts_trans _ [] (_ :: _)); [apply posts_ensureAccount|].
  by eapply (posts_trans _ [_]); [exact E|].
Qed.

Lemma insert_credits_err id credits d e :
  insert_credits sha256_hex id credits d = Err e -> e = SQLITE_CONSTRAINT.
Proof.
  revert d; induction credits as [|c cs IH]; intros d H; simpl in H; [discriminate|].
  destruct (amountMicrounits c =? 0); [by eapply IH|].
  destruct (insertEntry _ _ _ _ _ _) as [d1|] eqn:E; [by eapply IH|].
  apply insertEntry_err in E. congruence.
Qed.

Lemma zsum_posted_credits credits :
  zsum (fun k => k.2) (posted_credits credits) = zsum amountMicrounits credits.
Proof.
  induction credits as [|c cs IH]; [done|]. unfold posted_credits. csimpl.
  destruct (Z.eqb_spec (amountMicrounits c) 0) as [E|]; simpl; rewrite <- IH; [|done].
  rewrite E. done.
Qed.

Lemma post_entries_steps id i gross platform credits d :
  match post_entries sha256_hex id i gross platform credits d with
  | Ok d' => posts id (posted i gross platform credits) d d'
  | Err e => e = SQLITE_CONSTRAINT \/ exists d', posts id (posted i gross platform credits) d d'
             /\ assertBalanced id d' = Err e
  end.
Proof.
  unfold post_entries, posted.
  destruct (ensureAccount _ Account _ d) as [payer d1] eqn:E1.
  destruct (ensureAccount _ Platform _ d1) as [plat d2] eqn:E2.
  assert (H1 := posts_ensureAccount id Account (payerAccountId i) d).
  rewrite E1 in H1. assert (payer = aid Account (payerAccountId i)) as -> by (injection E1; congruence).
  assert (H2 := posts_ensureAccount id Platform (js "mycellios") d1).
  rewrite E2 in H2. assert (plat = aid Platform (js "mycellios")) as -> by (injection E2; congruence).
  simpl in H1, H2. assert (H12 := posts_trans _ [] [] _ _ _ H1 H2). clear H1 H2 E1 E2.
  destruct (insertEntry _ _ _ Usage _ _) as [d3|] eqn:E3; [|left; by eapply insertEntry_err].
  apply insertEntry_inv in E3. assert (H3 := posts_trans _ _ _ _ _ _ H12 E3). clear H12 E3.
  destruct (insert_credits _ _ _ _) as [d4|] eqn:E4; [|left; by eapply insert_credits_err].
  apply insert_credits_inv in E4. assert (H4 := posts_trans _ _ _ _ _ _ H3 E4). clear H3 E4.
  assert (H5 : match (if 0 <? platform then insertEntry sha256_hex id (aid Platform (js "mycellios"))
      PlatformFee platform d4 else Ok d4) with
    | Ok d5 => posts id (posted i gross platform credits) d d5
    | Err e => e = SQLITE_CONSTRAINT end).
  { unfold posted. destruct (0 <? platform).
    - destruct (insertEntry _ _ _ PlatformFee _ _) as [d5|] eqn:E5; [|by eapply insertEntry_err].
      apply insertEntry_inv in E5. exact (posts_trans _ _ _ _ _ _ H4 E5).
    - rewrite app_nil_r. exact H4. }
  destruct (if 0 <? platform then _ else _) as [d5|e5]; [|by left].
  destruct (assertBalanced id d5) eqn:E6; [exact H5|]. right. by exists d5.
Qed.

(** A balanced posting of a new settlement balances. *)
Lemma posts_total id i gross platform credits d d' :
  posts id (posted i gross platform credits) d d' ->
  Forall (fun e => e_settlement e <> id) (entries d) ->
  gross = zsum amountMicrounits credits + platform -> 0 <= platform ->
  assertBalanced id d' = Ok tt
  /\ total_of id Usage (entries d') = - gross
  /\ total_of id Work (entries d') = zsum amountMicrounits credits
  /\ total_of id PlatformFee (entries d') = platform
  /\ zsum amount (entries d') = zsum amount (entries d).
Proof.
  intros (_ & _ & es & E & M & F) Hfresh Hg Hp.
  assert (Hof : of_settlement id (entries d') = es).
  { unfold of_settlement. rewrite E, List.filter_app, (filter_none _ (entries d)), filter_all.
    - done.
    - eapply Forall_impl; [exact F|]. simpl. intros e [-> _]. by apply bool_decide_eq_true_2.
    - eapply Forall_impl; [exact Hfresh|]. simpl. intros e He. by apply bool_decide_eq_false_2. }
  assert (Hsum : forall c, zsum amount (List.filter (fun e => bool_decide (category e = c)) es)
    = zsum (fun k => k.2) (List.filter (fun k => bool_decide (k.1.2 = c)) (posted i gross platform credits))).
  { intros c. rewrite <- M. clear. induction es as [|e es IH]; [done|]. simpl.
    destruct (bool_decide (category e = c)); simpl; lia. }
  assert (Hall : zsum amount es = zsum (fun k => k.2) (posted i gross platform credits)).
  { rewrite <- M. clear. induction es; simpl; lia. }
  assert (Hw : Forall (fun k => k.1.2 = Work) (posted_credits credits)).
  { unfold posted_credits. clear. induction credits as [|c cs IH]; csimpl; [constructor|].
    destruct (amountMicrounits c =? 0); [done|]. by constructor. }
  assert (Hfil : forall c, c <> Work ->
    List.filter (fun k => bool_decide (k.1.2 = c)) (posted_credits credits) = []).
  { intros c Hc. apply filter_none. eapply Forall_impl; [exact Hw|]. simpl. intros k ->.
    by apply bool_decide_eq_false_2. }
  assert (Hfw : List.filter (fun k => bool_decide (k.1.2 = Work)) (posted_credits credits)
    = posted_credits credits).
  { apply filter_all. eapply Forall_impl; [exact Hw|]. simpl. intros k ->. done. }
  assert (Hplat : zsum (fun k => k.2) (if 0 <? platform
    then [(aid Platform (js "mycellios"), PlatformFee, platform)] else []) = platform).
  { destruct (Z.ltb_spec 0 platform); simpl; lia. }
  assert (Hzero : zsum amount es = 0).
  { rewrite Hall. unfold posted. simpl. rewrite zsum_app, zsum_posted_credits, Hplat. lia. }
  split_and!.
  - unfold assertBalanced. fold (of_settlement id (entries d')). rewrite Hof, Hzero. done.
  - unfold total_of. rewrite Hof, Hsum. unfold posted. simpl.
    rewrite List.filter_app, Hfil by done. destruct (0 <? platform); simpl; lia.
  - unfold total_of. rewrite Hof, Hsum. unfold posted. simpl.
    rewrite List.filter_app, Hfw, zsum_app, zsum_posted_credits. destruct (0 <? platform); simpl; lia.
  - unfold total_of. rewrite Hof, Hsum. unfold posted. simpl.
    rewrite List.filter_app, Hfil by done. simpl. destruct (Z.ltb_spec 0 platform); simpl; lia.
  - rewrite E, zsum_app, Hzero. lia.
Qed.
End Posting.

(** ** Reputation *)

Definition earned_by (credits : list Credit) (node : jsstring) : Z :=
  match select_one (fun c => bool_decide (creditNode c = node)) credits with
  | Some c => amountMicrounits c
  | None => 0
  end.

Lemma zsum_values_set {V} (f : V -> Z) (m : list (jsstring * V)) k v :
  zsum f (map_values (map_set m k v))
  = zsum f (map_values m) - match map_get m k with Some o => f o | None => 0 end + f v.
Proof.
  unfold map_values. induction m as [|[k' v'] m IH]; simpl; [lia|].
  case_decide; simpl; [lia|]. unfold fmap in IH. rewrite IH. lia.
Qed.

Lemma bump_fold ev credits ps d :
  let d' := foldl (fun d q => bump_reputation ev credits q d) d ps in
  zsum earnedMicrounits (map_values (reputation d'))
    = zsum earnedMicrounits (map_values (reputation d)) + zsum (fun p => earned_by credits (partNode p)) ps
  /\ pricing_policies d' = pricing_policies d /\ settlements d' = settlements d
  /\ accounts d' = accounts d /\ entries d' = entries d
  /\ receipts d' = receipts d /\ evidence d' = evidence d.
Proof.
  revert d; induction ps as [|p ps IH]; intros d; simpl.
  { split_and!; [lia|done..]. }
  destruct (IH (bump_reputation ev credits p d)) as (Hs & ? & ? & ? & ? & ? & ?).
  split_and!; [|done..]. rewrite Hs. unfold bump_reputation at 1. simpl.
  rewrite zsum_values_set. unfold earned_by at 2.
  destruct (map_get (reputation d) (partNode p)); simpl; lia.
Qed.

Lemma earned_by_total credits ns :
  NoDup (map creditNode credits) -> ns ≡ₚ map creditNode credits ->
  zsum (earned_by credits) ns = zsum amountMicrounits credits.
Proof.
  intros Hn Hp. rewrite (zsum_perm _ _ _ Hp). clear ns Hp.
  assert (H : forall pre, NoDup (map creditNode (pre ++ credits)) ->
    zsum (earned_by (pre ++ credits)) (map creditNode credits) = zsum amountMicrounits credits).
  { clear Hn. induction credits as [|c cs IH]; intros pre Hn; [done|]. simpl.
    rewrite (cons_middle c pre cs), app_assoc in *. rewrite IH by done. f_equal.
    unfold earned_by. rewrite <- app_assoc. rewrite select_one_app.
    rewrite (proj2 (select_one_None _ pre)).
    - simpl. by rewrite bool_decide_eq_true_2.
    - apply Forall_forall. intros x Hx. apply bool_decide_eq_false_2. intros E.
      rewrite <- app_assoc, map_app in Hn. apply NoDup_app in Hn as (_ & Hn & _).
      apply (Hn (creditNode x)); [apply list_elem_of_fmap; by exists x|].
      simpl. rewrite E. left. }
  by apply (H []).
Qed.

(** ** The invariant *)

Definition settled_ok (d : db) (s : SettlementRow) : Prop :=
  s_gross s = s_provider s + s_platform s /\ 0 < s_gross s
  /\ 0 <= s_provider s /\ 0 <= s_platform s
  /\ total_of (s_id s) Usage (entries d) = - s_gross s
  /\ total_of (s_id s) Work (entries d) = s_provider s
  /\ total_of (s_id s) PlatformFee (entries d) = s_platform s.

(** The receipt of a settlement states its amounts. *)
Definition receipted (d : db) (s : SettlementRow) : Prop :=
  exists r, map_get (receipts d) (s_id s) = Some r
  /\ rb_gross (body r) = s_gross s /\ rb_provider (body r) = s_provider s
  /\ rb_platform (body r) = s_platform s
  /\ zsum amountMicrounits (rb_credits (body r)) = s_provider s.

Section Invariant.
Context (sha256_hex : bytes -> jsstring).

Record ledger_ok (d : db) : Prop := {
  lo_settled : Forall (settled_ok d) (settlements d);
  lo_receipted : Forall (receipted d) (settlements d);
  lo_ids : NoDup (map s_id (settlements d));
  lo_jobs : NoDup (map (fun s => jobId (s_input s)) (settlements d));
  lo_executions : NoDup (map (fun s => executionReceiptId (s_input s)) (settlements d));
  lo_owned : Forall (fun e => e_settlement e ∈ map s_id (settlements d)) (entries d);
  lo_zero : zsum amount (entries d) = 0;
  lo_earned : zsum earnedMicrounits (map_values (reputation d)) = zsum s_provider (settlements d);
  lo_books : books sha256_hex d;
}.

Lemma ledger_ok_empty : ledger_ok empty_db.
Proof. split; try constructor; try constructor; constructor. Qed.

(** Tables the invariant does not mention may change. *)
Lemma ledger_ok_same d d' :
  settlements d' = settlements d -> accounts d' = accounts d -> entries d' = entries d ->
  receipts d' = receipts d -> reputation d' = reputation d -> ledger_ok d -> ledger_ok d'.
Proof.
  intros Hs Ha He Hr Hp [H1 H2 H3 H4 H5 H6 H7 H8 H9].
  unfold settled_ok, receipted, books in *.
  split; unfold settled_ok, receipted, books; rewrite ?Hs, ?Ha, ?He, ?Hr, ?Hp; done.
Qed.

Lemma total_of_other id c es es' :
  Forall (fun e => e_settlement e <> id) es' -> total_of id c (es ++ es') = total_of id c es.
Proof.
  intros H. unfold total_of, of_settlement. rewrite List.filter_app, (filter_none _ es'), app_nil_r; [done|].
  eapply Forall_impl; [exact H|]. simpl. intros e He. by apply bool_decide_eq_false_2.
Qed.

(** The receipt just inserted is the one found. *)
Lemma map_get_snoc_new (l : list (jsstring * Receipt)) id r :
  existsb (receipt_conflict (id, r)) l = false -> map_get (l ++ [(id, r)]) id = Some r.
Proof.
  intros H. apply existsb_false in H. induction H as [|[k v] l Hk _ IH]; simpl; [by rewrite decide_True|].
  unfold receipt_conflict in Hk. simpl in Hk. bool_prop. by rewrite decide_False.
Qed.

Lemma NoDup_snoc {A} (l : list A) x : NoDup l -> x ∉ l -> NoDup (l ++ [x]).
Proof.
  intros Hl Hx. apply NoDup_app. split_and!; [done| |apply NoDup_singleton].
  intros y Hy Hy'. apply list_elem_of_singleton in Hy' as ->. done.
Qed.

(** A new settlement with its posting, reputation and receipt. *)
Lemma ledger_ok_settled d d1 d' i row credits r ps ev :
  ledger_ok d ->
  existsb (settlement_conflict row) (settlements d) = false ->
  s_input row = i -> s_gross row = s_provider row + s_platform row -> 0 < s_gross row ->
  0 <= s_provider row -> 0 <= s_platform row ->
  zsum amountMicrounits credits = s_provider row ->
  posts sha256_hex (s_id row) (posted sha256_hex i (s_gross row) (s_platform row) credits)
    (set_settlements (settlements d ++ [row]) d) d1 ->
  zsum (fun p => earned_by credits (partNode p)) ps = s_provider row ->
  existsb (receipt_conflict (s_id row, r)) (receipts d) = false ->
  rb_gross (body r) = s_gross row -> rb_provider (body r) = s_provider row ->
  rb_platform (body r) = s_platform row ->
  zsum amountMicrounits (rb_credits (body r)) = s_provider row ->
  d' = set_receipts (receipts d ++ [(s_id row, r)])
         (foldl (fun d q => bump_reputation ev credits q d) d1 ps) ->
  ledger_ok d'.
Proof.
  intros [H1 H2 H3 H4 H5 H6 H7 H8 H9] Hconf Hi Hg Hpos Hp0 Hpl Hcr Hpost Hearn Hrc Hb1 Hb2 Hb3 Hb4 ->.
  apply existsb_false in Hconf.
  assert (Hne : forall s, s ∈ settlements d -> s_id s <> s_id row
    /\ jobId (s_input s) <> jobId i /\ executionReceiptId (s_input s) <> executionReceiptId i).
  { intros s Hs. rewrite Forall_forall in Hconf. specialize (Hconf s Hs).
    unfold settlement_conflict in Hconf. bool_prop. subst i. split_and!; congruence. }
  assert (Hfresh : Forall (fun e => e_settlement e <> s_id row) (entries d)).
  { eapply Forall_impl; [exact H6|]. simpl. intros e He Heq.
    apply list_elem_of_fmap in He as (s & E & Hs). destruct (Hne s Hs) as [? _]. congruence. }
  destruct (posts_total sha256_hex _ _ _ _ _ _ _ Hpost Hfresh ltac:(lia) Hpl)
    as (_ & T1 & T2 & T3 & T4).
  destruct Hpost as ((E1 & E2 & E3 & E4 & E5) & Hbooks & es & Ees & _ & Fes). simpl in *.
  destruct (bump_fold ev credits ps d1) as (B1 & B2 & B3 & B4 & B5 & B6 & B7).
  set (d2 := foldl _ d1 ps) in *.
  assert (Hset : settlements d2 = settlements d ++ [row]) by congruence.
  assert (Hent : entries d2 = entries d ++ es) by congruence.
  assert (Hother : forall s, s ∈ settlements d -> Forall (fun e => e_settlement e <> s_id s) es).
  { intros s Hs. eapply Forall_impl; [exact Fes|]. simpl. intros e [-> _].
    destruct (Hne s Hs) as [? _]. congruence. }
  split; simpl; rewrite ?Hset, ?Hent.
  - apply Forall_app. split; [|constructor; [|constructor]].
    + apply Forall_forall. intros s Hs. rewrite Forall_forall in H1.
      unfold settled_ok. simpl. rewrite Hent, !total_of_other by auto. by apply H1.
    + unfold settled_ok. simpl. rewrite <- B5 in *. split_and!; done || congruence.
  - apply Forall_app. split; [|constructor; [|constructor]].
    + apply Forall_forall. intros s Hs. rewrite Forall_forall in H2.
      destruct (H2 s Hs) as (r' & Hr' & ?). exists r'. simpl. split; [|done].
      clear -Hr'. induction (receipts d) as [|[k v] l IH]; simpl in *; [done|]. by case_decide; auto.
    + exists r. simpl. split; [|done]. by apply map_get_snoc_new.
  - rewrite map_app. apply NoDup_snoc; [done|]. intros (s & E & Hs)%list_elem_of_fmap.
    by destruct (Hne s Hs) as [? _].
  - rewrite map_app. apply NoDup_snoc; [done|]. intros (s & E & Hs)%list_elem_of_fmap.
    destruct (Hne s Hs) as (_ & ? & _). congruence.
  - rewrite map_app. apply NoDup_snoc; [done|]. intros (s & E & Hs)%list_elem_of_fmap.
    destruct (Hne s Hs) as (_ & _ & ?). congruence.
  - rewrite map_app. apply Forall_app. split.
    + eapply Forall_impl; [exact H6|]. simpl. intros e He. set_solver.
    + eapply Forall_impl; [exact Fes|]. simpl. intros e [-> _]. set_solver.
  - rewrite Ees in T4. simpl in T4. rewrite T4. done.
  - rewrite B1, E5, Hearn, zsum_app, H8. simpl. lia.
  - assert (Hb : books sha256_hex d1) by (apply (proj2 Hbooks); exact H9).
    unfold books in *. simpl. by rewrite B4, B5.
Qed.
End Invariant.

(** ** Settlement *)

Lemma safeBigInt_inv v e z :
  safeBigIntToNumber v e = Ok z -> z = v /\ 0 <= z <= MAX_SAFE_INTEGER.
Proof. unfold safeBigIntToNumber. destruct (_ || _) eqn:E; [done|]. intros [= <-]. bool_prop. done. Qed.

Lemma price_inv i p g pr pl :
  price i p = Ok (g, pr, pl) ->
  0 < g <= MAX_SAFE_INTEGER /\ 0 <= pr <= MAX_SAFE_INTEGER /\ g = pr + pl
  /\ g = inputTokens i * inputMicrounitsPerToken p + outputTokens i * outputMicrounitsPerToken p
  /\ pr = Z.quot (g * (10000 - platformFeeBps p)) 10000.
Proof.
  unfold price. intros H. inv_step H.
  repeat match goal with E : safeBigIntToNumber _ _ = Ok _ |- _ =>
    apply safeBigInt_inv in E as [? ?] end. bool_prop. split_and!; lia.
Qed.

Lemma contributors_valid i :
  settlement_valid i = true ->
  Forall (fun c => 1 <= weight c) (contributors i) /\ contributors i <> []
  /\ NoDup (map nodeId (contributors i)).
Proof.
  intros Hv. unfold settlement_valid in Hv. bool_prop. split_and!; [| |done].
  - apply Forall_forall. intros c Hc. apply list_elem_of_In in Hc.
    match goal with H : forallb _ (contributors i) = true |- _ =>
      rewrite forallb_forall in H; specialize (H c Hc) end.
    bool_prop. unfold safe_positive in *. bool_prop. lia.
  - intros E. match goal with H : 1 <= Z.of_nat (length (contributors i)) |- _ =>
      rewrite E in H; simpl in H; lia end.
Qed.

Section Settle.
Context (sha256_hex : bytes -> jsstring) (localeCompare : jsstring -> jsstring -> Z).
Context (key_id : jsstring) (key_is_ed25519 : bool) (sign : bytes -> bytes).
Abbreviation run_settle := (settle sha256_hex localeCompare key_id key_is_ed25519 sign).
Abbreviation run_settle_new := (settle_new sha256_hex localeCompare key_id key_is_ed25519 sign).
Abbreviation signed := (signEconomicSettlementReceipt sha256_hex key_id key_is_ed25519 sign).

(** What the guards, the pricing and the distribution of a settlement found. *)
Record settling (i : SettlementInput) (request : jsstring) (d : db) (p : PricingPolicy)
    (ev : Evidence) (row : SettlementRow) (credits : list Credit) : Prop := {
  st_guards : settle_guards i d = Ok (p, ev);
  st_price : price i (policy p) = Ok (s_gross row, s_provider row, s_platform row);
  st_shares : distribute localeCompare (s_provider row) (contributors i) = Ok credits;
  st_input : s_input row = i;
  st_digest : requestDigest row = request;
  st_fresh : existsb (settlement_conflict row) (settlements d) = false;
  st_check : settlement_check row d = true;
}.

(** Its rows, posted. *)
Definition posting (i : SettlementInput) (row : SettlementRow) (credits : list Credit) (d d1 : db) : Prop :=
  posts sha256_hex (s_id row) (posted sha256_hex i (s_gross row) (s_platform row) credits)
    (set_settlements (settlements d ++ [row]) d) d1.

(** The database once reputation and receipt are written. *)
Definition settled_db (ev : Evidence) (row : SettlementRow) (credits : list Credit) (r : Receipt)
    (d d1 : db) : db :=
  set_receipts (receipts d ++ [(s_id row, r)])
    (foldl (fun d q => bump_reputation ev credits q d) d1 (participants ev)).

Lemma posts_receipts id keys d d' : posts sha256_hex id keys d d' -> receipts d' = receipts d.
Proof. by intros ((_ & _ & ? & _) & _). Qed.

(** Where [settle_new] can fail, and what it has done when it does not. *)
Lemma settle_new_cases i request d :
  match run_settle_new i request d with
  | Err e =>
      settle_guards i d = Err e \/ (exists p, price i p = Err e)
      \/ (exists p ev t g pl, settle_guards i d = Ok (p, ev) /\ price i (policy p) = Ok (g, t, pl)
          /\ distribute localeCompare t (contributors i) = Err e)
      \/ e = SQLITE_CONSTRAINT \/ (exists b, signed b = Err e)
      \/ (exists p ev row credits d1, settling i request d p ev row credits
          /\ posting i row credits d d1 /\ assertBalanced (s_id row) d1 = Err e)
  | Ok (s, d') =>
      exists p ev row credits d1 r, settling i request d p ev row credits
      /\ posting i row credits d d1
      /\ signed (receipt_body sha256_hex localeCompare (s_id row) i p ev (s_gross row)
           (s_provider row) (s_platform row) credits) = Ok r
      /\ existsb (receipt_conflict (s_id row, r)) (receipts d) = false
      /\ d' = settled_db ev row credits r d d1
      /\ s = Settled row (work_credits (s_id row) d') r
  end.
Proof.
  unfold settle_new.
  destruct (settle_guards i d) as [[p ev]|e] eqn:Eg; [|by left].
  destruct (price i (policy p)) as [[[g pr] pl]|e] eqn:Ep; [|right; left; by exists (policy p)].
  destruct (distribute _ pr _) as [credits|e] eqn:Ed; [|right; right; left; by exists p, ev, pr, g, pl].
  set (id := sha _ (settlement_doc _ _ _ _ _)). clearbody id.
  set (row := SettlementOf id i g pr pl request).
  destruct (insert_row settlement_conflict _ _ _) as [t|e] eqn:Ei;
    [|do 3 right; left; by eapply insert_row_err].
  apply insert_row_inv in Ei as (-> & Hf & Hc).
  assert (Hst : settling i request d p ev row credits)
    by (split; [exact Eg|exact Ep|exact Ed|reflexivity|reflexivity|exact Hf|exact Hc]).
  pose proof (post_entries_steps sha256_hex (s_id row) i g pl credits
    (set_settlements (settlements d ++ [row]) d)) as Hp. simpl s_id in Hp.
  destruct (post_entries _ _ _ _ _ _ _) as [d1|e].
  2:{ do 3 right. destruct Hp as [->|(d1 & Hd1 & He)]; [by left|].
      right; right. exists p, ev, row, credits, d1. split_and!; [exact Hst|exact Hd1|exact He]. }
  destruct (existsb _ (evidence d1)); cbn [negb]; [|do 3 right; left; reflexivity].
  destruct (signed _) as [r|e] eqn:Es; [|do 4 right; left; by eexists].
  destruct (bump_fold ev credits (participants ev) d1) as (_ & _ & B3 & _ & _ & B6 & _).
  pose proof (posts_receipts _ _ _ _ Hp) as Hr. simpl in Hr.
  destruct (insert_row receipt_conflict _ _ _) as [t|e] eqn:Ei;
    [|do 3 right; left; by eapply insert_row_err].
  apply insert_row_inv in Ei as (-> & Hf' & _). rewrite B6, Hr in *.
  unfold readSettlement. cbn [settlements receipts set_receipts].
  assert (Hsel : select_one (fun s => bool_decide (s_id s = s_id row))
    (settlements (foldl (fun d q => bump_reputation ev credits q d) d1 (participants ev))) = Some row).
  { rewrite B3. destruct Hp as ((_ & E & _) & _). rewrite E. simpl.
    apply select_one_snoc_hit; [|by apply bool_decide_eq_true_2].
    apply existsb_false in Hf. eapply Forall_impl; [exact Hf|]. intros s Hs.
    unfold settlement_conflict in Hs. bool_prop. apply bool_decide_eq_false_2. intros Heq.
    match goal with H : _ <> s_id s |- _ => by apply H end. }
  change (s_id row) with id in Hsel. rewrite Hsel.
  assert (Hget := map_get_snoc_new _ _ _ Hf').
  change (s_id row) with id in Hget. rewrite Hget. exists p, ev, row, credits, d1, r.
  split_and!; [exact Hst|exact Hp|exact Es|exact Hf'|reflexivity|reflexivity].
Qed.

(** The nodes of a settlement's evidence, its contributors and its credits. *)
Lemma settling_nodes i request d p ev row credits :
  settlement_valid i = true -> settling i request d p ev row credits ->
  zsum amountMicrounits credits = s_provider row
  /\ zsum (fun q => earned_by credits (partNode q)) (participants ev) = s_provider row.
Proof.
  intros Hv [Hg Hp Hd _ _ _ _].
  apply price_inv in Hp as (_ & Hpr & _).
  destruct (contributors_valid i Hv) as (Hw & Hne & Hnd).
  destruct (distribute_credits localeCompare _ _ Hpr Hw Hne) as [Hd' Hr].
  rewrite Hd' in Hd. injection Hd as Hd.
  destruct (give_remainder_spec _ _ (conj (proj1 Hr) (Z.lt_le_incl _ _ (proj2 Hr)))) as (Hs & Hm & _).
  rewrite Hd in Hs, Hm. assert (Hsum : zsum amountMicrounits credits = s_provider row) by lia.
  split; [done|].
  assert (Hnodes : map creditNode credits ≡ₚ map nodeId (contributors i)).
  { rewrite Hm, map_map. simpl. by rewrite (sort_by_perm (by_node localeCompare) (contributors i)). }
  assert (Hpart : map partNode (participants ev) ≡ₚ map nodeId (contributors i)).
  { unfold settle_guards in Hg. inv_step Hg. bool_prop. unfold same_nodes in *. bool_prop.
    match goal with H : sort_by ?f ?a = sort_by ?f ?b |- _ =>
      rewrite <- (sort_by_perm f a), H; apply sort_by_perm end. }
  rewrite <- Hsum, <- (earned_by_total credits (map partNode (participants ev))).
  - clear. induction (participants ev); simpl; [done|lia].
  - by rewrite Hnodes.
  - by rewrite Hpart, Hnodes.
Qed.

(** The distribution of a priced settlement does not fail. *)
Lemma distribute_total i p g t pl e :
  settlement_valid i = true -> price i p = Ok (g, t, pl) ->
  distribute localeCompare t (contributors i) <> Err e.
Proof.
  intros Hv (_ & Ht & _)%price_inv. destruct (contributors_valid i Hv) as (Hw & Hne & _).
  destruct (distribute_credits localeCompare t _ Ht Hw Hne) as [-> _]. done.
Qed.

(** No entry belongs to a settlement that is not in the table yet. *)
Lemma no_entries_yet d row :
  ledger_ok sha256_hex d -> existsb (settlement_conflict row) (settlements d) = false ->
  Forall (fun e => e_settlement e <> s_id row) (entries d).
Proof.
  intros Hok Hf. apply existsb_false in Hf. rewrite Forall_forall in Hf.
  eapply Forall_impl; [exact (lo_owned _ _ Hok)|]. simpl. intros e He Heq.
  apply list_elem_of_fmap in He as (s & E & Hs). specialize (Hf s Hs).
  unfold settlement_conflict in Hf. bool_prop. congruence.
Qed.

Lemma posting_balances i request d p ev row credits d1 e :
  ledger_ok sha256_hex d -> settlement_valid i = true ->
  settling i request d p ev row credits -> posting i row credits d d1 ->
  assertBalanced (s_id row) d1 <> Err e.
Proof.
  intros Hok Hv Hst Hpost. destruct (settling_nodes _ _ _ _ _ _ _ Hv Hst) as [Hsum _].
  destruct Hst as [_ (_ & _ & Hg & _)%price_inv _ _ _ Hf Hc].
  unfold settlement_check in Hc. bool_prop.
  destruct (posts_total sha256_hex _ _ _ _ _ _ _ Hpost) as [-> _]; try done; [|lia].
  by apply (no_entries_yet d).
Qed.

Lemma signed_inv b r : signed b = Ok r -> body r = b /\ receipt_valid b = true.
Proof.
  unfold signEconomicSettlementReceipt. intros H.
  destruct (negb (receipt_valid b)) eqn:Hv; [discriminate|]. apply negb_false_iff in Hv.
  repeat match type of H with (if ?c then _ else _) = _ => destruct c; [discriminate|] end.
  by injection H as <-.
Qed.

Lemma signed_err b e :
  signed b = Err e -> e = ZodError \/ e = "economic_receipt_private_key_is_not_ed25519"%string.
Proof.
  unfold signEconomicSettlementReceipt.
  repeat (destruct (negb _); [intros [= <-]; tauto|]). destruct (_ || _); intros [= <-]. tauto.
Qed.

Lemma ledger_ok_settle_new i request d s d' :
  ledger_ok sha256_hex d -> settlement_valid i = true ->
  run_settle_new i request d = Ok (s, d') -> ledger_ok sha256_hex d'.
Proof.
  intros Hok Hv H. pose proof (settle_new_cases i request d) as Hc. rewrite H in Hc.
  destruct Hc as (p & ev & row & credits & d1 & r & Hst & Hpost & Hsign & Hrc & -> & _).
  destruct (settling_nodes _ _ _ _ _ _ _ Hv Hst) as [Hsum Hearn].
  destruct Hst as [_ Hp _ Hi _ Hf Hc]. apply price_inv in Hp as (Hg & Hpr & Hgp & _).
  apply signed_inv in Hsign as [Hb Hrv]. unfold receipt_valid in Hrv. bool_prop.
  unfold settlement_check in Hc. bool_prop. simpl in *.
  eapply (ledger_ok_settled sha256_hex d d1 _ i row credits r (participants ev) ev); try done; try lia.
  - by rewrite Hb.
  - by rewrite Hb.
  - by rewrite Hb.
  - rewrite Hb. simpl. lia.
Qed.

Lemma ledger_ok_step o d :
  ledger_ok sha256_hex d ->
  ledger_ok sha256_hex (ledger_step sha256_hex localeCompare key_id key_is_ed25519 sign o d).
Proof.
  intros Hok. destruct o as [p|id e|i]; simpl.
  - unfold registerPricingPolicy. destruct (negb _); [done|].
    destruct (select_one _ _); [done|]. destruct (existsb _ _); [done|].
    by eapply ledger_ok_same; [..|exact Hok].
  - destruct (map_has _ _); [done|]. by eapply ledger_ok_same; [..|exact Hok].
  - unfold settle. destruct (negb (settlement_valid i)) eqn:Hv; [done|]. apply negb_false_iff in Hv.
    destruct (select_one _ _) as [replay|].
    + destruct (negb _); [done|]. destruct (readSettlement _ _); done.
    + destruct (settle_new _ _ _ _ _ _ _ _) as [[s d']|] eqn:E; [|done].
      by eapply ledger_ok_settle_new.
Qed.

Lemma ledger_ok_run os d :
  ledger_ok sha256_hex d ->
  ledger_ok sha256_hex (ledger_run sha256_hex localeCompare key_id key_is_ed25519 sign os d).
Proof.
  revert d; induction os as [|o os IH]; intros d Hd; simpl; [done|]. by apply IH, ledger_ok_step.
Qed.

(** The codes [settle] throws. *)
Definition settle_errors : list string :=
  [ ZodError; "economic_settlement_job_conflict"; "economic_settlement_receipt_replay";
    "economic_pricing_policy_not_found"; "economic_contribution_evidence_not_found";
    "economic_contribution_evidence_binding_is_invalid";
    "economic_contributors_do_not_match_physical_evidence";
    "economic_pricing_policy_is_not_effective"; "economic_settlement_amount_is_unsafe";
    "economic_settlement_amount_is_zero"; "economic_receipt_private_key_is_not_ed25519";
    SQLITE_CONSTRAINT ].

Lemma guards_err i d e : settle_guards i d = Err e -> e ∈ settle_errors.
Proof.
  unfold settle_guards, readPricingPolicy. intros H.
  repeat match type of H with (match ?x with _ => _ end) = _ => destruct x eqn:? end;
    try discriminate; injection H as <-; unfold settle_errors;
    repeat match goal with E : (match ?x with _ => _ end) = Err _ |- _ => destruct x; simplify_eq end;
    listed.
Qed.

Lemma price_err i p e : price i p = Err e -> e ∈ settle_errors.
Proof.
  unfold price, safeBigIntToNumber. intros H.
  repeat match type of H with (match ?x with _ => _ end) = _ => destruct x eqn:? end;
    try discriminate; injection H as <-;
    repeat match goal with E : (if ?b then _ else _) = Err _ |- _ => destruct b; simplify_eq end;
    listed.
Qed.
End Settle.

(** ** Balances *)

Section Balances.
Context (sha256_hex : bytes -> jsstring).
Abbreviation aid := (account_id sha256_hex).

(** No account of [d] has the id of [kind], [owner] unless it is theirs. *)
Definition own_id (kind : OwnerKind) (owner : jsstring) (d : db) : Prop :=
  forall a, a ∈ accounts d -> aid (ownerKind a) (ownerId a) = aid kind owner ->
  ownerKind a = kind /\ ownerId a = owner.

Definition account_total (id : jsstring) (es : list EntryRow) : Z :=
  zsum amount (List.filter (fun e => bool_decide (e_account e = id)) es).

Lemma owner_accounts kind owner d :
  NoDup (map (fun a => (ownerKind a, ownerId a)) (accounts d)) ->
  let l := List.filter (fun a => bool_decide (ownerKind a = kind) && bool_decide (ownerId a = owner))
             (accounts d) in
  (l = [] /\ forall a, a ∈ accounts d -> ~ (ownerKind a = kind /\ ownerId a = owner))
  \/ exists a, l = [a] /\ a ∈ accounts d /\ ownerKind a = kind /\ ownerId a = owner.
Proof.
  intros Hn. simpl. induction (accounts d) as [|a l IH]; simpl; [left; set_solver|].
  simpl in Hn. apply NoDup_cons in Hn as [Ha Hn]. specialize (IH Hn).
  destruct (bool_decide (ownerKind a = kind) && bool_decide (ownerId a = owner)) eqn:E.
  - bool_prop. right. exists a. split_and!; [|set_solver|done|done]. f_equal.
    destruct IH as [[-> _]|(b & -> & Hb & Eb1 & Eb2)]; [done|]. exfalso. apply Ha.
    apply list_elem_of_fmap. exists b. split; [congruence|done].
  - destruct IH as [[-> Hno]|(b & -> & Hb & Hb')].
    + left. split; [done|]. intros b Hb [E1 E2]. apply elem_of_cons in Hb as [->|Hb];
        [|by eapply Hno]. rewrite !bool_decide_eq_true_2 in E by done. done.
    + right. exists b. split_and!; [done|set_solver|tauto|tauto].
Qed.

Lemma owner_balance kind owner d :
  books sha256_hex d -> own_id kind owner d ->
  zsum amount (owner_entries kind owner d) = account_total (aid kind owner) (entries d).
Proof.
  intros (Ha & Hn & He) Hown. unfold owner_entries, account_total. rewrite Forall_forall in Ha.
  destruct (owner_accounts kind owner d Hn) as [[E Hno]|(a & E & Hin & Ek & Eo)]; rewrite E; csimpl.
  - rewrite filter_none; [done|]. eapply Forall_impl; [exact He|]. simpl. intros e Hin.
    apply bool_decide_eq_false_2. intros Heq. apply list_elem_of_fmap in Hin as (a & Ea & Hin).
    apply (Hno a Hin), Hown; [done|]. rewrite <- (Ha a Hin). congruence.
  - rewrite app_nil_r, (Ha a Hin), Ek, Eo. done.
Qed.

Definition keys_total (id : jsstring) (keys : list (jsstring * Category * Z)) : Z :=
  zsum (fun k => if bool_decide (k.1.1 = id) then k.2 else 0) keys.

Lemma account_total_app id es es' :
  account_total id (es ++ es') = account_total id es + keys_total id (map entry_key es').
Proof.
  unfold account_total. rewrite List.filter_app, zsum_app. f_equal.
  unfold keys_total. induction es' as [|e es' IH]; [done|]. simpl.
  destruct (bool_decide _); simpl; lia.
Qed.

(** What a settlement moves for an owner. *)
Definition moved (i : SettlementInput) (row : SettlementRow) (credits : list Credit)
    (kind : OwnerKind) (owner : jsstring) : Z :=
  match kind with
  | Account => if bool_decide (owner = payerAccountId i) then - s_gross row else 0
  | Node => earned_by credits owner
  | Platform => if bool_decide (owner = js "mycellios") then s_platform row else 0
  end.

(** The owners a settlement touches have ids of their own. *)
Definition owners (i : SettlementInput) : list (OwnerKind * jsstring) :=
  (Account, payerAccountId i) :: (Platform, js "mycellios")
  :: map (fun c => (Node, nodeId c)) (contributors i).
Definition separated (i : SettlementInput) (kind : OwnerKind) (owner : jsstring) (d : db) : Prop :=
  own_id kind owner d
  /\ forall k o, (k, o) ∈ owners i -> aid k o = aid kind owner -> k = kind /\ o = owner.

Lemma keys_total_credits kind owner credits :
  NoDup (map creditNode credits) ->
  (forall c, c ∈ credits -> aid Node (creditNode c) = aid kind owner ->
     Node = kind /\ creditNode c = owner) ->
  keys_total (aid kind owner) (posted_credits sha256_hex credits)
  = if bool_decide (kind = Node) then earned_by credits owner else 0.
Proof.
  intros Hn Hsep.
  assert (Hstep : keys_total (aid kind owner) (posted_credits sha256_hex credits)
    = zsum (fun c => if bool_decide (kind = Node) && bool_decide (creditNode c = owner)
                     then amountMicrounits c else 0) credits).
  { clear Hn. induction credits as [|c cs IH]; [done|]. unfold posted_credits. csimpl.
    assert (Hiff : bool_decide (aid Node (creditNode c) = aid kind owner)
      = bool_decide (kind = Node) && bool_decide (creditNode c = owner)).
    { destruct (decide (kind = Node /\ creditNode c = owner)) as [[-> ->]|Hne].
      - by rewrite !bool_decide_eq_true_2.
      - rewrite bool_decide_eq_false_2.
        + symmetry. apply andb_false_iff. rewrite !bool_decide_eq_false. clear -Hne.
          destruct (decide (kind = Node)); naive_solver.
        + intros E. apply Hne. destruct (Hsep c ltac:(left) E) as [<- <-]. done. }
    specialize (IH ltac:(intros c' Hc'; apply Hsep; by right)).
    destruct (Z.eqb_spec (amountMicrounits c) 0) as [E|E].
    - unfold posted_credits in IH. rewrite IH. rewrite E. by destruct (_ && _).
    - unfold keys_total at 1. simpl zsum at 1. rewrite Hiff. unfold keys_total, posted_credits in IH.
      simpl. rewrite IH. done. }
  rewrite Hstep. clear Hstep Hsep. case_bool_decide as Hk; simpl.
  - unfold earned_by. induction credits as [|c cs IH]; [done|]. simpl.
    simpl in Hn. apply NoDup_cons in Hn as [Hc Hn]. case_bool_decide as Ho; [|by apply IH].
    assert (Hz : zsum (fun c => if bool_decide (creditNode c = owner) then amountMicrounits c else 0) cs = 0).
    { subst owner. clear -Hc. induction cs as [|x cs IH]; [done|]. simpl.
      rewrite bool_decide_eq_false_2, IH by set_solver. done. }
    lia.
  - clear. induction credits; simpl; lia.
Qed.

Lemma keys_total_posted i row credits kind owner :
  NoDup (map creditNode credits) -> map creditNode credits ≡ₚ map nodeId (contributors i) ->
  0 <= s_platform row ->
  (forall k o, (k, o) ∈ owners i -> aid k o = aid kind owner -> k = kind /\ o = owner) ->
  keys_total (aid kind owner) (posted sha256_hex i (s_gross row) (s_platform row) credits)
  = moved i row credits kind owner.
Proof.
  intros Hn Hp Hpl Hsep. unfold posted, keys_total. simpl. rewrite zsum_app.
  fold (keys_total (aid kind owner) (posted_credits sha256_hex credits)).
  rewrite keys_total_credits; [|done|].
  2:{ intros c Hc E. destruct (Hsep Node (creditNode c)) as [? ?]; [|done|done].
      right; right. apply list_elem_of_fmap.
      assert (Hin : creditNode c ∈ map nodeId (contributors i))
        by (rewrite <- Hp; apply list_elem_of_fmap; by exists c).
      apply list_elem_of_fmap in Hin as (x & -> & Hx). by exists x. }
  assert (Hpay : (if bool_decide (aid Account (payerAccountId i) = aid kind owner) then - s_gross row else 0)
    = if bool_decide (kind = Account) && bool_decide (owner = payerAccountId i) then - s_gross row else 0).
  { case_bool_decide as E.
    - destruct (Hsep _ _ ltac:(left) E) as [<- <-]. by rewrite !bool_decide_eq_true_2.
    - do 2 (case_bool_decide; try done). subst. done. }
  assert (Hplat : zsum (fun k : jsstring * Category * Z => if bool_decide (k.1.1 = aid kind owner) then k.2 else 0)
      (if 0 <? s_platform row then [(aid Platform (js "mycellios"), PlatformFee, s_platform row)] else [])
    = if bool_decide (kind = Platform) && bool_decide (owner = js "mycellios") then s_platform row else 0).
  { assert (Hc : zsum (fun k : jsstring * Category * Z => if bool_decide (k.1.1 = aid kind owner) then k.2 else 0)
      (if 0 <? s_platform row then [(aid Platform (js "mycellios"), PlatformFee, s_platform row)] else [])
      = if bool_decide (aid Platform (js "mycellios") = aid kind owner) then s_platform row else 0).
    { destruct (Z.ltb_spec 0 (s_platform row)); simpl; [lia|].
      destruct (bool_decide (aid Platform _ = _)); lia. }
    rewrite Hc. clear Hpay Hc. case_bool_decide as E.
    - destruct (Hsep _ _ ltac:(right; left) E) as [<- <-]. by rewrite !bool_decide_eq_true_2.
    - do 2 (case_bool_decide; try done). subst. done. }
  rewrite Hpay, Hplat. clear Hpay Hplat. unfold moved.
  destruct kind; cbn -[js s_gross s_platform];
    repeat (case_bool_decide; try done); simpl; lia.
Qed.
End Balances.

(** ** What a settlement leaves behind *)

Section Found.
Context (sha256_hex : bytes -> jsstring) (localeCompare : jsstring -> jsstring -> Z).
Context (key_id : jsstring) (key_is_ed25519 : bool) (sign : bytes -> bytes).
Abbreviation run_settle := (settle sha256_hex localeCompare key_id key_is_ed25519 sign).

Lemma no_job i d :
  jobId i ∉ map (fun s => jobId (s_input s)) (settlements d) ->
  Forall (fun s => bool_decide (jobId (s_input s) = jobId i) = false) (settlements d).
Proof.
  intros Hj. apply Forall_forall. intros x Hx. apply bool_decide_eq_false_2. intros E. apply Hj.
  rewrite <- E. apply list_elem_of_fmap. by exists x.
Qed.

(** The row a settlement returns is the one found for its job. *)
Lemma settle_found i d s d' :
  ledger_ok sha256_hex d -> run_settle i d = Ok (s, d') ->
  ledger_ok sha256_hex d'
  /\ select_one (fun s => bool_decide (jobId (s_input s) = jobId i)) (settlements d') = Some (settled_row s)
  /\ requestDigest (settled_row s) = sha sha256_hex (request_doc i)
  /\ readSettlement (s_id (settled_row s)) d' = Ok s.
Proof.
  intros Hok H. unfold settle in H.
  destruct (negb (settlement_valid i)) eqn:Hv; [done|]. apply negb_false_iff in Hv.
  destruct (select_one _ _) as [replay|] eqn:Er.
  - case_bool_decide as Hd; [|done]. cbn [negb] in H.
    destruct (readSettlement (s_id replay) d) as [s'|] eqn:E; [|done]. injection H as <- <-.
    assert (Hrow : settled_row s' = replay).
    { unfold readSettlement in E.
      destruct (select_one (fun s => bool_decide (s_id s = s_id replay)) _) as [row|] eqn:Es; [|done].
      apply select_one_Some in Es as [Hin Hid]. bool_prop.
      apply select_one_Some in Er as [Hin' _].
      destruct (map_get _ _); [|done]. injection E as <-. cbn [settled_row].
      pose proof (lo_ids _ _ Hok) as Hn.
      apply list_elem_of_lookup_1 in Hin as [a Ha], Hin' as [b Hb].
      assert (a = b) as ->; [|congruence].
      eapply (NoDup_lookup _ _ _ (s_id row) Hn); rewrite list_lookup_fmap; [by rewrite Ha|].
      rewrite Hb. simpl. congruence. }
    by rewrite Hrow.
  - pose proof (settle_new_cases sha256_hex localeCompare key_id key_is_ed25519 sign i
      (sha sha256_hex (request_doc i)) d) as Hc. rewrite H in Hc.
    apply ledger_ok_settle_new in H; [|done|done].
    destruct Hc as (p & ev & row & credits & d1 & r & Hst & Hpost & Hsign & Hrc & E & ->).
    destruct (bump_fold ev credits (participants ev) d1) as (_ & _ & B3 & _).
    assert (Hset : settlements d' = settlements d ++ [row]).
    { rewrite E. cbn [settled_db set_receipts settlements]. rewrite B3.
      by destruct Hpost as ((_ & -> & _) & _). }
    split; [done|]. cbn [settled_row]. split_and!.
    + rewrite Hset. apply select_one_snoc_hit; [by apply select_one_None|].
      apply bool_decide_eq_true_2. by rewrite (st_input _ _ _ _ _ _ _ _ Hst).
    + exact (st_digest _ _ _ _ _ _ _ _ Hst).
    + unfold readSettlement. rewrite Hset, select_one_snoc_hit.
      * rewrite E. cbn [settled_db set_receipts receipts].
        by rewrite (map_get_snoc_new _ _ _ Hrc).
      * pose proof (st_fresh _ _ _ _ _ _ _ _ Hst) as Hf. apply existsb_false in Hf.
        eapply Forall_impl; [exact Hf|]. simpl. intros x Hx. unfold settlement_conflict in Hx.
        bool_prop. apply bool_decide_eq_false_2. congruence.
      * by apply bool_decide_eq_true_2.
Qed.

Lemma settling_credits i request d p ev row credits :
  settlement_valid i = true -> settling localeCompare i request d p ev row credits ->
  NoDup (map creditNode credits) /\ map creditNode credits ≡ₚ map nodeId (contributors i)
  /\ 0 <= s_platform row.
Proof.
  intros Hv [_ (_ & Hpr & _)%price_inv Hd _ _ _ Hc].
  destruct (contributors_valid i Hv) as (Hw & Hne & Hnd).
  destruct (distribute_credits localeCompare _ _ Hpr Hw Hne) as [Hd' Hr].
  destruct (give_remainder_spec _ _ (conj (proj1 Hr) (Z.lt_le_incl _ _ (proj2 Hr)))) as (_ & Hm & _).
  rewrite Hd' in Hd. injection Hd as Hd. rewrite Hd in Hm.
  assert (Hp : map creditNode credits ≡ₚ map nodeId (contributors i)).
  { rewrite Hm, map_map. simpl. by rewrite (sort_by_perm (by_node localeCompare) (contributors i)). }
  unfold settlement_check in Hc. bool_prop. split_and!; [by rewrite Hp|done|lia].
Qed.

Lemma balance_settled i row credits r ev d d1 kind owner b :
  let d' := settled_db ev row credits r d d1 in
  ledger_ok sha256_hex d -> ledger_ok sha256_hex d' ->
  posting sha256_hex i row credits d d1 ->
  NoDup (map creditNode credits) -> map creditNode credits ≡ₚ map nodeId (contributors i) ->
  0 <= s_platform row -> separated sha256_hex i kind owner d' ->
  balance kind owner d = Ok b -> balance kind owner d' = Ok (b + moved i row credits kind owner).
Proof.
  intros d' Hok Hok' Hpost Hnd Hperm Hpl [Hown Hsep]. unfold balance.
  destruct (negb (is_identifier owner)); [done|]. intros [= <-]. f_equal.
  destruct (bump_fold ev credits (participants ev) d1) as (_ & _ & _ & B4 & B5 & _).
  destruct Hpost as (_ & [Hacc _] & es & Ees & Mes & _). cbn [set_settlements accounts] in Hacc.
  rewrite (owner_balance sha256_hex kind owner d'), (owner_balance sha256_hex kind owner d);
    [|exact (lo_books _ _ Hok)| |exact (lo_books _ _ Hok')|done].
  - assert (entries d' = entries d ++ es) as ->.
    { unfold d', settled_db. cbn [set_receipts entries]. rewrite B5. exact Ees. }
    rewrite account_total_app, Mes, keys_total_posted; done.
  - intros a Ha. apply Hown. unfold d', settled_db. cbn [set_receipts accounts]. rewrite B4. auto.
Qed.
End Found.

(** The amounts a receipt states agree with one another. *)
Definition amounts_agree (b : ReceiptBody) : Prop :=
  rb_gross b = rb_provider b + rb_platform b
  /\ zsum amountMicrounits (rb_credits b) = rb_provider b
  /\ NoDup (map creditNode (rb_credits b)).

Lemma receipt_valid_amounts b : receipt_valid b = true -> amounts_agree b.
Proof. unfold receipt_valid. intros H. bool_prop. split_and!; [lia|lia|done]. Qed.

Section Receipts.
Context (sha256_hex : bytes -> jsstring) (key_id : jsstring).
Context (key_is_ed25519 : bool) (sign : bytes -> bytes) (verify : bytes -> bytes -> bool).

Lemma signed_verifies b r :
  (forall m, verify m (sign m) = true) ->
  signEconomicSettlementReceipt sha256_hex key_id key_is_ed25519 sign b = Ok r ->
  body r = b /\ verifyEconomicSettlementReceipt sha256_hex key_id true true verify r = Ok r.
Proof.
  intros Hv H. unfold signEconomicSettlementReceipt in H.
  destruct (receipt_valid b) eqn:Eb; [|discriminate]. destruct (is_identifier key_id) eqn:Ek; [|discriminate].
  destruct key_is_ed25519; [|discriminate]. cbn [negb] in H.
  destruct (is_sha256 _) eqn:Es; [|discriminate]. destruct (byteLength _ =? 64) eqn:El; [|discriminate].
  cbn [negb orb] in H. injection H as <-. split; [done|].
  unfold verifyEconomicSettlementReceipt. cbn [body receiptId keyId signature].
  rewrite Eb, Ek, Es, El. cbn [negb orb]. rewrite !bool_decide_eq_true_2 by done. cbn [negb].
  by rewrite Hv.
Qed.

Lemma verified_inv pinned valid ed r r' :
  verifyEconomicSettlementReceipt sha256_hex pinned valid ed verify r = Ok r' ->
  r' = r /\ keyId r = pinned /\ receiptId r = sha sha256_hex (JObj (receipt_fields (body r)))
  /\ verify (receipt_text (body r) (receiptId r) pinned) (signature r) = true
  /\ amounts_agree (body r).
Proof.
  unfold verifyEconomicSettlementReceipt. intros H.
  destruct (receipt_valid (body r)) eqn:Eb; [|discriminate].
  repeat match type of H with (if ?c then _ else _) = _ => destruct c eqn:?; [discriminate|] end.
  injection H as <-. bool_prop. subst. split_and!; try done. by apply receipt_valid_amounts.
Qed.
End Receipts.

(** ** The guarantees *)

(** C14 (functional).  A settlement's provider amount is distributed exactly:
    the distribution never fails, the credits add up to the total to the last
    microunit, every contributor is credited once, and each gets the floor of
    its weighted share or one microunit more.  Listing the contributors in
    another order gives the same credits, when the collation separates their
    node ids. *)
Theorem distribute_exact (localeCompare : jsstring -> jsstring -> Z) (total : Z)
    (cs : list Contributor) :
  0 <= total <= MAX_SAFE_INTEGER -> Forall (fun c => 1 <= weight c) cs -> cs <> [] ->
  exists credits, distribute localeCompare total cs = Ok credits
  /\ zsum amountMicrounits credits = total
  /\ map creditNode credits ≡ₚ map nodeId cs
  /\ Forall2 (fun c k => creditNode k = nodeId c
       /\ share total (zsum weight cs) c <= amountMicrounits k <= share total (zsum weight cs) c + 1)
       (sort_by (by_node localeCompare) cs) credits
  /\ (forall cs', total_on (by_node localeCompare) cs -> strict_on (by_node localeCompare) cs ->
        cs ≡ₚ cs' -> distribute localeCompare total cs' = Ok credits).
Proof.
  intros Ht Hw Hne.
  destruct (distribute_credits localeCompare total cs Ht Hw Hne) as [Hd Hr].
  destruct (give_remainder_spec _ _ (conj (proj1 Hr) (Z.lt_le_incl _ _ (proj2 Hr)))) as (Hs & Hm & Hf).
  eexists. split; [exact Hd|]. split_and!.
  - rewrite Hs. lia.
  - rewrite Hm, map_map. simpl. by rewrite (sort_by_perm (by_node localeCompare) cs).
  - by apply shares_within.
  - intros cs' Hto Hst Hp. rewrite <- Hd. unfold distribute.
    by rewrite (sort_by_unique (by_node localeCompare) cs cs' Hto Hst Hp).
Qed.

(** C13 (invariant).  Conservation: after any history of operations, every
    settlement splits its gross amount into provider and platform parts, its
    ledger entries debit the payer by the gross and credit the two parts, all
    entries together add up to zero, its receipt states the same amounts, jobs
    and execution receipts are settled at most once, every entry has a
    settlement and an account, and the earnings in the nodes' reputations add up
    to what the settlements paid to providers. *)
Theorem ledger_conservation (sha256_hex : bytes -> jsstring)
    (localeCompare : jsstring -> jsstring -> Z) (key_id : jsstring) (key_is_ed25519 : bool)
    (sign : bytes -> bytes) (os : list ledger_op) :
  ledger_ok sha256_hex
    (ledger_run sha256_hex localeCompare key_id key_is_ed25519 sign os empty_db).
Proof. apply ledger_ok_run, ledger_ok_empty. Qed.

(**  Where [settle] can fail: only with one of the codes of its
    guards, a schema error, the signer's or a constraint of the database; never
    because the rows it wrote do not balance or cannot be read back. *)
Theorem settle_failures (sha256_hex : bytes -> jsstring)
    (localeCompare : jsstring -> jsstring -> Z) (key_id : jsstring) (key_is_ed25519 : bool)
    (sign : bytes -> bytes) (os : list ledger_op) (i : SettlementInput) (e : string) :
  let d := ledger_run sha256_hex localeCompare key_id key_is_ed25519 sign os empty_db in
  settle sha256_hex localeCompare key_id key_is_ed25519 sign i d = Err e -> e ∈ settle_errors.
Proof.
  intros d H. assert (Hok : ledger_ok sha256_hex d) by (apply ledger_ok_run, ledger_ok_empty).
  unfold settle in H. destruct (negb (settlement_valid i)) eqn:Hv; [injection H as <-; listed|].
  apply negb_false_iff in Hv.
  destruct (select_one _ _) as [replay|] eqn:Er.
  - destruct (negb _); [injection H as <-; listed|]. exfalso.
    apply select_one_Some in Er as [Hin _]. destruct Hok as [_ Hrec Hids _ _ _ _ _ _].
    rewrite Forall_forall in Hrec. destruct (Hrec _ Hin) as (r & Hr & _).
    unfold readSettlement in H.
    destruct (select_one (fun s => bool_decide (s_id s = s_id replay)) (settlements d)) eqn:Es.
    + by rewrite Hr in H.
    + apply select_one_None in Es. rewrite Forall_forall in Es. specialize (Es _ Hin).
      by rewrite bool_decide_eq_true_2 in Es.
  - pose proof (settle_new_cases sha256_hex localeCompare key_id key_is_ed25519 sign i
      (sha sha256_hex (request_doc i)) d) as Hc. rewrite H in Hc.
    destruct Hc as [Hg|[[p Hp]|[(p & ev & t & g & pl & Hg & Hp & Hd)|[->|[[b Hb]|Hu]]]]].
    + by eapply guards_err.
    + by eapply price_err.
    + exfalso. by eapply distribute_total.
    + listed.
    + destruct (signed_err _ localeCompare _ _ _ _ _ Hb) as [-> | ->]; listed.
    + exfalso. destruct Hu as (p & ev & row & credits & d1 & Hst & Hpost & Hbal).
      by eapply posting_balances.
Qed.

(** C15 (safety).  Exactly once: settling again with the same request returns
    the same settlement and changes nothing; another request for the same job is
    refused; and so is another job that presents the same execution receipt. *)
Theorem settle_once (sha256_hex : bytes -> jsstring)
    (localeCompare : jsstring -> jsstring -> Z) (key_id : jsstring) (key_is_ed25519 : bool)
    (sign : bytes -> bytes) (os : list ledger_op) (i : SettlementInput) (s : EconomicSettlement) (d' : db) :
  let run := settle sha256_hex localeCompare key_id key_is_ed25519 sign in
  let d := ledger_run sha256_hex localeCompare key_id key_is_ed25519 sign os empty_db in
  run i d = Ok (s, d') ->
  ledger_ok sha256_hex d' /\ settled_row s ∈ settlements d'
  /\ run i d' = Ok (s, d')
  /\ (forall i', settlement_valid i' = true -> jobId i' = jobId i ->
        sha sha256_hex (request_doc i') <> sha sha256_hex (request_doc i) ->
        run i' d' = Err "economic_settlement_job_conflict")
  /\ (forall i', settlement_valid i' = true -> jobId i' ∉ map (fun s => jobId (s_input s)) (settlements d') ->
        executionReceiptId i' = executionReceiptId (s_input (settled_row s)) ->
        run i' d' = Err "economic_settlement_receipt_replay").
Proof.
  intros run d H. assert (Hok : ledger_ok sha256_hex d) by (apply ledger_ok_run, ledger_ok_empty).
  destruct (settle_found sha256_hex localeCompare key_id key_is_ed25519 sign i d s d' Hok H)
    as (Hok' & Hsel & Hdig & Hread).
  pose proof (select_one_Some _ _ _ Hsel) as [Hin _].
  assert (Hv : negb (settlement_valid i) = false).
  { unfold run, settle in H. by destruct (negb (settlement_valid i)). }
  split_and!; [done|done|..].
  - unfold run, settle. rewrite Hv, Hsel, Hdig, bool_decide_eq_true_2 by done. cbn [negb].
    by rewrite Hread.
  - intros i' Hv' Hj Hd. unfold run, settle. rewrite Hv', Hj, Hsel, Hdig. cbn [negb].
    by rewrite bool_decide_eq_false_2.
  - intros i' Hv' Hj He. unfold run, settle. rewrite Hv'. cbn [negb].
    rewrite (proj2 (select_one_None _ _)).
    + unfold settle_new, settle_guards.
      assert (existsb (fun s => bool_decide (executionReceiptId (s_input s) = executionReceiptId i'))
        (settlements d') = true) as ->; [|done].
      apply existsb_exists. exists (settled_row s). split; [by apply list_elem_of_In|].
      by apply bool_decide_eq_true_2.
    + apply Forall_forall. intros x Hx. apply bool_decide_eq_false_2. intros E. apply Hj.
      rewrite <- E. apply list_elem_of_fmap. by exists x.
Qed.

(**  Settling a new job moves exactly its amounts: the payer's
    balance falls by the gross, each contributing node's rises by its credit, the
    platform's by its fee, and every other balance stays, for every owner whose
    account id is not shared. *)
Theorem settle_moves (sha256_hex : bytes -> jsstring)
    (localeCompare : jsstring -> jsstring -> Z) (key_id : jsstring) (key_is_ed25519 : bool)
    (sign : bytes -> bytes) (os : list ledger_op) (i : SettlementInput) (s : EconomicSettlement) (d' : db) :
  let d := ledger_run sha256_hex localeCompare key_id key_is_ed25519 sign os empty_db in
  settle sha256_hex localeCompare key_id key_is_ed25519 sign i d = Ok (s, d') ->
  jobId i ∉ map (fun s => jobId (s_input s)) (settlements d) ->
  exists credits, distribute localeCompare (s_provider (settled_row s)) (contributors i) = Ok credits
  /\ forall kind owner b, separated sha256_hex i kind owner d' -> balance kind owner d = Ok b ->
     balance kind owner d' = Ok (b + moved i (settled_row s) credits kind owner).
Proof.
  intros d H Hj. assert (Hok : ledger_ok sha256_hex d) by (apply ledger_ok_run, ledger_ok_empty).
  unfold settle in H. destruct (negb (settlement_valid i)) eqn:Hv; [done|]. apply negb_false_iff in Hv.
  rewrite (proj2 (select_one_None _ _)) in H; [|by apply no_job].
  assert (Hok' := H). apply ledger_ok_settle_new in Hok'; [|done|done].
  pose proof (settle_new_cases sha256_hex localeCompare key_id key_is_ed25519 sign i
    (sha sha256_hex (request_doc i)) d) as Hc. rewrite H in Hc.
  destruct Hc as (p & ev & row & credits & d1 & r & Hst & Hpost & _ & _ & -> & ->).
  exists credits. split; [exact (st_shares _ _ _ _ _ _ _ _ Hst)|].
  intros kind owner b Hsep Hb. cbn [settled_row].
  destruct (settling_credits _ _ _ _ _ _ _ _ Hv Hst) as (Hnd & Hperm & Hpl).
  by eapply balance_settled.
Qed.

(** C16 (roundtrip).  A receipt the ledger signs is accepted by a verifier that
    pins the signer's key, and an accepted receipt is bound to its identity, to
    the pinned key and to a signature over exactly its contents. *)
Theorem receipt_round_trip (sha256_hex : bytes -> jsstring) (key_id : jsstring)
    (key_is_ed25519 : bool) (sign : bytes -> bytes) (verify : bytes -> bytes -> bool) :
  (forall m, verify m (sign m) = true) ->
  (forall b r, signEconomicSettlementReceipt sha256_hex key_id key_is_ed25519 sign b = Ok r ->
     body r = b /\ verifyEconomicSettlementReceipt sha256_hex key_id true true verify r = Ok r)
  /\ (forall pinned valid ed r r',
     verifyEconomicSettlementReceipt sha256_hex pinned valid ed verify r = Ok r' ->
     r' = r /\ keyId r = pinned /\ receiptId r = sha sha256_hex (JObj (receipt_fields (body r)))
     /\ verify (receipt_text (body r) (receiptId r) pinned) (signature r) = true
     /\ amounts_agree (body r)).
Proof.
  intros Hverify. split.
  - intros b r. by apply signed_verifies.
  - intros pinned valid ed r r'. apply verified_inv.
Qed.
