(* ===== verification/LedgerExamples.v ===== *)
(** * A history of the ledger

    One pricing policy, one certified contribution and one settlement, with a
    stand-in for the hash and the signature, at which the guarantees of
    [LedgerProps] are instantiated. *)

From S2P Require Import Prelude JsString JsMap JsSort JsonText CanonicalJson Schema Sql Ledger LedgerProps.

#[local] Open Scope Z_scope.

(** A hash with 64 hexadecimal digits: the bytes as a polynomial, in 20 bits. *)
Fixpoint hex_of (n : nat) (z : Z) : jsstring :=
  match n with O => [] | S n' => hex_of n' (z / 16) ++ [hex_digit (z mod 16)] end.
Definition toy_hash (b : bytes) : jsstring :=
  repeat 48 59 ++ hex_of 5 (foldl (fun acc x => Z.land (acc * 37 + x) 1048575) 7 b).
Definition toy_sign (m : bytes) : bytes := repeat 0 62 ++ be_write 2 (foldl (fun acc x => Z.land (acc * 31 + x) 65535) 1 m).
Definition toy_verify (m s : bytes) : bool := bool_decide (s = toy_sign m).

Definition key : jsstring := js "ledger-key".
Definition hash_of (n : Z) : jsstring := js "sha256:" ++ repeat 48 63 ++ hex_of 1 n.

Definition pricing : PricingPolicyInput := default_pricing DistributedPipeline.
Definition pricing_id : jsstring := sha toy_hash (policy_doc pricing).

Definition proof_doc : Evidence :=
  EvidenceDoc (hash_of 2) (js "job-1") (hash_of 1)
    [Participated (js "node-a") 2; Participated (js "node-b") 1] 1.

Definition request : SettlementInput :=
  Settlement (js "job-1") (hash_of 1) (hash_of 2) pricing_id (Recovery RecoveryNone 1 0)
    (js "alice") 100 50 [Contribution (js "node-b") 1; Contribution (js "node-a") 2] 10.

Definition history : list ledger_op := [OpPricing pricing; OpEvidence (hash_of 2) proof_doc].
Definition before : db :=
  ledger_run toy_hash compareUtf16Ordinal key true toy_sign history empty_db.
Definition outcome : res (EconomicSettlement * db) :=
  settle toy_hash compareUtf16Ordinal key true toy_sign request before.

Definition settlement_of (r : res (EconomicSettlement * db)) : EconomicSettlement * db :=
  match r with
  | Ok x => x
  | Err _ => (Settled (SettlementOf [] request 0 0 0 []) []
                (SignedReceipt (Body [] [] [] [] [] None [] 0 0 0 [] 0) [] [] []), empty_db)
  end.

Lemma outcome_ok :
  settle toy_hash compareUtf16Ordinal key true toy_sign request
    (ledger_run toy_hash compareUtf16Ordinal key true toy_sign history empty_db)
  = Ok ((settlement_of outcome).1, (settlement_of outcome).2).
Proof. vm_compute. reflexivity. Qed.

Lemma distribute_exact_witness :
  exists credits, distribute compareUtf16Ordinal 255 (contributors request) = Ok credits
  /\ zsum amountMicrounits credits = 255.
Proof.
  destruct (distribute_exact compareUtf16Ordinal 255 (contributors request)) as (credits & Hd & Hs & _).
  - vm_compute. split; discriminate.
  - repeat constructor; simpl; lia.
  - discriminate.
  - exists credits. split; [exact Hd|exact Hs].
Defined.

Lemma settle_failures_witness : "economic_pricing_policy_not_found"%string ∈ settle_errors.
Proof.
  apply (settle_failures toy_hash compareUtf16Ordinal key true toy_sign [] request).
  vm_compute. reflexivity.
Defined.

Lemma settle_once_witness :
  settle toy_hash compareUtf16Ordinal key true toy_sign request (settlement_of outcome).2
  = Ok ((settlement_of outcome).1, (settlement_of outcome).2).
Proof.
  destruct (settle_once toy_hash compareUtf16Ordinal key true toy_sign history request
    (settlement_of outcome).1 (settlement_of outcome).2) as (_ & _ & H & _).
  - exact outcome_ok.
  - exact H.
Defined.

(** Decidable form of [separated]: the ids involved are compared one by one. *)
Lemma separated_by_ids i kind owner d :
  forallb (fun a => negb (bool_decide (account_id toy_hash (ownerKind a) (ownerId a)
                                       = account_id toy_hash kind owner))
                    || (bool_decide (ownerKind a = kind) && bool_decide (ownerId a = owner)))
    (accounts d) = true ->
  forallb (fun ko => negb (bool_decide (account_id toy_hash ko.1 ko.2 = account_id toy_hash kind owner))
                     || (bool_decide (ko.1 = kind) && bool_decide (ko.2 = owner))) (owners i) = true ->
  separated toy_hash i kind owner d.
Proof.
  rewrite !forallb_forall. intros Ha Ho. split.
  - intros a Hin%list_elem_of_In E. specialize (Ha a Hin).
    rewrite (bool_decide_eq_true_2 (account_id _ _ _ = _)) in Ha by done. simpl in Ha. bool_prop. split; assumption.
  - intros k o Hin%list_elem_of_In E. specialize (Ho (k, o) Hin). cbn [fst snd] in Ho.
    rewrite (bool_decide_eq_true_2 (account_id _ _ _ = _)) in Ho by done. simpl in Ho. bool_prop. split; assumption.
Qed.

Lemma alice_separated : separated toy_hash request Account (js "alice") (settlement_of outcome).2.
Proof. apply separated_by_ids; vm_compute; reflexivity. Qed.

Lemma settle_moves_witness :
  balance Account (js "alice") before = Ok 0
  /\ exists credits, balance Account (js "alice") (settlement_of outcome).2
       = Ok (0 + moved request (settled_row (settlement_of outcome).1) credits Account (js "alice")).
Proof.
  split; [vm_compute; reflexivity|].
  destruct (settle_moves toy_hash compareUtf16Ordinal key true toy_sign history request
    (settlement_of outcome).1 (settlement_of outcome).2) as (credits & _ & H).
  - exact outcome_ok.
  - vm_compute. apply not_elem_of_nil.
  - exists credits. apply H; [|vm_compute; reflexivity]. apply alice_separated.
Defined.

Definition sample_body : ReceiptBody :=
  Body (hash_of 4) (js "job-1") (hash_of 1) (hash_of 2) (hash_of 3) (Some (Recovery RecoveryNone 1 0))
    (hash_of 5) 300 255 45 [Credited (hash_of 6) 85; Credited (hash_of 7) 170] 10.
Definition sample_receipt : Receipt :=
  let id := sha toy_hash (JObj (receipt_fields sample_body)) in
  SignedReceipt sample_body id key (toy_sign (receipt_text sample_body id key)).

Lemma receipt_round_trip_witness :
  verifyEconomicSettlementReceipt toy_hash key true true toy_verify sample_receipt = Ok sample_receipt.
Proof.
  destruct (receipt_round_trip toy_hash key true toy_sign toy_verify) as [H _].
  - intros m. apply bool_decide_eq_true_2. reflexivity.
  - apply (H sample_body). vm_compute. reflexivity.
Defined.
