(* ===== verification/Base64.v ===== *)
(** * Base64

    [buffer.toString("base64")] and [Buffer.from(text, "base64")]: three bytes
    are four characters, the last group is padded, and the decoder skips the
    characters that are not of the alphabet.  The variant [base64url] writes two
    characters of the alphabet differently and leaves the padding out; the decoder
    is the same. *)

From S2P Require Import Prelude JsString.

#[local] Open Scope Z_scope.

(** The character of a six-bit value, and back. *)
Definition b64_char (v : Z) : Z :=
  if v <? 26 then 65 + v else if v <? 52 then 71 + v else if v <? 62 then v - 4
  else if v =? 62 then 43 else 47.

Definition b64_value (c : Z) : option Z :=
  if (65 <=? c) && (c <=? 90) then Some (c - 65)
  else if (97 <=? c) && (c <=? 122) then Some (c - 71)
  else if (48 <=? c) && (c <=? 57) then Some (c + 4)
  else if (c =? 43) || (c =? 45) then Some 62
  else if (c =? 47) || (c =? 95) then Some 63
  else None.

Definition PAD : Z := 61.

Fixpoint b64_encode (b : bytes) : jsstring :=
  match b with
  | [] => []
  | [x] => [b64_char (x / 4); b64_char (x mod 4 * 16); PAD; PAD]
  | [x; y] => [b64_char (x / 4); b64_char (x mod 4 * 16 + y / 16); b64_char (y mod 16 * 4); PAD]
  | x :: y :: z :: rest =>
      [b64_char (x / 4); b64_char (x mod 4 * 16 + y / 16); b64_char (y mod 16 * 4 + z / 64);
       b64_char (z mod 64)] ++ b64_encode rest
  end.

(** The bytes of a list of six-bit values; bits that do not fill a byte are
    dropped. *)
Fixpoint sextets (l : list Z) : bytes :=
  match l with
  | a :: b :: c :: d :: rest =>
      [a * 4 + b / 16; b mod 16 * 16 + c / 4; c mod 4 * 64 + d] ++ sextets rest
  | [a; b; c] => [a * 4 + b / 16; b mod 16 * 16 + c / 4]
  | [a; b] => [a * 4 + b / 16]
  | _ => []
  end.

Definition b64_decode (s : jsstring) : bytes := sextets (omap b64_value s).

Lemma b64_value_char v : 0 <= v < 64 -> b64_value (b64_char v) = Some v.
Proof.
  intros Hv. unfold b64_char.
  destruct (Z.ltb_spec v 26); [|destruct (Z.ltb_spec v 52); [|destruct (Z.ltb_spec v 62);
    [|destruct (Z.eqb_spec v 62)]]]; unfold b64_value;
    repeat match goal with |- context [?a <=? ?b] => destruct (Z.leb_spec a b); try lia end;
    simpl; f_equal; lia.
Qed.

Lemma b64_ind (P : bytes -> Prop) :
  P [] -> (forall x, P [x]) -> (forall x y, P [x; y]) ->
  (forall x y z l, P l -> P (x :: y :: z :: l)) -> forall l, P l.
Proof.
  intros H0 H1 H2 H3. fix IH 1. intros [|x [|y [|z l]]]; [done|apply H1|apply H2|apply H3, IH].
Qed.

(** What is decoded is what was encoded. *)
Lemma b64_round_trip (b : bytes) : Forall is_byte b -> b64_decode (b64_encode b) = b.
Proof.
  unfold b64_decode. induction b as [|x|x y|x y z l IH] using b64_ind; intros H; [done|..];
    repeat match goal with H : Forall _ (_ :: _) |- _ =>
      apply Forall_cons in H as [? H] end; unfold is_byte in *; cbn [b64_encode app omap list_omap].
  - rewrite !b64_value_char by zdiv_lia. simpl. f_equal. zdiv_lia.
  - rewrite !b64_value_char by zdiv_lia. simpl. repeat f_equal; zdiv_lia.
  - rewrite !b64_value_char by zdiv_lia. cbn [sextets app].
    rewrite IH by done. repeat f_equal; zdiv_lia.
Qed.

Lemma b64_encode_length (b : bytes) :
  Z.of_nat (length (b64_encode b)) = 4 * ((byteLength b + 2) / 3).
Proof.
  unfold byteLength. induction b as [|x|x y|x y z l IH] using b64_ind; [done..|].
  cbn [b64_encode app length]. rewrite !Nat2Z.inj_succ, IH. zdiv_lia.
Qed.

(** ** [base64url] *)

Definition url_char (c : Z) : Z := if c =? 43 then 45 else if c =? 47 then 95 else c.

Definition b64url_encode (b : bytes) : jsstring :=
  map url_char (filter (fun c => c <> PAD) (b64_encode b)).

(** The class [[A-Za-z0-9_-]]. *)
Definition is_url_char (c : Z) : bool :=
  ((65 <=? c) && (c <=? 90)) || ((97 <=? c) && (c <=? 122)) || ((48 <=? c) && (c <=? 57))
  || (c =? 95) || (c =? 45).

Lemma b64_value_url c : b64_value (url_char c) = b64_value c.
Proof.
  unfold url_char. destruct (Z.eqb_spec c 43) as [->|]; [done|].
  by destruct (Z.eqb_spec c 47) as [->|].
Qed.

Lemma b64_decode_url l : b64_decode (map url_char (filter (fun c => c <> PAD) l)) = b64_decode l.
Proof.
  unfold b64_decode. f_equal. induction l as [|c l IH]; [done|].
  rewrite filter_cons. case_decide as Hc; cbn [map omap list_omap].
  - rewrite b64_value_url. fold (omap (M := list) b64_value). by rewrite IH.
  - assert (c = PAD) as -> by (destruct (Z.eq_dec c PAD); [done|by destruct Hc]).
    exact IH.
Qed.

Lemma b64url_round_trip (b : bytes) : Forall is_byte b -> b64_decode (b64url_encode b) = b.
Proof. intros Hb. unfold b64url_encode. by rewrite b64_decode_url, b64_round_trip. Qed.

Lemma url_char_b64_char v : 0 <= v < 64 -> is_url_char (url_char (b64_char v)) = true.
Proof.
  intros Hv. unfold url_char, b64_char, is_url_char.
  repeat match goal with |- context [?a <? ?b] => destruct (Z.ltb_spec a b) end;
    repeat match goal with |- context [?a =? ?b] => destruct (Z.eqb_spec a b) end; lia.
Qed.

Lemma b64_encode_chars (b : bytes) :
  Forall is_byte b ->
  Forall (fun c => c = PAD \/ is_url_char (url_char c) = true) (b64_encode b).
Proof.
  induction b as [|x|x y|x y z l IH] using b64_ind; intros H; [done|..];
    repeat match goal with H : Forall _ (_ :: _) |- _ =>
      apply Forall_cons in H as [? H] end; unfold is_byte in *; cbn [b64_encode app];
    repeat (apply Forall_cons; split;
      [first [by left | right; apply url_char_b64_char; zdiv_lia]|]); auto.
Qed.

Lemma b64url_encode_chars (b : bytes) :
  Forall is_byte b -> Forall (fun c => is_url_char c = true) (b64url_encode b).
Proof.
  intros Hb. apply b64_encode_chars in Hb. apply Forall_fmap, Forall_forall. intros c Hc.
  apply list_elem_of_filter in Hc as [Hp Hc]. rewrite Forall_forall in Hb.
  by destruct (Hb c Hc).
Qed.

Lemma b64url_encode_32 (b : bytes) :
  Forall is_byte b -> length b = 32%nat -> (length (b64url_encode b) <= 44)%nat.
Proof.
  intros Hb Hl. unfold b64url_encode. rewrite length_map.
  pose proof (length_filter (fun c => c <> PAD) (b64_encode b)).
  pose proof (b64_encode_length b) as E. unfold byteLength in E. rewrite Hl in E.
  change (4 * ((Z.of_nat 32 + 2) / 3)) with 44 in E. lia.
Qed.

Lemma b64_char_ne_pad v : 0 <= v < 64 -> b64_char v <> PAD.
Proof. intros Hv E. pose proof (b64_value_char v Hv) as H. by rewrite E in H. Qed.

(** Six bits to a character. *)
Lemma b64url_encode_length (b : bytes) :
  Forall is_byte b -> Z.of_nat (length (b64url_encode b)) = (4 * byteLength b + 2) / 3.
Proof.
  unfold b64url_encode, byteLength. induction b as [|x|x y|x y z l IH] using b64_ind; intros H; [done|..];
    repeat match goal with H : Forall _ (_ :: _) |- _ =>
      apply Forall_cons in H as [? H] end; unfold is_byte in *; cbn [b64_encode app];
    rewrite !filter_cons, !(decide_True (P := b64_char _ <> PAD)) by (apply b64_char_ne_pad; zdiv_lia).
  - done.
  - done.
  - rewrite length_map in *. cbn [length]. rewrite !Nat2Z.inj_succ, IH by done. zdiv_lia.
Qed.
