(* ===== verification/DirectGrant.v ===== *)
(** * Direct session grants

    The grants of [src/src/transport/direct-secure-channel.ts], which the
    coordinator hands to the two ends of a direct route, and the validators the
    handshake and the grants share. *)

From S2P Require Import Prelude JsString JsMap JsSort JsonText CanonicalJson JsonParse Base64.

#[local] Open Scope Z_scope.

Definition DIRECT_TRANSPORT_PROTOCOL : jsstring := js "mycellios-direct/1".

(** ** Validators *)

(** [/[\u0000-\u001f\u007f]/.test(s)]. *)
Definition has_control (s : jsstring) : bool := existsb is_control s.

Definition text (v : value) (maximum : Z) (code : string) : res jsstring :=
  match v with
  | VStr s =>
      let normalized := trim s in
      throw_if bool_decide (normalized = []) || (maximum <? utf16_length normalized)
               || has_control normalized with code ;;
      Ok normalized
  | _ => Err code
  end.

Definition identifier (v : value) (code : string) : res jsstring := text v 192 code.

Definition boundedPort (n : num) : res Z :=
  match n with
  | NInt z => throw_if (z <? 0) || (65535 <? z) with "direct_transport_port_is_invalid" ;; Ok z
  | NFrac => Err "direct_transport_port_is_invalid"
  end.

Definition boundedPositiveInteger (n : option num) (fallback minimum maximum : Z) : res Z :=
  match default (NInt fallback) n with
  | NInt z => throw_if (z <? minimum) || (maximum <? z) with "direct_transport_limit_is_invalid" ;; Ok z
  | NFrac => Err "direct_transport_limit_is_invalid"
  end.

Definition base64Bytes (s : jsstring) (len : Z) (code : string) : res bytes :=
  throw_if bool_decide (s = []) || negb (forallb is_url_char s) with code ;;
  let b := b64_decode s in
  throw_if negb (byteLength b =? len) || negb (bool_decide (b64url_encode b = s)) with code ;;
  Ok b.

Definition string_before (a b : jsstring) : bool := compareUtf16Ordinal a b <=? 0.

(** The properties of an object that has exactly the properties [keys]. *)
Definition strictRecord (v : value) (keys : list jsstring) (code : string)
    : res (list (jsstring * value)) :=
  match v with
  | VObj record =>
      throw_if negb (bool_decide (sort_by string_before (map_keys record)
                                  = sort_by string_before keys)) with code ;;
      Ok record
  | _ => Err code
  end.

(** [record.key]; a property that is absent is [undefined], which no validator
    accepts, as it accepts no [null]. *)
Definition property (record : list (jsstring * value)) (key : jsstring) : value :=
  default VNull (map_get record key).

(** ** Grants *)

Record DirectSessionGrant := Grant {
  grant_protocol : jsstring;
  grant_connectionId : jsstring;
  grant_sourceNodeId : jsstring;
  grant_destinationNodeId : jsstring;
  grant_targetPort : Z;
  grant_expiresAt : Z;
  grant_secret : jsstring;
}.

(** The grant with the text of its secret given, from fields that are validated. *)
Definition grantFor (connectionId sourceNodeId destinationNodeId : jsstring)
    (targetPort expiresAt : num) (secret : jsstring) : res DirectSessionGrant :=
  let? connectionId := identifier (VStr connectionId) "direct_connection_id_is_invalid" in
  let? sourceNodeId := identifier (VStr sourceNodeId) "direct_source_node_id_is_invalid" in
  let? destinationNodeId :=
    identifier (VStr destinationNodeId) "direct_destination_node_id_is_invalid" in
  throw_if bool_decide (sourceNodeId = destinationNodeId)
    with "direct_transport_requires_distinct_nodes" ;;
  let? targetPort := boundedPort targetPort in
  match expiresAt with
  | NInt expiresAt =>
      throw_if negb (is_safe expiresAt) || (expiresAt <=? 0) with "direct_transport_expiry_is_invalid" ;;
      Ok (Grant DIRECT_TRANSPORT_PROTOCOL connectionId sourceNodeId destinationNodeId targetPort
            expiresAt secret)
  | NFrac => Err "direct_transport_expiry_is_invalid"
  end.

(** [secret] is [input.secret], or what [randomBytes(32)] returned. *)
Definition createDirectSessionGrant (connectionId sourceNodeId destinationNodeId : jsstring)
    (targetPort expiresAt : num) (secret : bytes) : res DirectSessionGrant :=
  let? g := grantFor connectionId sourceNodeId destinationNodeId targetPort expiresAt
              (b64url_encode secret) in
  throw_if negb (byteLength secret =? 32) with "direct_transport_secret_is_invalid" ;;
  Ok g.

Definition grantSecret (g : DirectSessionGrant) : res bytes :=
  base64Bytes (grant_secret g) 32 "direct_transport_secret_is_invalid".

Definition validateGrant (g : DirectSessionGrant) (now : Z) : res unit :=
  throw_if negb (bool_decide (grant_protocol g = DIRECT_TRANSPORT_PROTOCOL))
    with "direct_transport_grant_protocol_is_invalid" ;;
  let? _ := identifier (VStr (grant_connectionId g)) "direct_connection_id_is_invalid" in
  let? _ := identifier (VStr (grant_sourceNodeId g)) "direct_source_node_id_is_invalid" in
  let? _ := identifier (VStr (grant_destinationNodeId g)) "direct_destination_node_id_is_invalid" in
  let? _ := boundedPort (NInt (grant_targetPort g)) in
  let? _ := grantSecret g in
  throw_if negb (is_safe (grant_expiresAt g)) || (grant_expiresAt g <=? now)
    with "direct_transport_grant_is_expired" ;;
  Ok tt.

(** ** What the validators accept *)

(** A normalised text of at most [n] code units. *)
Definition normal (n : Z) (s : jsstring) : Prop :=
  trim s = s /\ s <> [] /\ utf16_length s <= n /\ has_control s = false.

Lemma text_inv v n code t :
  text v n code = Ok t -> exists s, v = VStr s /\ t = trim s /\ normal n t.
Proof.
  unfold text. destruct v as [| | |s| |]; try done.
  destruct (_ || _) eqn:E; [done|]. intros [= <-]. bool_prop.
  exists s. split_and!; [done|done|]. unfold normal.
  rewrite trim_id by apply trim_is_trimmed. split_and!; done || lia.
Qed.

Lemma text_normal n s code : normal n s -> text (VStr s) n code = Ok s.
Proof.
  intros (Ht & Hn & Hl & Hc). unfold text. rewrite Ht, Hc, bool_decide_false by done.
  replace (n <? utf16_length s) with false by lia. done.
Qed.

Lemma boundedPort_inv n z : boundedPort n = Ok z -> n = NInt z /\ 0 <= z <= 65535.
Proof.
  unfold boundedPort. destruct n as [x|]; [|done].
  destruct (_ || _) eqn:E; [done|]. intros [= <-]. bool_prop. split; [done|lia].
Qed.

Lemma boundedPort_ok z : 0 <= z <= 65535 -> boundedPort (NInt z) = Ok z.
Proof.
  intros Hz. unfold boundedPort. replace ((z <? 0) || (65535 <? z)) with false by lia. done.
Qed.

Lemma boundedPositiveInteger_inv n f lo hi z :
  boundedPositiveInteger n f lo hi = Ok z -> lo <= z <= hi.
Proof.
  unfold boundedPositiveInteger. destruct (default _ n) as [x|]; [|done].
  destruct (_ || _) eqn:E; [done|]. intros [= <-]. bool_prop. lia.
Qed.

Lemma base64Bytes_inv s n code b :
  base64Bytes s n code = Ok b -> byteLength b = n /\ b64url_encode b = s /\ Forall (fun c => is_url_char c = true) s.
Proof.
  unfold base64Bytes. destruct (_ || negb (forallb _ _)) eqn:E1; [done|].
  destruct (_ || negb (bool_decide _)) eqn:E2; [done|]. intros [= <-]. bool_prop.
  split_and!; [done|done|].
  apply Forall_forall. intros c Hc.
  match goal with H : forallb _ _ = true |- _ => rewrite forallb_forall in H; apply H end.
  by apply list_elem_of_In.
Qed.

Lemma base64Bytes_err s n code c : base64Bytes s n code = Err c -> c = code.
Proof.
  unfold base64Bytes. destruct (bool_decide _ || _); [by intros [= ->]|].
  destruct (negb _ || _); [by intros [= ->]|done].
Qed.

Lemma base64Bytes_encode b code :
  Forall is_byte b -> b <> [] -> base64Bytes (b64url_encode b) (byteLength b) code = Ok b.
Proof.
  intros Hb Hn. unfold base64Bytes. rewrite b64url_round_trip by done.
  rewrite Z.eqb_refl, (bool_decide_true (b64url_encode b = b64url_encode b)) by done.
  rewrite bool_decide_false; simpl.
  - pose proof (b64url_encode_chars b Hb) as Hc.
    replace (forallb is_url_char (b64url_encode b)) with true; [done|].
    symmetry. apply forallb_forall. rewrite Forall_forall in Hc. intros c Hin.
    by apply Hc, list_elem_of_In.
  - intros E. apply (f_equal b64_decode) in E. rewrite b64url_round_trip in E by done. done.
Qed.

(** The grants [createDirectSessionGrant] makes. *)
Record grant_ok (g : DirectSessionGrant) : Prop := {
  gok_protocol : grant_protocol g = DIRECT_TRANSPORT_PROTOCOL;
  gok_connection : normal 192 (grant_connectionId g);
  gok_source : normal 192 (grant_sourceNodeId g);
  gok_destination : normal 192 (grant_destinationNodeId g);
  gok_distinct : grant_sourceNodeId g <> grant_destinationNodeId g;
  gok_port : 0 <= grant_targetPort g <= 65535;
  gok_expiry : is_safe (grant_expiresAt g) = true;
  gok_secret : exists b, grantSecret g = Ok b;
}.

Lemma createDirectSessionGrant_ok c s d p e secret g :
  Forall is_byte secret -> createDirectSessionGrant c s d p e secret = Ok g ->
  grant_ok g /\ grantSecret g = Ok secret
  /\ grant_connectionId g = trim c /\ grant_sourceNodeId g = trim s
  /\ grant_destinationNodeId g = trim d /\ p = NInt (grant_targetPort g) /\ e = NInt (grant_expiresAt g).
Proof.
  intros Hb. unfold createDirectSessionGrant, grantFor, identifier.
  destruct (text _ _ "direct_connection_id_is_invalid") as [c'|] eqn:Ec; [|done].
  destruct (text _ _ "direct_source_node_id_is_invalid") as [s'|] eqn:Es; [|done].
  destruct (text _ _ "direct_destination_node_id_is_invalid") as [d'|] eqn:Ed; [|done].
  destruct (bool_decide (s' = d')) eqn:Ene; [done|].
  destruct (boundedPort p) as [p'|] eqn:Ep; [|done].
  destruct e as [e|]; [|done].
  destruct (_ || (e <=? 0)) eqn:Ee; [done|].
  destruct (negb (byteLength secret =? 32)) eqn:El; [done|]. intros [= <-]. bool_prop.
  apply text_inv in Ec as (? & [= <-] & -> & Hc), Es as (? & [= <-] & -> & Hs),
    Ed as (? & [= <-] & -> & Hd).
  apply boundedPort_inv in Ep as [-> Hp].
  assert (Hsec : base64Bytes (b64url_encode secret) 32 "direct_transport_secret_is_invalid" = Ok secret).
  { rewrite <- El. apply base64Bytes_encode; [done|]. by intros ->. }
  split_and!; [|exact Hsec|done..]. split; try done. by exists secret.
Qed.

Lemma validateGrant_ok g now : grant_ok g -> now < grant_expiresAt g -> validateGrant g now = Ok tt.
Proof.
  intros [Hp Hc Hs Hd _ Ht He [b Hb]] Hn. unfold validateGrant, identifier.
  rewrite bool_decide_true, !text_normal, boundedPort_ok, Hb, He by done. simpl.
  replace (grant_expiresAt g <=? now) with false by lia. done.
Qed.

Lemma validateGrant_inv g now :
  validateGrant g now = Ok tt -> now < grant_expiresAt g /\ exists b, grantSecret g = Ok b.
Proof.
  unfold validateGrant. destruct (negb (bool_decide _)); [done|].
  repeat (destruct (identifier _ _); [|done]). destruct (boundedPort _); [|done].
  destruct (grantSecret g) as [b|]; [|done].
  destruct (_ || _) eqn:E; [done|]. intros _. bool_prop. split; [lia|eauto].
Qed.
