(* ===== verification/DirectChannel.v ===== *)
(** * The direct secure channel

    [SocketReader] and [DirectSecureChannel] of
    [src/src/transport/direct-secure-channel.ts]: frames sealed with AES-256-GCM
    over a TCP socket, with a sequence number each way.

    The receive loop is cut at its [await]s: [phase] is where it stands and [loop]
    runs it to the next one, so that the events of the socket and the calls of the
    application come in between in every possible way.  The cipher is a parameter.
    [sealed] keeps the plaintexts that were sealed, [written] the bytes handed to
    the socket; waiting for the socket to drain changes nothing. *)

From S2P Require Import Prelude JsString DirectGrant.

#[local] Open Scope Z_scope.

Definition FRAME_HEADER_BYTES : Z := 12.
Definition AUTH_TAG_BYTES : Z := 16.
Definition DEFAULT_MAX_FRAME_BYTES : Z := 64 * 1024.

(** ** The reader of a socket *)

Record SocketReader := Reader { buffer : bytes; endedError : option string }.

(** Reading a number of bytes: they are there, or an error, or nothing yet. *)
Inductive reading :=
| Read (value : bytes) (rest : SocketReader)
| Fails (code : string)
| Waits.

Definition readExactly (n : Z) (r : SocketReader) : reading :=
  if byteLength (buffer r) <? n then
    match endedError r with Some code => Fails code | None => Waits end
  else Read (subarray (buffer r) 0 n) (Reader (drop (Z.to_nat n) (buffer r)) (endedError r)).

Definition on_data (chunk : bytes) (r : SocketReader) : SocketReader :=
  Reader (buffer r ++ chunk) (endedError r).
Definition on_end (r : SocketReader) : SocketReader :=
  Reader (buffer r) (Some "direct_transport_socket_ended"%string).
Definition on_error (code : string) (r : SocketReader) : SocketReader :=
  Reader (buffer r) (Some code).
Definition on_close (r : SocketReader) : SocketReader :=
  Reader (buffer r) (Some (default "direct_transport_socket_closed"%string (endedError r))).

(** ** The channel *)

(** Where the receive loop stands. *)
Inductive phase :=
| Idle                                                  (* not started *)
| Top                                                   (* at the test of the loop *)
| AwaitHeader
| HaveHeader (header : bytes)
| AwaitBody (header : bytes) (sequence len : Z)
| HaveBody (header : bytes) (sequence len : Z) (body : bytes)
| Stopped.                                              (* returned or thrown *)

Inductive emission := Data (plaintext : bytes) | Failed (code : string) | Closed.

Record channel := Channel {
  writeSequence : Z;
  readSequence : Z;
  closed : bool;
  closing : bool;              (* close() waits for the socket *)
  destroyed : bool;            (* socket.destroyed *)
  reader : SocketReader;
  at_phase : phase;
  writeKey : bytes;
  readKey : bytes;
  channelId : jsstring;        (* connectionId *)
  maximumFrameBytes : Z;
  written : bytes;
  sealed : list bytes;
  emitted : list emission;
}.

Definition newChannel (r : SocketReader) (wkey rkey : bytes) (id : jsstring) (maximum : Z) : channel :=
  Channel 0 0 false false false r Idle wkey rkey id maximum [] [] [].

Definition set_phase (p : phase) (c : channel) : channel :=
  Channel (writeSequence c) (readSequence c) (closed c) (closing c) (destroyed c) (reader c) p
    (writeKey c) (readKey c) (channelId c) (maximumFrameBytes c) (written c) (sealed c) (emitted c).

Definition set_reader (r : SocketReader) (c : channel) : channel :=
  Channel (writeSequence c) (readSequence c) (closed c) (closing c) (destroyed c) r (at_phase c)
    (writeKey c) (readKey c) (channelId c) (maximumFrameBytes c) (written c) (sealed c) (emitted c).

Definition set_ends (now_closed now_closing now_destroyed : bool) (c : channel) : channel :=
  Channel (writeSequence c) (readSequence c) now_closed now_closing now_destroyed (reader c) (at_phase c)
    (writeKey c) (readKey c) (channelId c) (maximumFrameBytes c) (written c) (sealed c) (emitted c).

Definition emit (e : emission) (c : channel) : channel :=
  Channel (writeSequence c) (readSequence c) (closed c) (closing c) (destroyed c) (reader c) (at_phase c)
    (writeKey c) (readKey c) (channelId c) (maximumFrameBytes c) (written c) (sealed c)
    (emitted c ++ [e]).

(** A frame goes out. *)
Definition wrote (data frame : bytes) (c : channel) : channel :=
  Channel (writeSequence c + 1) (readSequence c) (closed c) (closing c) (destroyed c) (reader c)
    (at_phase c) (writeKey c) (readKey c) (channelId c) (maximumFrameBytes c) (written c ++ frame)
    (sealed c ++ [data]) (emitted c).

(** A frame has come in. *)
Definition received (data : bytes) (c : channel) : channel :=
  Channel (writeSequence c) (readSequence c + 1) (closed c) (closing c) (destroyed c) (reader c) Top
    (writeKey c) (readKey c) (channelId c) (maximumFrameBytes c) (written c) (sealed c)
    (emitted c ++ [Data data]).

Definition start (c : channel) : channel :=
  match at_phase c with Idle => set_phase Top c | _ => c end.

Definition destroy (c : channel) : channel :=
  if closed c then c else emit Closed (set_ends true (closing c) true c).

(** [close()] up to its [await], and what follows it. *)
Definition close (c : channel) : channel :=
  if closed c then c
  else if destroyed c then emit Closed (set_ends true (closing c) true c)
  else set_ends true true false c.

Definition close_resumed (c : channel) : channel :=
  if closing c then emit Closed (set_ends (closed c) false true c) else c.

(** The receive loop threw: the handler [start] installed. *)
Definition loop_fails (code : string) (c : channel) : channel :=
  let c := set_phase Stopped c in
  if closed c then c else destroy (emit (Failed code) c).

Definition frame_header (sequence len : Z) : bytes := be_write 8 sequence ++ be_write 4 len.

Definition frameAad (id : jsstring) (header : bytes) : bytes :=
  utf8_encode (DIRECT_TRANSPORT_PROTOCOL ++ [0] ++ id ++ [0]) ++ header.

Definition frameNonce (sequence : Z) : bytes := be_write 4 0x4d594331 ++ be_write 8 sequence.

Section Channel.
(** AES-256-GCM of [node:crypto]: key, nonce, additional data, text; the
    encryption gives the ciphertext and the tag. *)
Context (gcm_encrypt : bytes -> bytes -> bytes -> bytes -> bytes * bytes)
  (gcm_decrypt : bytes -> bytes -> bytes -> bytes -> bytes -> option bytes).

(** The frame that carries [data]. *)
Definition sealed_frame (key : bytes) (id : jsstring) (sequence : Z) (data : bytes) : bytes :=
  let header := frame_header sequence (byteLength data) in
  let '(encrypted, tag) := gcm_encrypt key (frameNonce sequence) (frameAad id header) data in
  header ++ encrypted ++ tag.

(** Beyond 64 bits [writeBigUInt64BE] throws. *)
Definition send (data : bytes) : SE channel unit :=
  let! c := se_get in
  fail_if closed c || destroyed c with "direct_channel_is_closed" ;;
  fail_if (byteLength data <? 1) || (maximumFrameBytes c <? byteLength data)
    with "direct_frame_size_is_invalid" ;;
  fail_if 2 ^ 64 <=? writeSequence c with "ERR_OUT_OF_RANGE" ;;
  se_modify (wrote data (sealed_frame (writeKey c) (channelId c) (writeSequence c) data)).

(** The receive loop, up to its next [await]. *)
Definition loop (c : channel) : channel :=
  match at_phase c with
  | Idle | Stopped => c
  | Top => set_phase (if closed c then Stopped else AwaitHeader) c
  | AwaitHeader =>
      match readExactly FRAME_HEADER_BYTES (reader c) with
      | Read header r => set_phase (HaveHeader header) (set_reader r c)
      | Fails code => loop_fails code c
      | Waits => c
      end
  | HaveHeader header =>
      let sequence := be_read (subarray header 0 8) in
      let len := be_read (subarray header 8 12) in
      if negb (sequence =? readSequence c) then loop_fails "direct_frame_sequence_is_invalid" c
      else if (len <? 1) || (maximumFrameBytes c <? len) then loop_fails "direct_frame_size_is_invalid" c
      else set_phase (AwaitBody header sequence len) c
  | AwaitBody header sequence len =>
      match readExactly (len + AUTH_TAG_BYTES) (reader c) with
      | Read body r => set_phase (HaveBody header sequence len body) (set_reader r c)
      | Fails code => loop_fails code c
      | Waits => c
      end
  | HaveBody header sequence len body =>
      let encrypted := subarray body 0 len in
      let tag := drop (Z.to_nat len) body in
      match gcm_decrypt (readKey c) (frameNonce sequence) (frameAad (channelId c) header) encrypted tag with
      | None => loop_fails "direct_frame_authentication_failed" c
      | Some plaintext => received plaintext c
      end
  end.

(** ** Runs *)

(** What happens to a channel: the calls of the application, the events of its
    socket, the second that [close()] waits at most, and the receive loop going on.
    An error makes the socket destroy itself; it also rejects the [once] that
    [close()] waits with.  A destroyed socket delivers no data. *)
Inductive event :=
| Send (data : bytes)
| Close
| Destroy
| SocketData (chunk : bytes)
| SocketEnd
| SocketError (code : string)
| SocketClose
| CloseTimer
| Loop.

Definition step (c : channel) (e : event) : channel :=
  match e with
  | Send data => (send data c).2
  | Close => close c
  | Destroy => destroy c
  | SocketData chunk => if destroyed c then c else set_reader (on_data chunk (reader c)) c
  | SocketEnd => set_reader (on_end (reader c)) c
  | SocketError code => set_ends (closed c) false true (set_reader (on_error code (reader c)) c)
  | SocketClose =>
      close_resumed (set_ends (closed c) (closing c) true (set_reader (on_close (reader c)) c))
  | CloseTimer => close_resumed c
  | Loop => loop c
  end.

Definition run (es : list event) (c : channel) : channel := foldl step c es.
End Channel.

(** The plaintexts handed to the application. *)
Definition delivered (c : channel) : list bytes :=
  omap (fun e => match e with Data b => Some b | _ => None end) (emitted c).
