(* ===== verification/DirectChannelProps.v ===== *)
(** * What the direct secure channel guarantees

    Against a network that does as it likes, what a channel delivers is a prefix of
    what the other end sealed; over a network that only cuts the bytes into chunks,
    all of it is delivered. *)

From S2P Require Import Prelude JsString DirectGrant DirectChannel.

#[local] Open Scope Z_scope.
#[local] Arguments frame_header : simpl never.
#[local] Arguments sealed_frame : simpl never.

Lemma be_write_inj n x y :
  0 <= x < 2 ^ (8 * Z.of_nat n) -> 0 <= y < 2 ^ (8 * Z.of_nat n) ->
  be_write n x = be_write n y -> x = y.
Proof. intros Hx Hy E. rewrite <- (be_read_write_small n x), <- (be_read_write_small n y), E; done. Qed.

Lemma frameNonce_inj x y :
  0 <= x < 2 ^ 64 -> 0 <= y < 2 ^ 64 -> frameNonce x = frameNonce y -> x = y.
Proof. intros Hx Hy E. apply app_inv_head in E. by apply (be_write_inj 8) in E. Qed.

Lemma delivered_emit e c :
  delivered (emit e c) = delivered c ++ match e with Data b => [b] | _ => [] end.
Proof. unfold delivered. simpl. rewrite omap_app. by destruct e. Qed.

Lemma delivered_received d c : delivered (received d c) = delivered c ++ [d].
Proof. unfold delivered. simpl. by rewrite omap_app. Qed.

Lemma prefix_lookup {A} (l k : list A) :
  (forall i x, l !! i = Some x -> k !! i = Some x) -> l `prefix_of` k.
Proof.
  revert k. induction l as [|x l IH]; intros k H; [apply prefix_nil|].
  destruct k as [|y k]; [by specialize (H 0%nat x eq_refl)|].
  specialize (H 0%nat x eq_refl) as E. injection E as ->. apply prefix_cons, IH.
  intros i z Hz. apply (H (S i) z Hz).
Qed.

Section Props.
Context (gcm_encrypt : bytes -> bytes -> bytes -> bytes -> bytes * bytes)
  (gcm_decrypt : bytes -> bytes -> bytes -> bytes -> bytes -> option bytes).

Abbreviation csend := (send gcm_encrypt).
Abbreviation cstep := (step gcm_encrypt gcm_decrypt).
Abbreviation crun := (run gcm_encrypt gcm_decrypt).
Abbreviation cframe := (sealed_frame gcm_encrypt).

(** The bytes of the frames of [l], the first one numbered [n]. *)
Fixpoint frames (key : bytes) (id : jsstring) (n : Z) (l : list bytes) : bytes :=
  match l with
  | [] => []
  | d :: l' => cframe key id n d ++ frames key id (n + 1) l'
  end.

Lemma frames_app key id n l k :
  frames key id n (l ++ k) = frames key id n l ++ frames key id (n + Z.of_nat (length l)) k.
Proof.
  revert n. induction l as [|d l IH]; intros n; simpl.
  - by rewrite Z.add_0_r.
  - rewrite IH, <- app_assoc. do 3 f_equal. lia.
Qed.

(** ** The invariant of a channel *)

(** The loop works on the frame it expects next. *)
Definition expects (c : channel) : Prop :=
  match at_phase c with
  | AwaitBody h s _ | HaveBody h s _ _ => s = readSequence c
  | _ => True
  end.

Record chan_ok (wkey rkey : bytes) (id : jsstring) (m : Z) (c : channel) : Prop := {
  co_keys : writeKey c = wkey /\ readKey c = rkey /\ channelId c = id /\ maximumFrameBytes c = m;
  co_count : writeSequence c = Z.of_nat (length (sealed c)) /\ writeSequence c <= 2 ^ 64;
  co_written : written c = frames wkey id 0 (sealed c);
  co_sizes : Forall (fun d => 1 <= byteLength d <= m) (sealed c);
  co_read : readSequence c = Z.of_nat (length (delivered c));
  co_expects : expects c;
}.

Section Invariant.
Context (wkey rkey : bytes) (id : jsstring) (m : Z).
Abbreviation ok := (chan_ok wkey rkey id m).

Lemma newChannel_ok r : ok (newChannel r wkey rkey id m).
Proof. split; try done. Qed.

(** Nothing but the plaintexts, the sequence numbers and the phase matters. *)
Definition alike (c c' : channel) : Prop :=
  (writeKey c', readKey c', channelId c', maximumFrameBytes c')
  = (writeKey c, readKey c, channelId c, maximumFrameBytes c)
  /\ (writeSequence c', sealed c', written c') = (writeSequence c, sealed c, written c)
  /\ (readSequence c', delivered c') = (readSequence c, delivered c).

Lemma alike_ok c c' : alike c c' -> expects c' -> ok c -> ok c'.
Proof.
  intros ([= E1 E2 E3 E4] & [= E5 E6 E7] & [= E8 E9]) He [Hk Hc Hw Hs Hr _].
  split; rewrite ?E1, ?E2, ?E3, ?E4, ?E5, ?E6, ?E7, ?E8, ?E9; done.
Qed.

Lemma alike_refl c : alike c c.
Proof. done. Qed.

Lemma alike_trans a b c : alike a b -> alike b c -> alike a c.
Proof. unfold alike. intros (-> & -> & ->) (-> & -> & ->). done. Qed.

Lemma alike_emit e c : (match e with Data _ => False | _ => True end) -> alike c (emit e c).
Proof.
  intros He. split_and!; [done|done|]. rewrite delivered_emit.
  destruct e; [done|by rewrite app_nil_r..].
Qed.

Lemma alike_destroy c : alike c (destroy c) /\ at_phase (destroy c) = at_phase c
  /\ readSequence (destroy c) = readSequence c.
Proof.
  unfold destroy. destruct (closed c); [done|]. split_and!; [|done|done].
  eapply alike_trans; [|by apply alike_emit]. done.
Qed.

Lemma alike_close c : alike c (close c) /\ at_phase (close c) = at_phase c.
Proof.
  unfold close. destruct (closed c); [done|]. destruct (destroyed c); [|done].
  split; [|done]. eapply alike_trans; [|by apply alike_emit]. done.
Qed.

Lemma alike_close_resumed c : alike c (close_resumed c) /\ at_phase (close_resumed c) = at_phase c.
Proof.
  unfold close_resumed. destruct (closing c); [|done].
  split; [|done]. eapply alike_trans; [|by apply alike_emit]. done.
Qed.

Lemma alike_loop_fails code c : alike c (loop_fails code c) /\ at_phase (loop_fails code c) = Stopped.
Proof.
  unfold loop_fails. simpl. destruct (closed c); [done|].
  destruct (alike_destroy (emit (Failed code) (set_phase Stopped c))) as (Ha & Hp & _).
  rewrite Hp. split; [|done]. eapply alike_trans; [|exact Ha].
  eapply alike_trans; [|by apply alike_emit]. done.
Qed.

Lemma loop_fails_ok code c : ok c -> ok (loop_fails code c).
Proof.
  destruct (alike_loop_fails code c) as [Ha Hp]. intros Hc.
  eapply alike_ok; [exact Ha| |exact Hc]. unfold expects. by rewrite Hp.
Qed.

(** A change that is [alike] and keeps the phase. *)
Lemma alike_phase_ok c c' : alike c c' -> at_phase c' = at_phase c -> ok c -> ok c'.
Proof.
  intros Ha Hp Hc. eapply alike_ok; [exact Ha| |exact Hc]. destruct Hc as [_ _ _ _ _ He].
  unfold expects in *. rewrite Hp. destruct Ha as (_ & _ & [= -> _]). exact He.
Qed.

Lemma send_ok data c : ok c -> ok (csend data c).2.
Proof.
  intros Hc. unfold send, se_bind, se_get. cbn [fst snd].
  destruct (closed c || destroyed c); [done|].
  destruct ((byteLength data <? 1) || _) eqn:Es; [done|].
  destruct (2 ^ 64 <=? writeSequence c) eqn:E64; [done|].
  destruct Hc as [(Hwk & Hrk & Hid & Hm) Hn Hw Hs Hr He]. bool_prop.
  split; [done| | | |done|done].
  - simpl. rewrite length_app. simpl. lia.
  - simpl. rewrite frames_app, Hw, Hwk, Hid. simpl. rewrite app_nil_r. do 2 f_equal. lia.
  - simpl. apply Forall_app. split; [done|]. constructor; [lia|done].
Qed.

Lemma received_ok c d : ok c -> ok (received d c).
Proof.
  intros [Hk Hn Hw Hs Hr He]. split; try done. rewrite delivered_received, length_app. simpl. lia.
Qed.

Lemma loop_ok c : ok c -> ok (loop gcm_decrypt c).
Proof.
  intros Hc. unfold loop. destruct (at_phase c) as [| | |h|h s len|h s len body|] eqn:Hp; try done.
  - apply (alike_ok c); [done| |done]. unfold expects. simpl. by destruct (closed c).
  - destruct (readExactly _ _) as [h r|code|]; [|by apply loop_fails_ok|done].
    by apply (alike_ok c).
  - destruct (negb (_ =? readSequence c)) eqn:Es; [by apply loop_fails_ok|].
    destruct (_ || _); [by apply loop_fails_ok|]. apply (alike_ok c); [done| |done].
    unfold expects. simpl. bool_prop. done.
  - destruct (readExactly _ _) as [b r|code|]; [|by apply loop_fails_ok|done].
    apply (alike_ok c); [done| |done]. destruct Hc as [_ _ _ _ _ He].
    unfold expects in *. rewrite Hp in He. done.
  - destruct (gcm_decrypt _ _ _ _ _) as [d|] eqn:Hd; [|by apply loop_fails_ok].
    by apply received_ok.
Qed.

Lemma step_ok c e : ok c -> ok (cstep c e).
Proof.
  intros Hc. destruct e as [d| | |chunk| |code| | |]; cbn [step].
  - by apply send_ok.
  - destruct (alike_close c). by apply (alike_phase_ok c).
  - destruct (alike_destroy c) as (? & ? & _). by apply (alike_phase_ok c).
  - destruct (destroyed c); [done|]. by apply (alike_phase_ok c).
  - by apply (alike_phase_ok c).
  - by apply (alike_phase_ok c).
  - match goal with |- ok (close_resumed ?x) => destruct (alike_close_resumed x) as [Ha Hp] end.
    apply (alike_phase_ok c); [|done|done]. eapply alike_trans; [|exact Ha]. done.
  - destruct (alike_close_resumed c). by apply (alike_phase_ok c).
  - by apply loop_ok.
Qed.

Lemma run_ok es c : ok c -> ok (crun es c).
Proof. revert c. induction es as [|e es IH]; intros c Hc; [done|]. apply IH, step_ok, Hc. Qed.

Lemma start_ok c : ok c -> ok (start c).
Proof.
  intros Hc. unfold start. destruct (at_phase c); try done.
  by apply (alike_ok c).
Qed.
End Invariant.

(** ** An adversarial network *)

(** What the receive loop puts before the cipher in one step: nonce, additional data,
    ciphertext and tag. *)
Definition tried (c : channel) (e : event) : list (bytes * bytes * bytes * bytes) :=
  match e, at_phase c with
  | Loop, HaveBody header sequence len body =>
      [(frameNonce sequence, frameAad (channelId c) header, subarray body 0 len, drop (Z.to_nat len) body)]
  | _, _ => []
  end.

Fixpoint attempts (es : list event) (c : channel) : list (bytes * bytes * bytes * bytes) :=
  match es with
  | [] => []
  | e :: es' => tried c e ++ attempts es' (cstep c e)
  end.

(** What the cipher made of the [i]-th plaintext that a channel sealed. *)
Definition sealing (key : bytes) (id : jsstring) (i : nat) (d : bytes) : bytes * bytes * bytes * bytes :=
  let aad := frameAad id (frame_header (Z.of_nat i) (byteLength d)) in
  let '(encrypted, tag) := gcm_encrypt key (frameNonce (Z.of_nat i)) aad d in
  (frameNonce (Z.of_nat i), aad, encrypted, tag).

(** Whatever of [l] opens under [key] was sealed by [sender]: among the frames that
    arrived there is no forgery. *)
Definition unforged (key : bytes) (id : jsstring) (sender : channel) (l : list (bytes * bytes * bytes * bytes)) : Prop :=
  Forall (fun '(nonce, aad, encrypted, tag) =>
    gcm_decrypt key nonce aad encrypted tag <> None ->
    exists i d, sealed sender !! i = Some d /\ (nonce, aad, encrypted, tag) = sealing key id i d) l.

Lemma step_emits c e : emitted c `prefix_of` emitted (cstep c e).
Proof.
  destruct e as [d| | |chunk| |code| | |]; cbn [step];
    unfold send, close, destroy, close_resumed, loop, loop_fails, destroy, se_bind, se_get, se_modify;
    repeat (case_match; simpl; try done); try (by apply prefix_app_r); simpl;
    try (rewrite <- ?app_assoc; by apply prefix_app_r); done.
Qed.

(** One step delivers nothing, or what a tried frame opens to. *)
Lemma step_delivers wkey rkey id m c e :
  chan_ok wkey rkey id m c ->
  delivered (cstep c e) = delivered c
  \/ exists aad encrypted tag d,
       tried c e = [(frameNonce (Z.of_nat (length (delivered c))), aad, encrypted, tag)]
       /\ gcm_decrypt rkey (frameNonce (Z.of_nat (length (delivered c)))) aad encrypted tag = Some d
       /\ delivered (cstep c e) = delivered c ++ [d].
Proof.
  intros Hc.
  assert (Hal : forall c', alike c c' -> delivered c' = delivered c) by (intros c' (_ & _ & [= _ ->]); done).
  destruct e as [d| | |chunk| |code| | |]; cbn [step].
  - left. unfold send, se_bind, se_get. cbn [fst snd]. by repeat case_match.
  - left. apply Hal, alike_close.
  - left. apply Hal, alike_destroy.
  - left. by destruct (destroyed c).
  - by left.
  - by left.
  - left. match goal with |- delivered (close_resumed ?x) = _ => destruct (alike_close_resumed x) as [(_ & _ & [= _ ->]) _] end. done.
  - left. apply Hal, alike_close_resumed.
  - unfold loop, tried. destruct Hc as [(_ & Hrk & _ & _) _ _ _ Hr He].
    destruct (at_phase c) as [| | |h|h s len|h s len body|] eqn:Hp; try by left.
    + left. destruct (readExactly _ _); [done| |done]. apply Hal, alike_loop_fails.
    + left. destruct (negb _); [apply Hal, alike_loop_fails|]. destruct (_ || _); [apply Hal, alike_loop_fails|done].
    + left. destruct (readExactly _ _); [done| |done]. apply Hal, alike_loop_fails.
    + destruct (gcm_decrypt _ _ _ _ _) as [d|] eqn:Hd; [right|left; apply Hal, alike_loop_fails].
      unfold expects in He. rewrite Hp in He. subst s. rewrite Hrk, Hr in *.
      eexists _, _, _, d. split_and!; [done|exact Hd|apply delivered_received].
Qed.

(** What was delivered stays delivered. *)
Lemma run_keeps es c i d : delivered c !! i = Some d -> delivered (crun es c) !! i = Some d.
Proof.
  revert c. induction es as [|e es IH]; intros c Hd; [done|]. apply IH.
  assert (Hem : forall c', emitted c `prefix_of` emitted c' -> delivered c' !! i = Some d).
  { intros c' [l E]. unfold delivered in *. rewrite E, omap_app. by apply lookup_app_l_Some. }
  apply Hem, step_emits.
Qed.

(** So what a run delivers came out of the frames it tried, each under the nonce of its
    place. *)
Lemma run_delivers wkey rkey id m es c i d :
  chan_ok wkey rkey id m c -> (length (delivered c) <= i)%nat -> delivered (crun es c) !! i = Some d ->
  exists aad encrypted tag, (frameNonce (Z.of_nat i), aad, encrypted, tag) ∈ attempts es c
    /\ gcm_decrypt rkey (frameNonce (Z.of_nat i)) aad encrypted tag = Some d.
Proof.
  revert c. induction es as [|e es IH]; intros c Hc Hi Hd.
  { apply lookup_lt_Some in Hd. simpl in Hd. lia. }
  cbn [attempts]. pose proof (step_ok wkey rkey id m c e Hc) as Hc'.
  destruct (step_delivers wkey rkey id m c e Hc) as [E|(aad & enc & tag & d' & Ht & Ho & E)].
  - destruct (IH (cstep c e)) as (aad & enc & tag & Hin & Ho); [done|by rewrite E|done|].
    exists aad, enc, tag. split; [|done]. apply elem_of_app. by right.
  - destruct (decide (i = length (delivered c))) as [->|Hne].
    + assert (Hpre : delivered (crun es (cstep c e)) !! length (delivered c) = Some d').
      { apply (run_keeps es (cstep c e)). rewrite E. apply list_lookup_middle. done. }
      exists aad, enc, tag. assert (d = d') as -> by (apply (inj Some); by rewrite <- Hpre, <- Hd). split; [|done].
      apply elem_of_app. left. rewrite Ht. by left.
    + destruct (IH (cstep c e)) as (a' & e' & t' & Hin & Ho'); [done|rewrite E, length_app; simpl; lia|done|].
      exists a', e', t'. split; [|done]. apply elem_of_app. by right.
Qed.

Lemma delivered_sealed k1 k2 k3 id m m' s r es :
  (forall k n a p, gcm_decrypt k n a (gcm_encrypt k n a p).1 (gcm_encrypt k n a p).2 = Some p) ->
  chan_ok k1 k2 id m s -> chan_ok k3 k1 id m' r -> delivered r = [] -> unforged k1 id s (attempts es r) ->
  Z.of_nat (length (sealed s)) < 2 ^ 64 ->
  forall i d, delivered (crun es r) !! i = Some d -> sealed s !! i = Some d.
Proof.
  intros Hopen Hs Hr Hnil Ha Hn i. induction i as [i IH] using lt_wf_ind. intros d Hd.
  destruct (run_delivers k3 k1 id m' es r i d Hr) as (aad & enc & tag & Hin & Ho); [rewrite Hnil; simpl; lia|done|].
  unfold unforged in Ha. rewrite Forall_forall in Ha. destruct (Ha _ Hin ltac:(by rewrite Ho)) as (j & d' & Hj & E).
  assert (Hi : Z.of_nat i < 2 ^ 64).
  { destruct i as [|i]; [done|].
    assert (is_Some (delivered (crun es r) !! i)) as [d0 Hd0].
    { apply lookup_lt_is_Some. apply lookup_lt_Some in Hd. lia. }
    assert (Hlt := lookup_lt_Some _ _ _ (IH i ltac:(lia) d0 Hd0)). lia. }
  apply lookup_lt_Some in Hj as Hlt. unfold sealing in E.
  pose proof (Hopen k1 (frameNonce (Z.of_nat j)) (frameAad id (frame_header (Z.of_nat j) (byteLength d'))) d') as Hop.
  destruct (gcm_encrypt _ _ _ d') as [enc' tag']. apply pair_equal_spec in E as [[[En Ea]%pair_equal_spec Ee]%pair_equal_spec Et].
  apply frameNonce_inj in En; [|lia|lia]. replace i with j in * by lia. cbn [fst snd] in Hop. congruence.
Qed.

(** ** A network that only cuts the bytes into chunks *)

Section Honest.
Context (gcm_lengths : forall k n a p,
    length (gcm_encrypt k n a p).1 = length p /\ length (gcm_encrypt k n a p).2 = 16%nat)
  (gcm_opens : forall k n a p,
    gcm_decrypt k n a (gcm_encrypt k n a p).1 (gcm_encrypt k n a p).2 = Some p).
Context (key : bytes) (id : jsstring) (m : Z) (msgs : list bytes)
  (Hmax : m <= 8 * 1024 * 1024) (Hcount : Z.of_nat (length msgs) <= 2 ^ 64)
  (Hsizes : Forall (fun d => 1 <= byteLength d <= m) msgs).

Lemma frame_header_length s l : length (frame_header s l) = 12%nat.
Proof. unfold frame_header. by rewrite length_app, !length_be_write. Qed.

Lemma frame_header_fields s l :
  0 <= s < 2 ^ 64 -> 0 <= l < 2 ^ 32 ->
  be_read (subarray (frame_header s l) 0 8) = s /\ be_read (subarray (frame_header s l) 8 12) = l.
Proof.
  intros Hs Hl. unfold frame_header, subarray.
  change (Z.to_nat (8 - 0)) with 8%nat. change (Z.to_nat 0) with 0%nat.
  change (Z.to_nat (12 - 8)) with 4%nat. change (Z.to_nat 8) with 8%nat. rewrite drop_0.
  rewrite take_app_length' by (by rewrite length_be_write).
  rewrite drop_app_length' by (by rewrite length_be_write).
  rewrite take_ge by (by rewrite length_be_write).
  split; apply be_read_write_small; done.
Qed.

Lemma cframe_split s d :
  cframe key id s d
  = frame_header s (byteLength d)
    ++ (gcm_encrypt key (frameNonce s) (frameAad id (frame_header s (byteLength d))) d).1
    ++ (gcm_encrypt key (frameNonce s) (frameAad id (frame_header s (byteLength d))) d).2.
Proof. unfold sealed_frame. by destruct (gcm_encrypt _ _ _ _). Qed.

(** The bytes of the current frame that the loop has taken. *)
Definition held (p : phase) : bytes :=
  match p with
  | HaveHeader h | AwaitBody h _ _ => h
  | HaveBody h _ _ body => h ++ body
  | _ => []
  end.

(** Where the loop stands in frame [n]. *)
Definition reading_frame (n : nat) (p : phase) : Prop :=
  match p with
  | Top | AwaitHeader => True
  | HaveHeader h => length h = 12%nat
  | AwaitBody h s l => exists d, msgs !! n = Some d /\ s = Z.of_nat n /\ l = byteLength d
                         /\ h = frame_header s l
  | HaveBody h s l body => exists d, msgs !! n = Some d /\ s = Z.of_nat n /\ l = byteLength d
                         /\ h = frame_header s l /\ h ++ body = cframe key id s d
  | Idle | Stopped => False
  end.

(** [n] frames have been delivered and [rest] is still in the network. *)
Record receiving (n : nat) (rest : bytes) (c : channel) : Prop := {
  rc_keys : readKey c = key /\ channelId c = id /\ m <= maximumFrameBytes c;
  rc_open : closed c = false /\ destroyed c = false /\ endedError (reader c) = None;
  rc_done : delivered c = take n msgs /\ readSequence c = Z.of_nat n /\ (n <= length msgs)%nat;
  rc_phase : reading_frame n (at_phase c);
  rc_bytes : held (at_phase c) ++ buffer (reader c) ++ rest = frames key id (Z.of_nat n) (drop n msgs);
}.

Lemma receiving_start r rest wkey m' :
  m <= m' -> endedError r = None -> buffer r ++ rest = frames key id 0 msgs ->
  receiving 0 rest (start (newChannel r wkey key id m')).
Proof. intros Hm He Hb. split; simpl; rewrite ?take_0, ?drop_0; split_and?; try done. lia. Qed.

Lemma receiving_chunk n rest chunk c :
  receiving n (chunk ++ rest) c -> receiving n rest (cstep c (SocketData chunk)).
Proof.
  intros [Hk (Hc & Hd & He) Hdone Hp Hb]. cbn [step]. rewrite Hd. split; try done.
  simpl. by rewrite <- app_assoc.
Qed.

(** The next frame, when the loop holds or has some of its bytes. *)
Lemma next_frame n b :
  b <> [] -> (exists t, b ++ t = frames key id (Z.of_nat n) (drop n msgs)) ->
  exists d, msgs !! n = Some d /\ 1 <= byteLength d <= m
    /\ frames key id (Z.of_nat n) (drop n msgs)
       = cframe key id (Z.of_nat n) d ++ frames key id (Z.of_nat (S n)) (drop (S n) msgs).
Proof.
  intros Hb [t Ht]. destruct (msgs !! n) as [d|] eqn:Hd.
  - exists d. split_and!; [done|..].
    + eapply (Forall_lookup_1 _ _ _ _ Hsizes Hd).
    + eapply (Forall_lookup_1 _ _ _ _ Hsizes Hd).
    + rewrite (drop_S _ d n) by done. simpl. do 2 f_equal. lia.
  - apply lookup_ge_None in Hd. rewrite drop_ge in Ht by done. simpl in Ht.
    by apply app_eq_nil in Ht as [-> _].
Qed.

Lemma readExactly_none r k :
  endedError r = None ->
  readExactly k r = Waits /\ byteLength (buffer r) < k
  \/ exists v b, readExactly k r = Read v (Reader b None) /\ buffer r = v ++ b
       /\ length v = Z.to_nat k /\ k <= byteLength (buffer r).
Proof.
  intros He. unfold readExactly. rewrite He. destruct (Z.ltb_spec (byteLength (buffer r)) k); [by left|].
  right. eexists _, _. unfold subarray. rewrite Z.sub_0_r, drop_0.
  split_and!; [done|by rewrite take_drop|rewrite length_take; unfold byteLength in *; lia|lia].
Qed.

Lemma index_small n d : msgs !! n = Some d -> 0 <= Z.of_nat n < 2 ^ 64.
Proof. intros Hd. apply lookup_lt_Some in Hd. lia. Qed.

(** How far the loop is in its frame. *)
Definition rank (p : phase) : nat :=
  match p with AwaitHeader => 1 | HaveHeader _ => 2 | AwaitBody _ _ _ => 3 | HaveBody _ _ _ _ => 4 | _ => 0 end.

(** The loop keeps [receiving], and goes on when the whole frame has arrived. *)
Definition goes_on (n : nat) (rest : bytes) (c : channel) : Prop :=
  receiving (S n) rest (loop gcm_decrypt c) /\ rank (at_phase (loop gcm_decrypt c)) = 0%nat
  \/ receiving n rest (loop gcm_decrypt c)
     /\ (rest = [] -> (n < length msgs)%nat -> rank (at_phase (loop gcm_decrypt c)) = S (rank (at_phase c))).

Lemma loop_header n rest c : receiving n rest c -> at_phase c = AwaitHeader -> goes_on n rest c.
Proof.
  intros [Hk (Hc & Hd & He) Hdone Hp Hb] Hph. rewrite Hph in Hb. simpl in Hb. right.
  unfold loop. rewrite Hph.
  destruct (readExactly_none (reader c) FRAME_HEADER_BYTES He) as [[-> Hs]|(v & b & -> & Hv & Hl & _)].
  - split; [by split; rewrite ?Hph|]. intros -> Hn. exfalso.
    destruct (lookup_lt_is_Some_2 msgs n Hn) as [d Hm].
    rewrite (drop_S _ d n) in Hb by done. simpl in Hb. rewrite app_nil_r in Hb.
    rewrite Hb, cframe_split, !byteLength_app in Hs.
    unfold byteLength at 1 in Hs. rewrite frame_header_length in Hs. unfold FRAME_HEADER_BYTES in Hs.
    pose proof (byteLength_nonneg (gcm_encrypt key (frameNonce (Z.of_nat n))
      (frameAad id (frame_header (Z.of_nat n) (byteLength d))) d).1).
    pose proof (byteLength_nonneg (gcm_encrypt key (frameNonce (Z.of_nat n))
      (frameAad id (frame_header (Z.of_nat n) (byteLength d))) d).2).
    pose proof (byteLength_nonneg (frames key id (Z.of_nat n + 1) (drop (S n) msgs))). lia.
  - split; [split; simpl; try done|done]. by rewrite <- Hb, Hv, app_assoc.
Qed.

Lemma loop_have_header n rest c h : receiving n rest c -> at_phase c = HaveHeader h -> goes_on n rest c.
Proof.
  intros [(Hk & Hid & Hm) Hopen (Hdel & Hr & Hn) Hp Hb] Hph. rewrite Hph in Hb, Hp. simpl in Hb, Hp.
  right.
  destruct (next_frame n h) as (d & Hd & Hsz & Hf); [by intros ->|by rewrite <- Hb; eauto|].
  assert (h = frame_header (Z.of_nat n) (byteLength d)) as Hh.
  { rewrite Hf, cframe_split, <- !app_assoc in Hb. apply app_inj_1 in Hb as [-> _]; [done|].
    by rewrite frame_header_length. }
  pose proof (index_small n d Hd) as Hi.
  destruct (frame_header_fields (Z.of_nat n) (byteLength d)) as [H1 H2]; [lia|lia|].
  unfold loop. rewrite Hph, Hh, H1, H2, Hr, Z.eqb_refl. cbn [negb].
  replace ((byteLength d <? 1) || (maximumFrameBytes c <? byteLength d)) with false by lia.
  split; [|done]. split; try done.
  - simpl. exists d. done.
  - cbn [at_phase set_phase held]. by rewrite <- Hh.
Qed.

Lemma loop_body n rest c h s l : receiving n rest c -> at_phase c = AwaitBody h s l -> goes_on n rest c.
Proof.
  intros [Hk (Hc & Hde & He) Hdone Hp Hb] Hph. rewrite Hph in Hb, Hp. simpl in Hb.
  destruct Hp as (d & Hd & -> & -> & ->). right.
  destruct (next_frame n (frame_header (Z.of_nat n) (byteLength d))) as (d' & Hd' & Hsz & Hf).
  { intros E. by apply (f_equal length) in E. }
  { rewrite <- Hb. eauto. }
  rewrite Hd in Hd'. injection Hd' as <-.
  rewrite Hf, cframe_split, <- !app_assoc in Hb. apply app_inv_head in Hb.
  destruct (gcm_lengths key (frameNonce (Z.of_nat n))
    (frameAad id (frame_header (Z.of_nat n) (byteLength d))) d) as [L1 L2].
  pose proof (cframe_split (Z.of_nat n) d) as Hframe.
  destruct (gcm_encrypt key (frameNonce (Z.of_nat n)) _ d) as [enc tag]. cbn [fst snd] in *.
  unfold loop. rewrite Hph.
  destruct (readExactly_none (reader c) (byteLength d + AUTH_TAG_BYTES) He)
    as [[-> Hs]|(v & b & -> & Hv & Hl & _)].
  - split.
    + split; try done; rewrite Hph; [by exists d|]. simpl. rewrite Hf, Hframe, <- !app_assoc. by rewrite Hb.
    + intros -> _. exfalso. rewrite app_nil_r in Hb. rewrite Hb, !byteLength_app in Hs.
      unfold byteLength in Hs at 1 2. rewrite L1, L2 in Hs.
      pose proof (byteLength_nonneg (frames key id (Z.of_nat (S n)) (drop (S n) msgs))).
      unfold AUTH_TAG_BYTES, byteLength at 2 in Hs. lia.
  - split; [|done]. rewrite Hv, <- app_assoc in Hb.
    assert (v = enc ++ tag) as ->.
    { rewrite (app_assoc enc) in Hb. apply app_inj_1 in Hb as [-> _]; [done|].
      rewrite Hl, length_app, L1, L2. unfold byteLength, AUTH_TAG_BYTES. lia. }
    split; try done; cbn [at_phase set_phase set_reader reader held buffer].
    + exists d. by rewrite Hframe.
    + rewrite Hf, Hframe. rewrite <- !app_assoc in *. by rewrite Hb.
Qed.

Lemma loop_have_body n rest c h s l b : receiving n rest c -> at_phase c = HaveBody h s l b -> goes_on n rest c.
Proof.
  intros [(Hk & Hid & Hm) Hopen (Hdel & Hr & Hn) Hp Hb] Hph. rewrite Hph in Hb, Hp. cbn [held] in Hb.
  destruct Hp as (d & Hd & -> & -> & -> & Hf). left.
  assert (Hdrop : drop n msgs = d :: drop (S n) msgs) by by apply drop_S.
  rewrite Hdrop, Hf in Hb. cbn [frames] in Hb. apply app_inv_head in Hb.
  rewrite cframe_split in Hf. apply app_inv_head in Hf.
  destruct (gcm_lengths key (frameNonce (Z.of_nat n))
    (frameAad id (frame_header (Z.of_nat n) (byteLength d))) d) as [L1 L2].
  assert (Ho : loop gcm_decrypt c = received d c).
  { unfold loop. rewrite Hph, Hk, Hid. unfold subarray.
    replace (Z.to_nat (byteLength d - 0)) with (length d) by (unfold byteLength; lia).
    replace (Z.to_nat (byteLength d)) with (length d) by (unfold byteLength; lia).
    change (Z.to_nat 0) with 0%nat. rewrite drop_0, Hf, take_app_length', drop_app_length' by done.
    by rewrite gcm_opens. }
  rewrite Ho. split; [|done]. split; simpl.
  - done.
  - done.
  - rewrite delivered_received, Hdel, (take_S_r _ _ d) by done.
    split_and!; [done|lia|]. apply lookup_lt_Some in Hd. lia.
  - done.
  - rewrite Hb. f_equal. lia.
Qed.

Lemma loop_goes_on n rest c : receiving n rest c -> goes_on n rest c.
Proof.
  intros H. destruct (at_phase c) as [| | |h|h s l|h s l b|] eqn:Hph;
    try (by destruct H as [_ _ _ Hp _]; rewrite Hph in Hp).
  - destruct H as [Hk (Hc & Hd & He) Hdone Hp Hb]. right. unfold loop. rewrite Hph, Hc in *.
    split; [|done]. split; done.
  - by apply loop_header.
  - by eapply loop_have_header.
  - by eapply loop_body.
  - by eapply loop_have_body.
Qed.

Lemma loops_deliver k n c :
  receiving n [] c -> (5 * (length msgs - n) <= k + rank (at_phase c))%nat ->
  delivered (crun (replicate k Loop) c) = msgs.
Proof.
  revert n c. induction k as [|k IH]; intros n c Hc Hk.
  - destruct Hc as [_ _ (Hd & _ & Hn) _ _]. simpl. rewrite Hd, take_ge; [done|].
    assert (rank (at_phase c) <= 4)%nat by (destruct (at_phase c); simpl; lia). lia.
  - cbn [replicate]. unfold run. cbn [foldl step]. fold (crun (replicate k Loop) (loop gcm_decrypt c)).
    destruct (loop_goes_on n [] c Hc) as [[H Hr]|[H Hr]].
    + apply (IH (S n)); [done|]. rewrite Hr.
      assert (rank (at_phase c) <= 4)%nat by (destruct (at_phase c); simpl; lia). lia.
    + apply (IH n); [done|]. destruct (decide (n < length msgs)%nat); [|lia].
      rewrite Hr by done. lia.
Qed.
End Honest.

(** The events of a network that only carries bytes, and the bytes it carries. *)
Definition carries (e : event) : Prop :=
  match e with SocketData _ | Loop => True | _ => False end.

Definition chunks (es : list event) : bytes :=
  mbind (fun e => match e with SocketData b => b | _ => [] end) es.

Lemma receiving_run (lens : forall k n a p,
    length (gcm_encrypt k n a p).1 = length p /\ length (gcm_encrypt k n a p).2 = 16%nat)
  (opens : forall k n a p,
    gcm_decrypt k n a (gcm_encrypt k n a p).1 (gcm_encrypt k n a p).2 = Some p)
  key id m msgs es n rest c :
  m <= 8 * 1024 * 1024 -> Z.of_nat (length msgs) <= 2 ^ 64 ->
  Forall (fun d => 1 <= byteLength d <= m) msgs -> Forall carries es ->
  receiving key id m msgs n (chunks es ++ rest) c ->
  exists n', receiving key id m msgs n' rest (crun es c).
Proof.
  intros Hm Hc Hs He. revert n c. induction He as [|e es He _ IH]; intros n c H; [by exists n|].
  unfold run. cbn [foldl]. fold (crun es (cstep c e)).
  destruct e; try done; cbn [chunks mbind list_bind] in H; fold (chunks es) in H.
  - rewrite <- app_assoc in H. apply receiving_chunk in H. by eapply IH.
  - cbn [step]. destruct (loop_goes_on lens opens key id m msgs Hm Hc Hs n _ c H) as [[H' _]|[H' _]];
      by eapply IH.
Qed.

(** C7 (safety). Over a network that drops, repeats, reorders, cuts and makes up
    bytes as it likes, and whatever the applications at the two ends do, the
    plaintexts a channel delivers are a prefix of those the other end sealed: none
    is changed, repeated, left out or out of order.  The cipher opens what it has sealed,
    and among the frames that arrive in the run none is a forgery: what opens under the
    key was sealed by the other end. *)
Theorem channel_prefix_delivery key rkey wkey id m m' rs rr es er :
  (forall k n a p, gcm_decrypt k n a (gcm_encrypt k n a p).1 (gcm_encrypt k n a p).2 = Some p) ->
  unforged key id (crun es (start (newChannel rs key rkey id m)))
    (attempts er (start (newChannel rr wkey key id m'))) ->
  Z.of_nat (length (sealed (crun es (start (newChannel rs key rkey id m))))) < 2 ^ 64 ->
  delivered (crun er (start (newChannel rr wkey key id m')))
    `prefix_of` sealed (crun es (start (newChannel rs key rkey id m))).
Proof.
  intros Hopen Ha Hn. apply prefix_lookup. intros i d.
  apply (delivered_sealed key rkey wkey id m m'); try done;
    try apply run_ok; apply start_ok, newChannel_ok.
Qed.

(** C8 (roundtrip). Over a network that only cuts the bytes into chunks, whenever
    the chunks arrive and the receive loop runs, the channel delivers exactly the
    plaintexts the other end sealed, once all the bytes have arrived and the loop
    has run five times per frame: no frame the sender accepts is refused. *)
Theorem channel_transfer key rkey wkey id m m' rs es er k :
  (forall k n a p,
    length (gcm_encrypt k n a p).1 = length p /\ length (gcm_encrypt k n a p).2 = 16%nat) ->
  (forall k n a p,
    gcm_decrypt k n a (gcm_encrypt k n a p).1 (gcm_encrypt k n a p).2 = Some p) ->
  m <= m' -> m <= 8 * 1024 * 1024 -> Forall carries er ->
  chunks er = written (crun es (start (newChannel rs key rkey id m))) ->
  (5 * length (sealed (crun es (start (newChannel rs key rkey id m)))) <= k)%nat ->
  delivered (crun (er ++ replicate k Loop) (start (newChannel (Reader [] None) wkey key id m')))
  = sealed (crun es (start (newChannel rs key rkey id m))).
Proof.
  intros Hl Ho Hm Hm8 He Hw Hk. set (s := crun es _) in *.
  assert (Hs : chan_ok key rkey id m s) by apply run_ok, start_ok, newChannel_ok.
  destruct Hs as [_ [Hc1 Hc2] Hwr Hsz _ _].
  destruct (receiving_run Hl Ho key id m (sealed s) er 0 [] (start (newChannel (Reader [] None) wkey key id m')))
    as [n Hr]; [done|lia|done|done| |].
  { rewrite app_nil_r. apply receiving_start; [done|done|]. simpl. by rewrite Hw. }
  unfold run. rewrite foldl_app.
  eapply (loops_deliver Hl Ho key id m (sealed s) Hm8 ltac:(lia) Hsz k n); [exact Hr|lia].
Qed.
End Props.
