(* ===== verification/DirectHandshake.v ===== *)
(** * The handshake of a direct connection

    The server and the client of [src/src/transport/direct-secure-channel.ts]: two
    documents in JSON, each authenticated with the secret of the grant, then a
    channel at each end with keys derived from the secret and the two nonces.

    [accept] and [connect] are cut where they wait: what arrives on the socket is
    in the reader, a timeout is an [Err] in the place of the document.  The document
    an end writes is the first thing on its socket and smaller than the socket's
    buffer, so the write does not wait; on a destroyed socket it never completes
    ([writable]).  HMAC, HKDF and the random bytes are parameters. *)

From S2P Require Import Prelude JsString JsMap JsonText JsonParse Base64 DirectGrant DirectChannel.

#[local] Open Scope Z_scope.

Definition HANDSHAKE_MAX_BYTES : Z := 4096.
Definition DEFAULT_HANDSHAKE_TIMEOUT_MS : Z := 5000.

(** ** Documents *)

Definition writeDocument (v : json) : res bytes :=
  let document := utf8_encode (stringify v) in
  throw_if HANDSHAKE_MAX_BYTES <? byteLength document
    with "direct_handshake_document_size_is_invalid" ;;
  Ok (be_write 4 (byteLength document) ++ document).

(** [None] while the document has not arrived. *)
Definition readDocument (r : SocketReader) : option (res value * SocketReader) :=
  match readExactly 4 r with
  | Waits => None
  | Fails code => Some (Err code, r)
  | Read lengthBuffer r1 =>
      let len := be_read lengthBuffer in
      if (len <? 2) || (HANDSHAKE_MAX_BYTES <? len) then
        Some (Err "direct_handshake_document_size_is_invalid", r1)
      else
        match readExactly len r1 with
        | Waits => None
        | Fails code => Some (Err code, r1)
        | Read document r2 =>
            match JSON_parse (utf8_decode document) with
            | Some v => Some (Ok v, r2)
            | None => Some (Err "direct_handshake_document_is_invalid", r2)
            end
        end
  end.

Record ClientHello := Hello {
  hello_connectionId : jsstring;
  hello_sourceNodeId : jsstring;
  hello_destinationNodeId : jsstring;
  hello_targetPort : Z;
  hello_expiresAt : Z;
  hello_clientNonce : jsstring;
  hello_mac : jsstring;
}.

Record ServerHello := Response {
  response_connectionId : jsstring;
  response_serverNonce : jsstring;
  response_mac : jsstring;
}.

Definition client_keys : list jsstring :=
  [js "protocol"; js "connectionId"; js "sourceNodeId"; js "destinationNodeId"; js "targetPort";
   js "expiresAt"; js "clientNonce"; js "mac"].
Definition server_keys : list jsstring :=
  [js "protocol"; js "connectionId"; js "serverNonce"; js "mac"].

(** The documents of the two ends. *)
Definition client_document (h : ClientHello) : json :=
  JObj [(js "protocol", JStr DIRECT_TRANSPORT_PROTOCOL); (js "connectionId", JStr (hello_connectionId h));
    (js "sourceNodeId", JStr (hello_sourceNodeId h));
    (js "destinationNodeId", JStr (hello_destinationNodeId h));
    (js "targetPort", JNum (hello_targetPort h)); (js "expiresAt", JNum (hello_expiresAt h));
    (js "clientNonce", JStr (hello_clientNonce h)); (js "mac", JStr (hello_mac h))].
Definition server_document (r : ServerHello) : json :=
  JObj [(js "protocol", JStr DIRECT_TRANSPORT_PROTOCOL); (js "connectionId", JStr (response_connectionId r));
    (js "serverNonce", JStr (response_serverNonce r)); (js "mac", JStr (response_mac r))].

Definition is_protocol (v : value) : bool :=
  match v with VStr s => bool_decide (s = DIRECT_TRANSPORT_PROTOCOL) | _ => false end.

(** The number, when [Number.isSafeInteger] holds. *)
Definition safeInteger (v : value) : option num :=
  match v with VNum n => if isSafeInteger n then Some n else None | _ => None end.

Definition parseClientHello (v : value) : res ClientHello :=
  let code := "direct_client_hello_is_invalid"%string in
  let? record := strictRecord v client_keys code in
  throw_if negb (is_protocol (property record (js "protocol"))) with code ;;
  match safeInteger (property record (js "targetPort")), safeInteger (property record (js "expiresAt")) with
  | Some port, Some (NInt expiresAt) =>
      let? connectionId := identifier (property record (js "connectionId")) code in
      let? sourceNodeId := identifier (property record (js "sourceNodeId")) code in
      let? destinationNodeId := identifier (property record (js "destinationNodeId")) code in
      let? targetPort := boundedPort port in
      let? clientNonce := text (property record (js "clientNonce")) 128 code in
      let? mac := text (property record (js "mac")) 128 code in
      Ok (Hello connectionId sourceNodeId destinationNodeId targetPort expiresAt clientNonce mac)
  | _, _ => Err code
  end.

Definition parseServerHello (v : value) : res ServerHello :=
  let code := "direct_server_hello_is_invalid"%string in
  let? record := strictRecord v server_keys code in
  throw_if negb (is_protocol (property record (js "protocol"))) with code ;;
  let? connectionId := identifier (property record (js "connectionId")) code in
  let? serverNonce := text (property record (js "serverNonce")) 128 code in
  let? mac := text (property record (js "mac")) 128 code in
  Ok (Response connectionId serverNonce mac).

(** ** Transcripts *)

(** [parts.join("\0")]. *)
Fixpoint join0 (parts : list jsstring) : jsstring :=
  match parts with
  | [] => []
  | [p] => p
  | p :: ps => p ++ 0 :: join0 ps
  end.

Definition client_fields (h : ClientHello) : list jsstring :=
  [js "client"; DIRECT_TRANSPORT_PROTOCOL; hello_connectionId h; hello_sourceNodeId h;
   hello_destinationNodeId h; decimal (hello_targetPort h); decimal (hello_expiresAt h);
   hello_clientNonce h].

Definition clientHelloTranscript (h : ClientHello) : bytes := utf8_encode (join0 (client_fields h)).

Definition server_fields (g : DirectSessionGrant) (clientNonce serverNonce : jsstring) : list jsstring :=
  [js "server"; grant_protocol g; grant_connectionId g; grant_sourceNodeId g;
   grant_destinationNodeId g; decimal (grant_targetPort g); decimal (grant_expiresAt g);
   clientNonce; serverNonce].

Definition serverHelloTranscript (g : DirectSessionGrant) (clientNonce serverNonce : jsstring) : bytes :=
  utf8_encode (join0 (server_fields g clientNonce serverNonce)).

Section Handshake.
(** [createHmac("sha256", secret).update(text).digest()] and the 64 bytes of
    [hkdfSync("sha256", secret, salt, info, 64)]. *)
Context (hmac : bytes -> bytes -> bytes) (hkdf : bytes -> bytes -> bytes -> bytes).

Definition mac (secret transcript : bytes) : jsstring := b64url_encode (hmac secret transcript).

Definition verifyMac (secret transcript : bytes) (encoded : jsstring) (code : string) : res unit :=
  let expected := hmac secret transcript in
  let? actual := base64Bytes encoded (byteLength expected) code in
  throw_if negb (bool_decide (expected = actual)) with code ;;
  Ok tt.

Definition key_info (g : DirectSessionGrant) : bytes :=
  utf8_encode (join0 [DIRECT_TRANSPORT_PROTOCOL; grant_connectionId g; grant_sourceNodeId g;
                      grant_destinationNodeId g; decimal (grant_targetPort g)]).

(** The keys the client and the server write with. *)
Definition deriveDirectionalKeys (g : DirectSessionGrant) (secret clientNonce serverNonce : bytes)
    : bytes * bytes :=
  let material := hkdf secret (clientNonce ++ serverNonce) (key_info g) in
  (subarray material 0 32, subarray material 32 64).

(** ** The server *)

Record server_options := ServerOptions {
  resolveGrant : jsstring -> option DirectSessionGrant;
  serverMaximumFrameBytes : option num;
  handshakeTimeoutMs : option num;
}.

(** The connection ids that were used, until their grants expire. *)
Abbreviation server := (list (jsstring * Z)) (only parsing).

Definition prune (now : Z) (consumed : server) : server :=
  List.filter (fun e => negb (e.2 <=? now)) consumed.

Definition grant_matches (g : DirectSessionGrant) (h : ClientHello) : bool :=
  bool_decide (grant_sourceNodeId g = hello_sourceNodeId h)
  && bool_decide (grant_destinationNodeId g = hello_destinationNodeId h)
  && (grant_targetPort g =? hello_targetPort h) && (grant_expiresAt g =? hello_expiresAt h).

(** [DirectSecureServer.accept] once the document is there, up to the [await] of
    [writeDocument]: what it writes to the socket, the grant, its secret and the nonce of
    the client. *)
Definition accept_start (o : server_options) (document : res value) (now : Z) (serverNonce : bytes)
    : SE server (bytes * DirectSessionGrant * bytes * bytes) :=
  let! _ := se_lift (boundedPositiveInteger (handshakeTimeoutMs o) DEFAULT_HANDSHAKE_TIMEOUT_MS 250 60000) in
  let! v := se_lift document in
  let! hello := se_lift (parseClientHello v) in
  match resolveGrant o (hello_connectionId hello) with
  | None => se_throw "direct_transport_grant_not_found"
  | Some grant =>
      let! _ := se_lift (validateGrant grant now) in
      do! se_modify (prune now) ;;
      fail_if negb (grant_matches grant hello) with "direct_transport_grant_identity_mismatch" ;;
      let! consumed := se_get in
      fail_if map_has consumed (grant_connectionId grant)
        with "direct_transport_grant_was_already_consumed" ;;
      let! secret := se_lift (grantSecret grant) in
      let! clientNonce := se_lift (base64Bytes (hello_clientNonce hello) 32 "direct_client_nonce_is_invalid") in
      let! _ := se_lift (verifyMac secret (clientHelloTranscript hello) (hello_mac hello)
                           "direct_client_authentication_failed") in
      let response := Response (grant_connectionId grant) (b64url_encode serverNonce)
        (mac secret (serverHelloTranscript grant (hello_clientNonce hello) (b64url_encode serverNonce))) in
      let! written := se_lift (writeDocument (server_document response)) in
      se_ret (written, grant, secret, clientNonce)
  end.

(** What follows the [await]; [writable] is whether the write succeeded. *)
Definition accept_finish (o : server_options) (r : SocketReader) (writable : bool) (serverNonce : bytes)
    (p : bytes * DirectSessionGrant * bytes * bytes) : SE server (bytes * DirectSessionGrant * channel) :=
  let '(written, grant, secret, clientNonce) := p in
  fail_if negb writable with "direct_transport_socket_closed" ;;
  do! se_modify (fun s => map_set s (grant_connectionId grant) (grant_expiresAt grant)) ;;
  let '(clientWriteKey, serverWriteKey) := deriveDirectionalKeys grant secret clientNonce serverNonce in
  let! maximum := se_lift (boundedPositiveInteger (serverMaximumFrameBytes o)
                             DEFAULT_MAX_FRAME_BYTES 1024 (8 * 1024 * 1024)) in
  se_ret (written, grant,
          start (newChannel r serverWriteKey clientWriteKey (grant_connectionId grant) maximum)).

(** An [accept] during which no other one runs. *)
Definition accept (o : server_options) (document : res value) (r : SocketReader) (writable : bool)
    (now : Z) (serverNonce : bytes) : SE server (bytes * DirectSessionGrant * channel) :=
  let! p := accept_start o document now serverNonce in
  accept_finish o r writable serverNonce p.

(** ** The client *)

Record client_options := ClientOptions {
  port : num;
  grant : DirectSessionGrant;
  timeoutMs : option num;
  clientMaximumFrameBytes : option num;
}.

Definition client_hello (g : DirectSessionGrant) (clientNonce : bytes) (m : jsstring) : ClientHello :=
  Hello (grant_connectionId g) (grant_sourceNodeId g) (grant_destinationNodeId g) (grant_targetPort g)
    (grant_expiresAt g) (b64url_encode clientNonce) m.

(** [DirectSecureChannel.connect] up to the hello it writes.  The state is whether
    its socket has been destroyed; [connected] is how the connection went. *)
Definition connect_start (o : client_options) (now : Z) (connected : res unit) (clientNonce : bytes)
    : SE bool bytes :=
  let! _ := se_lift (validateGrant (grant o) now) in
  let! _ := se_lift (boundedPositiveInteger (timeoutMs o) DEFAULT_HANDSHAKE_TIMEOUT_MS 250 60000) in
  do! (fun destroyed => match (let? _ := boundedPort (port o) in connected) with
                        | Ok tt => (Ok tt, destroyed)
                        | Err code => (Err code, true)
                        end) ;;
  let! secret := se_lift (grantSecret (grant o)) in
  let m := mac secret (clientHelloTranscript (client_hello (grant o) clientNonce [])) in
  se_lift (writeDocument (client_document (client_hello (grant o) clientNonce m))).

(** From the answer of the server on. *)
Definition connect_finish (o : client_options) (clientNonce : bytes) (document : res value)
    (r : SocketReader) : SE bool channel :=
  let! v := se_lift document in
  let! response := se_lift (parseServerHello v) in
  if negb (bool_decide (response_connectionId response = grant_connectionId (grant o))) then
    do! se_modify (fun _ => true) ;; se_throw "direct_server_identity_mismatch"
  else
    let! serverNonce := se_lift (base64Bytes (response_serverNonce response) 32
                                   "direct_server_nonce_is_invalid") in
    let! secret := se_lift (grantSecret (grant o)) in
    let! _ := se_lift (verifyMac secret
        (serverHelloTranscript (grant o) (b64url_encode clientNonce) (response_serverNonce response))
        (response_mac response) "direct_server_authentication_failed") in
    let '(clientWriteKey, serverWriteKey) := deriveDirectionalKeys (grant o) secret clientNonce serverNonce in
    let! maximum := se_lift (boundedPositiveInteger (clientMaximumFrameBytes o)
                               DEFAULT_MAX_FRAME_BYTES 1024 (8 * 1024 * 1024)) in
    se_ret (start (newChannel r clientWriteKey serverWriteKey (grant_connectionId (grant o)) maximum)).
End Handshake.
