(* ===== verification/DirectHandshakeProps.v ===== *)
(** * What the handshake of a direct connection guarantees

    Two ends that hold the same grant agree on the keys; transcripts are
    unambiguous; a grant is used once by connections that do not overlap. *)

From S2P Require Import Prelude JsString JsMap JsSort JsonText JsonParse Base64 DirectGrant DirectChannel DirectHandshake.

#[local] Open Scope Z_scope.

(** ** Transcripts are unambiguous *)

Lemma utf8_encode_app s t : utf8_encode (s ++ t) = utf8_encode s ++ utf8_encode t.
Proof. unfold utf8_encode. by rewrite bind_app. Qed.

Lemma utf8_encode_inj s t : scalars s -> scalars t -> utf8_encode s = utf8_encode t -> s = t.
Proof. intros Hs Ht E. by rewrite <- (utf8_round_trip s Hs), <- (utf8_round_trip t Ht), E. Qed.

Lemma scalars_app s t : scalars (s ++ t) <-> scalars s /\ scalars t.
Proof. apply Forall_app. Qed.

Lemma join0_inj (l k : list jsstring) :
  Forall (fun p => 0 ∉ p) l -> Forall (fun p => 0 ∉ p) k -> l <> [] -> k <> [] ->
  join0 l = join0 k -> l = k.
Proof.
  assert (Hcut : forall (p q r1 r2 : jsstring), 0 ∉ p -> 0 ∉ q -> p ++ 0 :: r1 = q ++ 0 :: r2 -> p = q /\ r1 = r2).
  { intros p. induction p as [|x p IH]; intros [|y q] r1 r2 Hp Hq E; simpl in E.
    - by injection E as ->.
    - injection E as <- _. by destruct Hq; left.
    - injection E as -> _. by destruct Hp; left.
    - injection E as -> E. apply IH in E as [-> ->]; [done|..]; intros ?; [apply Hp|apply Hq]; by right. }
  intros Hl. revert k. induction Hl as [|p l Hp Hl IH]; intros k Hk Hn1 Hn2 E; [done|].
  destruct Hk as [|q k Hq Hk]; [done|]. destruct l as [|p' l], k as [|q' k]; cbn [join0] in E.
  - by rewrite E.
  - rewrite E in Hp. destruct Hp. apply elem_of_app. right. left.
  - rewrite <- E in Hq. destruct Hq. apply elem_of_app. right. left.
  - apply Hcut in E as [-> E]; [|done|done]. f_equal. by apply IH.
Qed.

Lemma normal_no_zero n s : normal n s -> 0 ∉ s.
Proof.
  intros (_ & _ & _ & Hc) Hin. unfold has_control in Hc.
  assert (existsb is_control s = true) as Ht; [|congruence].
  apply existsb_exists. exists 0. split; [by apply list_elem_of_In|done].
Qed.

Lemma decimal_no_zero z : 0 ∉ decimal z.
Proof.
  intros Hin. destruct (decimal_chars z) as [H _]. rewrite Forall_forall in H. apply H in Hin.
  unfold is_number_char, is_digit in Hin. lia.
Qed.

Lemma decimal_scalars z : scalars (decimal z).
Proof. apply ascii_scalars, decimal_ascii. Qed.

(** A hello as [parseClientHello] makes it, and texts UTF-8 can carry. *)
Record hello_ok (h : ClientHello) : Prop := {
  hok_connection : normal 192 (hello_connectionId h) /\ scalars (hello_connectionId h);
  hok_source : normal 192 (hello_sourceNodeId h) /\ scalars (hello_sourceNodeId h);
  hok_destination : normal 192 (hello_destinationNodeId h) /\ scalars (hello_destinationNodeId h);
  hok_nonce : normal 128 (hello_clientNonce h) /\ scalars (hello_clientNonce h);
}.

Definition grant_scalars (g : DirectSessionGrant) : Prop :=
  scalars (grant_connectionId g) /\ scalars (grant_sourceNodeId g) /\ scalars (grant_destinationNodeId g).

Definition nonce_ok (s : jsstring) : Prop := normal 128 s /\ scalars s.

(** A field of a transcript. *)
Definition field_ok (p : jsstring) : Prop := 0 ∉ p /\ scalars p.

Lemma field_normal n s : normal n s -> scalars s -> field_ok s.
Proof. intros Hn Hs. split; [by eapply normal_no_zero|done]. Qed.

Lemma field_decimal z : field_ok (decimal z).
Proof. split; [apply decimal_no_zero|apply decimal_scalars]. Qed.

Lemma field_literal s :
  forallb (fun c => negb (c =? 0) && is_scalar c) (js s) = true -> field_ok (js s).
Proof.
  intros H. rewrite forallb_forall in H. split.
  - intros Hin. apply list_elem_of_In, H in Hin. done.
  - apply Forall_forall. intros c Hc. apply list_elem_of_In, H, andb_true_iff in Hc as [_ Hc]. done.
Qed.

#[local] Hint Resolve field_normal field_decimal : core.
#[local] Hint Extern 1 (field_ok (js _)) => apply field_literal; reflexivity : core.
#[local] Hint Extern 1 (field_ok DIRECT_TRANSPORT_PROTOCOL) => apply field_literal; reflexivity : core.

Lemma join0_scalars l : Forall field_ok l -> scalars (join0 l).
Proof.
  induction 1 as [|p l [_ Hp] _ IH]; [constructor|]. destruct l as [|q l]; [done|].
  cbn [join0]. apply scalars_app. split; [done|]. apply Forall_cons. done.
Qed.

(** The bytes of a transcript determine its fields. *)
Lemma transcript_inj l k :
  Forall field_ok l -> Forall field_ok k -> l <> [] -> k <> [] ->
  utf8_encode (join0 l) = utf8_encode (join0 k) -> l = k.
Proof.
  intros Hl Hk Hn1 Hn2 E. apply utf8_encode_inj in E; [|by apply join0_scalars..].
  apply join0_inj in E; [done|..|done|done];
    (eapply Forall_impl; [eassumption|]); by intros p [].
Qed.

Lemma client_fields_ok h : hello_ok h -> Forall field_ok (client_fields h).
Proof.
  intros [[] [] [] []]. unfold client_fields. repeat (apply Forall_cons; split; [eauto|]). constructor.
Qed.

Lemma server_fields_ok g a b :
  grant_ok g -> grant_scalars g -> nonce_ok a -> nonce_ok b -> Forall field_ok (server_fields g a b).
Proof.
  intros [Hp ? ? ? _ _ _ _] (? & ? & ?) [] []. unfold server_fields. rewrite Hp.
  repeat (apply Forall_cons; split; [eauto|]). constructor.
Qed.

(** ** Documents arrive *)

Definition size (s : jsstring) : Z := byteLength (utf8_encode s).

Lemma text_size_app s t : size (s ++ t) = size s + size t.
Proof. unfold size. by rewrite utf8_encode_app, byteLength_app. Qed.

Lemma text_size_cons c s : size (c :: s) = byteLength (utf8_char c) + size s.
Proof.
  change (c :: s) with ([c] ++ s). rewrite text_size_app. unfold size, utf8_encode. simpl. by rewrite app_nil_r.
Qed.

Lemma text_size_nonneg s : 0 <= size s.
Proof. apply byteLength_nonneg. Qed.

Lemma size_ascii s : ascii s -> size s = Z.of_nat (length s).
Proof.
  induction 1 as [|c s Hc _ IH]; [done|]. rewrite text_size_cons, IH. simpl in Hc.
  unfold utf8_char, utf8_scalar, is_surrogate.
  replace ((55296 <=? c) && (c <=? 57343)) with false by lia.
  replace (c <? 128) with true by lia. unfold byteLength. cbn [length]. lia.
Qed.

Definition units (c : Z) : Z := if 65536 <=? c then 2 else 1.

Lemma size_quote_char c :
  is_scalar c = true -> is_control c = false -> size (quote_char c) <= 3 * units c.
Proof.
  intros Hs Hc. unfold is_scalar, is_control in *. bool_prop. unfold quote_char, units.
  repeat match goal with |- context [if c =? ?x then _ else _] =>
    destruct (Z.eqb_spec c x) as [->|]; [vm_compute; congruence|] end.
  replace (is_surrogate c) with false by done. replace (c <? 32) with false by lia. cbn [orb].
  rewrite text_size_cons. unfold utf8_char, utf8_scalar. replace (is_surrogate c) with false by done.
  destruct (Z.ltb_spec c 128), (Z.ltb_spec c 2048), (Z.ltb_spec c 65536), (Z.leb_spec 65536 c);
    try lia; vm_compute; congruence.
Qed.

Lemma size_quote n s : normal n s -> scalars s -> size (quote s) <= 3 * n + 2.
Proof.
  intros (_ & _ & Hl & Hc) Hs. unfold quote. rewrite text_size_cons, text_size_app.
  change (byteLength (utf8_char 34)) with 1. change (size [34]) with 1.
  enough (size (mbind quote_char s) <= 3 * utf16_length s) by lia. clear Hl.
  induction Hs as [|c s Hcs Hs IH]; [done|]. cbn [mbind list_bind]. fold (mbind quote_char s).
  rewrite text_size_app. change (utf16_length (c :: s)) with (units c + utf16_length s).
  cbn [has_control existsb] in Hc. apply orb_false_iff in Hc as [Hc1 Hc2].
  pose proof (size_quote_char c Hcs Hc1). specialize (IH Hc2). lia.
Qed.

Lemma size_decimal z : is_safe z = true -> size (decimal z) <= 55.
Proof.
  intros Hz. apply is_safe_spec in Hz. rewrite size_ascii by apply decimal_ascii.
  assert (Hlog : forall x, 0 <= x <= MAX_SAFE_INTEGER -> (length (dec_digits (Z.to_nat (Z.log2 x)) x) <= 54)%nat).
  { intros x Hx. pose proof (dec_digits_length (Z.to_nat (Z.log2 x)) x).
    assert (Z.log2 x <= Z.log2 MAX_SAFE_INTEGER) by (apply Z.log2_le_mono; lia).
    change (Z.log2 MAX_SAFE_INTEGER) with 52 in *. lia. }
  unfold decimal. destruct (Z.ltb_spec z 0); simpl length.
  - specialize (Hlog (- z) ltac:(lia)). lia.
  - specialize (Hlog z ltac:(lia)). lia.
Qed.

Definition entry_size (e : jsstring * json) : Z := size (quote e.1) + 2 + size (stringify e.2).

Lemma size_object l : 2 <= size (stringify (JObj l)) <= 2 + zsum entry_size l.
Proof.
  cbn [stringify]. unfold braces. rewrite text_size_cons, text_size_app, map_map. cbn [fst snd].
  change (byteLength (utf8_char 123)) with 1. change (size [125]) with 1.
  change (map (fun e => quote e.1 ++ 58 :: stringify e.2) l) with (map entry_text l).
  pose proof (text_size_nonneg (join (map entry_text l))). split; [lia|].
  enough (size (join (map entry_text l)) <= zsum entry_size l) by lia.
  assert (He : forall e, size (entry_text e) = entry_size e - 1).
  { intros e. unfold entry_text, entry_size. rewrite text_size_app, text_size_cons.
    change (byteLength (utf8_char 58)) with 1. lia. }
  clear H. induction l as [|e l IH]; [done|]. cbn [map zsum foldr]. specialize (He e) as He'.
  destruct l as [|e' l]; cbn [map] in *.
  - simpl. lia.
  - rewrite join_cons, text_size_app, text_size_cons by done. change (byteLength (utf8_char 44)) with 1.
    unfold zsum in IH. lia.
Qed.

(** A plain document of at most 4096 bytes arrives as it was written. *)
Lemma document_arrives l rest e :
  plain (JObj l) -> zsum entry_size l <= 4094 ->
  exists w, writeDocument (JObj l) = Ok w
    /\ readDocument (Reader (w ++ rest) e) = Some (Ok (embed (JObj l)), Reader rest e).
Proof.
  intros Hp Hz. pose proof (size_object l) as Hs. unfold writeDocument, HANDSHAKE_MAX_BYTES.
  set (doc := utf8_encode (stringify (JObj l))). change (size (stringify (JObj l))) with (byteLength doc) in Hs.
  replace (4096 <? byteLength doc) with false by lia. eexists. split; [done|].
  unfold readDocument, readExactly at 1. cbn [buffer endedError].
  assert (H4 : length (be_write 4 (byteLength doc)) = 4%nat) by apply length_be_write.
  replace (byteLength _ <? 4) with false.
  2: { assert (B4 : byteLength (be_write 4 (byteLength doc)) = 4).
       { change (Z.of_nat (length (be_write 4 (byteLength doc))) = 4). by rewrite H4. }
       rewrite !byteLength_app, B4. pose proof (byteLength_nonneg rest). lia. }
  unfold subarray. change (Z.to_nat (4 - 0)) with 4%nat. change (Z.to_nat 0) with 0%nat.
  change (Z.to_nat 4) with 4%nat.
  rewrite drop_0, <- app_assoc, take_app_length', drop_app_length' by done.
  rewrite be_read_write_small by (change (2 ^ (8 * Z.of_nat 4)) with (2 ^ 32); lia).
  replace ((byteLength doc <? 2) || (HANDSHAKE_MAX_BYTES <? byteLength doc)) with false
    by (unfold HANDSHAKE_MAX_BYTES; lia).
  unfold readExactly. cbn [buffer endedError].
  replace (byteLength (doc ++ rest) <? byteLength doc) with false.
  2: { rewrite byteLength_app. pose proof (byteLength_nonneg rest). lia. }
  unfold subarray. rewrite Z.sub_0_r. change (Z.to_nat 0) with 0%nat. unfold byteLength.
  rewrite drop_0, Nat2Z.id, take_app_length', drop_app_length' by done. unfold doc.
  rewrite utf8_round_trip by by apply stringify_scalars. by rewrite JSON_parse_stringify.
Qed.

Lemma url_char_plain c : is_url_char c = true ->
  is_space c = false /\ is_control c = false /\ 0 <= c < 128.
Proof. unfold is_url_char, is_space, is_control. lia. Qed.

Lemma utf16_length_ascii s : ascii s -> utf16_length s = Z.of_nat (length s).
Proof. intros H. apply utf16_length_bmp. eapply Forall_impl; [exact H|]. simpl. lia. Qed.

(** 32 bytes in [base64url] are a normal text of at most 44 characters. *)
Lemma url_text b :
  Forall is_byte b -> length b = 32%nat -> normal 44 (b64url_encode b) /\ scalars (b64url_encode b).
Proof.
  intros Hb Hl. pose proof (b64url_encode_chars b Hb) as Hc.
  pose proof (b64url_encode_32 b Hb Hl) as H44.
  assert (Ha : ascii (b64url_encode b)).
  { eapply Forall_impl; [exact Hc|]. intros c ?. by apply url_char_plain. }
  split; [|by apply ascii_scalars]. rewrite Forall_forall in Hc. unfold normal. split_and!.
  - apply trim_id. split; intros c s' E; apply url_char_plain, Hc; rewrite E;
      [by left|apply elem_of_app; right; by left].
  - intros E. apply (f_equal b64_decode) in E. rewrite b64url_round_trip in E by done. by subst b.
  - rewrite utf16_length_ascii by done. lia.
  - unfold has_control. apply not_true_is_false. intros E. apply existsb_exists in E as (c & Hin & E).
    apply list_elem_of_In, Hc, url_char_plain in Hin as (_ & ? & _). congruence.
Qed.

Lemma normal_weaken n m s : n <= m -> normal n s -> normal m s.
Proof. intros ? (? & ? & ? & ?). split_and!; done || lia. Qed.

(** The documents of the two ends are read as what they say. *)
Lemma parseClientHello_document h :
  normal 192 (hello_connectionId h) -> normal 192 (hello_sourceNodeId h) ->
  normal 192 (hello_destinationNodeId h) -> 0 <= hello_targetPort h <= 65535 ->
  is_safe (hello_expiresAt h) = true -> normal 128 (hello_clientNonce h) -> normal 128 (hello_mac h) ->
  parseClientHello (embed (client_document h)) = Ok h.
Proof.
  intros Hc Hs Hd Hp He Hn Hm. unfold parseClientHello.
  set (v := embed (client_document h)).
  assert (Hr : exists record, strictRecord v client_keys "direct_client_hello_is_invalid" = Ok record
    /\ property record (js "protocol") = VStr DIRECT_TRANSPORT_PROTOCOL
    /\ property record (js "connectionId") = VStr (hello_connectionId h)
    /\ property record (js "sourceNodeId") = VStr (hello_sourceNodeId h)
    /\ property record (js "destinationNodeId") = VStr (hello_destinationNodeId h)
    /\ property record (js "targetPort") = VNum (NInt (hello_targetPort h))
    /\ property record (js "expiresAt") = VNum (NInt (hello_expiresAt h))
    /\ property record (js "clientNonce") = VStr (hello_clientNonce h)
    /\ property record (js "mac") = VStr (hello_mac h))
    by (eexists; split; [reflexivity|]; split_and!; reflexivity).
  destruct Hr as (record & -> & -> & -> & -> & -> & -> & -> & -> & ->).
  unfold identifier, safeInteger, is_protocol. rewrite !text_normal, bool_decide_true by done.
  cbn [isSafeInteger negb].
  assert (Hport : is_safe (hello_targetPort h) = true)
    by (apply is_safe_spec; unfold MAX_SAFE_INTEGER; lia).
  rewrite He, Hport, boundedPort_ok by done. by destruct h.
Qed.

Lemma parseServerHello_document r :
  normal 192 (response_connectionId r) -> normal 128 (response_serverNonce r) ->
  normal 128 (response_mac r) -> parseServerHello (embed (server_document r)) = Ok r.
Proof.
  intros Hc Hn Hm. unfold parseServerHello. set (v := embed (server_document r)).
  assert (Hr : exists record, strictRecord v server_keys "direct_server_hello_is_invalid" = Ok record
    /\ property record (js "protocol") = VStr DIRECT_TRANSPORT_PROTOCOL
    /\ property record (js "connectionId") = VStr (response_connectionId r)
    /\ property record (js "serverNonce") = VStr (response_serverNonce r)
    /\ property record (js "mac") = VStr (response_mac r))
    by (eexists; split; [reflexivity|]; split_and!; reflexivity).
  destruct Hr as (record & -> & -> & -> & -> & ->).
  unfold identifier, is_protocol. rewrite !text_normal, bool_decide_true by done. by destruct r.
Qed.

(** A hello of a client that holds a grant, with texts UTF-8 can carry. *)
Lemma client_document_arrives h rest e :
  normal 192 (hello_connectionId h) -> normal 192 (hello_sourceNodeId h) ->
  normal 192 (hello_destinationNodeId h) -> 0 <= hello_targetPort h <= 65535 ->
  is_safe (hello_expiresAt h) = true -> normal 44 (hello_clientNonce h) -> normal 44 (hello_mac h) ->
  scalars (hello_connectionId h) -> scalars (hello_sourceNodeId h) ->
  scalars (hello_destinationNodeId h) -> scalars (hello_clientNonce h) -> scalars (hello_mac h) ->
  exists w, writeDocument (client_document h) = Ok w
    /\ readDocument (Reader (w ++ rest) e) = Some (Ok (embed (client_document h)), Reader rest e).
Proof.
  intros Hc Hs Hd Hp He Hn Hm Uc Us Ud Un Um.
  assert (Hport : is_safe (hello_targetPort h) = true)
    by (apply is_safe_spec; unfold MAX_SAFE_INTEGER; lia).
  apply document_arrives.
  - simpl. split; [by apply (bool_decide_unpack _)|].
    split_and!; try done; apply ascii_scalars; by repeat constructor.
  - cbn [zsum foldr entry_size fst snd stringify]. unfold entry_size. cbn [fst snd stringify].
    pose proof (size_quote _ _ Hc Uc). pose proof (size_quote _ _ Hs Us).
    pose proof (size_quote _ _ Hd Ud). pose proof (size_quote _ _ Hn Un).
    pose proof (size_quote _ _ Hm Um). pose proof (size_decimal _ Hport).
    pose proof (size_decimal _ He).
    repeat match goal with |- context [size (quote (js ?k))] =>
      let n := eval vm_compute in (size (quote (js k))) in change (size (quote (js k))) with n end.
    change (size (quote DIRECT_TRANSPORT_PROTOCOL)) with 20. lia.
Qed.

Lemma server_document_arrives r rest e :
  normal 192 (response_connectionId r) -> normal 44 (response_serverNonce r) -> normal 44 (response_mac r) ->
  scalars (response_connectionId r) -> scalars (response_serverNonce r) -> scalars (response_mac r) ->
  exists w, writeDocument (server_document r) = Ok w
    /\ readDocument (Reader (w ++ rest) e) = Some (Ok (embed (server_document r)), Reader rest e).
Proof.
  intros Hc Hn Hm Uc Un Um. apply document_arrives.
  - simpl. split; [by apply (bool_decide_unpack _)|].
    split_and!; try done; apply ascii_scalars; by repeat constructor.
  - cbn [zsum foldr]. unfold entry_size. cbn [fst snd stringify].
    pose proof (size_quote _ _ Hc Uc). pose proof (size_quote _ _ Hn Un).
    pose proof (size_quote _ _ Hm Um).
    repeat match goal with |- context [size (quote (js ?k))] =>
      let n := eval vm_compute in (size (quote (js k))) in change (size (quote (js k))) with n end.
    change (size (quote DIRECT_TRANSPORT_PROTOCOL)) with 20. lia.
Qed.

Section Guarantees.
Context (hmac : bytes -> bytes -> bytes) (hkdf : bytes -> bytes -> bytes -> bytes).

(** ** What a successful handshake has checked *)

Lemma verifyMac_inv secret t encoded code :
  verifyMac hmac secret t encoded code = Ok tt -> encoded = mac hmac secret t.
Proof.
  unfold verifyMac, mac. destruct (base64Bytes _ _ _) as [b|] eqn:E; [|done].
  destruct (bool_decide _) eqn:Eb; [|done]. intros _. bool_prop. subst b.
  by apply base64Bytes_inv in E as (_ & <- & _).
Qed.

Lemma verifyMac_err secret t encoded code c : verifyMac hmac secret t encoded code = Err c -> c = code.
Proof.
  unfold verifyMac. destruct (base64Bytes _ _ _) as [b|] eqn:E.
  - destruct (negb _); [by intros [= ->]|done].
  - apply base64Bytes_err in E. by intros [= <-].
Qed.

(** The hello the server accepted: it names the fields of the grant, its MAC is
    that of its own transcript, and the grant is valid and was not in use. *)
Record accepted (o : server_options) (now : Z) (consumed : list (jsstring * Z)) (v : value)
    (g : DirectSessionGrant) (hello : ClientHello) (secret clientNonce : bytes) : Prop := {
  ac_hello : parseClientHello v = Ok hello;
  ac_grant : resolveGrant o (hello_connectionId hello) = Some g;
  ac_valid : validateGrant g now = Ok tt;
  ac_fields : grant_matches g hello = true;
  ac_unused : map_get (prune now consumed) (grant_connectionId g) = None;
  ac_secret : grantSecret g = Ok secret;
  ac_nonce : b64url_encode clientNonce = hello_clientNonce hello;
  ac_mac : hello_mac hello = mac hmac secret (clientHelloTranscript hello);
}.

Lemma accept_inv o document r writable now serverNonce consumed w g c consumed' :
  accept hmac hkdf o document r writable now serverNonce consumed = (Ok (w, g, c), consumed') ->
  exists v hello secret clientNonce,
    document = Ok v /\ accepted o now consumed v g hello secret clientNonce
    /\ consumed' = map_set (prune now consumed) (grant_connectionId g) (grant_expiresAt g)
    /\ writeDocument (server_document (Response (grant_connectionId g) (b64url_encode serverNonce)
         (mac hmac secret (serverHelloTranscript g (hello_clientNonce hello) (b64url_encode serverNonce)))))
       = Ok w
    /\ exists m, 1024 <= m <= 8 * 1024 * 1024 /\
       c = start (newChannel r (deriveDirectionalKeys hkdf g secret clientNonce serverNonce).2
                    (deriveDirectionalKeys hkdf g secret clientNonce serverNonce).1
                    (grant_connectionId g) m).
Proof.
  unfold accept, accept_start, accept_finish, se_bind, se_lift, se_modify, se_get, se_throw, se_ret.
  destruct (boundedPositiveInteger (handshakeTimeoutMs o) _ _ _); [|done].
  destruct document as [v|]; [|done]. destruct (parseClientHello v) as [hello|] eqn:Eh; [|done].
  destruct (resolveGrant o _) as [g'|] eqn:Eg; [|done].
  destruct (validateGrant g' now) as [[]|] eqn:Ev; [|done].
  destruct (negb (grant_matches g' hello)) eqn:Em; [done|].
  destruct (map_has _ _) eqn:Eu; [done|]. destruct (grantSecret g') as [secret|] eqn:Es; [|done].
  destruct (base64Bytes _ _ _) as [cn|] eqn:En; [|done].
  destruct (verifyMac _ _ _ _ _) as [[]|] eqn:Ec; [|done].
  destruct (writeDocument _) as [doc|] eqn:Ew; [|done]. destruct writable; [|done].
  cbn [negb]. destruct (boundedPositiveInteger (serverMaximumFrameBytes o) _ _ _) as [m|] eqn:Ex; [|done].
  intros [= <- <- <- <-]. exists v, hello, secret, cn. split_and!; [done| |done|done|].
  - bool_prop. split; try done.
    + unfold map_has in Eu. by destruct (map_get _ _).
    + by apply base64Bytes_inv in En as (_ & -> & _).
    + by eapply verifyMac_inv.
  - exists m. split; [by eapply boundedPositiveInteger_inv|done].
Qed.

(** ** A grant is used once *)

Record attempt := Attempt {
  at_options : server_options;
  at_document : res value;
  at_reader : SocketReader;
  at_writable : bool;
  at_time : Z;
  at_nonce : bytes;
}.

Definition attempt_accept (a : attempt) : list (jsstring * Z) -> _ :=
  accept hmac hkdf (at_options a) (at_document a) (at_reader a) (at_writable a) (at_time a) (at_nonce a).

(** The grants the server accepted, with the times, through a series of attempts. *)
Fixpoint serve (l : list attempt) (consumed : list (jsstring * Z)) : list (Z * option DirectSessionGrant) :=
  match l with
  | [] => []
  | a :: l' =>
      match attempt_accept a consumed with
      | (Ok (_, g, _), s) => (at_time a, Some g) :: serve l' s
      | (Err _, s) => (at_time a, None) :: serve l' s
      end
  end.

(** The id is in use until [e]: the table says so, or the time has come. *)
Definition in_use (id : jsstring) (e now : Z) (consumed : list (jsstring * Z)) : Prop :=
  map_get consumed id = Some e \/ e <= now.

Lemma prune_in_use id e now t consumed :
  now <= t -> in_use id e now consumed -> in_use id e t (prune t consumed).
Proof.
  intros Ht [H|H]; [|right; lia]. destruct (Z.leb_spec e t); [by right|]. left.
  induction consumed as [|[k v] m IH]; [done|]. cbn [map_get] in H. cbn [prune List.filter snd].
  destruct (decide (id = k)) as [->|Hne].
  - injection H as ->. replace (e <=? t) with false by lia. simpl. by rewrite decide_True.
  - destruct (negb (v <=? t)); [simpl; rewrite decide_False by done|]; by apply IH.
Qed.

Lemma set_in_use id e t k v consumed :
  map_get consumed k = None -> in_use id e t consumed -> in_use id e t (map_set consumed k v).
Proof.
  intros Hk [H|H]; [|by right]. left. rewrite map_get_set.
  destruct (decide (id = k)) as [->|]; [congruence|]. done.
Qed.

Lemma attempt_in_use id e now a consumed :
  now <= at_time a -> in_use id e now consumed ->
  in_use id e (at_time a) (attempt_accept a consumed).2.
Proof.
  intros Ht H. pose proof (prune_in_use id e now (at_time a) consumed Ht H) as Hp.
  assert (H' : in_use id e (at_time a) consumed) by (destruct H; [by left|right; lia]).
  unfold attempt_accept, accept, accept_start, accept_finish, se_bind, se_lift, se_modify, se_get, se_throw, se_ret.
  destruct (boundedPositiveInteger (handshakeTimeoutMs _) _ _ _); [|done].
  destruct (at_document a) as [v|]; [|done]. destruct (parseClientHello v) as [hello|]; [|done].
  destruct (resolveGrant _ _) as [g|]; [|done]. destruct (validateGrant g _); [|done].
  destruct (negb (grant_matches g hello)); [done|].
  destruct (map_has _ _) eqn:Eu; [done|]. destruct (grantSecret g); [|done].
  destruct (base64Bytes _ _ _); [|done]. destruct (verifyMac _ _ _ _ _); [|done].
  destruct (writeDocument _); [|done]. destruct (at_writable a); [|done]. cbn [negb].
  assert (in_use id e (at_time a) (map_set (prune (at_time a) consumed) (grant_connectionId g) (grant_expiresAt g))).
  { apply set_in_use; [|done]. unfold map_has in Eu. by destruct (map_get _ _). }
  by destruct (boundedPositiveInteger _ _ _ _).
Qed.

(** Attempts made at times that do not go back. *)
Fixpoint in_time (now : Z) (l : list attempt) : Prop :=
  match l with [] => True | a :: l' => now <= at_time a /\ in_time (at_time a) l' end.

Lemma serve_in_use id e now l consumed j t g :
  in_time now l -> in_use id e now consumed ->
  serve l consumed !! j = Some (t, Some g) -> grant_connectionId g = id -> e <= t.
Proof.
  revert now consumed j. induction l as [|a l IH]; intros now consumed j Ht Hu Hj Hid; [done|].
  destruct Ht as [Ht Hl].
  pose proof (attempt_in_use id e now a consumed Ht Hu) as Hn. cbn [serve] in Hj.
  destruct (attempt_accept a consumed) as [[[[w g'] c]|code] s] eqn:Ea; cbn [snd] in Hn;
    (destruct j as [|j]; cbn [lookup list_lookup] in Hj; [|by eapply IH]).
  - injection Hj as <- <-. apply accept_inv in Ea as (v & hello & secret & cn & _ & Hacc & _).
    pose proof (prune_in_use id e now (at_time a) consumed Ht Hu) as [Hp|Hp]; [|done].
    rewrite <- Hid, (ac_unused _ _ _ _ _ _ _ _ Hacc) in Hp. done.
  - done.
Qed.

(** A grant is accepted before it expires. *)
Lemma serve_valid l s j t g : serve l s !! j = Some (t, Some g) -> t < grant_expiresAt g.
Proof.
  revert s j. induction l as [|a l IH]; intros s j Hj; [done|]. cbn [serve] in Hj.
  destruct (attempt_accept a s) as [[[[w g'] c]|code] s'] eqn:Ea;
    (destruct j as [|j]; cbn [lookup list_lookup] in Hj; [|by eapply IH]); [|done].
  injection Hj as <- <-. apply accept_inv in Ea as (v & hello & secret & cn & _ & Hacc & _).
  by apply (validateGrant_inv _ _ (ac_valid _ _ _ _ _ _ _ _ Hacc)).
Qed.

(** A grant opens at most one channel when connections do not overlap.  Through any
    series of connection attempts, one after the other and at times that do not go back, when the server has accepted
    a grant for a connection id, it accepts that id again only after the first
    grant has expired, and then with a grant that expires later. *)
Theorem grant_single_use l now consumed i j t1 t2 g1 g2 :
  in_time now l -> (i < j)%nat ->
  serve l consumed !! i = Some (t1, Some g1) -> serve l consumed !! j = Some (t2, Some g2) ->
  grant_connectionId g1 = grant_connectionId g2 ->
  t1 < grant_expiresAt g1 <= t2 /\ t2 < grant_expiresAt g2.
Proof.
  revert now consumed i j. induction l as [|a l IH]; intros now consumed i j Ht Hij H1 H2 Hid; [done|].
  destruct Ht as [Ht Hl].
  destruct j as [|j]; [lia|]. cbn [serve] in H1, H2.
  destruct (attempt_accept a consumed) as [[[[w g] c]|code] s] eqn:Ea; cbn [lookup list_lookup] in H1, H2;
    (destruct i as [|i]; cbn [lookup list_lookup] in H1; [|eapply IH; [exact Hl| |exact H1|exact H2|exact Hid]; lia]).
  - injection H1 as <- <-. apply accept_inv in Ea as (v & hello & secret & cn & _ & Hacc & -> & _).
    destruct (validateGrant_inv _ _ (ac_valid _ _ _ _ _ _ _ _ Hacc)) as [Hv _].
    assert (Hle : grant_expiresAt g <= t2).
    { eapply serve_in_use; [exact Hl| |exact H2|by symmetry]. left. by rewrite map_get_set_eq. }
    split; [lia|]. by eapply serve_valid.
  - done.
Qed.
(** ** Two ends that hold the same grant agree *)

(** [hmac] gives 32 bytes. *)
Definition hmac_sha256 : Prop :=
  forall k t, Forall is_byte (hmac k t) /\ length (hmac k t) = 32%nat.

(** 32 random bytes. *)
Definition nonce32 (b : bytes) : Prop := Forall is_byte b /\ length b = 32%nat.

Lemma mac_text (Hmac : hmac_sha256) k t : normal 44 (mac hmac k t) /\ scalars (mac hmac k t).
Proof. destruct (Hmac k t). by apply url_text. Qed.

Lemma nonce_decodes b code : nonce32 b -> base64Bytes (b64url_encode b) 32 code = Ok b.
Proof.
  intros [Hb Hl]. replace 32 with (byteLength b) by (unfold byteLength; lia).
  apply base64Bytes_encode; [done|]. by intros ->.
Qed.

Lemma verifyMac_mac (Hmac : hmac_sha256) k t code : verifyMac hmac k t (mac hmac k t) code = Ok tt.
Proof.
  unfold verifyMac, mac. destruct (Hmac k t) as [Hb Hl]. rewrite base64Bytes_encode; [|done|].
  - by rewrite bool_decide_true.
  - intros E. rewrite E in Hl. done.
Qed.

(** The options of the two ends are within their limits. *)
Record options_ok (co : client_options) (so : server_options) (mc ms : Z) : Prop := {
  ook_timeout : exists t, boundedPositiveInteger (timeoutMs co) DEFAULT_HANDSHAKE_TIMEOUT_MS 250 60000 = Ok t;
  ook_port : exists p, boundedPort (port co) = Ok p;
  ook_frames : boundedPositiveInteger (clientMaximumFrameBytes co) DEFAULT_MAX_FRAME_BYTES 1024
                 (8 * 1024 * 1024) = Ok mc;
  ook_server_timeout : exists t, boundedPositiveInteger (handshakeTimeoutMs so) DEFAULT_HANDSHAKE_TIMEOUT_MS
                         250 60000 = Ok t;
  ook_server_frames : boundedPositiveInteger (serverMaximumFrameBytes so) DEFAULT_MAX_FRAME_BYTES 1024
                 (8 * 1024 * 1024) = Ok ms;
}.

Definition hello_of (g : DirectSessionGrant) (secret clientNonce : bytes) : ClientHello :=
  client_hello g clientNonce
    (mac hmac secret (clientHelloTranscript (client_hello g clientNonce []))).

Definition response_of (g : DirectSessionGrant) (secret clientNonce serverNonce : bytes) : ServerHello :=
  Response (grant_connectionId g) (b64url_encode serverNonce)
    (mac hmac secret (serverHelloTranscript g (b64url_encode clientNonce) (b64url_encode serverNonce))).

Lemma connect_start_hello co so mc ms now clientNonce secret w :
  options_ok co so mc ms -> grant_ok (grant co) -> grantSecret (grant co) = Ok secret ->
  now < grant_expiresAt (grant co) ->
  writeDocument (client_document (hello_of (grant co) secret clientNonce)) = Ok w ->
  connect_start hmac co now (Ok tt) clientNonce false = (Ok w, false).
Proof.
  intros [[t Ht] [p Hp] _ _ _] Hg Hs Hn Hw.
  unfold connect_start, se_bind, se_lift. rewrite validateGrant_ok, Ht, Hp, Hs by done.
  unfold hello_of in Hw. by rewrite Hw.
Qed.

Lemma accept_hello (Hmac : hmac_sha256) co so mc ms g secret clientNonce serverNonce now consumed w :
  options_ok co so mc ms -> grant_ok g -> grantSecret g = Ok secret ->
  nonce32 clientNonce -> resolveGrant so (grant_connectionId g) = Some g ->
  now < grant_expiresAt g -> map_get (prune now consumed) (grant_connectionId g) = None ->
  writeDocument (server_document (response_of g secret clientNonce serverNonce)) = Ok w ->
  let keys := deriveDirectionalKeys hkdf g secret clientNonce serverNonce in
  accept hmac hkdf so (Ok (embed (client_document (hello_of g secret clientNonce)))) (Reader [] None) true
    now serverNonce consumed
  = (Ok (w, g, start (newChannel (Reader [] None) keys.2 keys.1 (grant_connectionId g) ms)),
     map_set (prune now consumed) (grant_connectionId g) (grant_expiresAt g)).
Proof.
  intros [_ _ _ [t Ht] Hms] Hg Hs Hcn Hr Hn Hu Hw keys.
  destruct (url_text clientNonce (proj1 Hcn) (proj2 Hcn)) as [Hnn _].
  destruct (mac_text Hmac secret (clientHelloTranscript (client_hello g clientNonce []))) as [Hmn _].
  assert (Hparse : parseClientHello (embed (client_document (hello_of g secret clientNonce)))
                   = Ok (hello_of g secret clientNonce)).
  { apply parseClientHello_document;
      [exact (gok_connection _ Hg)|exact (gok_source _ Hg)|exact (gok_destination _ Hg)
      |exact (gok_port _ Hg)|exact (gok_expiry _ Hg)|exact (normal_weaken 44 128 _ ltac:(lia) Hnn)
      |exact (normal_weaken 44 128 _ ltac:(lia) Hmn)]. }
  assert (Hmatch : grant_matches g (hello_of g secret clientNonce) = true).
  { unfold grant_matches, hello_of, client_hello. cbn [hello_sourceNodeId hello_destinationNodeId
      hello_targetPort hello_expiresAt]. by rewrite !bool_decide_true, !Z.eqb_refl. }
  unfold accept, accept_start, accept_finish, se_bind, se_lift, se_modify, se_get, se_ret. rewrite Ht, Hparse.
  change (hello_connectionId (hello_of g secret clientNonce)) with (grant_connectionId g).
  change (hello_clientNonce (hello_of g secret clientNonce)) with (b64url_encode clientNonce).
  change (hello_mac (hello_of g secret clientNonce))
    with (mac hmac secret (clientHelloTranscript (client_hello g clientNonce []))).
  rewrite Hr, validateGrant_ok, Hmatch by done. cbn [negb].
  unfold map_has. rewrite Hu, Hs, nonce_decodes by done.
  change (clientHelloTranscript (hello_of g secret clientNonce))
    with (clientHelloTranscript (client_hello g clientNonce [])).
  rewrite verifyMac_mac by done. unfold response_of in Hw. rewrite Hw.
  unfold keys. destruct (deriveDirectionalKeys _ _ _ _ _) as [kc ks]. by rewrite Hms.
Qed.

Lemma connect_finish_response (Hmac : hmac_sha256) co so mc ms secret clientNonce serverNonce :
  options_ok co so mc ms -> grant_ok (grant co) -> grantSecret (grant co) = Ok secret ->
  nonce32 serverNonce ->
  let keys := deriveDirectionalKeys hkdf (grant co) secret clientNonce serverNonce in
  connect_finish hmac hkdf co clientNonce
    (Ok (embed (server_document (response_of (grant co) secret clientNonce serverNonce)))) (Reader [] None) false
  = (Ok (start (newChannel (Reader [] None) keys.1 keys.2 (grant_connectionId (grant co)) mc)), false).
Proof.
  intros [_ _ Hmc _ _] Hg Hs Hsn keys.
  destruct (url_text serverNonce (proj1 Hsn) (proj2 Hsn)) as [Hnn _].
  set (t := serverHelloTranscript (grant co) (b64url_encode clientNonce) (b64url_encode serverNonce)).
  destruct (mac_text Hmac secret t) as [Hmn _].
  assert (Hparse : parseServerHello (embed (server_document (response_of (grant co) secret clientNonce serverNonce)))
                   = Ok (response_of (grant co) secret clientNonce serverNonce)).
  { apply parseServerHello_document;
      [exact (gok_connection _ Hg)|exact (normal_weaken 44 128 _ ltac:(lia) Hnn)
      |exact (normal_weaken 44 128 _ ltac:(lia) Hmn)]. }
  unfold connect_finish, se_bind, se_lift, se_ret. rewrite Hparse. unfold response_of.
  cbn [response_connectionId response_serverNonce response_mac].
  rewrite bool_decide_true by done. cbn [negb]. rewrite nonce_decodes, Hs by done.
  fold t. rewrite verifyMac_mac by done.
  unfold keys. destruct (deriveDirectionalKeys _ _ _ _ _) as [kc ks]. by rewrite Hmc.
Qed.

Lemma trim_scalars s : scalars s -> scalars (trim s).
Proof.
  assert (Hstart : forall u, scalars u -> scalars (trimStart u)).
  { intros u Hu. destruct (trimStart_suffix u) as [q Hq]. rewrite Hq in Hu. by apply scalars_app in Hu as [_ ?]. }
  assert (Hrev : forall u, scalars u -> scalars (reverse u)).
  { intros u Hu. unfold scalars in *. rewrite Forall_forall in *. intros c Hc. apply Hu.
    by apply elem_of_reverse. }
  intros Hs. apply Hrev, Hstart, Hrev, Hstart, Hs.
Qed.

(** C9 (refinement). Two workers that hold a grant the coordinator made, before it
    expires and for an id that is not in use, complete the handshake: the hello of
    the client and the answer of the server are within the size limit and are read
    as they were written, the server marks the id as used until the grant expires,
    and the two ends get channels with the same keys crosswise, the same connection
    id and both sequence numbers at zero. *)
Theorem handshake_agreement co so mc ms c s d p e secret now_c now_s clientNonce serverNonce consumed :
  hmac_sha256 -> options_ok co so mc ms -> scalars c -> scalars s -> scalars d -> Forall is_byte secret ->
  createDirectSessionGrant c s d p e secret = Ok (grant co) ->
  resolveGrant so (grant_connectionId (grant co)) = Some (grant co) ->
  nonce32 clientNonce -> nonce32 serverNonce ->
  now_c < grant_expiresAt (grant co) -> now_s < grant_expiresAt (grant co) ->
  map_get (prune now_s consumed) (grant_connectionId (grant co)) = None ->
  exists hello v1 answer v2 clientKey serverKey,
    connect_start hmac co now_c (Ok tt) clientNonce false = (Ok hello, false)
    /\ readDocument (Reader hello None) = Some (Ok v1, Reader [] None)
    /\ accept hmac hkdf so (Ok v1) (Reader [] None) true now_s serverNonce consumed
       = (Ok (answer, grant co,
              start (newChannel (Reader [] None) serverKey clientKey (grant_connectionId (grant co)) ms)),
          map_set (prune now_s consumed) (grant_connectionId (grant co)) (grant_expiresAt (grant co)))
    /\ readDocument (Reader answer None) = Some (Ok v2, Reader [] None)
    /\ connect_finish hmac hkdf co clientNonce (Ok v2) (Reader [] None) false
       = (Ok (start (newChannel (Reader [] None) clientKey serverKey (grant_connectionId (grant co)) mc)), false).
Proof.
  intros Hmac Hopt Uc Us Ud Hb Hg Hr Hcn Hsn Hn1 Hn2 Hu.
  destruct (createDirectSessionGrant_ok _ _ _ _ _ _ _ Hb Hg) as (Hok & Hsec & Ec & Es & Ed & _ & _).
  apply trim_scalars in Uc, Us, Ud. rewrite <- Ec in Uc. rewrite <- Es in Us. rewrite <- Ed in Ud.
  destruct (url_text clientNonce (proj1 Hcn) (proj2 Hcn)) as [N1 N1'].
  destruct (url_text serverNonce (proj1 Hsn) (proj2 Hsn)) as [N2 N2'].
  destruct (mac_text Hmac secret (clientHelloTranscript (client_hello (grant co) clientNonce []))) as [M1 M1'].
  destruct (mac_text Hmac secret (serverHelloTranscript (grant co) (b64url_encode clientNonce)
    (b64url_encode serverNonce))) as [M2 M2'].
  destruct (client_document_arrives (hello_of (grant co) secret clientNonce) [] None) as (w1 & W1 & R1);
    [exact (gok_connection _ Hok)|exact (gok_source _ Hok)|exact (gok_destination _ Hok)
    |exact (gok_port _ Hok)|exact (gok_expiry _ Hok)|exact N1|exact M1|exact Uc|exact Us|exact Ud
    |exact N1'|exact M1'|].
  destruct (server_document_arrives (response_of (grant co) secret clientNonce serverNonce) [] None)
    as (w2 & W2 & R2); [exact (gok_connection _ Hok)|exact N2|exact M2|exact Uc|exact N2'|exact M2'|].
  rewrite app_nil_r in R1, R2.
  exists w1, (embed (client_document (hello_of (grant co) secret clientNonce))), w2,
    (embed (server_document (response_of (grant co) secret clientNonce serverNonce))),
    (deriveDirectionalKeys hkdf (grant co) secret clientNonce serverNonce).1,
    (deriveDirectionalKeys hkdf (grant co) secret clientNonce serverNonce).2.
  split; [exact (connect_start_hello co so mc ms now_c clientNonce secret w1 Hopt Hok Hsec Hn1 W1)|].
  split; [exact R1|]. split; [|split; [exact R2|]].
  - exact (accept_hello Hmac co so mc ms (grant co) secret clientNonce serverNonce now_s consumed w2
      Hopt Hok Hsec Hcn Hr Hn2 Hu W2).
  - exact (connect_finish_response Hmac co so mc ms secret clientNonce serverNonce Hopt Hok Hsec Hsn).
Qed.

(** What the server and the client authenticate is unambiguous.
    The transcript of a hello determines every field of it, that of an answer every
    field of the grant and both nonces, and no hello has the transcript of an
    answer; the server accepts a hello only if its MAC is that of its own
    transcript under the secret of the grant, and every field of it is the
    grant's. *)
Theorem transcripts_unambiguous :
  (forall h h', hello_ok h -> hello_ok h' -> clientHelloTranscript h = clientHelloTranscript h' ->
     h' = Hello (hello_connectionId h) (hello_sourceNodeId h) (hello_destinationNodeId h)
            (hello_targetPort h) (hello_expiresAt h) (hello_clientNonce h) (hello_mac h'))
  /\ (forall g g' cn cn' sn sn', grant_ok g -> grant_ok g' -> grant_scalars g -> grant_scalars g' ->
     nonce_ok cn -> nonce_ok cn' -> nonce_ok sn -> nonce_ok sn' ->
     serverHelloTranscript g cn sn = serverHelloTranscript g' cn' sn' ->
     g' = Grant (grant_protocol g) (grant_connectionId g) (grant_sourceNodeId g) (grant_destinationNodeId g)
            (grant_targetPort g) (grant_expiresAt g) (grant_secret g') /\ cn = cn' /\ sn = sn')
  /\ (forall h g cn sn, hello_ok h -> grant_ok g -> grant_scalars g -> nonce_ok cn -> nonce_ok sn ->
     clientHelloTranscript h <> serverHelloTranscript g cn sn)
  /\ (forall o document r writable now serverNonce consumed w g c consumed',
     accept hmac hkdf o document r writable now serverNonce consumed = (Ok (w, g, c), consumed') ->
     exists v h secret, document = Ok v /\ parseClientHello v = Ok h /\ grantSecret g = Ok secret
       /\ hello_mac h = mac hmac secret (clientHelloTranscript h)
       /\ resolveGrant o (hello_connectionId h) = Some g /\ grant_matches g h = true).
Proof.
  split_and!.
  - intros h h' Hh Hh' E. apply transcript_inj in E; [|by apply client_fields_ok..|done|done].
    destruct h as [a1 a2 a3 a4 a5 a6 a7], h' as [b1 b2 b3 b4 b5 b6 b7]. unfold client_fields in E. cbn [hello_connectionId hello_sourceNodeId
      hello_destinationNodeId hello_targetPort hello_expiresAt hello_clientNonce hello_mac] in *.
    injection E as -> -> -> Ep Ee ->. apply decimal_inj in Ep as ->. by apply decimal_inj in Ee as ->.
  - intros g g' cn cn' sn sn' Hg Hg' Ug Ug' N1 N2 N3 N4 E.
    apply transcript_inj in E; [|by apply server_fields_ok..|done|done].
    destruct g as [a1 a2 a3 a4 a5 a6 a7], g' as [b1 b2 b3 b4 b5 b6 b7]. unfold server_fields in E. cbn [grant_protocol grant_connectionId grant_sourceNodeId
      grant_destinationNodeId grant_targetPort grant_expiresAt] in *.
    injection E as -> -> -> -> Ep Ee -> ->. apply decimal_inj in Ep as ->. by apply decimal_inj in Ee as ->.
  - intros h g cn sn Hh Hg Ug N1 N2 E.
    apply transcript_inj in E; [|by apply client_fields_ok|by apply server_fields_ok|done|done]. done.
  - intros o document r writable now serverNonce consumed w g c consumed' Ha.
    apply accept_inv in Ha as (v & h & secret & cn & -> & [H1 H2 H3 H4 H5 H6 H7 H8] & _).
    by exists v, h, secret.
Qed.
End Guarantees.
