(* ===== verification/DirectExamples.v ===== *)
(** * Runs of the direct connection

    The inputs on which the theorems of the channel and the handshake are applied,
    with stand-ins for the cryptography, and two runs in which an end is not cleaned
    up. *)

From S2P Require Import Prelude JsString JsMap JsonText JsonParse Base64.
From S2P Require Import DirectGrant DirectChannel DirectChannelProps DirectHandshake DirectHandshakeProps.

#[local] Open Scope Z_scope.

(** ** Stand-ins for the cryptography *)

Definition poly (b : bytes) : Z := foldl (fun a x => (a * 257 + x + 1) mod 2 ^ 61) 7 b.

Definition toy_hmac (k t : bytes) : bytes := be_write 32 (poly (k ++ t)).
Definition toy_hkdf (k salt info : bytes) : bytes :=
  be_write 32 (poly (1 :: k ++ salt ++ info)) ++ be_write 32 (poly (2 :: k ++ salt ++ info)).
Definition toy_tag (k n a p : bytes) : bytes := be_write 16 (poly (k ++ n ++ a ++ p)).
Definition toy_encrypt (k n a p : bytes) : bytes * bytes := (p, toy_tag k n a p).
Definition toy_decrypt (k n a c t : bytes) : option bytes :=
  if bool_decide (t = toy_tag k n a c) then Some c else None.

Lemma toy_hmac_sha256 : hmac_sha256 toy_hmac.
Proof. intros k t. split; [apply be_write_bytes|apply length_be_write]. Qed.

Lemma toy_lengths k n a p :
  length (toy_encrypt k n a p).1 = length p /\ length (toy_encrypt k n a p).2 = 16%nat.
Proof. split; [done|apply length_be_write]. Qed.

Lemma toy_opens k n a p :
  toy_decrypt k n a (toy_encrypt k n a p).1 (toy_encrypt k n a p).2 = Some p.
Proof.
  unfold toy_decrypt, toy_encrypt. cbn [fst snd]. rewrite bool_decide_true by reflexivity. reflexivity.
Qed.

(** ** The channel *)

Definition cid : jsstring := js "stream-1".
Definition k1 : bytes := replicate 32 1.
Definition k2 : bytes := replicate 32 2.
Definition m1 : bytes := [104; 105].
Definition m2 : bytes := [33].

Definition two : list event := [Send m1; Send m2].

(** The first frame arrives, then the second with another text in it. *)
Definition tampered : bytes :=
  sealed_frame toy_encrypt k1 cid 0 m1 ++ frame_header 1 1 ++ [34] ++ toy_tag k1 (frameNonce 1) (frameAad cid (frame_header 1 1)) m2.

Definition tampered_tries : list (bytes * bytes * bytes * bytes) := Eval vm_compute in
  attempts toy_encrypt toy_decrypt (SocketData tampered :: replicate 12 Loop) (start (newChannel (Reader [] None) k2 k1 cid 1024)).

Lemma tampered_unforged :
  unforged toy_encrypt toy_decrypt k1 cid (run toy_encrypt toy_decrypt two (start (newChannel (Reader [] None) k1 k2 cid 1024)))
    tampered_tries.
Proof.
  unfold unforged, tampered_tries. constructor; [|constructor; [|constructor]].
  - intros _. exists 0%nat, m1. split; vm_compute; reflexivity.
  - intros H. exfalso. apply H. vm_compute. reflexivity.
Qed.

Lemma channel_prefix_delivery_witness :
  attempts toy_encrypt toy_decrypt (SocketData tampered :: replicate 12 Loop)
    (start (newChannel (Reader [] None) k2 k1 cid 1024)) <> []
  /\ delivered (run toy_encrypt toy_decrypt (SocketData tampered :: replicate 12 Loop)
    (start (newChannel (Reader [] None) k2 k1 cid 1024)))
    `prefix_of` sealed (run toy_encrypt toy_decrypt two (start (newChannel (Reader [] None) k1 k2 cid 1024))).
Proof.
  split; [vm_compute; discriminate|].
  apply (channel_prefix_delivery toy_encrypt toy_decrypt k1 k2 k2 cid 1024 1024 (Reader [] None) (Reader [] None)
    two (SocketData tampered :: replicate 12 Loop) toy_opens).
  - assert (E : attempts toy_encrypt toy_decrypt (SocketData tampered :: replicate 12 Loop)
      (start (newChannel (Reader [] None) k2 k1 cid 1024)) = tampered_tries) by (vm_compute; reflexivity).
    rewrite E. exact tampered_unforged.
  - vm_compute. reflexivity.
Defined.

Example tampering_refused :
  emitted (run toy_encrypt toy_decrypt (SocketData tampered :: replicate 12 Loop)
    (start (newChannel (Reader [] None) k2 k1 cid 1024)))
  = [Data m1; Failed "direct_frame_authentication_failed"; Closed].
Proof. vm_compute. reflexivity. Qed.

(** The first frame arrives twice, the second never. *)
Definition replayed : bytes := sealed_frame toy_encrypt k1 cid 0 m1 ++ sealed_frame toy_encrypt k1 cid 0 m1.

(** In that run the replay is refused and the channel is destroyed. *)
Example replay_refused :
  emitted (run toy_encrypt toy_decrypt (SocketData replayed :: replicate 12 Loop)
    (start (newChannel (Reader [] None) k2 k1 cid 1024)))
  = [Data m1; Failed "direct_frame_sequence_is_invalid"; Closed].
Proof. vm_compute. reflexivity. Qed.

(** The bytes of the two frames, cut in the middle of a header. *)
Definition cut : list event :=
  let w := sealed_frame toy_encrypt k1 cid 0 m1 ++ sealed_frame toy_encrypt k1 cid 1 m2 in
  [SocketData (take 5 w); Loop; Loop; SocketData (drop 5 w)].

Lemma channel_transfer_witness :
  delivered (run toy_encrypt toy_decrypt (cut ++ replicate 10 Loop)
    (start (newChannel (Reader [] None) k2 k1 cid 2048)))
  = sealed (run toy_encrypt toy_decrypt two (start (newChannel (Reader [] None) k1 k2 cid 1024))).
Proof.
  apply (channel_transfer toy_encrypt toy_decrypt k1 k2 k2 cid 1024 2048 (Reader [] None) two cut 10).
  - exact toy_lengths.
  - exact toy_opens.
  - lia.
  - lia.
  - repeat constructor.
  - vm_compute. reflexivity.
  - apply Nat.leb_le. vm_compute. reflexivity.
Defined.

(** A socket error while [close()] waits rejects it: the channel never says that it
    is closed, although its socket is gone. *)
Example close_event_is_lost gcm_encrypt gcm_decrypt :
  let c := run gcm_encrypt gcm_decrypt [Close; SocketError "ECONNRESET"; SocketClose; CloseTimer; Destroy]
             (start (newChannel (Reader [] None) k1 k2 cid 1024)) in
  closed c = true /\ destroyed c = true /\ emitted c = [].
Proof. vm_compute. split_and!; reflexivity. Qed.

(** ** The handshake *)

Definition secret32 : bytes := replicate 32 7.
Definition nonce_c : bytes := replicate 32 11.
Definition nonce_s : bytes := replicate 32 13.

Definition grant_until (t : Z) : DirectSessionGrant :=
  Grant DIRECT_TRANSPORT_PROTOCOL (js "stream-1") (js "node-a") (js "node-b") 7000 t (b64url_encode secret32).

Definition client_of (g : DirectSessionGrant) : client_options := ClientOptions (NInt 9000) g None None.
Definition server_of (g : DirectSessionGrant) : server_options :=
  ServerOptions (fun id => if bool_decide (id = grant_connectionId g) then Some g else None)
    (Some (NInt (128 * 1024))) (Some (NInt 2000)).

Lemma bytes_replicate n x : 0 <= x < 256 -> Forall is_byte (replicate n x).
Proof. intros Hx. apply Forall_replicate. exact Hx. Qed.

Lemma nonce32_replicate x : 0 <= x < 256 -> nonce32 (replicate 32 x).
Proof. intros Hx. split; [by apply bytes_replicate|apply length_replicate]. Qed.

Lemma options_ok_of g : options_ok (client_of g) (server_of g) (64 * 1024) (128 * 1024).
Proof. split; [by eexists|by eexists|done|by eexists|done]. Qed.

Lemma handshake_agreement_witness :
  exists hello v1 answer v2 clientKey serverKey,
    connect_start toy_hmac (client_of (grant_until 100)) 10 (Ok tt) nonce_c false = (Ok hello, false)
    /\ readDocument (Reader hello None) = Some (Ok v1, Reader [] None)
    /\ accept toy_hmac toy_hkdf (server_of (grant_until 100)) (Ok v1) (Reader [] None) true 20 nonce_s []
       = (Ok (answer, grant_until 100,
              start (newChannel (Reader [] None) serverKey clientKey (js "stream-1") (128 * 1024))),
          map_set (prune 20 []) (js "stream-1") 100)
    /\ readDocument (Reader answer None) = Some (Ok v2, Reader [] None)
    /\ connect_finish toy_hmac toy_hkdf (client_of (grant_until 100)) nonce_c (Ok v2) (Reader [] None) false
       = (Ok (start (newChannel (Reader [] None) clientKey serverKey (js "stream-1") (64 * 1024))), false).
Proof.
  apply (handshake_agreement toy_hmac toy_hkdf (client_of (grant_until 100)) (server_of (grant_until 100))
    (64 * 1024) (128 * 1024) (js " stream-1") (js "node-a") (js "node-b") (NInt 7000) (NInt 100) secret32
    10 20 nonce_c nonce_s []).
  - exact toy_hmac_sha256.
  - apply options_ok_of.
  - apply ascii_scalars; repeat constructor; discriminate.
  - apply ascii_scalars; repeat constructor; discriminate.
  - apply ascii_scalars; repeat constructor; discriminate.
  - by apply bytes_replicate.
  - vm_compute. reflexivity.
  - vm_compute. reflexivity.
  - by apply nonce32_replicate.
  - by apply nonce32_replicate.
  - reflexivity.
  - reflexivity.
  - reflexivity.
Defined.

(** A client that comes back after its grant has expired, with a new one. *)
Definition attempt_of (g : DirectSessionGrant) (t : Z) : attempt :=
  Attempt (server_of g) (Ok (embed (client_document (hello_of toy_hmac g secret32 nonce_c)))) (Reader [] None)
    true t nonce_s.

Definition attempts : list attempt :=
  [attempt_of (grant_until 100) 10; attempt_of (grant_until 100) 50; attempt_of (grant_until 300) 200].

Lemma grant_single_use_witness : 10 < 100 <= 200 /\ 200 < 300.
Proof.
  apply (grant_single_use toy_hmac toy_hkdf attempts 0 [] 0 2 10 200 (grant_until 100) (grant_until 300)).
  - repeat split; discriminate.
  - apply Nat.ltb_lt. reflexivity.
  - vm_compute. reflexivity.
  - vm_compute. reflexivity.
  - reflexivity.
Defined.

(** The second attempt, with the grant already used, is refused. *)
Example second_use_refused :
  (accept toy_hmac toy_hkdf (server_of (grant_until 100))
     (Ok (embed (client_document (hello_of toy_hmac (grant_until 100) secret32 nonce_c)))) (Reader [] None)
     true 50 nonce_s [(cid, 100)]).1
  = Err "direct_transport_grant_was_already_consumed".
Proof. vm_compute. reflexivity. Qed.

(** Two connections with the same hello that overlap: the second arrives while the
    server waits for its answer to the first to be written, and both get a channel. *)
Example grant_accepted_twice :
  let o := server_of (grant_until 100) in
  let hello := Ok (embed (client_document (hello_of toy_hmac (grant_until 100) secret32 nonce_c))) in
  match accept_start toy_hmac o hello 20 nonce_s [] with
  | (Ok p1, s1) =>
      match accept_start toy_hmac o hello 21 nonce_c s1 with
      | (Ok p2, s2) =>
          match accept_finish toy_hkdf o (Reader [] None) true nonce_s p1 s2 with
          | (Ok (_, g1, _), s3) =>
              match accept_finish toy_hkdf o (Reader [] None) true nonce_c p2 s3 with
              | (Ok (_, g2, _), _) => grant_connectionId g1 = cid /\ grant_connectionId g2 = cid
              | _ => False
              end
          | _ => False
          end
      | _ => False
      end
  | _ => False
  end.
Proof. vm_compute. split; reflexivity. Qed.

(** A handshake that times out, or whose answer is not authentic, makes [connect]
    throw and leaves its socket open. *)
Lemma connect_leaves_socket_open hmac hkdf co clientNonce r :
  connect_finish hmac hkdf co clientNonce (Err "direct_handshake_timeout") r false
  = (Err "direct_handshake_timeout", false)
  /\ (forall v sn resp, parseServerHello v = Ok resp ->
        response_connectionId resp = grant_connectionId (grant co) ->
        base64Bytes (response_serverNonce resp) 32 "direct_server_nonce_is_invalid" = Ok sn ->
        (exists secret, grantSecret (grant co) = Ok secret
           /\ mac hmac secret (serverHelloTranscript (grant co) (b64url_encode clientNonce) (response_serverNonce resp))
              <> response_mac resp) ->
        connect_finish hmac hkdf co clientNonce (Ok v) r false
        = (Err "direct_server_authentication_failed", false)).
Proof.
  split; [done|]. intros v sn resp Hp Hid Hn (secret & Hs & Hm).
  unfold connect_finish, se_bind, se_lift. rewrite Hp, bool_decide_true, Hn, Hs by done. cbn [negb].
  destruct (verifyMac _ _ _ _ _) as [[]|code] eqn:Ev.
  - apply verifyMac_inv in Ev. by rewrite Ev in Hm.
  - by apply verifyMac_err in Ev as ->.
Qed.
