(* ===== verification/Checkpoint.v ===== *)
(** * Activation checkpoints

    The signed description of a stage's state ([src/src/contracts/activation-checkpoint.ts])
    and the chunks its payload is sent in
    ([src/src/contracts/activation-checkpoint-transfer.ts]).  A checkpoint is a typed
    record with the checks of its schema; its text is the canonical JSON of its
    fields.  The hash, the signature and its verification are parameters, and so is
    the test of Zod for UUIDs. *)

From S2P Require Import Prelude JsString JsMap JsonText CanonicalJson Schema Base64.

#[local] Open Scope Z_scope.

Definition ACTIVATION_CHECKPOINT_SCHEMA : jsstring := js "mycellios-activation-checkpoint/1".
Definition MAX_ACTIVATION_CHECKPOINT_BYTES : Z := 512 * 1024 * 1024.
Definition ACTIVATION_CHECKPOINT_CHUNK_BYTES : Z := 256 * 1024.
Definition MAX_ACTIVATION_CHECKPOINT_CHUNKS : Z := 2048.

(** ** Data *)

Record UnsignedActivationCheckpoint := Unsigned {
  cp_requestIdHash : jsstring;
  cp_stageId : jsstring;
  cp_nodeIdHash : jsstring;
  cp_topologyGeneration : Z;
  cp_topologyDigest : jsstring;
  cp_engineDescriptorDigest : jsstring;
  cp_artifactManifestDigest : jsstring;
  cp_configurationDigest : jsstring;
  cp_layerStart : Z;
  cp_layerEnd : Z;
  cp_committedPosition : Z;
  cp_payloadDigest : jsstring;
  cp_bytes : Z;
  cp_createdAt : Z;
  cp_expiresAt : Z;
  cp_keyId : jsstring;
}.

Record ActivationCheckpoint := Checkpoint {
  unsigned : UnsignedActivationCheckpoint;
  checkpointId : jsstring;
  cp_signature : jsstring;
}.

Record ActivationCheckpointCompatibility := Compatibility {
  ex_keyId : jsstring;
  ex_requestIdHash : jsstring;
  ex_nodeIdHash : jsstring;
  ex_topologyGeneration : Z;
  ex_topologyDigest : jsstring;
  ex_engineDescriptorDigest : jsstring;
  ex_artifactManifestDigest : jsstring;
  ex_configurationDigest : jsstring;
  ex_stageId : jsstring;
  ex_layerStart : Z;
  ex_layerEnd : Z;
  ex_minimumCommittedPosition : option Z;
}.

#[export] Instance Unsigned_eq_dec : EqDecision UnsignedActivationCheckpoint.
Proof. solve_decision. Defined.
#[export] Instance Checkpoint_eq_dec : EqDecision ActivationCheckpoint.
Proof. solve_decision. Defined.

(** ** Schemas *)

(** [/^[A-Za-z0-9][A-Za-z0-9._:-]*$/], at most 256 characters. *)
Definition is_checkpoint_identifier (s : jsstring) : bool :=
  match s with
  | [] => false
  | c :: s' =>
      is_alnum c && forallb (fun d => is_alnum d || (d =? 46) || (d =? 95) || (d =? 58) || (d =? 45)) s'
      && (utf16_length s <=? 256)
  end.

(** [/^[A-Za-z0-9_-]{86}$/]. *)
Definition is_signature (s : jsstring) : bool :=
  (Z.of_nat (length s) =? 86) && forallb is_url_char s.

Definition unsigned_valid (u : UnsignedActivationCheckpoint) : bool :=
  is_sha256 (cp_requestIdHash u) && is_checkpoint_identifier (cp_stageId u) && is_sha256 (cp_nodeIdHash u)
  && safe_nonneg (cp_topologyGeneration u) && is_sha256 (cp_topologyDigest u)
  && is_sha256 (cp_engineDescriptorDigest u) && is_sha256 (cp_artifactManifestDigest u)
  && is_sha256 (cp_configurationDigest u) && safe_nonneg (cp_layerStart u) && safe_positive (cp_layerEnd u)
  && safe_nonneg (cp_committedPosition u) && is_sha256 (cp_payloadDigest u)
  && (1 <=? cp_bytes u) && (cp_bytes u <=? MAX_ACTIVATION_CHECKPOINT_BYTES)
  && safe_nonneg (cp_createdAt u) && safe_positive (cp_expiresAt u) && is_checkpoint_identifier (cp_keyId u)
  && (cp_layerStart u <? cp_layerEnd u) && (cp_createdAt u <? cp_expiresAt u).

Definition checkpoint_valid (c : ActivationCheckpoint) : bool :=
  unsigned_valid (unsigned c) && is_sha256 (checkpointId c) && is_signature (cp_signature c).

(** ** Text *)

Definition unsigned_fields (u : UnsignedActivationCheckpoint) : list (jsstring * json) :=
  [ (js "schema", JStr ACTIVATION_CHECKPOINT_SCHEMA);
    (js "requestIdHash", JStr (cp_requestIdHash u)); (js "stageId", JStr (cp_stageId u));
    (js "nodeIdHash", JStr (cp_nodeIdHash u)); (js "topologyGeneration", JNum (cp_topologyGeneration u));
    (js "topologyDigest", JStr (cp_topologyDigest u));
    (js "engineDescriptorDigest", JStr (cp_engineDescriptorDigest u));
    (js "artifactManifestDigest", JStr (cp_artifactManifestDigest u));
    (js "configurationDigest", JStr (cp_configurationDigest u)); (js "layerStart", JNum (cp_layerStart u));
    (js "layerEnd", JNum (cp_layerEnd u)); (js "committedPosition", JNum (cp_committedPosition u));
    (js "payloadDigest", JStr (cp_payloadDigest u)); (js "bytes", JNum (cp_bytes u));
    (js "createdAt", JNum (cp_createdAt u)); (js "expiresAt", JNum (cp_expiresAt u));
    (js "keyId", JStr (cp_keyId u)) ].

Definition signed_text (u : UnsignedActivationCheckpoint) (id : jsstring) : bytes :=
  utf8_encode (evidence_text (JObj (unsigned_fields u ++ [(js "checkpointId", JStr id)]))).

Section Checkpoints.
Context (sha256_hex : bytes -> jsstring).

Definition identity_of (u : UnsignedActivationCheckpoint) : jsstring := digest sha256_hex (JObj (unsigned_fields u)).

(** [sign] is [node:crypto]'s with the private key given. *)
Definition signActivationCheckpoint (u : UnsignedActivationCheckpoint) (sign : bytes -> bytes)
    : res ActivationCheckpoint :=
  throw_if negb (unsigned_valid u) with ZodError ;;
  let id := identity_of u in
  let c := Checkpoint u id (b64url_encode (sign (signed_text u id))) in
  throw_if negb (checkpoint_valid c) with ZodError ;;
  Ok c.

(** With a signer of texts. *)
Definition signActivationCheckpointWith (u : UnsignedActivationCheckpoint) (signer : jsstring -> jsstring)
    : res ActivationCheckpoint :=
  throw_if negb (unsigned_valid u) with ZodError ;;
  let id := identity_of u in
  let text := evidence_text (JObj (unsigned_fields u ++ [(js "checkpointId", JStr id)])) in
  let c := Checkpoint u id (signer text) in
  throw_if negb (checkpoint_valid c) with ZodError ;;
  Ok c.

Lemma signActivationCheckpoint_with u sign :
  signActivationCheckpoint u sign = signActivationCheckpointWith u (fun t => b64url_encode (sign (utf8_encode t))).
Proof. reflexivity. Qed.

Definition payload_digest (payload : bytes) : jsstring := js "sha256:" ++ sha256_hex payload.

(** The keys that are compared, in the order of the loop, with whether they agree. *)
Definition compared (u : UnsignedActivationCheckpoint) (e : ActivationCheckpointCompatibility)
    : list (string * bool) :=
  [ ("keyId"%string, bool_decide (cp_keyId u = ex_keyId e));
    ("requestIdHash"%string, bool_decide (cp_requestIdHash u = ex_requestIdHash e));
    ("nodeIdHash"%string, bool_decide (cp_nodeIdHash u = ex_nodeIdHash e));
    ("topologyGeneration"%string, cp_topologyGeneration u =? ex_topologyGeneration e);
    ("topologyDigest"%string, bool_decide (cp_topologyDigest u = ex_topologyDigest e));
    ("engineDescriptorDigest"%string, bool_decide (cp_engineDescriptorDigest u = ex_engineDescriptorDigest e));
    ("artifactManifestDigest"%string, bool_decide (cp_artifactManifestDigest u = ex_artifactManifestDigest e));
    ("configurationDigest"%string, bool_decide (cp_configurationDigest u = ex_configurationDigest e));
    ("stageId"%string, bool_decide (cp_stageId u = ex_stageId e));
    ("layerStart"%string, cp_layerStart u =? ex_layerStart e);
    ("layerEnd"%string, cp_layerEnd u =? ex_layerEnd e) ].

Fixpoint first_incompatible (l : list (string * bool)) : option string :=
  match l with
  | [] => None
  | (key, agree) :: l' => if agree then first_incompatible l' else Some key
  end.

Definition incompatible (key : string) : string :=
  String.append "activation_checkpoint_" (String.append key "_is_incompatible").

(** [pinnedKeys.get(keyId)] is the verification with that key. *)
Definition verifyActivationCheckpoint (c : ActivationCheckpoint) (payload : bytes)
    (pinnedKeys : jsstring -> option (bytes -> bytes -> bool)) (expected : ActivationCheckpointCompatibility)
    (now : Z) : res ActivationCheckpoint :=
  let u := unsigned c in
  throw_if negb (checkpoint_valid c) with ZodError ;;
  throw_if negb (bool_decide (identity_of u = checkpointId c))
    with "activation_checkpoint_identity_is_invalid" ;;
  throw_if negb (match pinnedKeys (cp_keyId u) with
                 | Some verify => verify (signed_text u (checkpointId c)) (b64_decode (cp_signature c))
                 | None => false
                 end) with "activation_checkpoint_signature_is_invalid" ;;
  throw_if negb (byteLength payload =? cp_bytes u) || (MAX_ACTIVATION_CHECKPOINT_BYTES <? byteLength payload)
    with "activation_checkpoint_size_is_invalid" ;;
  throw_if negb (bool_decide (payload_digest payload = cp_payloadDigest u))
    with "activation_checkpoint_payload_is_corrupt" ;;
  throw_if cp_expiresAt u <=? now with "activation_checkpoint_is_expired" ;;
  match first_incompatible (compared u expected) with
  | Some key => Err (incompatible key)
  | None =>
      throw_if match ex_minimumCommittedPosition expected with
               | Some p => cp_committedPosition u <? p
               | None => false
               end with "activation_checkpoint_position_is_incompatible" ;;
      Ok c
  end.
End Checkpoints.

(** ** Chunks *)

Record ActivationCheckpointChunk := Chunk {
  ch_transferId : jsstring;
  ch_checkpointId : jsstring;
  ch_index : Z;
  ch_data : jsstring;
}.

(** [/^[A-Za-z0-9+/]+={0,2}$/]: the text without up to two [=] at its end. *)
Definition is_b64_char (c : Z) : bool := is_alnum c || (c =? 43) || (c =? 47).

Definition is_base64 (s : jsstring) : bool :=
  let body := match reverse s with
              | 61 :: 61 :: r => r
              | 61 :: r => r
              | r => r
              end in
  negb (bool_decide (body = [])) && forallb is_b64_char body.

(** The size of a chunk, as a number of list elements. *)
Definition CHUNK : nat := Z.to_nat ACTIVATION_CHECKPOINT_CHUNK_BYTES.

Section Chunks.
Context (is_uuid : jsstring -> bool).

Definition chunk_valid (c : ActivationCheckpointChunk) : bool :=
  is_uuid (ch_transferId c) && is_sha256 (ch_checkpointId c)
  && (0 <=? ch_index c) && (ch_index c <=? MAX_ACTIVATION_CHECKPOINT_CHUNKS - 1)
  && (1 <=? utf16_length (ch_data c)) && (utf16_length (ch_data c) <=? 349530)
  && is_base64 (ch_data c)
  && (byteLength (b64_decode (ch_data c)) <=? ACTIVATION_CHECKPOINT_CHUNK_BYTES).

(** The loop, from the chunk [index]; [fuel] is the number of bytes left. *)
Fixpoint chunks_from (fuel : nat) (transferId id : jsstring) (index : Z) (payload : bytes)
    : res (list ActivationCheckpointChunk) :=
  match fuel, payload with
  | S fuel', _ :: _ =>
      let c := Chunk transferId id index (b64_encode (take CHUNK payload)) in
      throw_if negb (chunk_valid c) with ZodError ;;
      let? rest := chunks_from fuel' transferId id (index + 1) (drop CHUNK payload) in
      Ok (c :: rest)
  | _, _ => Ok []
  end.

Definition activationCheckpointChunks (transferId : jsstring) (c : ActivationCheckpoint) (payload : bytes)
    : res (list ActivationCheckpointChunk) :=
  throw_if negb (is_uuid transferId) with ZodError ;;
  throw_if negb (byteLength payload =? cp_bytes (unsigned c))
    with "activation_checkpoint_transfer_payload_size_is_invalid" ;;
  chunks_from (length payload) transferId (checkpointId c) 0 payload.
End Chunks.

#[global] Arguments verifyActivationCheckpoint : simpl never.
#[global] Arguments signActivationCheckpoint : simpl never.
#[global] Arguments signActivationCheckpointWith : simpl never.
#[global] Arguments identity_of : simpl never.
#[global] Arguments signed_text : simpl never.
#[global] Arguments payload_digest : simpl never.
#[global] Arguments chunk_valid : simpl never.
#[global] Arguments checkpoint_valid : simpl never.

Lemma CHUNK_size : Z.of_nat CHUNK = 262144.
Proof. unfold CHUNK. by rewrite Z2Nat.id. Qed.

#[global] Opaque CHUNK.
