(* ===== verification/CheckpointStore.v ===== *)
(** * The checkpoint store

    [ActivationCheckpointStore] of [src/src/distribution/activation-checkpoint-store.ts]:
    verified checkpoints with their payloads, bounded in number and in bytes, the
    least recently used first to go.  Payloads are copied in and out, so the store
    shares no buffer with its callers.  The resolver of keys that the store is given is a
    parameter, the same at every call: keys that are revoked meanwhile are left out. *)

From S2P Require Import Prelude JsString JsMap JsSort JsonText CanonicalJson Schema Base64 Checkpoint.

#[local] Open Scope Z_scope.

Record ActivationCheckpointStoreLimits := Limits {
  maxEntries : Z;
  maxEntryBytes : Z;
  maxTotalBytes : Z;
}.

Record StoredCheckpoint := Stored {
  stored_checkpoint : ActivationCheckpoint;
  stored_payload : bytes;
  lastAccessedAt : Z;
}.

Record store := Store {
  entries : list (jsstring * StoredCheckpoint);
  totalBytes : Z;
  limits : ActivationCheckpointStoreLimits;
}.

Definition positive_safe (n : num) : bool :=
  match n with NInt z => (1 <=? z) && (z <=? MAX_SAFE_INTEGER) | NFrac => false end.

(** The constructor. *)
Definition newStore (entriesLimit entryLimit totalLimit : num) : res store :=
  match entriesLimit, entryLimit, totalLimit with
  | NInt n, NInt b, NInt t =>
      throw_if negb (positive_safe (NInt n)) || negb (positive_safe (NInt b)) || negb (is_safe t) || (t <? b)
        with "activation_checkpoint_store_limits_are_invalid" ;;
      Ok (Store [] 0 (Limits n b t))
  | _, _, _ => Err "activation_checkpoint_store_limits_are_invalid"
  end.

Definition set_entries (e : list (jsstring * StoredCheckpoint)) (total : Z) (s : store) : store :=
  Store e total (limits s).

Definition delete (id : jsstring) (s : store) : bool * store :=
  match map_get (entries s) id with
  | None => (false, s)
  | Some stored =>
      (true, set_entries (map_delete (entries s) id) (totalBytes s - byteLength (stored_payload stored)) s)
  end.

Definition touch (id : jsstring) (stored : StoredCheckpoint) (now : Z) (s : store) : store :=
  set_entries (map_set (entries s) id (Stored (stored_checkpoint stored) (stored_payload stored) now))
    (totalBytes s) s.

Section Store.
Context (sha256_hex : bytes -> jsstring)                (* node:crypto *)
  (localeCompare : jsstring -> jsstring -> Z)           (* the host's collation *)
  (pinnedKeys : jsstring -> option (bytes -> bytes -> bool)).

Definition older (a b : StoredCheckpoint) : bool :=
  (lastAccessedAt a <? lastAccessedAt b)
  || ((lastAccessedAt a =? lastAccessedAt b)
      && (localeCompare (checkpointId (stored_checkpoint a)) (checkpointId (stored_checkpoint b)) <=? 0)).

Definition is_full (size : Z) (s : store) : bool :=
  (maxEntries (limits s) <=? map_size (entries s)) || (maxTotalBytes (limits s) <? totalBytes s + size).

(** The loop that makes room; [fuel] is the number of entries, and one more. *)
Fixpoint make_room (fuel : nat) (size : Z) (s : store) : res unit * store :=
  if is_full size s then
    match sort_by older (map_values (entries s)), fuel with
    | victim :: _, S fuel' => make_room fuel' size (delete (checkpointId (stored_checkpoint victim)) s).2
    | _, _ => (Err "activation_checkpoint_store_capacity_is_unavailable", s)
    end
  else (Ok tt, s).

Definition put (c : ActivationCheckpoint) (payload : bytes) (expected : ActivationCheckpointCompatibility)
    (now : Z) : SE store ActivationCheckpoint :=
  let! s := se_get in
  fail_if maxEntryBytes (limits s) <? byteLength payload
    with "activation_checkpoint_store_entry_limit_exceeded" ;;
  let! c := se_lift (verifyActivationCheckpoint sha256_hex c payload pinnedKeys expected now) in
  match map_get (entries s) (checkpointId c) with
  | Some existing =>
      fail_if negb (bool_decide (stored_payload existing = payload))
        with "activation_checkpoint_store_identity_conflict" ;;
      do! se_modify (touch (checkpointId c) existing now) ;;
      se_ret c
  | None =>
      do! make_room (S (length (entries s))) (byteLength payload) ;;
      do! se_modify (fun s => set_entries (map_set (entries s) (checkpointId c) (Stored c payload now))
                                (totalBytes s + byteLength payload) s) ;;
      se_ret c
  end.

Definition get (id : jsstring) (expected : ActivationCheckpointCompatibility) (now : Z)
    : SE store (option (ActivationCheckpoint * bytes)) :=
  let! s := se_get in
  match map_get (entries s) id with
  | None => se_ret None
  | Some stored =>
      match verifyActivationCheckpoint sha256_hex (stored_checkpoint stored) (stored_payload stored)
              pinnedKeys expected now with
      | Ok c => do! se_modify (touch id stored now) ;; se_ret (Some (c, stored_payload stored))
      | Err code => do! se_modify (fun s => (delete id s).2) ;; se_throw code
      end
  end.

Definition snapshot (s : store) : Z * Z := (map_size (entries s), totalBytes s).
End Store.

(** ** The invariant of the store *)

(** An entry that was verified when it was put. *)
Record entry_ok (sha256_hex : bytes -> jsstring) (pinnedKeys : jsstring -> option (bytes -> bytes -> bool))
    (lim : ActivationCheckpointStoreLimits) (id : jsstring) (e : StoredCheckpoint) : Prop := {
  eo_id : checkpointId (stored_checkpoint e) = id;
  eo_valid : checkpoint_valid (stored_checkpoint e) = true;
  eo_identity : identity_of sha256_hex (unsigned (stored_checkpoint e)) = id;
  eo_signed : exists verify, pinnedKeys (cp_keyId (unsigned (stored_checkpoint e))) = Some verify
                /\ verify (signed_text (unsigned (stored_checkpoint e)) id)
                     (b64_decode (cp_signature (stored_checkpoint e))) = true;
  eo_size : byteLength (stored_payload e) = cp_bytes (unsigned (stored_checkpoint e));
  eo_bound : byteLength (stored_payload e) <= maxEntryBytes lim;
  eo_payload : payload_digest sha256_hex (stored_payload e) = cp_payloadDigest (unsigned (stored_checkpoint e));
}.

Definition payload_size (e : jsstring * StoredCheckpoint) : Z := byteLength (stored_payload e.2).

Record store_ok (sha256_hex : bytes -> jsstring) (pinnedKeys : jsstring -> option (bytes -> bytes -> bool))
    (s : store) : Prop := {
  st_wf : map_wf (entries s);
  st_limits : 1 <= maxEntries (limits s) /\ 1 <= maxEntryBytes (limits s) <= maxTotalBytes (limits s);
  st_total : totalBytes s = zsum payload_size (entries s);
  st_count : map_size (entries s) <= maxEntries (limits s);
  st_bytes : totalBytes s <= maxTotalBytes (limits s);
  st_entries : forall id e, map_get (entries s) id = Some e -> entry_ok sha256_hex pinnedKeys (limits s) id e;
}.
