(* ===== verification/CheckpointStoreProps.v ===== *)
(** * Properties of the checkpoint store

    The invariant [store_ok] is kept by every method, and the loop of [put] that makes
    room always ends with the room it needs, having evicted the entries that were
    used least recently. *)

From S2P Require Import Prelude JsString JsMap JsSort JsonText CanonicalJson Schema Base64 Checkpoint CheckpointStore.

#[local] Open Scope Z_scope.

(** ** Verification *)

(** What a checkpoint that passes has. *)
Record verified (sha256_hex : bytes -> jsstring) (pinnedKeys : jsstring -> option (bytes -> bytes -> bool))
    (c : ActivationCheckpoint) (payload : bytes) (expected : ActivationCheckpointCompatibility)
    (now : Z) : Prop := {
  ve_valid : checkpoint_valid c = true;
  ve_identity : identity_of sha256_hex (unsigned c) = checkpointId c;
  ve_signed : exists verify, pinnedKeys (cp_keyId (unsigned c)) = Some verify
                /\ verify (signed_text (unsigned c) (checkpointId c)) (b64_decode (cp_signature c)) = true;
  ve_size : byteLength payload = cp_bytes (unsigned c);
  ve_payload : payload_digest sha256_hex payload = cp_payloadDigest (unsigned c);
  ve_fresh : now < cp_expiresAt (unsigned c);
  ve_compatible : first_incompatible (compared (unsigned c) expected) = None;
  ve_position : match ex_minimumCommittedPosition expected with
                | Some p => p <= cp_committedPosition (unsigned c)
                | None => True
                end;
}.

Lemma checkpoint_bytes_bound c :
  checkpoint_valid c = true -> 1 <= cp_bytes (unsigned c) <= MAX_ACTIVATION_CHECKPOINT_BYTES.
Proof. unfold checkpoint_valid, unsigned_valid. intros H. bool_prop. lia. Qed.

Section Verify.
Context (sha256_hex : bytes -> jsstring) (pinnedKeys : jsstring -> option (bytes -> bytes -> bool)).

Lemma verify_inv c payload expected now c' :
  verifyActivationCheckpoint sha256_hex c payload pinnedKeys expected now = Ok c' ->
  c' = c /\ verified sha256_hex pinnedKeys c payload expected now.
Proof.
  unfold verifyActivationCheckpoint. intros H.
  destruct (negb (checkpoint_valid c)) eqn:Hv; [done|].
  destruct (negb (bool_decide _)) eqn:Hi; [done|].
  destruct (pinnedKeys (cp_keyId (unsigned c))) as [verify|] eqn:Hk; [|done].
  destruct (negb (verify _ _)) eqn:Hs; [done|].
  destruct (_ || _) eqn:Hb; [done|].
  destruct (negb (bool_decide (payload_digest _ _ = _))) eqn:Hd; [done|].
  destruct (_ <=? now) eqn:He; [done|].
  destruct (first_incompatible _) eqn:Hc; [done|].
  destruct (match ex_minimumCommittedPosition expected with Some _ => _ | None => _ end) eqn:Hp; [done|].
  injection H as <-. bool_prop. split; [done|].
  split; [done|done|eauto|lia|done|lia|done|].
  destruct (ex_minimumCommittedPosition expected); [bool_prop; lia|done].
Qed.

Lemma verify_ok c payload expected now :
  verified sha256_hex pinnedKeys c payload expected now ->
  verifyActivationCheckpoint sha256_hex c payload pinnedKeys expected now = Ok c.
Proof.
  intros [Hv Hi (verify & Hk & Hs) Hb Hd He Hc Hp]. unfold verifyActivationCheckpoint.
  rewrite Hv. cbn [negb orb]. rewrite bool_decide_true by done. cbn [negb orb]. rewrite Hk, Hs. cbn [negb orb].
  pose proof (checkpoint_bytes_bound c Hv).
  rewrite (proj2 (Z.eqb_eq _ _) Hb). cbn [negb orb]. rewrite (proj2 (Z.ltb_ge _ _)) by lia.
  rewrite bool_decide_true by done. cbn [negb orb].
  rewrite (proj2 (Z.leb_gt _ _)) by lia. rewrite Hc.
  destruct (ex_minimumCommittedPosition expected); [|done].
  by rewrite (proj2 (Z.ltb_ge _ _)) by lia.
Qed.
(** ** Signing *)

(** What the code relies on of [node:crypto]. *)
Definition hash_well_typed : Prop :=
  forall b, Z.of_nat (length (sha256_hex b)) = 64 /\ forallb is_hex (sha256_hex b) = true.
Definition signer_well_typed (sign : bytes -> bytes) : Prop :=
  forall b, Forall is_byte (sign b) /\ byteLength (sign b) = 64.

Lemma digest_is_sha256 b : hash_well_typed -> is_sha256 (js "sha256:" ++ sha256_hex b) = true.
Proof.
  intros H. destruct (H b) as [Hl Hh]. unfold is_sha256.
  change (take 7 (js "sha256:" ++ sha256_hex b)) with (js "sha256:").
  change (drop 7 (js "sha256:" ++ sha256_hex b)) with (sha256_hex b).
  rewrite bool_decide_true by done. rewrite Hh, length_app, Nat2Z.inj_add, Hl. done.
Qed.

Lemma is_signature_encode b : Forall is_byte b -> byteLength b = 64 -> is_signature (b64url_encode b) = true.
Proof.
  intros Hb Hl. unfold is_signature. rewrite b64url_encode_length, Hl by done. apply forallb_forall.
  intros c Hc. pose proof (b64url_encode_chars b Hb) as H. rewrite Forall_forall in H.
  by apply H, list_elem_of_In.
Qed.

Lemma sign_ok u sign :
  hash_well_typed -> signer_well_typed sign -> unsigned_valid u = true ->
  exists c, signActivationCheckpoint sha256_hex u sign = Ok c /\ checkpoint_valid c = true.
Proof.
  intros Hh Hs Hu. unfold signActivationCheckpoint. rewrite Hu. cbn [negb].
  destruct (Hs (signed_text u (identity_of sha256_hex u))) as [Hb Hl].
  assert (Hv : checkpoint_valid (Checkpoint u (identity_of sha256_hex u)
    (b64url_encode (sign (signed_text u (identity_of sha256_hex u))))) = true).
  { unfold checkpoint_valid. cbn [unsigned checkpointId cp_signature].
    rewrite Hu, is_signature_encode by done. by rewrite (digest_is_sha256 _ Hh : is_sha256 (identity_of sha256_hex u) = true). }
  rewrite Hv. cbn [negb]. eauto.
Qed.

Lemma sign_inv u sign c :
  signActivationCheckpoint sha256_hex u sign = Ok c ->
  unsigned c = u /\ checkpoint_valid c = true /\ identity_of sha256_hex u = checkpointId c
  /\ cp_signature c = b64url_encode (sign (signed_text u (checkpointId c))).
Proof.
  unfold signActivationCheckpoint. intros H. destruct (negb (unsigned_valid u)); [done|].
  destruct (negb (checkpoint_valid _)) eqn:Hv; [done|]. injection H as <-. by bool_prop.
Qed.

Lemma first_incompatible_None l : first_incompatible l = None <-> forallb snd l = true.
Proof. induction l as [|[k []] l IH]; simpl; [done..|]. by split. Qed.

(** A checkpoint signed with a pinned key verifies where it is compatible. *)
Lemma sign_verified u sign verify c payload expected now :
  signActivationCheckpoint sha256_hex u sign = Ok c ->
  signer_well_typed sign -> pinnedKeys (cp_keyId u) = Some verify -> (forall m, verify m (sign m) = true) ->
  byteLength payload = cp_bytes u -> payload_digest sha256_hex payload = cp_payloadDigest u ->
  forallb snd (compared u expected) = true ->
  match ex_minimumCommittedPosition expected with Some p => p <= cp_committedPosition u | None => True end ->
  now < cp_expiresAt u -> verified sha256_hex pinnedKeys c payload expected now.
Proof.
  intros Hsign Ht Hk Hver Hb Hd Hc Hp Hn. destruct (sign_inv _ _ _ Hsign) as (Hu & Hv & Hi & Hs). rewrite <- Hu in *.
  split; [done|done| |done|done|done|by apply first_incompatible_None|done].
  exists verify. split; [done|]. rewrite Hs, b64url_round_trip by apply Ht. apply Hver.
Qed.
End Verify.

(** ** Sums over the entries *)

Lemma payload_size_nonneg l : 0 <= zsum payload_size l.
Proof. apply zsum_nonneg, Forall_forall. intros x _. apply byteLength_nonneg. Qed.

Lemma zsum_map_delete (f : jsstring * StoredCheckpoint -> Z) m id e :
  map_get m id = Some e -> zsum f (map_delete m id) = zsum f m - f (id, e).
Proof.
  induction m as [|[k v] m IH]; simpl; [done|]. intros H.
  repeat case_decide; try congruence; simpl.
  - subst. injection H as ->. lia.
  - rewrite IH by done. lia.
Qed.

Lemma zsum_map_set_new (f : jsstring * StoredCheckpoint -> Z) m id e :
  map_get m id = None -> zsum f (map_set m id e) = zsum f m + f (id, e).
Proof.
  induction m as [|[k v] m IH]; simpl; [lia|]. intros H. repeat case_decide; try congruence.
  simpl. rewrite IH by done. lia.
Qed.

Lemma zsum_map_set_old (f : jsstring * StoredCheckpoint -> Z) m id e e' :
  map_get m id = Some e -> f (id, e') = f (id, e) -> zsum f (map_set m id e') = zsum f m.
Proof.
  induction m as [|[k v] m IH]; simpl; [done|]. intros H Hf. repeat case_decide; try congruence; simpl.
  - subst. injection H as ->. lia.
  - rewrite IH by done. lia.
Qed.

Lemma map_size_delete_hit {V} (m : list (jsstring * V)) id e :
  map_get m id = Some e -> map_size (map_delete m id) = map_size m - 1.
Proof.
  unfold map_size. induction m as [|[k v] m IH]; simpl; [done|]. intros H.
  repeat case_decide; try congruence; simpl; [lia|]. specialize (IH H). lia.
Qed.

(** ** The invariant *)

(** [localeCompare] is a total preorder. *)
Definition collation (localeCompare : jsstring -> jsstring -> Z) : Prop :=
  (forall a b, localeCompare a b <= 0 \/ localeCompare b a <= 0)
  /\ (forall a b c, localeCompare a b <= 0 -> localeCompare b c <= 0 -> localeCompare a c <= 0).

Section Invariant.
Context (sha256_hex : bytes -> jsstring) (localeCompare : jsstring -> jsstring -> Z)
  (pinnedKeys : jsstring -> option (bytes -> bytes -> bool)).

Abbreviation ok := (store_ok sha256_hex pinnedKeys).
Abbreviation good := (entry_ok sha256_hex pinnedKeys).

Lemma newStore_ok n b t s : newStore n b t = Ok s -> ok s.
Proof.
  unfold newStore. intros H. destruct n as [n|], b as [b|], t as [t|]; try done.
  destruct (_ || _) eqn:E; [done|]. injection H as <-. unfold positive_safe in E. bool_prop.
  split; simpl; [auto with myc|lia|done|unfold map_size; simpl; lia|lia|done].
Qed.

Lemma verified_entry_ok lim c payload expected now at_ :
  verified sha256_hex pinnedKeys c payload expected now -> byteLength payload <= maxEntryBytes lim ->
  good lim (checkpointId c) (Stored c payload at_).
Proof. intros [Hv Hi Hs Hb Hd _ _ _] Hle. by split. Qed.

Lemma delete_ok id s : ok s -> ok (delete id s).2.
Proof.
  intros [Hw Hl Ht Hc Hb He]. unfold delete. destruct (map_get (entries s) id) as [e|] eqn:E; [|by split].
  split; simpl; [auto with myc|done| | | |].
  - rewrite (zsum_map_delete _ _ _ _ E). unfold payload_size at 2. simpl. lia.
  - pose proof (map_size_delete (entries s) id). lia.
  - pose proof (byteLength_nonneg (stored_payload e)). lia.
  - intros j f Hj. apply He. destruct (decide (j = id)) as [->|Hne].
    + by rewrite map_get_delete_eq in Hj.
    + by rewrite map_get_delete_ne in Hj.
Qed.

Lemma touch_ok id e now s : ok s -> map_get (entries s) id = Some e -> ok (touch id e now s).
Proof.
  intros [Hw Hl Ht Hc Hb He] E. split; simpl; [auto with myc|done| | |done|].
  - by rewrite (zsum_map_set_old _ _ _ e).
  - rewrite map_size_set. unfold map_has. rewrite E. lia.
  - intros j f. rewrite map_get_set. case_decide as Hd; [|apply He]. intros [= <-]. subst j.
    destruct (He id e E). by split.
Qed.

(** *** Making room *)

(** The head of the order is an entry of the store, under its own identifier. *)
Lemma victim_stored s victim rest :
  ok s -> sort_by (older localeCompare) (map_values (entries s)) = victim :: rest ->
  map_get (entries s) (checkpointId (stored_checkpoint victim)) = Some victim.
Proof.
  intros Hok Hsort.
  assert (Hin : victim ∈ map_values (entries s)).
  { rewrite <- (sort_by_perm (older localeCompare)), Hsort. by left. }
  apply list_elem_of_fmap in Hin as ([id e] & -> & Hin). simpl.
  assert (Hg : map_get (entries s) id = Some e) by (apply map_get_In; [apply Hok|done]).
  by rewrite (eo_id _ _ _ _ _ (st_entries _ _ _ Hok _ _ Hg)).
Qed.

Lemma empty_has_room size s :
  ok s -> 0 <= size <= maxEntryBytes (limits s) -> map_values (entries s) = [] -> is_full size s = false.
Proof.
  intros [Hw Hl Ht Hc Hb He] Hs Hv. unfold is_full. unfold map_values in Hv.
  apply fmap_nil_inv in Hv. rewrite Ht, Hv. unfold map_size. simpl.
  rewrite (proj2 (Z.leb_gt _ _)), (proj2 (Z.ltb_ge _ _)) by lia. done.
Qed.

(** Nothing but the entries evicted differs, the evicted ones were not used after
    any that stays, nothing is evicted from a store with room, and with the last one
    evicted the store would not have the room. *)
Record made_room (size : Z) (s s' : store) : Prop := {
  mr_ok : ok s';
  mr_limits : limits s' = limits s;
  mr_room : is_full size s' = false;
  mr_kept : forall id e, map_get (entries s') id = Some e -> map_get (entries s) id = Some e;
  mr_oldest : collation localeCompare -> forall id e j f, map_get (entries s) id = Some e -> map_get (entries s') id = None ->
                map_get (entries s') j = Some f -> lastAccessedAt e <= lastAccessedAt f;
  mr_needed : is_full size s = false -> s' = s;
  mr_minimal : s' = s \/ exists id e, map_get (entries s) id = Some e /\ map_get (entries s') id = None
                 /\ (collation localeCompare -> forall j f, map_get (entries s) j = Some f ->
                      map_get (entries s') j = None -> lastAccessedAt f <= lastAccessedAt e)
                 /\ (maxEntries (limits s) <= map_size (entries s') + 1
                     \/ maxTotalBytes (limits s) < totalBytes s' + byteLength (stored_payload e) + size);
}.

Lemma older_total l :
  collation localeCompare -> total_on (older localeCompare) l.
Proof.
  intros [Htot Htr]. unfold older. split.
  - intros x y _ _. destruct (Z.lt_total (lastAccessedAt x) (lastAccessedAt y)) as [Hc|[Hc|Hc]].
    + left. by rewrite (proj2 (Z.ltb_lt _ _) Hc).
    + rewrite Hc, !Z.ltb_irrefl, !Z.eqb_refl. simpl. rewrite !Z.leb_le. apply Htot.
    + right. by rewrite (proj2 (Z.ltb_lt _ _) Hc).
  - intros x y z _ _ _. rewrite !orb_true_iff, !andb_true_iff, !Z.ltb_lt, !Z.eqb_eq, !Z.leb_le.
    intros [H1|[H1 H1']] [H2|[H2 H2']]; [left; lia..|]. right. split; [lia|eauto].
Qed.

Lemma older_accessed a b : older localeCompare a b = true -> lastAccessedAt a <= lastAccessedAt b.
Proof. unfold older. intros H. bool_prop. destruct H as [H|H]; bool_prop; lia. Qed.
Lemma victim_oldest s victim rest j f :
  collation localeCompare -> sort_by (older localeCompare) (map_values (entries s)) = victim :: rest ->
  map_get (entries s) j = Some f -> lastAccessedAt victim <= lastAccessedAt f.
Proof.
  intros Hcmp Hsort Hf.
  pose proof (sort_by_in_order (older localeCompare) (map_values (entries s))
    (older_total _ Hcmp)) as Hord.
  rewrite Hsort in Hord. destruct Hord as [Hall _]. rewrite Forall_forall in Hall.
  assert (Hin : f ∈ victim :: rest).
  { rewrite <- Hsort, sort_by_perm. apply list_elem_of_fmap. exists (j, f). by split; [|apply map_get_Some_In]. }
  apply elem_of_cons in Hin as [->|Hin]; [lia|]. by apply older_accessed, Hall.
Qed.

Lemma delete_entries id s :
  map_wf (entries s) ->
  forall j, map_get (entries (delete id s).2) j = if decide (j = id) then None else map_get (entries s) j.
Proof.
  intros Hw j. unfold delete. destruct (map_get (entries s) id) as [e|] eqn:E; simpl; case_decide; subst; try done.
  - by apply map_get_delete_eq.
  - by apply map_get_delete_ne.
Qed.

Lemma delete_limits id s : limits (delete id s).2 = limits s.
Proof. unfold delete. by destruct (map_get (entries s) id). Qed.

(** A full store without one of its entries. *)
Lemma delete_full id e size s :
  map_get (entries s) id = Some e -> is_full size s = true ->
  maxEntries (limits s) <= map_size (entries (delete id s).2) + 1
  \/ maxTotalBytes (limits s) < totalBytes (delete id s).2 + byteLength (stored_payload e) + size.
Proof.
  intros He Hf. unfold is_full in Hf. unfold delete. rewrite He. simpl. pose proof (map_size_delete_hit _ _ _ He) as Hd.
  apply orb_true_iff in Hf as [Hf|Hf]; bool_prop; lia.
Qed.

Lemma make_room_spec fuel size s :
  ok s -> 0 <= size <= maxEntryBytes (limits s) -> (length (entries s) < fuel)%nat ->
  exists s', make_room localeCompare fuel size s = (Ok tt, s') /\ made_room size s s'.
Proof.
  revert s. induction fuel as [|fuel IH]; intros s Hok Hs Hf; [lia|]. simpl.
  destruct (is_full size s) eqn:Hfull; [|by exists s; split; [|split; naive_solver]].
  destruct (sort_by _ _) as [|victim rest] eqn:Hsort.
  { apply (f_equal length) in Hsort. rewrite (Permutation_length (sort_by_perm _ _)) in Hsort.
    rewrite empty_has_room in Hfull; [done|done|done|by apply nil_length_inv]. }
  pose proof (victim_stored _ _ _ Hok Hsort) as Hv. set (id := checkpointId (stored_checkpoint victim)) in *.
  destruct (IH (delete id s).2) as (s' & Hrun & [Mok Mlim Mroom Mkept Mold Mneed Mmin]).
  - by apply delete_ok.
  - by rewrite delete_limits.
  - unfold delete. rewrite Hv. simpl. pose proof (map_size_delete_hit _ _ _ Hv) as Hd. unfold map_size in Hd. lia.
  - exists s'. split; [exact Hrun|]. pose proof (delete_entries id s (st_wf _ _ _ Hok)) as Hdel.
    split; [done|by rewrite Mlim, delete_limits|done| | |congruence|].
    + intros j e Hj. apply Mkept in Hj. rewrite Hdel in Hj. by case_decide.
    + intros Hcmp j e k f He Hnone Hk. pose proof (Mkept _ _ Hk) as Hk'. rewrite Hdel in Hk'. case_decide; [done|].
      destruct (decide (j = id)) as [->|Hne].
      * assert (e = victim) as -> by congruence. by eapply victim_oldest.
      * eapply (Mold Hcmp); [|exact Hnone|exact Hk]. by rewrite Hdel, decide_False.
    + right. destruct Mmin as [->|(j & e & Hj & Hn & Hlast & Hfull')].
      * exists id, victim. split_and!; [done|by rewrite Hdel, decide_True| |by apply (delete_full id victim)].
        intros _ k f Hk. rewrite Hdel. case_decide; [|by rewrite Hk]. intros _. assert (f = victim) as -> by congruence. lia.
      * rewrite Hdel in Hj. case_decide; [done|]. exists j, e. rewrite delete_limits in Hfull'. split_and!; [done|done| |done].
        intros Hcmp k f Hk Hkn. destruct (decide (k = id)) as [->|Hne]; [|apply (Hlast Hcmp k); [|done]; by rewrite Hdel, decide_False].
        assert (f = victim) as -> by congruence. by eapply victim_oldest.
Qed.
(** *** [put] and [get] *)

(** A method that leaves the invariant and the limits as they are. *)
Definition keeps {A} (m : SE store A) : Prop :=
  forall s, ok s -> ok (m s).2 /\ limits (m s).2 = limits s.

(** Putting a new checkpoint. *)
Lemma put_new c payload expected now s :
  ok s -> verified sha256_hex pinnedKeys c payload expected now ->
  byteLength payload <= maxEntryBytes (limits s) -> map_get (entries s) (checkpointId c) = None ->
  exists s1 s2,
    put sha256_hex localeCompare pinnedKeys c payload expected now s = (Ok c, s2)
    /\ made_room (byteLength payload) s s1
    /\ s2 = set_entries (map_set (entries s1) (checkpointId c) (Stored c payload now))
              (totalBytes s1 + byteLength payload) s1
    /\ ok s2.
Proof.
  intros Hok Hver Hle Hnew.
  destruct (make_room_spec (S (length (entries s))) (byteLength payload) s Hok) as (s1 & Hrun & Hroom).
  { pose proof (byteLength_nonneg payload). lia. }
  { lia. }
  eexists s1, _. split_and!; [|exact Hroom|reflexivity|].
  - unfold put, se_bind, se_get, se_lift. rewrite (proj2 (Z.ltb_ge _ _)) by lia.
    rewrite (verify_ok _ _ _ _ _ _ Hver), Hnew, Hrun. done.
  - destruct Hroom as [[Hw Hl Ht Hc Hb He] Hlim Hfull Hkept _ _ _].
    assert (Hn1 : map_get (entries s1) (checkpointId c) = None).
    { destruct (map_get (entries s1) _) eqn:E; [|done]. by apply Hkept in E; rewrite E in Hnew. }
    unfold is_full in Hfull. bool_prop. split; simpl; [auto with myc|done| | |lia|].
    + rewrite zsum_map_set_new by done. unfold payload_size at 2. simpl. lia.
    + rewrite map_size_set. destruct (map_has _ _); lia.
    + intros j e. rewrite map_get_set. case_decide as Hd; [|apply He]. intros [= <-]. subst j.
      apply (verified_entry_ok _ _ _ expected now); [done|]. by rewrite Hlim.
Qed.

Lemma put_keeps c payload expected now : keeps (put sha256_hex localeCompare pinnedKeys c payload expected now).
Proof.
  intros s Hok. destruct (maxEntryBytes (limits s) <? byteLength payload) eqn:Hle.
  { unfold put, se_bind, se_get. rewrite Hle. done. }
  destruct (verifyActivationCheckpoint sha256_hex c payload pinnedKeys expected now) as [c'|code] eqn:Hver.
  2: { unfold put, se_bind, se_get, se_lift. by rewrite Hle, Hver. }
  pose proof (verify_inv _ _ _ _ _ _ _ Hver) as [-> Hv].
  destruct (map_get (entries s) (checkpointId c)) as [existing|] eqn:Hold.
  - unfold put, se_bind, se_get, se_lift. rewrite Hle, Hver, Hold.
    destruct (negb _); simpl; [done|]. split; [by apply touch_ok|done].
  - bool_prop. destruct (put_new c payload expected now s Hok Hv Hle Hold) as (s1 & s2 & -> & Hr & -> & Hok2).
    split; [exact Hok2|]. simpl. by rewrite (mr_limits _ _ _ Hr).
Qed.

Lemma get_keeps id expected now : keeps (get sha256_hex pinnedKeys id expected now).
Proof.
  intros s Hok. unfold get, se_bind, se_get. destruct (map_get (entries s) id) as [e|] eqn:E; [|done].
  destruct (verifyActivationCheckpoint _ _ _ _ _ _); cbn [fst snd se_modify se_ret se_throw].
  - split; [by apply touch_ok|done].
  - split; [by apply delete_ok|by apply delete_limits].
Qed.

Lemma get_stored id e expected now s :
  map_get (entries s) id = Some e ->
  verified sha256_hex pinnedKeys (stored_checkpoint e) (stored_payload e) expected now ->
  get sha256_hex pinnedKeys id expected now s
  = (Ok (Some (stored_checkpoint e, stored_payload e)), touch id e now s).
Proof.
  intros E Hv. unfold get, se_bind, se_get. by rewrite E, (verify_ok _ _ _ _ _ _ Hv).
Qed.
(** What is stored after [put] was stored before, or is what it verified. *)
(** An entry that [put] makes room with: the new checkpoint is stored, in a store that
    was full. *)
Lemma put_evicts c payload expected now s id e :
  ok s -> map_get (entries s) id = Some e ->
  map_get (entries (put sha256_hex localeCompare pinnedKeys c payload expected now s).2) id = None ->
  is_full (byteLength payload) s = true
  /\ map_get (entries (put sha256_hex localeCompare pinnedKeys c payload expected now s).2) (checkpointId c)
     = Some (Stored c payload now).
Proof.
  intros Hok He. destruct (maxEntryBytes (limits s) <? byteLength payload) eqn:Hle.
  { unfold put, se_bind, se_get. rewrite Hle. cbn [se_throw snd]. congruence. }
  destruct (verifyActivationCheckpoint sha256_hex c payload pinnedKeys expected now) as [c'|code] eqn:Hver.
  2: { unfold put, se_bind, se_get, se_lift. rewrite Hle, Hver. cbn [snd]. congruence. }
  pose proof (verify_inv _ _ _ _ _ _ _ Hver) as [-> Hv].
  destruct (map_get (entries s) (checkpointId c)) as [existing|] eqn:Hold.
  - unfold put, se_bind, se_get, se_lift. rewrite Hle, Hver, Hold. destruct (negb _); [cbn [se_throw snd]; congruence|].
    cbn [se_modify se_ret snd touch set_entries entries]. rewrite map_get_set. case_decide; congruence.
  - bool_prop. destruct (put_new c payload expected now s Hok Hv Hle Hold) as (s1 & s2 & -> & Hr & -> & _).
    cbn [snd set_entries entries]. rewrite map_get_set_eq, map_get_set_ne by congruence. intros Hn. split; [|done].
    destruct (is_full (byteLength payload) s) eqn:Hf; [done|]. rewrite (mr_needed _ _ _ Hr Hf) in Hn. congruence.
Qed.

Lemma put_source c payload expected now s id e :
  ok s -> map_get (entries (put sha256_hex localeCompare pinnedKeys c payload expected now s).2) id = Some e ->
  (exists e0, map_get (entries s) id = Some e0 /\ stored_checkpoint e0 = stored_checkpoint e
     /\ stored_payload e0 = stored_payload e)
  \/ (stored_checkpoint e = c /\ stored_payload e = payload /\ verified sha256_hex pinnedKeys c payload expected now).
Proof.
  intros Hok. destruct (maxEntryBytes (limits s) <? byteLength payload) eqn:Hle.
  { unfold put, se_bind, se_get. rewrite Hle. eauto. }
  destruct (verifyActivationCheckpoint sha256_hex c payload pinnedKeys expected now) as [c'|code] eqn:Hver.
  2: { unfold put, se_bind, se_get, se_lift. rewrite Hle, Hver. eauto. }
  pose proof (verify_inv _ _ _ _ _ _ _ Hver) as [-> Hv].
  destruct (map_get (entries s) (checkpointId c)) as [existing|] eqn:Hold.
  - unfold put, se_bind, se_get, se_lift. rewrite Hle, Hver, Hold. destruct (negb _); [eauto|].
    cbn [snd se_modify se_ret touch set_entries entries]. rewrite map_get_set. case_decide; [|eauto].
    intros [= <-]. subst. left. by exists existing.
  - bool_prop. destruct (put_new c payload expected now s Hok Hv Hle Hold) as (s1 & s2 & -> & Hr & -> & _).
    cbn [snd set_entries entries]. rewrite map_get_set. case_decide; [by intros [= <-]; right|].
    intros He. left. exists e. split; [|done]. by apply (mr_kept _ _ _ Hr).
Qed.
End Invariant.

(** ** Claims *)

(** C24 (type). With a hash of 64 hexadecimal digits and a signature of 64 bytes, every
    description that meets its schema is signed, and the checkpoint meets the schema of
    signed checkpoints; it is accepted, as it is, by everyone who pins a key that
    verifies the signer's signatures, with the payload it describes, until it expires,
    wherever it is compatible. *)
Theorem signed_checkpoint_well_typed (sha256_hex : bytes -> jsstring)
    (pinnedKeys : jsstring -> option (bytes -> bytes -> bool)) (sign : bytes -> bytes)
    (verify : bytes -> bytes -> bool) (u : UnsignedActivationCheckpoint)
    (Hhash : hash_well_typed sha256_hex) (Hsign : signer_well_typed sign)
    (Hkey : pinnedKeys (cp_keyId u) = Some verify) (Hverify : forall m, verify m (sign m) = true)
    (Hu : unsigned_valid u = true) :
  exists c, signActivationCheckpoint sha256_hex u sign = Ok c
    /\ checkpoint_valid c = true /\ unsigned c = u
    /\ forall payload expected now,
       byteLength payload = cp_bytes u -> payload_digest sha256_hex payload = cp_payloadDigest u ->
       first_incompatible (compared u expected) = None ->
       match ex_minimumCommittedPosition expected with Some p => p <= cp_committedPosition u | None => True end ->
       now < cp_expiresAt u ->
       verifyActivationCheckpoint sha256_hex c payload pinnedKeys expected now = Ok c.
Proof.
  destruct (sign_ok sha256_hex u sign Hhash Hsign Hu) as (c & Hc & Hv).
  destruct (sign_inv _ _ _ _ Hc) as (Huc & _). exists c. split_and!; [done|done|done|].
  intros payload expected now Hb Hd Hs Hp Hn. apply verify_ok.
  eapply sign_verified; try done. by apply first_incompatible_None.
Qed.

(** C23 (termination). Putting a verified checkpoint of an admissible size that is not stored
    yet always returns, with room made for it whatever the store holds: the checkpoint is
    stored, everything else that is stored was stored before, what was evicted had not
    been used after anything that stays, nothing is evicted when there was room, and no
    more is evicted than it takes: if the last one evicted had stayed, the entries with
    the new one would exceed the limit on their number or on their bytes. *)
Theorem store_put_makes_room (sha256_hex : bytes -> jsstring) (localeCompare : jsstring -> jsstring -> Z)
    (pinnedKeys : jsstring -> option (bytes -> bytes -> bool)) (s : store) (c : ActivationCheckpoint)
    (payload : bytes) (expected : ActivationCheckpointCompatibility) (now : Z)
    (Hok : store_ok sha256_hex pinnedKeys s) (Hcmp : collation localeCompare)
    (Hver : verifyActivationCheckpoint sha256_hex c payload pinnedKeys expected now = Ok c)
    (Hle : byteLength payload <= maxEntryBytes (limits s))
    (Hnew : map_get (entries s) (checkpointId c) = None) :
  exists s', put sha256_hex localeCompare pinnedKeys c payload expected now s = (Ok c, s')
    /\ store_ok sha256_hex pinnedKeys s'
    /\ map_get (entries s') (checkpointId c) = Some (Stored c payload now)
    /\ (forall id e, id <> checkpointId c -> map_get (entries s') id = Some e -> map_get (entries s) id = Some e)
    /\ (forall id e j f, map_get (entries s) id = Some e -> map_get (entries s') id = None ->
        j <> checkpointId c -> map_get (entries s') j = Some f -> lastAccessedAt e <= lastAccessedAt f)
    /\ (is_full (byteLength payload) s = false ->
        forall id e, map_get (entries s) id = Some e -> map_get (entries s') id = Some e)
    /\ ((forall id e, map_get (entries s) id = Some e -> map_get (entries s') id = Some e)
        \/ exists id e, map_get (entries s) id = Some e /\ map_get (entries s') id = None
           /\ (forall j f, map_get (entries s) j = Some f -> map_get (entries s') j = None -> lastAccessedAt f <= lastAccessedAt e)
           /\ (maxEntries (limits s) < map_size (entries s') + 1
               \/ maxTotalBytes (limits s) < totalBytes s' + byteLength (stored_payload e))).
Proof.
  apply verify_inv in Hver as [_ Hver].
  destruct (put_new sha256_hex localeCompare pinnedKeys c payload expected now s Hok Hver Hle Hnew)
    as (s1 & s2 & Hput & [Mok Mlim Mroom Mkept Mold Mneed Mmin] & -> & Hok2).
  assert (Hother : forall id e, map_get (entries s) id = Some e -> id <> checkpointId c) by congruence.
  assert (Hn1 : map_has (entries s1) (checkpointId c) = false).
  { unfold map_has. destruct (map_get (entries s1) _) eqn:E; [|done]. apply Mkept in E. congruence. }
  eexists. split_and!; [exact Hput|exact Hok2|exact (map_get_set_eq _ _ _)| | | |];
    cbn [entries set_entries totalBytes].
  - intros id e Hne. rewrite map_get_set_ne by done. apply Mkept.
  - intros id e j f He. rewrite map_get_set_ne by (by eapply Hother).
    intros Hnone Hj. rewrite map_get_set_ne by done. by apply (Mold Hcmp id e j f).
  - intros Hroom id e He. rewrite map_get_set_ne by (by eapply Hother). by rewrite (Mneed Hroom).
  - destruct Mmin as [->|(id & e & He & Hn & Hlast & Hfull)].
    + left. intros id e He. by rewrite map_get_set_ne by (by eapply Hother).
    + right. exists id, e. rewrite map_get_set_ne, map_size_set, Hn1 by (by eapply Hother).
      split_and!; [done|done| |lia]. intros j f Hj. rewrite map_get_set_ne by (by eapply Hother). by apply (Hlast Hcmp j).
Qed.
