(* ===== verification/CheckpointTransfer.v ===== *)
(** * Checkpoint transfers

    [ActivationCheckpointTransferAuthority] of
    [src/src/coordinator/activation-checkpoint-transfer.ts]: the coordinator's side of
    the upload of a checkpoint by a worker, chunk by chunk, and of its restoration on
    another.  The state is the two [Map]s and the store the authority is given.  Each
    method takes the time, and those that draw a UUID take it.  The buffers of a
    transfer are its own (decoded from base64, and copied by [Buffer.concat] when they
    are committed), so the zeroes that [abort] writes in them are seen by nobody. *)

From S2P Require Import Prelude JsString JsMap JsSort JsonText CanonicalJson Schema Base64 Checkpoint CheckpointStore.

#[local] Open Scope Z_scope.

(** ** State *)

Record ExpectedTransfer := Transfer {
  tr_workerId : jsstring;
  tr_workerSessionId : jsstring;
  tr_expected : ActivationCheckpointCompatibility;
  tr_maximumBytes : Z;
  tr_expiresAt : Z;
  tr_checkpoint : option ActivationCheckpoint;
  tr_chunkCount : Z;
  tr_chunks : list bytes;
  tr_receivedBytes : Z;
}.

Record ExpectedRestore := Restore {
  rs_workerId : jsstring;
  rs_workerSessionId : jsstring;
  rs_checkpointId : jsstring;
  rs_expiresAt : Z;
}.

Record authority := Authority {
  transfers : list (jsstring * ExpectedTransfer);
  restores : list (jsstring * ExpectedRestore);
  checkpoint_store : store;
}.

Definition newAuthority (s : store) : authority := Authority [] [] s.

Definition set_transfers (m : list (jsstring * ExpectedTransfer)) (a : authority) : authority :=
  Authority m (restores a) (checkpoint_store a).
Definition set_restores (m : list (jsstring * ExpectedRestore)) (a : authority) : authority :=
  Authority (transfers a) m (checkpoint_store a).
Definition set_transfer (id : jsstring) (t : ExpectedTransfer) (a : authority) : authority :=
  set_transfers (map_set (transfers a) id t) a.

(** A method of the store, called on the authority's. *)
Definition on_store {A} (c : SE store A) : SE authority A := fun a =>
  let '(r, s) := c (checkpoint_store a) in (r, Authority (transfers a) (restores a) s).

Definition begun (t : ExpectedTransfer) (c : ActivationCheckpoint) (count : Z) : ExpectedTransfer :=
  Transfer (tr_workerId t) (tr_workerSessionId t) (tr_expected t) (tr_maximumBytes t) (tr_expiresAt t)
    (Some c) count (tr_chunks t) (tr_receivedBytes t).
Definition counted (t : ExpectedTransfer) (size : Z) : ExpectedTransfer :=
  Transfer (tr_workerId t) (tr_workerSessionId t) (tr_expected t) (tr_maximumBytes t) (tr_expiresAt t)
    (tr_checkpoint t) (tr_chunkCount t) (tr_chunks t) (tr_receivedBytes t + size).
Definition pushed (t : ExpectedTransfer) (b : bytes) : ExpectedTransfer :=
  Transfer (tr_workerId t) (tr_workerSessionId t) (tr_expected t) (tr_maximumBytes t) (tr_expiresAt t)
    (tr_checkpoint t) (tr_chunkCount t) (tr_chunks t ++ [b]) (tr_receivedBytes t).

Definition owned_by (workerId session : jsstring) (w s : jsstring) : bool :=
  bool_decide (w = workerId) && bool_decide (s = session).

Definition is_empty (s : jsstring) : bool := bool_decide (s = []).

(** [Math.ceil(bytes / ACTIVATION_CHECKPOINT_CHUNK_BYTES)]. *)
Definition chunks_of (size : Z) : Z :=
  (size + ACTIVATION_CHECKPOINT_CHUNK_BYTES - 1) / ACTIVATION_CHECKPOINT_CHUNK_BYTES.

(** ** Messages *)

Record ActivationCheckpointBegin := Begin {
  bg_transferId : jsstring;
  bg_checkpoint : ActivationCheckpoint;
  bg_chunkCount : Z;
}.

Record ActivationCheckpointCommit := Commit {
  cm_transferId : jsstring;
  cm_checkpointId : jsstring;
}.

Section Authority.
Context (is_uuid : jsstring -> bool)                     (* zod *)
  (sha256_hex : bytes -> jsstring)                       (* node:crypto *)
  (localeCompare : jsstring -> jsstring -> Z)            (* the host's collation *)
  (pinnedKeys : jsstring -> option (bytes -> bytes -> bool)).

Definition begin_valid (b : ActivationCheckpointBegin) : bool :=
  is_uuid (bg_transferId b) && checkpoint_valid (bg_checkpoint b)
  && (1 <=? bg_chunkCount b) && (bg_chunkCount b <=? MAX_ACTIVATION_CHECKPOINT_CHUNKS).

Definition commit_valid (c : ActivationCheckpointCommit) : bool :=
  is_uuid (cm_transferId c) && is_sha256 (cm_checkpointId c).

(** ** Uploads *)

Definition expect (uuid workerId session : jsstring) (expected : ActivationCheckpointCompatibility)
    (maximumBytes expiresAt : num) (now : Z) : SE authority jsstring :=
  match maximumBytes, expiresAt with
  | NInt maximum, NInt expiry =>
      fail_if is_empty workerId || is_empty session || negb (is_safe maximum) || (maximum <? 1)
              || negb (is_safe expiry) || (expiry <=? now)
        with "activation_checkpoint_transfer_expectation_is_invalid" ;;
      do! se_modify (set_transfer uuid (Transfer workerId session expected maximum expiry None 0 [] 0)) ;;
      se_ret uuid
  | _, _ => se_throw "activation_checkpoint_transfer_expectation_is_invalid"
  end.

Definition abort (id : jsstring) (a : authority) : bool * authority :=
  match map_get (transfers a) id with
  | None => (false, a)
  | Some _ => (true, set_transfers (map_delete (transfers a) id) a)
  end.

Definition requireTransfer (id workerId session : jsstring) (now : Z) : SE authority ExpectedTransfer :=
  let! a := se_get in
  match map_get (transfers a) id with
  | None => se_throw "activation_checkpoint_transfer_is_unknown"
  | Some t =>
      if tr_expiresAt t <=? now then
        do! se_modify (fun a => (abort id a).2) ;;
        se_throw "activation_checkpoint_transfer_is_expired"
      else
        fail_if negb (owned_by workerId session (tr_workerId t) (tr_workerSessionId t))
          with "activation_checkpoint_transfer_session_is_invalid" ;;
        se_ret t
  end.

Definition begin (workerId session : jsstring) (b : ActivationCheckpointBegin) (now : Z) : SE authority unit :=
  fail_if negb (begin_valid b) with ZodError ;;
  let! t := requireTransfer (bg_transferId b) workerId session now in
  match tr_checkpoint t with
  | Some _ => se_throw "activation_checkpoint_transfer_already_started"
  | None =>
      let size := cp_bytes (unsigned (bg_checkpoint b)) in
      fail_if (tr_maximumBytes t <? size) || negb (bg_chunkCount b =? chunks_of size)
        with "activation_checkpoint_transfer_shape_is_invalid" ;;
      se_modify (set_transfer (bg_transferId b) (begun t (bg_checkpoint b) (bg_chunkCount b)))
  end.

Definition expectedLength (c : ActivationCheckpoint) (t : ExpectedTransfer) (index : Z) : Z :=
  if index =? tr_chunkCount t - 1
  then cp_bytes (unsigned c) - ACTIVATION_CHECKPOINT_CHUNK_BYTES * index
  else ACTIVATION_CHECKPOINT_CHUNK_BYTES.

Definition chunk (workerId session : jsstring) (m : ActivationCheckpointChunk) (now : Z) : SE authority unit :=
  fail_if negb (chunk_valid is_uuid m) with ZodError ;;
  let! t := requireTransfer (ch_transferId m) workerId session now in
  match tr_checkpoint t with
  | None => se_throw "activation_checkpoint_transfer_identity_is_invalid"
  | Some c =>
      fail_if negb (bool_decide (ch_checkpointId m = checkpointId c))
        with "activation_checkpoint_transfer_identity_is_invalid" ;;
      fail_if negb (ch_index m =? Z.of_nat (length (tr_chunks t))) || (tr_chunkCount t <=? ch_index m)
        with "activation_checkpoint_transfer_chunk_order_is_invalid" ;;
      let data := b64_decode (ch_data m) in
      fail_if negb (byteLength data =? expectedLength c t (ch_index m))
        with "activation_checkpoint_transfer_chunk_size_is_invalid" ;;
      let t := counted t (byteLength data) in
      do! se_modify (set_transfer (ch_transferId m) t) ;;
      fail_if tr_maximumBytes t <? tr_receivedBytes t
        with "activation_checkpoint_transfer_limit_exceeded" ;;
      se_modify (set_transfer (ch_transferId m) (pushed t data))
  end.

(** The [finally] aborts the transfer whether [put] returns or throws. *)
Definition commit (workerId session : jsstring) (m : ActivationCheckpointCommit) (now : Z)
    : SE authority ActivationCheckpoint :=
  fail_if negb (commit_valid m) with ZodError ;;
  let! t := requireTransfer (cm_transferId m) workerId session now in
  match tr_checkpoint t with
  | None => se_throw "activation_checkpoint_transfer_is_incomplete"
  | Some c =>
      fail_if negb (bool_decide (cm_checkpointId m = checkpointId c))
              || negb (Z.of_nat (length (tr_chunks t)) =? tr_chunkCount t)
              || negb (tr_receivedBytes t =? cp_bytes (unsigned c))
        with "activation_checkpoint_transfer_is_incomplete" ;;
      fun a =>
        let '(r, a) := on_store (put sha256_hex localeCompare pinnedKeys c (concat (tr_chunks t))
                                   (tr_expected t) now) a in
        (r, (abort (cm_transferId m) a).2)
  end.

(** ** Restores *)

Definition prepareRestore (uuid workerId session id : jsstring) (expected : ActivationCheckpointCompatibility)
    (expiresAt now : Z) : SE authority (jsstring * ActivationCheckpoint * bytes) :=
  fail_if is_empty workerId || is_empty session || (expiresAt <=? now)
    with "activation_checkpoint_restore_expectation_is_invalid" ;;
  let! stored := on_store (get sha256_hex pinnedKeys id expected now) in
  match stored with
  | None => se_throw "activation_checkpoint_restore_is_unavailable"
  | Some (c, payload) =>
      do! se_modify (fun a => set_restores (map_set (restores a) uuid
                                (Restore workerId session (checkpointId c) expiresAt)) a) ;;
      se_ret (uuid, c, payload)
  end.

Definition abortRestore (id : jsstring) (a : authority) : bool * authority :=
  (map_has (restores a) id, set_restores (map_delete (restores a) id) a).

Definition requireRestore (id workerId session : jsstring) (now : Z) : SE authority ExpectedRestore :=
  let! a := se_get in
  match map_get (restores a) id with
  | None => se_throw "activation_checkpoint_restore_is_unknown"
  | Some r =>
      if rs_expiresAt r <=? now then
        do! se_modify (fun a => (abortRestore id a).2) ;;
        se_throw "activation_checkpoint_restore_is_expired"
      else
        fail_if negb (owned_by workerId session (rs_workerId r) (rs_workerSessionId r))
          with "activation_checkpoint_restore_session_is_invalid" ;;
        se_ret r
  end.

Definition completeRestore (workerId session id cid : jsstring) (now : Z) : SE authority jsstring :=
  let! r := requireRestore id workerId session now in
  fail_if negb (bool_decide (rs_checkpointId r = cid))
    with "activation_checkpoint_restore_identity_is_invalid" ;;
  do! se_modify (fun a => (abortRestore id a).2) ;;
  se_ret cid.

Definition failRestore (workerId session id cid : jsstring) (now : Z) : SE authority unit :=
  let! r := requireRestore id workerId session now in
  fail_if negb (bool_decide (rs_checkpointId r = cid))
    with "activation_checkpoint_restore_identity_is_invalid" ;;
  se_modify (fun a => (abortRestore id a).2).

(** [abortSession]: the entries of the session leave both maps; the count is what left. *)
Definition abortSession (workerId session : jsstring) (a : authority) : Z * authority :=
  let keep_t (e : jsstring * ExpectedTransfer) :=
    negb (owned_by workerId session (tr_workerId e.2) (tr_workerSessionId e.2)) in
  let keep_r (e : jsstring * ExpectedRestore) :=
    negb (owned_by workerId session (rs_workerId e.2) (rs_workerSessionId e.2)) in
  let ts := List.filter keep_t (transfers a) in
  let rs := List.filter keep_r (restores a) in
  ((map_size (transfers a) - map_size ts) + (map_size (restores a) - map_size rs),
   Authority ts rs (checkpoint_store a)).
End Authority.
