(* ===== verification/CheckpointTransferProps.v ===== *)
(** * Properties of checkpoint transfers

    The invariant of the authority over every sequence of calls, and the upload of a
    checkpoint from its first message to its last. *)

From S2P Require Import Prelude JsString JsMap JsSort JsonText CanonicalJson Schema Base64 Checkpoint CheckpointStore CheckpointStoreProps CheckpointTransfer.

#[local] Open Scope Z_scope.

(** ** Calls *)

Inductive call : Type :=
| CExpect (uuid workerId session : jsstring) (expected : ActivationCheckpointCompatibility)
    (maximumBytes expiresAt : num)
| CBegin (workerId session : jsstring) (m : ActivationCheckpointBegin)
| CChunk (workerId session : jsstring) (m : ActivationCheckpointChunk)
| CCommit (workerId session : jsstring) (m : ActivationCheckpointCommit)
| CAbort (id : jsstring)
| CAbortSession (workerId session : jsstring)
| CPrepareRestore (uuid workerId session id : jsstring) (expected : ActivationCheckpointCompatibility)
    (expiresAt : Z)
| CCompleteRestore (workerId session id cid : jsstring)
| CFailRestore (workerId session id cid : jsstring)
| CAbortRestore (id : jsstring).

(** The calls that are given a worker and its session, and compare them. *)
Definition caller (c : call) : option (jsstring * jsstring) :=
  match c with
  | CBegin w s _ | CChunk w s _ | CCommit w s _ => Some (w, s)
  | CCompleteRestore w s _ _ | CFailRestore w s _ _ => Some (w, s)
  | _ => None
  end.

(** ** The invariant *)

Record transfer_ok (t : ExpectedTransfer) : Prop := {
  to_maximum : 1 <= tr_maximumBytes t;
  to_received : tr_receivedBytes t = zsum byteLength (tr_chunks t);
  to_shape : match tr_checkpoint t with
             | None => tr_chunks t = []
             | Some c =>
                 checkpoint_valid c = true /\ cp_bytes (unsigned c) <= tr_maximumBytes t
                 /\ tr_chunkCount t = chunks_of (cp_bytes (unsigned c))
                 /\ Z.of_nat (length (tr_chunks t)) <= tr_chunkCount t
                 /\ tr_receivedBytes t
                    = Z.min (ACTIVATION_CHECKPOINT_CHUNK_BYTES * Z.of_nat (length (tr_chunks t)))
                        (cp_bytes (unsigned c))
             end;
}.

Record authority_ok (sha256_hex : bytes -> jsstring) (pinnedKeys : jsstring -> option (bytes -> bytes -> bool))
    (a : authority) : Prop := {
  ao_transfers_wf : map_wf (transfers a);
  ao_restores_wf : map_wf (restores a);
  ao_transfers : forall id t, map_get (transfers a) id = Some t -> transfer_ok t;
  ao_store : store_ok sha256_hex pinnedKeys (checkpoint_store a);
}.

Lemma chunks_of_bounds size :
  1 <= size ->
  ACTIVATION_CHECKPOINT_CHUNK_BYTES * (chunks_of size - 1) < size
  <= ACTIVATION_CHECKPOINT_CHUNK_BYTES * chunks_of size.
Proof. unfold chunks_of, ACTIVATION_CHECKPOINT_CHUNK_BYTES. intros. zdiv_lia. Qed.

Section Props.
Context (is_uuid : jsstring -> bool) (sha256_hex : bytes -> jsstring)
  (localeCompare : jsstring -> jsstring -> Z) (pinnedKeys : jsstring -> option (bytes -> bytes -> bool)).

Abbreviation ok := (authority_ok sha256_hex pinnedKeys).

Definition discard {A} (r : res A * authority) : res unit * authority :=
  (match r.1 with Ok _ => Ok tt | Err code => Err code end, r.2).

Definition perform (now : Z) (c : call) (a : authority) : res unit * authority :=
  match c with
  | CExpect uuid w s ex m e => discard (expect uuid w s ex m e now a)
  | CBegin w s m => begin is_uuid w s m now a
  | CChunk w s m => chunk is_uuid w s m now a
  | CCommit w s m => discard (commit is_uuid sha256_hex localeCompare pinnedKeys w s m now a)
  | CAbort id => (Ok tt, (abort id a).2)
  | CAbortSession w s => (Ok tt, (abortSession w s a).2)
  | CPrepareRestore uuid w s id ex e =>
      discard (prepareRestore sha256_hex pinnedKeys uuid w s id ex e now a)
  | CCompleteRestore w s id cid => discard (completeRestore w s id cid now a)
  | CFailRestore w s id cid => failRestore w s id cid now a
  | CAbortRestore id => (Ok tt, (abortRestore id a).2)
  end.

(** A history of calls, each at its time. *)
Definition history (l : list (Z * call)) (a : authority) : authority :=
  foldl (fun a e => (perform e.1 e.2 a).2) a l.

Lemma set_transfer_ok id t a : ok a -> transfer_ok t -> ok (set_transfer id t a).
Proof.
  intros [Hw Hr Ht Hs] Hok. split; simpl; [auto with myc|done| |done].
  intros j u. rewrite map_get_set. case_decide; [|apply Ht]. by intros [= <-].
Qed.

Lemma set_transfer_twice id t u a : set_transfer id t (set_transfer id u a) = set_transfer id t a.
Proof. unfold set_transfer, set_transfers. simpl. by rewrite map_set_set. Qed.

Lemma map_delete_sub {V} (m : list (jsstring * V)) id j v :
  map_wf m -> map_get (map_delete m id) j = Some v -> map_get m j = Some v.
Proof.
  intros Hw H. destruct (decide (j = id)) as [->|Hne].
  - by rewrite map_get_delete_eq in H.
  - by rewrite map_get_delete_ne in H.
Qed.

Lemma abort_ok id a : ok a -> ok (abort id a).2.
Proof.
  intros [Hw Hr Ht Hs]. unfold abort. destruct (map_get (transfers a) id); [|by split].
  split; simpl; [auto with myc|done| |done]. intros j u Hu. apply (Ht j). by eapply map_delete_sub.
Qed.

Lemma set_restores_ok m a : ok a -> map_wf m -> ok (set_restores m a).
Proof. intros [Hw Hr Ht Hs] Hm. by split. Qed.

Lemma abortRestore_ok id a : ok a -> ok (abortRestore id a).2.
Proof. intros Hok. apply set_restores_ok; [done|]. apply map_wf_delete, Hok. Qed.

Lemma on_store_ok {A} (m : SE store A) a : keeps sha256_hex pinnedKeys m -> ok a -> ok (on_store m a).2.
Proof.
  intros Hk [Hw Hr Ht Hs]. unfold on_store. pose proof (Hk _ Hs) as [Hk' _].
  destruct (m (checkpoint_store a)) as [r s]. by split.
Qed.

(** *** [requireTransfer] and [requireRestore] *)

(** It returns the transfer, unchanged, or throws, after which the transfer may be
    gone. *)
Lemma requireTransfer_inv id w s now a :
  (exists t, requireTransfer id w s now a = (Ok t, a) /\ map_get (transfers a) id = Some t
     /\ now < tr_expiresAt t /\ tr_workerId t = w /\ tr_workerSessionId t = s)
  \/ (exists code, requireTransfer id w s now a = (Err code, a))
  \/ (exists code t, requireTransfer id w s now a = (Err code, (abort id a).2)
        /\ map_get (transfers a) id = Some t /\ tr_expiresAt t <= now).
Proof.
  unfold requireTransfer, se_bind, se_get. destruct (map_get (transfers a) id) as [t|]; [|right; left; by eexists].
  destruct (tr_expiresAt t <=? now) eqn:He.
  - right; right. bool_prop. eexists _, t. by split.
  - destruct (negb _) eqn:Ho; [right; left; by eexists|]. left. exists t. unfold owned_by in Ho. by bool_prop.
Qed.

Lemma requireRestore_inv id w s now a :
  (exists r, requireRestore id w s now a = (Ok r, a) /\ map_get (restores a) id = Some r
     /\ now < rs_expiresAt r /\ rs_workerId r = w /\ rs_workerSessionId r = s)
  \/ (exists code, requireRestore id w s now a = (Err code, a))
  \/ (exists code r, requireRestore id w s now a = (Err code, (abortRestore id a).2)
        /\ map_get (restores a) id = Some r /\ rs_expiresAt r <= now).
Proof.
  unfold requireRestore, se_bind, se_get. destruct (map_get (restores a) id) as [t|]; [|right; left; by eexists].
  destruct (rs_expiresAt t <=? now) eqn:He.
  - right; right. bool_prop. eexists _, t. by split.
  - destruct (negb _) eqn:Ho; [right; left; by eexists|]. left. exists t. unfold owned_by in Ho. by bool_prop.
Qed.
(** *** What a message of a worker may do *)

Definition owns (w s : jsstring) (t : ExpectedTransfer) : Prop := tr_workerId t = w /\ tr_workerSessionId t = s.

Inductive effect (w s : jsstring) (now : Z) (a : authority) : authority -> Prop :=
| ef_none : effect w s now a a
| ef_expired id t :
    map_get (transfers a) id = Some t -> tr_expiresAt t <= now -> effect w s now a (abort id a).2
| ef_begin id t c :
    map_get (transfers a) id = Some t -> owns w s t -> tr_checkpoint t = None ->
    checkpoint_valid c = true -> cp_bytes (unsigned c) <= tr_maximumBytes t ->
    effect w s now a (set_transfer id (begun t c (chunks_of (cp_bytes (unsigned c)))) a)
| ef_chunk id t c data :
    map_get (transfers a) id = Some t -> owns w s t -> tr_checkpoint t = Some c ->
    Z.of_nat (length (tr_chunks t)) < tr_chunkCount t ->
    byteLength data = expectedLength c t (Z.of_nat (length (tr_chunks t))) ->
    effect w s now a (set_transfer id (pushed (counted t (byteLength data)) data) a)
| ef_commit id t c :
    map_get (transfers a) id = Some t -> owns w s t -> now < tr_expiresAt t -> tr_checkpoint t = Some c ->
    effect w s now a
      (Authority (map_delete (transfers a) id) (restores a)
         (put sha256_hex localeCompare pinnedKeys c (concat (tr_chunks t)) (tr_expected t) now
            (checkpoint_store a)).2)
| ef_restore id r :
    map_get (restores a) id = Some r ->
    rs_expiresAt r <= now \/ (rs_workerId r = w /\ rs_workerSessionId r = s) ->
    effect w s now a (abortRestore id a).2.

(** The next chunk keeps the count of what was received. *)
Lemma next_chunk_ok t c data :
  transfer_ok t -> tr_checkpoint t = Some c -> Z.of_nat (length (tr_chunks t)) < tr_chunkCount t ->
  byteLength data = expectedLength c t (Z.of_nat (length (tr_chunks t))) ->
  transfer_ok (pushed (counted t (byteLength data)) data)
  /\ tr_receivedBytes t + byteLength data <= tr_maximumBytes t.
Proof.
  intros [Hm Hr Hs] Hc Hlt Hlen. rewrite Hc in Hs. destruct Hs as (Hv & Hmax & Hcount & Hle & Hmin).
  pose proof (checkpoint_bytes_bound _ Hv) as Hb. pose proof (chunks_of_bounds (cp_bytes (unsigned c))) as Hco.
  assert (Hnext : tr_receivedBytes t + byteLength data
    = Z.min (ACTIVATION_CHECKPOINT_CHUNK_BYTES * (Z.of_nat (length (tr_chunks t)) + 1)) (cp_bytes (unsigned c))).
  { rewrite Hlen, Hmin. unfold expectedLength. rewrite Hcount in *. destruct (Z.eqb_spec (Z.of_nat (length (tr_chunks t)))
      (chunks_of (cp_bytes (unsigned c)) - 1)); unfold ACTIVATION_CHECKPOINT_CHUNK_BYTES in *; nia. }
  split; [|lia]. split; simpl; [done| |].
  - rewrite zsum_app. simpl. lia.
  - rewrite Hc, length_app. simpl. split_and!; [done..|lia|]. rewrite Hnext. f_equal. lia.
Qed.

Lemma begin_effect w s m now a : ok a -> effect w s now a (begin is_uuid w s m now a).2.
Proof.
  intros Hok. unfold begin. destruct (negb (begin_valid _ _)) eqn:Hv; [constructor|]. unfold se_bind.
  destruct (requireTransfer_inv (bg_transferId m) w s now a)
    as [(t & -> & Hg & _ & Hw & Hs)|[[code ->]|(code & t & -> & Hg & He)]]; [|constructor|by econstructor].
  destruct (tr_checkpoint t) eqn:Hc; [constructor|]. destruct (_ || _) eqn:Hshape; [constructor|].
  unfold begin_valid in Hv. bool_prop. subst. simpl.
  replace (bg_chunkCount m) with (chunks_of (cp_bytes (unsigned (bg_checkpoint m)))) by done.
  by apply ef_begin.
Qed.

Lemma chunk_effect w s m now a : ok a -> effect w s now a (chunk is_uuid w s m now a).2.
Proof.
  intros Hok. unfold chunk. destruct (negb (chunk_valid _ _)) eqn:Hv; [constructor|]. unfold se_bind.
  destruct (requireTransfer_inv (ch_transferId m) w s now a)
    as [(t & -> & Hg & _ & Hw & Hs)|[[code ->]|(code & t & -> & Hg & He)]]; [|constructor|by econstructor].
  destruct (tr_checkpoint t) as [c|] eqn:Hc; [|constructor].
  destruct (negb (bool_decide _)); [constructor|]. destruct (_ || _) eqn:Horder; [constructor|].
  destruct (negb (byteLength _ =? _)) eqn:Hsize; [constructor|]. bool_prop.
  replace (ch_index m) with (Z.of_nat (length (tr_chunks t))) in * by done.
  destruct (next_chunk_ok t c (b64_decode (ch_data m))) as [_ Hle];
    [by eapply ao_transfers|done|lia|done|].
  simpl. rewrite (proj2 (Z.ltb_ge _ _)) by done. simpl.
  rewrite set_transfer_twice. by eapply ef_chunk.
Qed.

Lemma commit_effect w s m now a :
  effect w s now a (commit is_uuid sha256_hex localeCompare pinnedKeys w s m now a).2.
Proof.
  unfold commit. destruct (negb (commit_valid _ _)) eqn:Hv; [constructor|]. unfold se_bind.
  destruct (requireTransfer_inv (cm_transferId m) w s now a)
    as [(t & -> & Hg & Hex & Hw & Hs)|[[code ->]|(code & t & -> & Hg & He)]]; [|constructor|by econstructor].
  destruct (tr_checkpoint t) as [c|] eqn:Hc; [|constructor]. destruct (_ || _); [constructor|].
  unfold on_store. destruct (put _ _ _ _ _ _ _ _) as [r st] eqn:Hput. unfold abort. simpl. rewrite Hg.
  replace st with (put sha256_hex localeCompare pinnedKeys c (concat (tr_chunks t)) (tr_expected t) now
    (checkpoint_store a)).2 by by rewrite Hput.
  unfold set_transfers. cbn [snd transfers restores checkpoint_store]. by eapply ef_commit.
Qed.

Lemma restore_effect w s id cid now a :
  effect w s now a (completeRestore w s id cid now a).2 /\ effect w s now a (failRestore w s id cid now a).2.
Proof.
  unfold completeRestore, failRestore, se_bind.
  destruct (requireRestore_inv id w s now a)
    as [(t & -> & Hg & _ & Hw & Hs)|[[code ->]|(code & t & -> & Hg & He)]]; [|split; constructor|].
  - destruct (negb _); simpl; [split; constructor|]. split; eapply ef_restore; eauto.
  - split; eapply ef_restore; eauto.
Qed.

Lemma perform_effect now c a w s : ok a -> caller c = Some (w, s) -> effect w s now a (perform now c a).2.
Proof.
  intros Hok. destruct c; intros [= <- <-]; simpl.
  - by apply begin_effect.
  - by apply chunk_effect.
  - apply commit_effect.
  - apply restore_effect.
  - apply restore_effect.
Qed.

(** ** The invariant is kept *)

Lemma effect_ok w s now a a' : ok a -> effect w s now a a' -> ok a'.
Proof.
  intros Hok [|id t Hg He|id t c Hg Ho Hc Hv Hle|id t c data Hg Ho Hc Hlt Hlen|id t c Hg Ho He Hc|id r Hg He].
  - done.
  - by apply abort_ok.
  - apply set_transfer_ok; [done|]. destruct (ao_transfers _ _ _ Hok _ _ Hg) as [Hm Hr Hs]. rewrite Hc in Hs.
    split; simpl; [done|by rewrite Hr, Hs|]. pose proof (checkpoint_bytes_bound _ Hv).
    pose proof (chunks_of_bounds (cp_bytes (unsigned c))). rewrite Hr, Hs. simpl.
    unfold ACTIVATION_CHECKPOINT_CHUNK_BYTES in *. split_and!; [done|done|done|lia|lia].
  - apply set_transfer_ok; [done|]. by eapply next_chunk_ok; [eapply ao_transfers|..].
  - destruct Hok as [Hw Hr Ht Hs]. split; simpl; [auto with myc|done| |].
    + intros j u Hu. apply (Ht j). by eapply map_delete_sub.
    + by apply put_keeps.
  - by apply abortRestore_ok.
Qed.

Lemma map_wf_filter {V} (p : jsstring * V -> bool) (m : list (jsstring * V)) : map_wf m -> map_wf (List.filter p m).
Proof.
  unfold map_wf, map_keys. induction m as [|x m IH]; simpl; [done|]. intros [Hx Hm]%NoDup_cons.
  destruct (p x); [|by apply IH]. simpl. apply NoDup_cons. split; [|by apply IH].
  intros Hin. apply Hx. apply list_elem_of_fmap in Hin as (y & -> & Hy). apply list_elem_of_fmap.
  exists y. split; [done|]. apply list_elem_of_In in Hy. apply filter_In in Hy as [Hy _]. by apply list_elem_of_In.
Qed.

Lemma map_get_filter {V} (p : jsstring * V -> bool) (m : list (jsstring * V)) id v :
  map_wf m -> map_get (List.filter p m) id = Some v -> map_get m id = Some v.
Proof.
  intros Hw H. apply map_get_In; [done|]. apply map_get_Some_In in H. apply list_elem_of_In in H.
  apply filter_In in H as [H _]. by apply list_elem_of_In.
Qed.

Lemma perform_ok now c a : ok a -> ok (perform now c a).2.
Proof.
  intros Hok. destruct (caller c) as [[w s]|] eqn:Hc; [by eapply effect_ok, perform_effect|].
  destruct c; try discriminate Hc; simpl.
  - unfold expect. destruct maximumBytes as [m|], expiresAt as [e|]; simpl; try done.
    destruct (_ || _) eqn:E; simpl; [done|]. apply set_transfer_ok; [done|]. bool_prop. by split; simpl; [lia|..].
  - by apply abort_ok.
  - destruct Hok as [Hw Hr Ht Hs]. split; simpl; [by apply map_wf_filter..| |done].
    intros j u Hu. apply (Ht j). by eapply map_get_filter.
  - unfold prepareRestore. destruct (_ || _); simpl; [done|]. unfold se_bind.
    pose proof (on_store_ok (get sha256_hex pinnedKeys id expected now) a (get_keeps _ _ _ _ _) Hok) as Hk.
    destruct (on_store _ a) as [[[[c payload]|]|code] a']; simpl in *; try done.
    apply set_restores_ok; [done|]. apply map_wf_set, Hk.
  - by apply abortRestore_ok.
Qed.

Lemma history_ok l a : ok a -> ok (history l a).
Proof. revert a. induction l as [|[now c] l IH]; simpl; intros a Hok; [done|]. by apply IH, perform_ok. Qed.

Lemma newAuthority_ok s : store_ok sha256_hex pinnedKeys s -> ok (newAuthority s).
Proof. intros Hs. by split; simpl; [auto with myc|auto with myc|..]. Qed.
End Props.

(** ** Consequences *)

Lemma byteLength_concat (l : list bytes) : byteLength (concat l) = zsum byteLength l.
Proof. induction l as [|b l IH]; simpl; [done|]. by rewrite byteLength_app, IH. Qed.

Lemma transfer_bounded t :
  transfer_ok t ->
  byteLength (concat (tr_chunks t)) = tr_receivedBytes t /\ tr_receivedBytes t <= tr_maximumBytes t
  /\ match tr_checkpoint t with
     | Some c => tr_receivedBytes t <= cp_bytes (unsigned c) <= tr_maximumBytes t
     | None => tr_chunks t = []
     end.
Proof.
  intros [Hm Hr Hs]. rewrite byteLength_concat, <- Hr. split; [done|]. destruct (tr_checkpoint t) as [c|].
  - destruct Hs as (_ & Hmax & _ & _ & Hmin). lia.
  - rewrite Hs in *. simpl in Hr. split; [lia|done].
Qed.

Lemma chunk_never_over is_uuid sha256_hex pinnedKeys w s m now a :
  authority_ok sha256_hex pinnedKeys a ->
  (chunk is_uuid w s m now a).1 <> Err "activation_checkpoint_transfer_limit_exceeded".
Proof.
  intros Hok. unfold chunk. destruct (negb (chunk_valid _ _)); [done|]. unfold se_bind at 1.
  unfold requireTransfer, se_bind, se_get. destruct (map_get (transfers a) (ch_transferId m)) as [t|] eqn:Hg; [|done].
  destruct (_ <=? now); [done|]. destruct (negb (owned_by _ _ _ _)); [done|]. cbn [se_ret].
  destruct (tr_checkpoint t) as [c|] eqn:Hc; [|done]. destruct (negb (bool_decide _)); [done|].
  destruct (_ || _) eqn:Ho; [done|]. destruct (negb (byteLength _ =? _)) eqn:Hl; [done|]. bool_prop.
  destruct (next_chunk_ok t c (b64_decode (ch_data m))) as [_ Hle];
    [by eapply ao_transfers|done|lia|congruence|].
  unfold se_modify. cbn [counted tr_maximumBytes tr_receivedBytes]. by rewrite (proj2 (Z.ltb_ge _ _)).
Qed.

(** ** What a message of a worker leaves as it is *)

Section Isolation.
Context (sha256_hex : bytes -> jsstring) (localeCompare : jsstring -> jsstring -> Z)
  (pinnedKeys : jsstring -> option (bytes -> bytes -> bool)) (w s : jsstring) (now : Z) (a a' : authority).

Lemma effect_transfers id t :
  effect sha256_hex localeCompare pinnedKeys w s now a a' ->
  map_get (transfers a) id = Some t -> ~ owns w s t -> now < tr_expiresAt t -> map_get (transfers a') id = Some t.
Proof.
  intros Heff Ht Ho He.
  assert (Hne : forall id' t', map_get (transfers a) id' = Some t' -> owns w s t' \/ tr_expiresAt t' <= now -> id <> id').
  { intros id' t' Ht' [Ho'|He'] ->; assert (t' = t) as -> by congruence; [done|lia]. }
  destruct Heff as [|id' t' Hg He'|id' t' c Hg Ho'|id' t' c data Hg Ho'|id' t' c Hg Ho'|id' r Hg He']; [done| | | | |done].
  - unfold abort. rewrite Hg. cbn [snd set_transfers transfers]. rewrite map_get_delete_ne; [done|by eapply Hne; [|right]].
  - cbn [set_transfer set_transfers transfers]. rewrite map_get_set_ne; [done|by eapply Hne; [|left]].
  - cbn [set_transfer set_transfers transfers]. rewrite map_get_set_ne; [done|by eapply Hne; [|left]].
  - cbn [transfers]. rewrite map_get_delete_ne; [done|by eapply Hne; [|left]].
Qed.

Lemma effect_restores id r :
  effect sha256_hex localeCompare pinnedKeys w s now a a' ->
  map_get (restores a) id = Some r -> ~ (rs_workerId r = w /\ rs_workerSessionId r = s) -> now < rs_expiresAt r ->
  map_get (restores a') id = Some r.
Proof.
  intros Heff Hr Ho He.
  destruct Heff as [|id' t' Hg He'|id' t' c Hg Ho'|id' t' c data Hg Ho'|id' t' c Hg Ho'|id' r' Hg He']; try done.
  - unfold abort. by rewrite Hg.
  - cbn [abortRestore snd set_restores restores]. rewrite map_get_delete_ne; [done|]. intros ->.
    assert (r' = r) as -> by congruence. destruct He' as [He'|He']; [lia|done].
Qed.

Lemma effect_store id e :
  authority_ok sha256_hex pinnedKeys a -> effect sha256_hex localeCompare pinnedKeys w s now a a' ->
  map_get (entries (checkpoint_store a')) id = Some e ->
  (exists e0, map_get (entries (checkpoint_store a)) id = Some e0
     /\ stored_checkpoint e0 = stored_checkpoint e /\ stored_payload e0 = stored_payload e)
  \/ (exists tid t, map_get (transfers a) tid = Some t /\ owns w s t /\ now < tr_expiresAt t
     /\ byteLength (stored_payload e) <= tr_maximumBytes t
     /\ verified sha256_hex pinnedKeys (stored_checkpoint e) (stored_payload e) (tr_expected t) now).
Proof.
  intros Hok Heff.
  destruct Heff as [|id' t' Hg He'|id' t' c Hg Ho'|id' t' c data Hg Ho'|id' t' c Hg Ho' He' Hc|id' r' Hg He'];
    try (intros He0; left; by exists e).
  - unfold abort. rewrite Hg. intros He0. left. by exists e.
  - cbn [checkpoint_store]. intros He0. apply put_source in He0; [|apply Hok]. destruct He0 as [H|(Hcp & Hp & Hv)]; [by left|].
    right. exists id', t'. split_and!; [done|done|done| |by rewrite Hcp, Hp].
    rewrite Hp. destruct (transfer_bounded t') as (-> & Hle & _); [by eapply ao_transfers|done].
Qed.

(** A checkpoint leaves the store only to make room for one of the worker's. *)
Lemma effect_evicts id e :
  authority_ok sha256_hex pinnedKeys a -> effect sha256_hex localeCompare pinnedKeys w s now a a' ->
  map_get (entries (checkpoint_store a)) id = Some e -> map_get (entries (checkpoint_store a')) id = None ->
  exists tid t c, map_get (transfers a) tid = Some t /\ owns w s t /\ now < tr_expiresAt t /\ tr_checkpoint t = Some c
  /\ is_full (byteLength (concat (tr_chunks t))) (checkpoint_store a) = true
  /\ map_get (entries (checkpoint_store a')) (checkpointId c) = Some (Stored c (concat (tr_chunks t)) now).
Proof.
  intros Hok Heff He Hn.
  destruct Heff as [|id' t' Hg He'|id' t' c Hg Ho'|id' t' c data Hg Ho'|id' t' c Hg Ho' He' Hc|id' r' Hg He'];
    try (cbn [set_transfer set_transfers abortRestore set_restores snd checkpoint_store] in Hn; congruence).
  - unfold abort in Hn. rewrite Hg in Hn. cbn [set_transfers snd checkpoint_store] in Hn. congruence.
  - cbn [checkpoint_store] in *. exists id', t', c. split_and!; [done..| |]; eapply put_evicts; try done; apply Hok.
Qed.
End Isolation.

(** ** Claims *)

(** C21 (invariant). Over every sequence of calls to a coordinator that starts with an empty
    store, what a transfer holds never exceeds the size the worker announced nor the
    maximum the coordinator set, the limit that [chunk] checks last is never exceeded, and
    the store stays within its limits, counts its bytes exactly and holds only
    checkpoints whose identity, signature, size and payload were verified. *)
Theorem checkpoint_authority_bounded (is_uuid : jsstring -> bool) (sha256_hex : bytes -> jsstring)
    (localeCompare : jsstring -> jsstring -> Z) (pinnedKeys : jsstring -> option (bytes -> bytes -> bool))
    (maxEntries maxEntryBytes maxTotalBytes : num) (s : store) (l : list (Z * call))
    (Hnew : newStore maxEntries maxEntryBytes maxTotalBytes = Ok s) :
  let a := history is_uuid sha256_hex localeCompare pinnedKeys l (newAuthority s) in
  store_ok sha256_hex pinnedKeys (checkpoint_store a)
  /\ (forall id t, map_get (transfers a) id = Some t ->
      byteLength (concat (tr_chunks t)) = tr_receivedBytes t /\ tr_receivedBytes t <= tr_maximumBytes t
      /\ match tr_checkpoint t with
         | Some c => tr_receivedBytes t <= cp_bytes (unsigned c) <= tr_maximumBytes t
         | None => tr_chunks t = []
         end)
  /\ (forall w session m now, (chunk is_uuid w session m now a).1
                              <> Err "activation_checkpoint_transfer_limit_exceeded").
Proof.
  intros a. assert (Hok : authority_ok sha256_hex pinnedKeys a).
  { apply history_ok, newAuthority_ok. by eapply newStore_ok. }
  split_and!; [apply Hok| |].
  - intros id t Ht. by apply transfer_bounded, (ao_transfers _ _ _ Hok id).
  - intros w session m now. by apply (chunk_never_over is_uuid sha256_hex pinnedKeys).
Qed.
