(* ===== verification/CheckpointChunks.v ===== *)
(** * The chunks of a payload

    [activationCheckpointChunks] cuts a payload into chunks that its own schema
    accepts and whose data decode to the consecutive slices of the payload. *)

From S2P Require Import Prelude JsString JsMap JsonText CanonicalJson Schema Base64 Checkpoint CheckpointTransfer.

#[local] Open Scope Z_scope.

(** ** Base64 text *)

Lemma b64_char_valid v : 0 <= v < 64 -> is_b64_char (b64_char v) = true.
Proof.
  intros Hv. unfold is_b64_char, is_alnum, in_range, b64_char.
  repeat match goal with |- context [?a <? ?b] => destruct (Z.ltb_spec a b) end;
    repeat match goal with |- context [?a =? ?b] => destruct (Z.eqb_spec a b) end; lia.
Qed.

(** The text is characters of the alphabet, then at most two [=]. *)
Lemma b64_encode_shape (b : bytes) :
  Forall is_byte b -> b <> [] ->
  exists body pad, b64_encode b = body ++ pad /\ body <> [] /\ forallb is_b64_char body = true
    /\ (pad = [] \/ pad = [PAD] \/ pad = [PAD; PAD]).
Proof.
  induction b as [|x|x y|x y z l IH] using b64_ind; intros H Hne; [done|..];
    repeat match goal with H : Forall _ (_ :: _) |- _ =>
      apply Forall_cons in H as [? H] end; unfold is_byte in *.
  - exists [b64_char (x / 4); b64_char (x mod 4 * 16)], [PAD; PAD]. split_and!; [done|done| |by right; right].
    cbn [forallb]. by rewrite !b64_char_valid by zdiv_lia.
  - exists [b64_char (x / 4); b64_char (x mod 4 * 16 + y / 16); b64_char (y mod 16 * 4)], [PAD].
    split_and!; [done|done| |by right; left]. cbn [forallb]. by rewrite !b64_char_valid by zdiv_lia.
  - set (head := [b64_char (x / 4); b64_char (x mod 4 * 16 + y / 16); b64_char (y mod 16 * 4 + z / 64);
       b64_char (z mod 64)]).
    assert (Hh : forallb is_b64_char head = true).
    { unfold head. cbn [forallb]. by rewrite !b64_char_valid by zdiv_lia. }
    destruct l as [|x' l].
    + exists head, []. split_and!; [done|done|done|by left].
    + destruct IH as (body & pad & He & _ & Hb & Hp); [done|done|].
      exists (head ++ body), pad. split_and!; [|done| |done].
      * change (b64_encode (x :: y :: z :: x' :: l)) with (head ++ b64_encode (x' :: l)).
        by rewrite He, app_assoc.
      * by rewrite forallb_app, Hh.
Qed.

Lemma b64_char_not_pad c : is_b64_char c = true -> c <> PAD.
Proof. by intros H ->. Qed.

Lemma b64_encode_is_base64 (b : bytes) : Forall is_byte b -> b <> [] -> is_base64 (b64_encode b) = true.
Proof.
  intros Hb Hne. destruct (b64_encode_shape b Hb Hne) as (body & pad & -> & Hbody & Hall & Hp).
  assert (Hrev : forallb is_b64_char (reverse body) = true).
  { apply forallb_forall. intros c Hc. rewrite forallb_forall in Hall. apply Hall.
    unfold reverse in Hc. rewrite rev_append_rev, app_nil_r in Hc. by apply in_rev. }
  assert (Hrne : reverse body <> []).
  { intros E. apply Hbody. by rewrite <- (reverse_involutive body), E. }
  unfold is_base64. rewrite reverse_app.
  destruct (reverse body) as [|c r] eqn:E; [done|].
  assert (c <> 61) by (simpl in Hrev; bool_prop; by apply b64_char_not_pad).
  assert (Hcase : match reverse pad ++ c :: r with
    | 61 :: 61 :: r => r | 61 :: r => r | r => r end = c :: r).
  { destruct Hp as [-> | [-> | ->]]; simpl; unfold PAD; destruct c as [|p|p]; try done;
      repeat (destruct p as [p|p|]; try done). }
  rewrite Hcase. rewrite bool_decide_false by done. done.
Qed.

Lemma b64_encode_ascii (b : bytes) : Forall is_byte b -> Forall (fun c => c < 65536) (b64_encode b).
Proof.
  intros Hb. apply b64_encode_chars in Hb. eapply Forall_impl; [exact Hb|]. intros c [->|Hc]; [done|].
  unfold is_url_char, url_char in Hc. destruct (c =? 43) eqn:E1; [bool_prop; lia|].
  destruct (c =? 47) eqn:E2; [bool_prop; lia|]. bool_prop. repeat destruct Hc as [Hc|Hc]; bool_prop; lia.
Qed.

(** ** Cutting *)

(** One turn of the loop. *)
Lemma chunks_from_cons is_uuid fuel tid cid i payload :
  payload <> [] ->
  chunks_from is_uuid (S fuel) tid cid i payload =
    (let c := Chunk tid cid i (b64_encode (take CHUNK payload)) in
     throw_if negb (chunk_valid is_uuid c) with ZodError ;;
     let? rest := chunks_from is_uuid fuel tid cid (i + 1) (drop CHUNK payload) in
     Ok (c :: rest)).
Proof. intros H. destruct payload as [|x payload]; [done|]. cbn [chunks_from]. reflexivity. Qed.

(** [l] are the chunks of [payload], the first with the index [i]. *)
Inductive cut (is_uuid : jsstring -> bool) (tid cid : jsstring)
    : Z -> bytes -> list ActivationCheckpointChunk -> Prop :=
| cut_nil i : cut is_uuid tid cid i [] []
| cut_cons i payload m l :
    payload <> [] -> ch_transferId m = tid -> ch_checkpointId m = cid -> ch_index m = i ->
    chunk_valid is_uuid m = true ->
    b64_decode (ch_data m) = take CHUNK payload ->
    cut is_uuid tid cid (i + 1) (drop CHUNK payload) l ->
    cut is_uuid tid cid i payload (m :: l).

Lemma slice_size (payload : bytes) :
  byteLength (take CHUNK payload) = Z.min 262144 (byteLength payload)
  /\ byteLength (drop CHUNK payload) = byteLength payload - Z.min 262144 (byteLength payload).
Proof. unfold byteLength. rewrite length_take, length_drop. pose proof CHUNK_size. lia. Qed.

Lemma chunks_of_step size : 262144 < size -> chunks_of size = 1 + chunks_of (size - 262144).
Proof. unfold chunks_of, ACTIVATION_CHECKPOINT_CHUNK_BYTES. intros. zdiv_lia. Qed.

Lemma chunks_of_small size : 1 <= size <= 262144 -> chunks_of size = 1.
Proof. unfold chunks_of, ACTIVATION_CHECKPOINT_CHUNK_BYTES. intros. zdiv_lia. Qed.

Section Cut.
Context (is_uuid : jsstring -> bool) (tid cid : jsstring) (Htid : is_uuid tid = true) (Hcid : is_sha256 cid = true).

Lemma slice_chunk_valid i (slice : bytes) :
  Forall is_byte slice -> slice <> [] -> byteLength slice <= 262144 -> 0 <= i <= 2047 ->
  chunk_valid is_uuid (Chunk tid cid i (b64_encode slice)) = true.
Proof.
  intros Hb Hne Hle Hi. unfold chunk_valid. cbn [ch_transferId ch_checkpointId ch_index ch_data].
  rewrite Htid, Hcid, b64_round_trip, b64_encode_is_base64 by done.
  rewrite utf16_length_bmp by by apply b64_encode_ascii. rewrite b64_encode_length.
  assert (1 <= byteLength slice) by (unfold byteLength; destruct slice; simpl; [done|lia]).
  unfold MAX_ACTIVATION_CHECKPOINT_CHUNKS, ACTIVATION_CHECKPOINT_CHUNK_BYTES.
  rewrite !andb_true_iff, !Z.leb_le. split_and!; try done; try lia; zdiv_lia.
Qed.

Lemma chunks_from_cut fuel i payload :
  Forall is_byte payload -> 0 <= i -> 262144 * i + byteLength payload <= MAX_ACTIVATION_CHECKPOINT_BYTES ->
  (length payload <= fuel)%nat ->
  exists l, chunks_from is_uuid fuel tid cid i payload = Ok l /\ cut is_uuid tid cid i payload l
    /\ Z.of_nat (length l) = chunks_of (byteLength payload).
Proof.
  revert i payload. induction fuel as [|fuel IH]; intros i payload Hb Hi Hmax Hf.
  { destruct payload; [|simpl in Hf; lia]. exists []. split_and!; [done|constructor|done]. }
  destruct (decide (payload = [])) as [->|Hne]; [exists []; split_and!; [done|constructor|done]|].
  destruct (slice_size payload) as [Ht Hd]. unfold MAX_ACTIVATION_CHECKPOINT_BYTES in Hmax.
  assert (1 <= byteLength payload) by (unfold byteLength; destruct payload; simpl; [done|lia]).
  assert (Hv : chunk_valid is_uuid (Chunk tid cid i (b64_encode (take CHUNK payload))) = true).
  { apply slice_chunk_valid; [by apply Forall_take| |lia|lia]. intros E. rewrite E in Ht. unfold byteLength in Ht at 1. simpl in Ht. lia. }
  destruct (IH (i + 1) (drop CHUNK payload)) as (l & Hrun & Hcut & Hlen).
  { by apply Forall_drop. } { lia. } { unfold MAX_ACTIVATION_CHECKPOINT_BYTES. lia. }
  { unfold byteLength in *. lia. }
  exists (Chunk tid cid i (b64_encode (take CHUNK payload)) :: l). split_and!.
  - rewrite chunks_from_cons by done. cbv zeta. rewrite Hv. cbn [negb]. by rewrite Hrun.
  - constructor; try done. cbn [ch_data]. apply b64_round_trip. by apply Forall_take.
  - cbn [length]. rewrite Nat2Z.inj_succ, Hlen, Hd. destruct (Z.le_gt_cases (byteLength payload) 262144).
    + rewrite Z.min_r, Z.sub_diag, (chunks_of_small (byteLength payload)) by lia. done.
    + rewrite Z.min_l, (chunks_of_step (byteLength payload)) by lia. lia.
Qed.
End Cut.

(** The chunks of a payload of the size its checkpoint says. *)
Lemma activationCheckpointChunks_cut is_uuid tid c payload :
  is_uuid tid = true -> is_sha256 (checkpointId c) = true -> Forall is_byte payload ->
  byteLength payload = cp_bytes (unsigned c) -> byteLength payload <= MAX_ACTIVATION_CHECKPOINT_BYTES ->
  exists l, activationCheckpointChunks is_uuid tid c payload = Ok l
    /\ cut is_uuid tid (checkpointId c) 0 payload l
    /\ Z.of_nat (length l) = chunks_of (byteLength payload).
Proof.
  intros Htid Hcid Hb Hsize Hmax.
  destruct (chunks_from_cut is_uuid tid (checkpointId c) Htid Hcid (length payload) 0 payload) as (l & Hrun & Hcut);
    [done|done|lia|lia|].
  exists l. split; [|done]. unfold activationCheckpointChunks. rewrite Htid. cbn [negb].
  by rewrite (proj2 (Z.eqb_eq _ _) Hsize).
Qed.
