(* ===== verification/CheckpointWorker.v ===== *)
(** * The worker's side of checkpoints

    The part of [src/src/worker/agent.ts] that sends a stage's checkpoint to the
    coordinator ([publishActivationCheckpoint]) and that restores one the coordinator
    sends.  The capture of the state and its restoration are the runtime process's;
    the outcome of a call to it, which is awaited, is an argument.  [online n] is
    what [sendMessage] returns for the [n]-th message of an upload; the answers of a
    restoration are listed in [sent], those of a worker that is offline too. *)

From S2P Require Import Prelude JsString JsMap JsonText CanonicalJson Schema Base64 Checkpoint CheckpointTransfer.

#[local] Open Scope Z_scope.

(** ** Messages *)

Record ActivationCheckpointRequest := Request {
  rq_transferId : jsstring;
  rq_stageRequestId : Z;
  rq_expected : ActivationCheckpointCompatibility;
  rq_maximumBytes : Z;
  rq_expiresAt : Z;
}.

Record ActivationCheckpointRestoreBegin := RestoreBegin {
  rb_transferId : jsstring;
  rb_targetLaunchRequestId : jsstring;
  rb_targetStageRequestId : Z;
  rb_expected : ActivationCheckpointCompatibility;
  rb_checkpoint : ActivationCheckpoint;
  rb_chunkCount : Z;
  rb_maximumBytes : Z;
  rb_expiresAt : Z;
}.

Inductive WorkerMessage :=
| MBegin (m : ActivationCheckpointBegin)
| MChunk (m : ActivationCheckpointChunk)
| MCommit (m : ActivationCheckpointCommit)
| MFailed (transferId : jsstring) (code : string)
| MRestored (transferId cid : jsstring)
| MRestoreFailed (transferId cid : jsstring) (code : string).

(** ** Schemas *)

Definition compatibility_valid (e : ActivationCheckpointCompatibility) : bool :=
  is_checkpoint_identifier (ex_keyId e) && is_sha256 (ex_requestIdHash e) && is_sha256 (ex_nodeIdHash e)
  && safe_nonneg (ex_topologyGeneration e) && is_sha256 (ex_topologyDigest e)
  && is_sha256 (ex_engineDescriptorDigest e) && is_sha256 (ex_artifactManifestDigest e)
  && is_sha256 (ex_configurationDigest e)
  && (1 <=? utf16_length (ex_stageId e)) && (utf16_length (ex_stageId e) <=? 256)
  && safe_nonneg (ex_layerStart e) && safe_positive (ex_layerEnd e)
  && match ex_minimumCommittedPosition e with Some p => safe_nonneg p | None => true end
  && (ex_layerStart e <? ex_layerEnd e).

Definition position_ok (u : UnsignedActivationCheckpoint) (e : ActivationCheckpointCompatibility) : bool :=
  match ex_minimumCommittedPosition e with
  | Some p => p <=? cp_committedPosition u
  | None => true
  end.

(** The comparison that the worker and the schema of [restore.begin] write out. *)
Definition same_stage (u : UnsignedActivationCheckpoint) (e : ActivationCheckpointCompatibility) : bool :=
  forallb snd (compared u e).

(** [text.includes(part)]. *)
Definition includes (text part : string) : bool :=
  match String.index 0 part text with Some _ => true | None => false end.

Section Worker.
Context (is_uuid : jsstring -> bool) (sha256_hex : bytes -> jsstring).

Definition activationCheckpointRequestIdHash (requestId : Z) : res jsstring :=
  throw_if negb (is_safe requestId) || (requestId <? 0)
    with "activation_checkpoint_stage_request_id_is_invalid" ;;
  Ok (js "sha256:" ++ sha256_hex (utf8_encode (js "mycellios-stage-request/1" ++ [0] ++ decimal requestId))).

Definition request_hash_matches (e : ActivationCheckpointCompatibility) (requestId : Z) : bool :=
  match activationCheckpointRequestIdHash requestId with
  | Ok h => bool_decide (ex_requestIdHash e = h)
  | Err _ => false
  end.

Definition bytes_valid (n : Z) : bool := (1 <=? n) && (n <=? 512 * 1024 * 1024).

Definition request_valid (r : ActivationCheckpointRequest) : bool :=
  is_uuid (rq_transferId r) && safe_nonneg (rq_stageRequestId r) && compatibility_valid (rq_expected r)
  && bytes_valid (rq_maximumBytes r) && safe_positive (rq_expiresAt r)
  && request_hash_matches (rq_expected r) (rq_stageRequestId r).

Definition restore_begin_valid (b : ActivationCheckpointRestoreBegin) : bool :=
  let u := unsigned (rb_checkpoint b) in
  is_uuid (rb_transferId b)
  && (1 <=? utf16_length (rb_targetLaunchRequestId b)) && (utf16_length (rb_targetLaunchRequestId b) <=? 256)
  && safe_nonneg (rb_targetStageRequestId b) && compatibility_valid (rb_expected b)
  && checkpoint_valid (rb_checkpoint b)
  && (1 <=? rb_chunkCount b) && (rb_chunkCount b <=? MAX_ACTIVATION_CHECKPOINT_CHUNKS)
  && bytes_valid (rb_maximumBytes b) && safe_positive (rb_expiresAt b)
  && request_hash_matches (rb_expected b) (rb_targetStageRequestId b)
  && same_stage u (rb_expected b) && (cp_bytes u <=? rb_maximumBytes b)
  && (rb_chunkCount b =? chunks_of (cp_bytes u)) && position_ok u (rb_expected b).

(** ** Publishing *)

(** A send that may fail ends the sequence: the messages sent, and whether all were. *)
Fixpoint send_chunks (online : nat -> bool) (clock : nat -> Z) (drained : nat -> bool) (expiresAt : Z)
    (n : nat) (l : list ActivationCheckpointChunk) : list WorkerMessage * res unit :=
  match l with
  | [] => ([], Ok tt)
  | c :: l' =>
      if expiresAt <=? clock n then ([], Err "checkpoint_request_expired")
      else if negb (drained n) then ([], Err "checkpoint_request_expired")
      else if negb (online n) then ([], Err "checkpoint_delivery_failed")
      else let '(sent, r) := send_chunks online clock drained expiresAt (S n) l' in (MChunk c :: sent, r)
  end.

(** The messages of an upload.  [drained n] is whether the socket's buffer empties
    before the request expires, which the loop waits for before the [n]-th message. *)
Definition send_upload (online : nat -> bool) (clock : nat -> Z) (drained : nat -> bool)
    (r : ActivationCheckpointRequest) (c : ActivationCheckpoint) (chunks : list ActivationCheckpointChunk)
    : list WorkerMessage * res unit :=
  if negb (online 0%nat) then ([], Err "checkpoint_delivery_failed")
  else
    let '(sent, outcome) := send_chunks online clock drained (rq_expiresAt r) 1 chunks in
    let sent := MBegin (Begin (rq_transferId r) c (Z.of_nat (length chunks))) :: sent in
    match outcome with
    | Err code => (sent, Err code)
    | Ok _ =>
        if online (length sent)
        then (sent ++ [MCommit (Commit (rq_transferId r) (checkpointId c))], Ok tt)
        else (sent, Err "checkpoint_delivery_failed")
    end.

Definition failure_code (message : string) : string :=
  if includes message "expired" then "checkpoint_request_expired"
  else if includes message "delivery" then "checkpoint_delivery_failed"
  else "checkpoint_capture_failed".

(** [provider]: no provider, or the outcome of its call. *)
Definition publishActivationCheckpoint (online : nat -> bool) (clock : nat -> Z) (drained : nat -> bool)
    (r : ActivationCheckpointRequest) (provider : option (res (ActivationCheckpoint * bytes)))
    : list WorkerMessage :=
  let fail sent code := if online (length sent) then sent ++ [MFailed (rq_transferId r) code] else sent in
  if rq_expiresAt r <=? clock 0%nat then fail [] "checkpoint_request_expired"%string
  else match provider with
  | None => fail [] "checkpoint_provider_unavailable"%string
  | Some (Err message) => fail [] (failure_code message)
  | Some (Ok (c, payload)) =>
      let u := unsigned c in
      if negb (checkpoint_valid c) then fail [] (failure_code ZodError)
      else if (rq_maximumBytes r <? byteLength payload) || negb (byteLength payload =? cp_bytes u)
      then fail [] "checkpoint_too_large"%string
      else if negb (bool_decide (cp_payloadDigest u = payload_digest sha256_hex payload))
      then fail [] "checkpoint_capture_failed"%string
      else if negb (same_stage u (rq_expected r)) || negb (position_ok u (rq_expected r))
      then fail [] "checkpoint_incompatible"%string
      else match activationCheckpointChunks is_uuid (rq_transferId r) c payload with
      | Err message => fail [] (failure_code message)
      | Ok chunks =>
          match send_upload online clock drained r c chunks with
          | (sent, Ok _) => sent
          | (sent, Err message) => fail sent (failure_code message)
          end
      end
  end.
(** [signedActivationCheckpointProvider]: [keyId] is the digest of the signer's public
    key, [captured] what the runtime's capture returned, its payload and position. *)
Definition provide (keyId : jsstring) (signer : jsstring -> jsstring) (r : ActivationCheckpointRequest)
    (captured : res (bytes * Z)) (now : Z) : res (ActivationCheckpoint * bytes) :=
  let e := rq_expected r in
  match captured with
  | Err code => Err code
  | Ok (payload, position) =>
      throw_if negb (bool_decide (keyId = ex_keyId e))
        with "activation_checkpoint_signing_key_is_incompatible" ;;
      let? c := signActivationCheckpointWith sha256_hex
                  (Unsigned (ex_requestIdHash e) (ex_stageId e) (ex_nodeIdHash e) (ex_topologyGeneration e)
                     (ex_topologyDigest e) (ex_engineDescriptorDigest e) (ex_artifactManifestDigest e)
                     (ex_configurationDigest e) (ex_layerStart e) (ex_layerEnd e) position
                     (payload_digest sha256_hex payload) (byteLength payload) now
                     (Z.min (rq_expiresAt r) (now + 60000)) keyId) signer in
      Ok (c, payload)
  end.

(** ** Restoring *)

Record PendingActivationCheckpointRestore := Pending {
  pd_begin : ActivationCheckpointRestoreBegin;
  pd_chunks : list bytes;
  pd_receivedBytes : Z;
}.

(** [runtimeProcesses] has the handles by launch request: whether each can restore. *)
Record worker := Worker {
  pendingActivationCheckpointRestores : list (jsstring * PendingActivationCheckpointRestore);
  runtimeProcesses : list (jsstring * bool);
  runtimeProcessStages : list (jsstring * jsstring);
  sent : list WorkerMessage;
}.

(** The call of [handle.restoreActivationCheckpoint], which is awaited. *)
Record restore_call := RestoreCall {
  rc_begin : ActivationCheckpointRestoreBegin;
  rc_payload : bytes;
}.

Definition set_pending (m : list (jsstring * PendingActivationCheckpointRestore)) (w : worker) : worker :=
  Worker m (runtimeProcesses w) (runtimeProcessStages w) (sent w).
Definition sendMessage (m : WorkerMessage) (w : worker) : worker :=
  Worker (pendingActivationCheckpointRestores w) (runtimeProcesses w) (runtimeProcessStages w) (sent w ++ [m]).

Definition abortActivationCheckpointRestore (id : jsstring) (w : worker) : worker :=
  set_pending (map_delete (pendingActivationCheckpointRestores w) id) w.

Definition failActivationCheckpointRestore (b : ActivationCheckpointRestoreBegin) (code : string) (w : worker)
    : worker :=
  sendMessage (MRestoreFailed (rb_transferId b) (checkpointId (rb_checkpoint b)) code)
    (abortActivationCheckpointRestore (rb_transferId b) w).

Definition clearActivationCheckpointRestores (w : worker) : worker := set_pending [] w.

Definition beginActivationCheckpointRestore (b : ActivationCheckpointRestoreBegin) (now : Z)
    : SE worker unit := fun w =>
  if rb_expiresAt b <=? now then
    (Ok tt, sendMessage (MRestoreFailed (rb_transferId b) (checkpointId (rb_checkpoint b))
                           "checkpoint_restore_expired") w)
  else if map_has (pendingActivationCheckpointRestores w) (rb_transferId b) then
    (Err "activation_checkpoint_restore_transfer_is_duplicate", w)
  else (Ok tt, set_pending (map_set (pendingActivationCheckpointRestores w) (rb_transferId b)
                              (Pending b [] 0)) w).

Definition appendActivationCheckpointRestoreChunk (m : ActivationCheckpointChunk) (now : Z)
    : SE worker unit := fun w =>
  match map_get (pendingActivationCheckpointRestores w) (ch_transferId m) with
  | None => (Err "activation_checkpoint_restore_transfer_is_unknown", w)
  | Some p =>
      let b := pd_begin p in
      let fail code := (Ok tt, failActivationCheckpointRestore b code w) in
      if rb_expiresAt b <=? now then fail "checkpoint_restore_expired"%string
      else if negb (bool_decide (ch_checkpointId m = checkpointId (rb_checkpoint b)))
              || negb (ch_index m =? Z.of_nat (length (pd_chunks p))) || (rb_chunkCount b <=? ch_index m)
      then fail "checkpoint_restore_incompatible"%string
      else
        let data := b64_decode (ch_data m) in
        let expected := if ch_index m =? rb_chunkCount b - 1
                        then cp_bytes (unsigned (rb_checkpoint b))
                             - ACTIVATION_CHECKPOINT_CHUNK_BYTES * ch_index m
                        else ACTIVATION_CHECKPOINT_CHUNK_BYTES in
        if negb (byteLength data =? expected) || (rb_maximumBytes b <? pd_receivedBytes p + byteLength data)
        then fail "checkpoint_restore_incompatible"%string
        else (Ok tt, set_pending (map_set (pendingActivationCheckpointRestores w) (ch_transferId m)
                                    (Pending b (pd_chunks p ++ [data])
                                       (pd_receivedBytes p + byteLength data))) w)
  end.

(** Up to its [await]; [None] when it returned before. *)
Definition commitActivationCheckpointRestore (m : ActivationCheckpointCommit) (now : Z)
    : SE worker (option restore_call) := fun w =>
  match map_get (pendingActivationCheckpointRestores w) (cm_transferId m) with
  | None => (Err "activation_checkpoint_restore_transfer_is_unknown", w)
  | Some p =>
      let b := pd_begin p in
      let fail code := (Ok None, failActivationCheckpointRestore b code w) in
      if rb_expiresAt b <=? now then fail "checkpoint_restore_expired"%string
      else if negb (bool_decide (cm_checkpointId m = checkpointId (rb_checkpoint b)))
              || negb (Z.of_nat (length (pd_chunks p)) =? rb_chunkCount b)
              || negb (pd_receivedBytes p =? cp_bytes (unsigned (rb_checkpoint b)))
      then fail "checkpoint_restore_incomplete"%string
      else
        let payload := concat (pd_chunks p) in
        if negb (bool_decide (cp_payloadDigest (unsigned (rb_checkpoint b))
                              = payload_digest sha256_hex payload))
        then fail "checkpoint_restore_failed"%string
        else
          let handle := map_get (runtimeProcesses w) (rb_targetLaunchRequestId b) in
          let stage := map_get (runtimeProcessStages w) (rb_targetLaunchRequestId b) in
          if bool_decide (handle = None) || negb (bool_decide (stage = Some (ex_stageId (rb_expected b))))
             || bool_decide (handle = Some false)
          then fail "checkpoint_restore_process_unavailable"%string
          else (Ok (Some (RestoreCall b payload)), w)
  end.

(** After it: the process restored the state, or its promise was rejected. *)
Definition restoreAwaited (c : restore_call) (restored : bool) (w : worker) : worker :=
  let b := rc_begin c in
  if restored then
    sendMessage (MRestored (rb_transferId b) (checkpointId (rb_checkpoint b)))
      (abortActivationCheckpointRestore (rb_transferId b) w)
  else failActivationCheckpointRestore b "checkpoint_restore_failed" w.
End Worker.
