(* ===== verification/CheckpointUpload.v ===== *)
(** * Uploading a checkpoint

    The messages of [publishActivationCheckpoint], handed to the authority in the order
    they were sent, as [src/src/coordinator/worker-hub.ts] does with the
    [runtime.checkpoint.*] messages of a worker. *)

From S2P Require Import Prelude JsString JsMap JsSort JsonText CanonicalJson Schema Base64 Checkpoint CheckpointStore CheckpointStoreProps CheckpointTransfer CheckpointTransferProps CheckpointChunks CheckpointWorker.

#[local] Open Scope Z_scope.

(** The call a message of the worker [w] leads to, in its session [s]. *)
Definition message_call (w s : jsstring) (m : WorkerMessage) : call :=
  match m with
  | MBegin m => CBegin w s m
  | MChunk m => CChunk w s m
  | MCommit m => CCommit w s m
  | MFailed tid _ => CAbort tid
  | MRestored tid cid => CCompleteRestore w s tid cid
  | MRestoreFailed tid cid _ => CFailRestore w s tid cid
  end.

Section Upload.
Context (is_uuid : jsstring -> bool) (sha256_hex : bytes -> jsstring)
  (localeCompare : jsstring -> jsstring -> Z) (pinnedKeys : jsstring -> option (bytes -> bytes -> bool)).

Abbreviation perform := (perform is_uuid sha256_hex localeCompare pinnedKeys).

(** Messages delivered in order, the [n]-th at [clock n]; the first that throws ends
    the delivery. *)
Fixpoint deliver (w s : jsstring) (clock : nat -> Z) (n : nat) (l : list WorkerMessage) : SE authority unit :=
  match l with
  | [] => se_ret tt
  | m :: l' => do! perform (clock n) (message_call w s m) ;; deliver w s clock (S n) l'
  end.

Lemma deliver_app w s clock n l l' a a' :
  deliver w s clock n l a = (Ok tt, a') ->
  deliver w s clock n (l ++ l') a = deliver w s clock (n + length l) l' a'.
Proof.
  revert n a. induction l as [|m l IH]; intros n a; simpl.
  - intros [= ->]. by rewrite Nat.add_0_r.
  - unfold se_bind. destruct (CheckpointTransferProps.perform _ _ _ _ _ _ _) as [[[]|] a1]; [|done].
    intros H. rewrite (IH _ _ H). f_equal. lia.
Qed.

(** The transfer [t] with the bytes [got] received, in slices. *)
Record holds (a : authority) (tid : jsstring) (t : ExpectedTransfer) (c : ActivationCheckpoint) (i : Z)
    (got : bytes) (st : store) : Prop := {
  ho_get : map_get (transfers a) tid = Some t;
  ho_checkpoint : tr_checkpoint t = Some c;
  ho_count : tr_chunkCount t = chunks_of (cp_bytes (unsigned c));
  ho_index : Z.of_nat (length (tr_chunks t)) = i;
  ho_bytes : concat (tr_chunks t) = got;
  ho_received : tr_receivedBytes t = byteLength got;
  ho_store : checkpoint_store a = st;
  ho_wf : map_wf (transfers a);
}.

Lemma requireTransfer_hit a tid t w s now :
  map_get (transfers a) tid = Some t -> tr_workerId t = w -> tr_workerSessionId t = s -> now < tr_expiresAt t ->
  requireTransfer tid w s now a = (Ok t, a).
Proof.
  intros Hg Hw Hs He. unfold requireTransfer, se_bind, se_get. rewrite Hg, (proj2 (Z.leb_gt _ _)) by done.
  unfold owned_by. by rewrite !bool_decide_true by done.
Qed.

(** A chunk that is next in order is appended. *)
Lemma chunk_next w s a tid t c i got st m now data :
  holds a tid t c i got st -> tr_workerId t = w -> tr_workerSessionId t = s -> now < tr_expiresAt t ->
  cp_bytes (unsigned c) <= tr_maximumBytes t ->
  chunk_valid is_uuid m = true -> ch_transferId m = tid -> ch_checkpointId m = checkpointId c -> ch_index m = i ->
  b64_decode (ch_data m) = data -> 0 <= i < chunks_of (cp_bytes (unsigned c)) ->
  byteLength data = (if i =? chunks_of (cp_bytes (unsigned c)) - 1
                     then cp_bytes (unsigned c) - 262144 * i else 262144) ->
  byteLength got + byteLength data <= cp_bytes (unsigned c) ->
  exists a' t', chunk is_uuid w s m now a = (Ok tt, a') /\ holds a' tid t' c (i + 1) (got ++ data) st
    /\ tr_workerId t' = w /\ tr_workerSessionId t' = s /\ tr_expiresAt t' = tr_expiresAt t
    /\ tr_maximumBytes t' = tr_maximumBytes t /\ tr_expected t' = tr_expected t
    /\ restores a' = restores a.
Proof.
  intros [Hg Hc Hcount Hi Hb Hr Hst Hwf] Hw Hs He Hmax Hv Htid Hcid Hidx Hdata Hlt Hlen Hle.
  unfold chunk. rewrite Hv, Htid, Hcid, Hidx, Hdata. cbn [negb]. unfold se_bind at 1.
  rewrite (requireTransfer_hit a tid t w s now) by done. rewrite Hc.
  rewrite bool_decide_true by done. cbn [negb].
  rewrite Hi, Z.eqb_refl, Hcount, (proj2 (Z.leb_gt _ _)) by lia. cbn [negb orb].
  unfold expectedLength. rewrite Hcount. unfold ACTIVATION_CHECKPOINT_CHUNK_BYTES.
  change (256 * 1024) with 262144. rewrite (proj2 (Z.eqb_eq _ _) Hlen). cbn [negb].
  unfold se_bind, se_modify. cbn [counted tr_maximumBytes tr_receivedBytes].
  rewrite (proj2 (Z.ltb_ge _ _)) by lia. rewrite set_transfer_twice.
  set (t' := pushed (counted t (byteLength data)) data).
  exists (set_transfer tid t' a), t'. split; [reflexivity|]. split; [|by rewrite <- Hw, <- Hs].
  split; [exact (map_get_set_eq (transfers a) tid t')|
    cbn [t' pushed counted tr_checkpoint tr_chunkCount tr_chunks tr_receivedBytes]..];
    [done|done| | | |done|exact (map_wf_set _ _ _ Hwf)].
  - rewrite length_app. simpl. lia.
  - rewrite concat_app. simpl. by rewrite app_nil_r, Hb.
  - by rewrite Hr, byteLength_app.
Qed.
(** The size of the next slice is the one the receiver computes. *)
Lemma slice_expected size i left :
  262144 * i + left = size -> 1 <= left -> 0 <= i ->
  0 <= i < chunks_of size
  /\ Z.min 262144 left = (if i =? chunks_of size - 1 then size - 262144 * i else 262144).
Proof.
  intros Hs Hl Hi. assert (1 <= size) by lia. pose proof (chunks_of_bounds size) as Hb.
  unfold ACTIVATION_CHECKPOINT_CHUNK_BYTES in Hb. destruct (Z.eqb_spec i (chunks_of size - 1)); nia.
Qed.

Lemma chunks_delivered w s clock tid c i payload l :
  cut is_uuid tid (checkpointId c) i payload l -> 0 <= i ->
  262144 * i + byteLength payload = cp_bytes (unsigned c) \/ payload = [] ->
  forall n a t got st,
  holds a tid t c i got st -> tr_workerId t = w -> tr_workerSessionId t = s ->
  (forall k, clock k < tr_expiresAt t) -> cp_bytes (unsigned c) <= tr_maximumBytes t ->
  byteLength got + byteLength payload <= cp_bytes (unsigned c) ->
  exists a' t', deliver w s clock n (MChunk <$> l) a = (Ok tt, a')
    /\ holds a' tid t' c (i + Z.of_nat (length l)) (got ++ payload) st
    /\ tr_workerId t' = w /\ tr_workerSessionId t' = s /\ tr_expiresAt t' = tr_expiresAt t
    /\ tr_expected t' = tr_expected t /\ restores a' = restores a.
Proof.
  induction 1 as [i|i payload m l Hne Htid Hcid Hidx Hv Hdata Hcut IH]; intros Hi Hsize n a t got st Hh Hw Hs He Hmax Hle.
  { exists a, t. rewrite app_nil_r. simpl. by rewrite Z.add_0_r. }
  destruct Hsize as [Hsize|?]; [|done]. destruct (slice_size payload) as [Ht Hd].
  assert (1 <= byteLength payload) by (unfold byteLength; destruct payload; simpl; [done|lia]).
  destruct (slice_expected _ _ _ Hsize) as [Hlt Hmin]; [done|done|].
  destruct (chunk_next w s a tid t c i got st m (clock n) (take CHUNK payload)) as (a1 & t1 & Hrun & Hh1 & Hw1 & Hs1 & He1 & Hm1 & Hx1 & Hr1);
    [done..|apply He|done|done|done|done|done|done|done|by rewrite Ht|lia|].
  destruct (IH) with (n := S n) (a := a1) (t := t1) (got := got ++ take CHUNK payload) (st := st)
    as (a2 & t2 & Hrun2 & Hh2 & Hw2 & Hs2 & He2 & Hx2 & Hr2).
  - lia.
  - destruct (Z.le_gt_cases (byteLength payload) 262144); [right|left; lia].
    apply nil_length_inv. unfold byteLength in *. lia.
  - done.
  - done.
  - done.
  - intros k. rewrite He1. apply He.
  - lia.
  - rewrite byteLength_app. lia.
  - exists a2, t2. split_and!; try congruence.
    + cbn [fmap list_fmap deliver]. unfold se_bind. cbn [message_call CheckpointTransferProps.perform]. by rewrite Hrun.
    + rewrite <- app_assoc, take_drop in Hh2. cbn [length]. rewrite Nat2Z.inj_succ.
      by replace (i + Z.succ (Z.of_nat (length l))) with (i + 1 + Z.of_nat (length l)) by lia.
Qed.
(** ** The worker's messages *)

Lemma send_chunks_all online clock drained expiresAt n l :
  (forall k, online k = true) -> (forall k, drained k = true) -> (forall k, clock k < expiresAt) ->
  send_chunks online clock drained expiresAt n l = (MChunk <$> l, Ok tt).
Proof.
  intros Ho Hd Hc. revert n. induction l as [|m l IH]; intros n; simpl; [done|].
  rewrite (proj2 (Z.leb_gt _ _)), Ho, Hd by apply Hc. simpl. by rewrite IH.
Qed.

Lemma publish_messages online clock drained r c payload l :
  (forall k, online k = true) -> (forall k, drained k = true) -> (forall k, clock k < rq_expiresAt r) ->
  checkpoint_valid c = true -> byteLength payload = cp_bytes (unsigned c) ->
  cp_bytes (unsigned c) <= rq_maximumBytes r ->
  payload_digest sha256_hex payload = cp_payloadDigest (unsigned c) ->
  same_stage (unsigned c) (rq_expected r) = true -> position_ok (unsigned c) (rq_expected r) = true ->
  activationCheckpointChunks is_uuid (rq_transferId r) c payload = Ok l ->
  publishActivationCheckpoint is_uuid sha256_hex online clock drained r (Some (Ok (c, payload)))
  = MBegin (Begin (rq_transferId r) c (Z.of_nat (length l))) :: (MChunk <$> l)
    ++ [MCommit (Commit (rq_transferId r) (checkpointId c))].
Proof.
  intros Ho Hd Hc Hv Hb Hm Hp Hs Hpos Hl. unfold publishActivationCheckpoint.
  rewrite (proj2 (Z.leb_gt _ _)) by apply Hc. rewrite Hv. cbn [negb].
  rewrite (proj2 (Z.ltb_ge _ _)), (proj2 (Z.eqb_eq _ _) Hb) by lia. cbn [negb orb].
  rewrite bool_decide_true by done. rewrite Hs, Hpos, Hl. cbn [negb orb].
  unfold send_upload. by rewrite Ho, send_chunks_all, Ho.
Qed.

(** ** The upload *)

(** A transfer that the coordinator expects. *)
Lemma expect_inv uuid w s expected maximum expiresAt now a a' :
  expect uuid w s expected (NInt maximum) (NInt expiresAt) now a = (Ok uuid, a') ->
  a' = set_transfer uuid (Transfer w s expected maximum expiresAt None 0 [] 0) a.
Proof. unfold expect. destruct (_ || _); [done|]. by intros [= <-]. Qed.

Lemma begin_fresh w s now a tid t c count :
  map_get (transfers a) tid = Some t -> tr_workerId t = w -> tr_workerSessionId t = s -> now < tr_expiresAt t ->
  tr_checkpoint t = None -> tr_chunks t = [] -> tr_receivedBytes t = 0 -> map_wf (transfers a) ->
  is_uuid tid = true -> checkpoint_valid c = true -> cp_bytes (unsigned c) <= tr_maximumBytes t ->
  count = chunks_of (cp_bytes (unsigned c)) ->
  begin is_uuid w s (Begin tid c count) now a = (Ok tt, set_transfer tid (begun t c count) a)
  /\ holds (set_transfer tid (begun t c count) a) tid (begun t c count) c 0 [] (checkpoint_store a).
Proof.
  intros Hg Hw Hs He Hc Hch Hr Hwf Hu Hv Hm ->. pose proof (checkpoint_bytes_bound _ Hv) as Hb.
  assert (1 <= chunks_of (cp_bytes (unsigned c)) <= MAX_ACTIVATION_CHECKPOINT_CHUNKS).
  { unfold chunks_of, ACTIVATION_CHECKPOINT_CHUNK_BYTES, MAX_ACTIVATION_CHECKPOINT_CHUNKS.
    unfold MAX_ACTIVATION_CHECKPOINT_BYTES in Hb. zdiv_lia. }
  split.
  - unfold begin, begin_valid. cbn [bg_transferId bg_checkpoint bg_chunkCount]. rewrite Hu, Hv.
    rewrite !(proj2 (Z.leb_le _ _)) by lia. cbn [andb negb]. unfold se_bind.
    rewrite (requireTransfer_hit a tid t w s now) by done. rewrite Hc.
    by rewrite (proj2 (Z.ltb_ge _ _)), Z.eqb_refl by lia.
  - split; [exact (map_get_set_eq (transfers a) tid _)|done|done|cbn [begun tr_chunks tr_receivedBytes]; by rewrite ?Hch..|done|exact (map_wf_set _ _ _ Hwf)].
Qed.

(** The commit of a transfer that is complete. *)
Lemma commit_complete w s now a tid t c payload st :
  holds a tid t c (chunks_of (cp_bytes (unsigned c))) payload st ->
  tr_workerId t = w -> tr_workerSessionId t = s -> now < tr_expiresAt t ->
  is_uuid tid = true -> checkpoint_valid c = true -> byteLength payload = cp_bytes (unsigned c) ->
  commit is_uuid sha256_hex localeCompare pinnedKeys w s (Commit tid (checkpointId c)) now a
  = ((put sha256_hex localeCompare pinnedKeys c payload (tr_expected t) now st).1,
     Authority (map_delete (transfers a) tid) (restores a)
       (put sha256_hex localeCompare pinnedKeys c payload (tr_expected t) now st).2).
Proof.
  intros [Hg Hc Hcount Hi Hb Hr Hst _] Hw Hs He Hu Hv Hsize. unfold commit, commit_valid.
  cbn [cm_transferId cm_checkpointId].
  assert (Hid : is_sha256 (checkpointId c) = true) by (unfold checkpoint_valid in Hv; by bool_prop).
  rewrite Hu, Hid. cbn [andb negb]. unfold se_bind. rewrite (requireTransfer_hit a tid t w s now) by done.
  rewrite Hc, bool_decide_true, Hi, Hcount, Hr, Hsize, !Z.eqb_refl, Hb by done. cbn [negb orb].
  unfold on_store. rewrite Hst. destruct (put _ _ _ _ _ _ _ _) as [r st'].
  unfold abort. cbn [transfers]. by rewrite Hg.
Qed.
(** The whole upload, up to what [put] returns. *)
Lemma upload_delivered w s clock a0 tid t c payload l :
  cut is_uuid tid (checkpointId c) 0 payload l -> Z.of_nat (length l) = chunks_of (cp_bytes (unsigned c)) ->
  is_uuid tid = true -> checkpoint_valid c = true -> byteLength payload = cp_bytes (unsigned c) ->
  cp_bytes (unsigned c) <= tr_maximumBytes t -> map_wf (transfers a0) ->
  tr_workerId t = w -> tr_workerSessionId t = s -> tr_checkpoint t = None -> tr_chunks t = [] ->
  tr_receivedBytes t = 0 -> (forall n, clock n < tr_expiresAt t) ->
  let result := put sha256_hex localeCompare pinnedKeys c payload (tr_expected t) (clock (1 + length l)%nat)
                  (checkpoint_store a0) in
  exists a', deliver w s clock 0
      (MBegin (Begin tid c (Z.of_nat (length l))) :: (MChunk <$> l) ++ [MCommit (Commit tid (checkpointId c))])
      (set_transfer tid t a0)
    = (match result.1 with Ok _ => Ok tt | Err code => Err code end, a')
    /\ map_get (transfers a') tid = None /\ checkpoint_store a' = result.2.
Proof.
  intros Hcut Hcount Hu Hv Hsize Hmax Hwf Hw Hs Hc Hch Hr He result.
  destruct (begin_fresh w s (clock 0%nat) (set_transfer tid t a0) tid t c (Z.of_nat (length l))) as [Hb Hh];
    try done; [exact (map_get_set_eq _ _ _)|exact (map_wf_set _ _ _ Hwf)|].
  set (t1 := begun t c (Z.of_nat (length l))) in *. set (a1 := set_transfer tid t1 _) in *.
  destruct (chunks_delivered w s clock tid c 0 payload l Hcut) with (n := 1%nat) (a := a1) (t := t1)
    (got := [] : bytes) (st := checkpoint_store a0) as (a2 & t2 & Hd & Hh2 & Hw2 & Hs2 & He2 & Hx2 & _);
    try done; [left; lia|by rewrite byteLength_nil; lia|].
  rewrite Z.add_0_l, Hcount in Hh2. cbn [app] in Hh2.
  pose proof (commit_complete w s (clock (1 + length l)%nat) a2 tid t2 c payload (checkpoint_store a0) Hh2 Hw2 Hs2) as Hcm.
  rewrite Hx2, He2 in Hcm. specialize (Hcm (He _) Hu Hv Hsize). change (tr_expected t1) with (tr_expected t) in Hcm.
  fold result in Hcm.
  exists (Authority (map_delete (transfers a2) tid) (restores a2) result.2). split_and!; [|cbn [transfers]|done].
  - change (MBegin ?m :: ?k) with ([MBegin m] ++ k).
    rewrite (deliver_app w s clock 0 [_] _ (set_transfer tid t a0) a1).
    2: { cbn [deliver]. unfold se_bind. cbn [message_call CheckpointTransferProps.perform]. by rewrite Hb. }
    cbn [length Nat.add]. rewrite (deliver_app w s clock 1 (MChunk <$> l) _ a1 a2 Hd). rewrite length_fmap.
    cbn [deliver]. unfold se_bind. cbn [message_call CheckpointTransferProps.perform]. rewrite Hcm.
    unfold discard. cbn [fst snd]. by destruct (result.1).
  - apply map_get_delete_eq, Hh2.
Qed.

Lemma prepareRestore_stored uuid w s id expected expiry now a c payload at_ :
  w <> [] -> s <> [] -> now < expiry ->
  map_get (entries (checkpoint_store a)) id = Some (Stored c payload at_) ->
  verified sha256_hex pinnedKeys c payload expected now ->
  (prepareRestore sha256_hex pinnedKeys uuid w s id expected expiry now a).1 = Ok (uuid, c, payload).
Proof.
  intros Hw Hs He Hg Hv. unfold prepareRestore, is_empty. rewrite !bool_decide_false by done.
  rewrite (proj2 (Z.leb_gt _ _)) by done. cbn [orb]. unfold se_bind, on_store.
  by rewrite (get_stored sha256_hex pinnedKeys id (Stored c payload at_) expected now _ Hg Hv).
Qed.
End Upload.

(** ** From a capture to the store *)

(** What the coordinator, the worker and its capture agree on for an upload. *)
Record upload_agrees (sha256_hex : bytes -> jsstring) (pinnedKeys : jsstring -> option (bytes -> bytes -> bool))
    (r : ActivationCheckpointRequest) (sign : bytes -> bytes) (u : UnsignedActivationCheckpoint)
    (payload : bytes) : Prop := {
  ua_signer : signer_well_typed sign;
  ua_key : exists verify, pinnedKeys (cp_keyId u) = Some verify /\ forall m, verify m (sign m) = true;
  ua_bytes : Forall is_byte payload;
  ua_size : byteLength payload = cp_bytes u;
  ua_maximum : cp_bytes u <= rq_maximumBytes r;
  ua_digest : payload_digest sha256_hex payload = cp_payloadDigest u;
  ua_stage : same_stage u (rq_expected r) = true;
  ua_position : position_ok u (rq_expected r) = true;
}.

Section Agreement.
Context (sha256_hex : bytes -> jsstring) (pinnedKeys : jsstring -> option (bytes -> bytes -> bool)).

Lemma upload_verified r sign u payload c now :
  upload_agrees sha256_hex pinnedKeys r sign u payload -> signActivationCheckpoint sha256_hex u sign = Ok c ->
  now < cp_expiresAt u -> verified sha256_hex pinnedKeys c payload (rq_expected r) now.
Proof.
  intros [Hs (verify & Hk & Hv) Hb Hl Hm Hd Hst Hp] Hc Hn. eapply sign_verified; try done.
  unfold position_ok in Hp. destruct (ex_minimumCommittedPosition (rq_expected r)); [by bool_prop|done].
Qed.
(** The worker's own provider answers a request with a checkpoint that agrees with it. *)
Lemma provided_agrees keyId sign verify r payload position now c payload' :
  provide sha256_hex keyId (fun t => b64url_encode (sign (utf8_encode t))) r (Ok (payload, position)) now
    = Ok (c, payload') ->
  signer_well_typed sign -> pinnedKeys keyId = Some verify -> (forall m, verify m (sign m) = true) ->
  Forall is_byte payload -> byteLength payload <= rq_maximumBytes r ->
  match ex_minimumCommittedPosition (rq_expected r) with Some p => p <= position | None => True end ->
  payload' = payload /\ signActivationCheckpoint sha256_hex (unsigned c) sign = Ok c
  /\ upload_agrees sha256_hex pinnedKeys r sign (unsigned c) payload
  /\ cp_expiresAt (unsigned c) = Z.min (rq_expiresAt r) (now + 60000).
Proof.
  intros Hp Hs Hk Hv Hb Hm Hpos. unfold provide in Hp. destruct (negb _) eqn:He; [done|]. bool_prop. subst keyId.
  rewrite <- signActivationCheckpoint_with in Hp. set (u := Unsigned _ _ _ _ _ _ _ _ _ _ _ _ _ _ _ _) in Hp.
  destruct (signActivationCheckpoint sha256_hex u sign) as [c'|] eqn:Hc; [|done]. injection Hp as -> <-.
  destruct (sign_inv _ _ _ _ Hc) as (Hu & _). rewrite Hu. split_and!; [done|done| |done].
  split; try done.
  - exists verify. by split.
  - unfold same_stage, compared. cbn [u forallb snd]. by rewrite !bool_decide_true, !Z.eqb_refl.
  - unfold position_ok. cbn [u cp_committedPosition]. destruct (ex_minimumCommittedPosition (rq_expected r)); [lia|done].
Qed.
End Agreement.

(** C19 (roundtrip). A checkpoint that a worker signs for the coordinator's request and
    publishes, delivered message by message while neither the request nor the checkpoint
    expires, is committed: every message is accepted, the transfer is over, and the
    coordinator can hand the same checkpoint with the same payload, byte for byte, to any
    worker that is to restore it until it expires. *)
Theorem checkpoint_upload (is_uuid : jsstring -> bool) (sha256_hex : bytes -> jsstring)
    (localeCompare : jsstring -> jsstring -> Z) (pinnedKeys : jsstring -> option (bytes -> bytes -> bool))
    (online drained : nat -> bool) (workerClock clock : nat -> Z) (sign : bytes -> bytes)
    (a0 a : authority) (w session : jsstring) (r : ActivationCheckpointRequest) (t0 : Z)
    (u : UnsignedActivationCheckpoint) (c : ActivationCheckpoint) (payload : bytes)
    (Hstore : store_ok sha256_hex pinnedKeys (checkpoint_store a0))
    (Huuid : is_uuid (rq_transferId r) = true)
    (Hexpect : expect (rq_transferId r) w session (rq_expected r) (NInt (rq_maximumBytes r))
                 (NInt (rq_expiresAt r)) t0 a0 = (Ok (rq_transferId r), a))
    (Hsign : signActivationCheckpoint sha256_hex u sign = Ok c)
    (Hagree : upload_agrees sha256_hex pinnedKeys r sign u payload)
    (Hfits : byteLength payload <= maxEntryBytes (limits (checkpoint_store a0)))
    (Hnew : map_get (entries (checkpoint_store a0)) (checkpointId c) = None)
    (Hwf : map_wf (transfers a0))
    (Honline : forall n, online n = true) (Hdrained : forall n, drained n = true)
    (Hworker : forall n, workerClock n < rq_expiresAt r)
    (Hclock : forall n, clock n < rq_expiresAt r /\ clock n < cp_expiresAt u) :
  exists a', deliver is_uuid sha256_hex localeCompare pinnedKeys w session clock 0
               (publishActivationCheckpoint is_uuid sha256_hex online workerClock drained r
                  (Some (Ok (c, payload)))) a = (Ok tt, a')
    /\ map_get (transfers a') (rq_transferId r) = None
    /\ forall uuid w' session' expiry now,
       w' <> [] -> session' <> [] -> now < expiry -> now < cp_expiresAt u ->
       (prepareRestore sha256_hex pinnedKeys uuid w' session' (checkpointId c) (rq_expected r) expiry now a').1
       = Ok (uuid, c, payload).
Proof.
  destruct (sign_inv _ _ _ _ Hsign) as (Hu & Hv & _ & _).
  pose proof (fun now => upload_verified _ _ _ _ _ _ _ now Hagree Hsign) as Hver.
  destruct Hagree as [_ _ Hbytes Hsize Hmax Hdig Hstage Hpos]. rewrite <- Hu in *.
  pose proof (checkpoint_bytes_bound _ Hv) as Hbound. unfold MAX_ACTIVATION_CHECKPOINT_BYTES in Hbound.
  assert (Hid : is_sha256 (checkpointId c) = true) by (unfold checkpoint_valid in Hv; by bool_prop).
  destruct (activationCheckpointChunks_cut is_uuid (rq_transferId r) c payload) as (l & Hl & Hcut & Hcount);
    [done|done|done|done|unfold MAX_ACTIVATION_CHECKPOINT_BYTES; lia|].
  rewrite (publish_messages is_uuid sha256_hex online workerClock drained r c payload l) by done.
  apply expect_inv in Hexpect as ->. set (tid := rq_transferId r) in *.
  set (t := Transfer w session (rq_expected r) (rq_maximumBytes r) (rq_expiresAt r) None 0 [] 0).
  destruct (upload_delivered is_uuid sha256_hex localeCompare pinnedKeys w session clock a0 tid t c payload l)
    as (a1 & Ha1 & Hg1 & Hst1); try done; [by rewrite Hcount, Hsize|apply Hclock|].
  destruct (put_new sha256_hex localeCompare pinnedKeys c payload (rq_expected r)
    (clock (1 + length l)%nat) (checkpoint_store a0) Hstore) as (s1 & s2 & Hput & Hroom & -> & Hok2);
    [apply Hver, Hclock|done|done|].
  cbv zeta in Ha1, Hst1. change (tr_expected t) with (rq_expected r) in Ha1, Hst1.
  rewrite Hput in Ha1, Hst1. exists a1. split_and!; [exact Ha1|exact Hg1|].
  intros uuid w' session' expiry now Hw' Hs' He Hn. cbn [snd] in Hst1.
  eapply prepareRestore_stored; [done|done|done| |by apply Hver]. rewrite Hst1. exact (map_get_set_eq _ _ _).
Qed.
