(* ===== verification/CheckpointHub.v ===== *)
(** * The hub's side of checkpoints

    The part of [src/src/coordinator/worker-hub.ts] that asks a worker for a checkpoint,
    sends one to a worker to restore it, and handles the [runtime.checkpoint.*] messages
    of workers.  [restoreActivationCheckpoint] is cut where it waits: [restoreStart] up to
    its [try], [restore_sends] the messages of the loop, [restoreCaught] its [catch].  The
    promise of a restoration is settled where its entry leaves
    [pendingActivationCheckpointRestoreCompletions]; [settled] lists how. *)

From S2P Require Import Prelude JsString JsMap JsSort JsonText CanonicalJson Schema Base64 Checkpoint CheckpointStore CheckpointTransfer CheckpointWorker.

#[local] Open Scope Z_scope.

(** ** State *)

Record PendingActivationCheckpointRestoreCompletion := Completion {
  co_workerId : jsstring;
  co_workerSessionId : jsstring;
  co_checkpointId : jsstring;
}.

(** [connections] has the sessions of the workers that are ready. *)
Record checkpoint_hub := CheckpointHub {
  connections : list (jsstring * jsstring);
  activationCheckpointTransfers : authority;
  completions : list (jsstring * PendingActivationCheckpointRestoreCompletion);
  settled : list (jsstring * res (jsstring * jsstring));
}.

Inductive CoordinatorMessage :=
| RRequest (m : ActivationCheckpointRequest)
| RBegin (m : ActivationCheckpointRestoreBegin)
| RChunk (m : ActivationCheckpointChunk)
| RCommit (m : ActivationCheckpointCommit)
| RCommitted (m : ActivationCheckpointCommit).

Definition set_authority (a : authority) (h : checkpoint_hub) : checkpoint_hub :=
  CheckpointHub (connections h) a (completions h) (settled h).
Definition set_completions (m : list (jsstring * PendingActivationCheckpointRestoreCompletion))
    (h : checkpoint_hub) : checkpoint_hub :=
  CheckpointHub (connections h) (activationCheckpointTransfers h) m (settled h).

Definition on_authority {A} (c : SE authority A) : SE checkpoint_hub A := fun h =>
  let '(r, a) := c (activationCheckpointTransfers h) in (r, set_authority a h).

(** ** Completions *)

Definition settle (tid : jsstring) (outcome : res (jsstring * jsstring)) (h : checkpoint_hub) : checkpoint_hub :=
  CheckpointHub (connections h) (activationCheckpointTransfers h) (map_delete (completions h) tid)
    (settled h ++ [(tid, outcome)]).

Definition resolveActivationCheckpointRestoreCompletion (tid cid : jsstring) : SE checkpoint_hub unit := fun h =>
  match map_get (completions h) tid with
  | Some p =>
      if bool_decide (co_checkpointId p = cid) then (Ok tt, settle tid (Ok (tid, cid)) h)
      else (Err "activation_checkpoint_restore_completion_is_unexpected", h)
  | None => (Err "activation_checkpoint_restore_completion_is_unexpected", h)
  end.

Definition rejectActivationCheckpointRestoreCompletion (tid : jsstring) (message : string) (h : checkpoint_hub)
    : checkpoint_hub :=
  match map_get (completions h) tid with
  | Some _ => settle tid (Err message) h
  | None => h
  end.

Definition rejectActivationCheckpointRestoreSession (w s : jsstring) (reason : string) (h : checkpoint_hub)
    : checkpoint_hub :=
  foldl (fun h e => if owned_by w s (co_workerId e.2) (co_workerSessionId e.2)
                    then rejectActivationCheckpointRestoreCompletion e.1 reason h else h)
    h (completions h).

Section Hub.
Context (is_uuid : jsstring -> bool) (sha256_hex : bytes -> jsstring)
  (localeCompare : jsstring -> jsstring -> Z) (pinnedKeys : jsstring -> option (bytes -> bytes -> bool)).

(** ** Requests *)

(** [sends] is what [send] returns. *)
Definition requestActivationCheckpoint (sends : bool) (uuid w : jsstring) (stageRequestId : Z)
    (expected : ActivationCheckpointCompatibility) (maximumBytes expiresAt now : Z)
    : SE checkpoint_hub (jsstring * CoordinatorMessage) :=
  let! h := se_get in
  match map_get (connections h) w with
  | None => se_throw "activation_checkpoint_transfer_worker_is_unavailable"
  | Some session =>
      let! tid := on_authority (expect uuid w session expected (NInt maximumBytes) (NInt expiresAt) now) in
      if sends then se_ret (tid, RRequest (Request tid stageRequestId expected maximumBytes expiresAt))
      else
        do! on_authority (fun a => (Ok tt, (abort tid a).2)) ;;
        se_throw "activation_checkpoint_transfer_request_delivery_failed"
  end.

(** ** Restorations *)

Record restore_task := RestoreTask {
  rt_worker : jsstring;
  rt_begin : ActivationCheckpointRestoreBegin;
  rt_chunks : list ActivationCheckpointChunk;
}.

Definition restoreStart (uuid w launch : jsstring) (stageRequestId : Z) (cid : jsstring)
    (expected : ActivationCheckpointCompatibility) (maximumBytes expiresAt now : Z)
    : SE checkpoint_hub restore_task :=
  let! h := se_get in
  match map_get (connections h) w with
  | None => se_throw "activation_checkpoint_restore_worker_is_unavailable"
  | Some session =>
      let! r := on_authority (prepareRestore sha256_hex pinnedKeys uuid w session cid expected expiresAt now) in
      let '(tid, c, payload) := r in
      if maximumBytes <? byteLength payload then
        do! on_authority (fun a => (Ok tt, (abortRestore tid a).2)) ;;
        se_throw "activation_checkpoint_restore_limit_exceeded"
      else
        let! chunks := se_lift (activationCheckpointChunks is_uuid tid c payload) in
        do! se_modify (fun h => set_completions (map_set (completions h) tid
                                  (Completion w session (checkpointId c))) h) ;;
        se_ret (RestoreTask w (RestoreBegin tid launch stageRequestId expected c
                                 (Z.of_nat (length chunks)) maximumBytes expiresAt) chunks)
  end.

(** The messages of the [try] block, and whether it got to wait for the completion.
    [online n] is what [send] returns for the [n]-th, [drained n] whether the buffer of
    the socket empties in time before it. *)
Fixpoint restore_chunks (online drained : nat -> bool) (n : nat) (l : list ActivationCheckpointChunk)
    : list CoordinatorMessage * res unit :=
  match l with
  | [] => ([], Ok tt)
  | c :: l' =>
      if negb (drained n) then ([], Err "activation_checkpoint_restore_delivery_expired")
      else if negb (online n) then ([], Err "activation_checkpoint_restore_delivery_failed")
      else let '(msgs, r) := restore_chunks online drained (S n) l' in (RChunk c :: msgs, r)
  end.

Definition restore_sends (online drained : nat -> bool) (t : restore_task)
    : list CoordinatorMessage * res unit :=
  let b := rt_begin t in
  if negb (restore_begin_valid is_uuid sha256_hex b) then ([], Err ZodError)
  else if negb (online 0%nat) then ([], Err "activation_checkpoint_restore_delivery_failed")
  else
    let '(msgs, outcome) := restore_chunks online drained 1 (rt_chunks t) in
    let msgs := RBegin b :: msgs in
    match outcome with
    | Err code => (msgs, Err code)
    | Ok _ =>
        if online (length msgs)
        then (msgs ++ [RCommit (Commit (rb_transferId b) (checkpointId (rb_checkpoint b)))], Ok tt)
        else (msgs, Err "activation_checkpoint_restore_delivery_failed")
    end.

(** The [catch], also for a completion that is rejected. *)
Definition restoreCaught (tid : jsstring) (message : string) (h : checkpoint_hub) : checkpoint_hub :=
  rejectActivationCheckpointRestoreCompletion tid message
    (set_authority (abortRestore tid (activationCheckpointTransfers h)).2 h).

(** The timer of a restoration. *)
Definition restoreTimedOut (tid : jsstring) (h : checkpoint_hub) : checkpoint_hub :=
  restoreCaught tid "activation_checkpoint_restore_acknowledgement_expired" h.

(** ** Messages of workers *)

(** The handler of [runtime.checkpoint.*], with the messages it sends back. *)
Definition handleCheckpointMessage (w s : jsstring) (m : WorkerMessage) (now : Z)
    : SE checkpoint_hub (list CoordinatorMessage) :=
  match m with
  | MBegin b => do! on_authority (begin is_uuid w s b now) ;; se_ret []
  | MChunk c => do! on_authority (chunk is_uuid w s c now) ;; se_ret []
  | MCommit c =>
      let! cp := on_authority (commit is_uuid sha256_hex localeCompare pinnedKeys w s c now) in
      se_ret [RCommitted (Commit (cm_transferId c) (checkpointId cp))]
  | MFailed tid _ => do! on_authority (fun a => (Ok tt, (abort tid a).2)) ;; se_ret []
  | MRestored tid cid =>
      do! on_authority (completeRestore w s tid cid now) ;;
      do! resolveActivationCheckpointRestoreCompletion tid cid ;;
      se_ret []
  | MRestoreFailed tid cid code =>
      do! on_authority (failRestore w s tid cid now) ;;
      do! se_modify (rejectActivationCheckpointRestoreCompletion tid code) ;;
      se_ret []
  end.

(** What [handleClose] does when the connection that closes is the worker's. *)
Definition handleCheckpointClose (w s : jsstring) (h : checkpoint_hub) : checkpoint_hub :=
  if bool_decide (map_get (connections h) w = Some s) then
    let h := set_authority (abortSession w s (activationCheckpointTransfers h)).2 h in
    let h := rejectActivationCheckpointRestoreSession w s "activation_checkpoint_restore_worker_disconnected" h in
    CheckpointHub (map_delete (connections h) w) (activationCheckpointTransfers h) (completions h) (settled h)
  else h.

(** The part of [close] for the completions. *)
Definition closeCompletions (h : checkpoint_hub) : checkpoint_hub :=
  foldl (fun h e => rejectActivationCheckpointRestoreCompletion e.1
                      "activation_checkpoint_restore_coordinator_closed" h) h (completions h).
End Hub.
