(* ===== verification/CheckpointHubProps.v ===== *)
(** * Properties of the hub's restorations

    The runs of the hub as a step relation: connections, restorations started, messages,
    failures, timers and closings in any order.  A run remembers the restorations that
    were started, with the worker, session and checkpoint of each, and the
    acknowledgements that were received. *)

From S2P Require Import Prelude JsString JsMap JsSort JsonText CanonicalJson Schema Base64 Checkpoint CheckpointStore CheckpointTransfer CheckpointTransferProps CheckpointWorker CheckpointHub.

#[local] Open Scope Z_scope.

Record hub_run := HubRun {
  hr_hub : checkpoint_hub;
  hr_started : list (jsstring * PendingActivationCheckpointRestoreCompletion);
  hr_acks : list (jsstring * jsstring * jsstring * jsstring);
}.

(** ** Restores *)

(** No restore is added. *)
Definition shrinks (a a' : authority) : Prop :=
  map_wf (restores a) ->
  map_wf (restores a') /\ forall tid r, map_get (restores a') tid = Some r -> map_get (restores a) tid = Some r.

Lemma shrinks_same a a' : restores a' = restores a -> shrinks a a'.
Proof. intros E Hw. by rewrite E. Qed.

Lemma shrinks_trans a b c : shrinks a b -> shrinks b c -> shrinks a c.
Proof.
  intros H1 H2 Hw. destruct (H1 Hw) as [Hw1 Hs1]. destruct (H2 Hw1) as [Hw2 Hs2]. split; [done|]. eauto.
Qed.

Lemma shrinks_abortRestore id a : shrinks a (abortRestore id a).2.
Proof. intros Hw. split; simpl; [auto with myc|]. intros tid r H. by eapply map_delete_sub. Qed.

Lemma shrinks_abort id a : shrinks a (abort id a).2.
Proof. apply shrinks_same. unfold abort. by destruct (map_get _ _). Qed.

Lemma shrinks_abortSession w s a : shrinks a (abortSession w s a).2.
Proof. intros Hw. split; simpl; [by apply map_wf_filter|]. intros tid r H. by eapply map_get_filter. Qed.

Lemma requireTransfer_restores id w s now a : restores (requireTransfer id w s now a).2 = restores a.
Proof.
  unfold requireTransfer, se_bind, se_get. destruct (map_get (transfers a) id) eqn:E; [|done].
  destruct (_ <=? now); simpl; [unfold abort; by rewrite E|]. by destruct (negb _).
Qed.

Lemma bind_restores {A B} (c : SE authority A) (k : A -> SE authority B) a :
  restores (c a).2 = restores a -> (forall x a, restores (k x a).2 = restores a) ->
  restores (se_bind c k a).2 = restores a.
Proof. intros Hc Hk. unfold se_bind. destruct (c a) as [[x|] a1]; simpl in *; [by rewrite Hk|done]. Qed.

Section Shrinks.
Context (is_uuid : jsstring -> bool) (sha256_hex : bytes -> jsstring)
  (localeCompare : jsstring -> jsstring -> Z) (pinnedKeys : jsstring -> option (bytes -> bytes -> bool)).

Lemma expect_restores uuid w s ex m e now a : restores (expect uuid w s ex m e now a).2 = restores a.
Proof. unfold expect. destruct m, e; try done. by destruct (_ || _). Qed.

Lemma begin_restores w s m now a : restores (begin is_uuid w s m now a).2 = restores a.
Proof.
  unfold begin. destruct (negb _); [done|]. apply bind_restores; [apply requireTransfer_restores|].
  intros t a1. destruct (tr_checkpoint t); [done|]. by destruct (_ || _).
Qed.

Lemma chunk_restores w s m now a : restores (chunk is_uuid w s m now a).2 = restores a.
Proof.
  unfold chunk. destruct (negb _); [done|]. apply bind_restores; [apply requireTransfer_restores|].
  intros t a1. destruct (tr_checkpoint t); [|done]. destruct (negb _); [done|]. destruct (_ || _); [done|].
  destruct (negb (byteLength _ =? _)); [done|]. apply bind_restores; [done|]. intros _ a2. by destruct (_ <? _).
Qed.

Lemma commit_restores w s m now a :
  restores (commit is_uuid sha256_hex localeCompare pinnedKeys w s m now a).2 = restores a.
Proof.
  unfold commit. destruct (negb _); [done|]. apply bind_restores; [apply requireTransfer_restores|].
  intros t a1. destruct (tr_checkpoint t); [|done]. destruct (_ || _); [done|].
  unfold on_store. destruct (put _ _ _ _ _ _ _ _). unfold abort. cbn [transfers].
  by destruct (map_get (transfers a1) _).
Qed.

Lemma requireRestore_shrinks id w s now a : shrinks a (requireRestore id w s now a).2.
Proof.
  destruct (requireRestore_inv id w s now a) as [(r & -> & _)|[[code ->]|(code & r & -> & _)]];
    [by apply shrinks_same|by apply shrinks_same|apply shrinks_abortRestore].
Qed.

Lemma failRestore_shrinks w s id cid now a :
  shrinks a (completeRestore w s id cid now a).2 /\ shrinks a (failRestore w s id cid now a).2.
Proof.
  unfold completeRestore, failRestore, se_bind. pose proof (requireRestore_shrinks id w s now a) as Hs.
  destruct (requireRestore id w s now a) as [[r|] a1]; simpl in *; [|done].
  destruct (negb _); simpl; [done|]. split; (eapply shrinks_trans; [exact Hs|apply shrinks_abortRestore]).
Qed.

(** A completed restore was the caller's, and is gone. *)
Lemma completeRestore_inv w s id cid now a x a' :
  completeRestore w s id cid now a = (Ok x, a') ->
  exists r, map_get (restores a) id = Some r /\ rs_workerId r = w /\ rs_workerSessionId r = s
    /\ rs_checkpointId r = cid.
Proof.
  unfold completeRestore, se_bind.
  destruct (requireRestore_inv id w s now a) as [(r & -> & Hg & _ & Hw & Hs)|[[code ->]|(code & r & -> & _)]]; [|done..].
  destruct (negb _) eqn:Hc; [done|]. intros _. exists r. by bool_prop.
Qed.
End Shrinks.

(** ** Runs *)

Section Runs.
Context (is_uuid : jsstring -> bool) (sha256_hex : bytes -> jsstring)
  (localeCompare : jsstring -> jsstring -> Z) (pinnedKeys : jsstring -> option (bytes -> bytes -> bool)).

Abbreviation start := (restoreStart is_uuid sha256_hex pinnedKeys).
Abbreviation handle := (handleCheckpointMessage is_uuid sha256_hex localeCompare pinnedKeys).

Definition acks_of (w s : jsstring) (m : WorkerMessage) : list (jsstring * jsstring * jsstring * jsstring) :=
  match m with MRestored tid cid => [(w, s, tid, cid)] | _ => [] end.

(** A restoration draws an identifier that was not drawn before. *)
Definition unused (uuid : jsstring) (x : hub_run) : Prop :=
  uuid ∉ (hr_started x).*1 /\ map_get (restores (activationCheckpointTransfers (hr_hub x))) uuid = None.

Inductive hub_step : hub_run -> hub_run -> Prop :=
| hs_connect w s x :
    let h := hr_hub x in
    hub_step x (HubRun (CheckpointHub (map_set (connections h) w s) (activationCheckpointTransfers h)
                          (completions h) (settled h)) (hr_started x) (hr_acks x))
| hs_request sends uuid w stage expected maximum expiry now x :
    hub_step x (HubRun (requestActivationCheckpoint sends uuid w stage expected maximum expiry now (hr_hub x)).2
                  (hr_started x) (hr_acks x))
| hs_start uuid w session launch stage cid expected maximum expiry now x t h :
    unused uuid x -> map_get (connections (hr_hub x)) w = Some session ->
    start uuid w launch stage cid expected maximum expiry now (hr_hub x) = (Ok t, h) ->
    hub_step x (HubRun h (hr_started x ++ [(uuid, Completion w session (checkpointId (rb_checkpoint (rt_begin t))))])
                  (hr_acks x))
| hs_start_throws uuid w launch stage cid expected maximum expiry now x code h :
    unused uuid x ->
    start uuid w launch stage cid expected maximum expiry now (hr_hub x) = (Err code, h) ->
    hub_step x (HubRun h (hr_started x) (hr_acks x))
| hs_message w s m now x :
    hub_step x (HubRun (handle w s m now (hr_hub x)).2 (hr_started x) (hr_acks x ++ acks_of w s m))
| hs_caught tid message x :
    hub_step x (HubRun (restoreCaught tid message (hr_hub x)) (hr_started x) (hr_acks x))
| hs_close w s x :
    hub_step x (HubRun (handleCheckpointClose w s (hr_hub x)) (hr_started x) (hr_acks x))
| hs_shutdown x :
    hub_step x (HubRun (closeCompletions (hr_hub x)) (hr_started x) (hr_acks x)).

(** ** The invariant *)

Record run_ok (x : hub_run) : Prop := {
  ru_restores : map_wf (restores (activationCheckpointTransfers (hr_hub x)));
  ru_completions : map_wf (completions (hr_hub x));
  ru_agree : forall tid r p, map_get (restores (activationCheckpointTransfers (hr_hub x))) tid = Some r ->
    map_get (completions (hr_hub x)) tid = Some p ->
    p = Completion (rs_workerId r) (rs_workerSessionId r) (rs_checkpointId r);
  ru_started : forall tid p, map_get (completions (hr_hub x)) tid = Some p -> (tid, p) ∈ hr_started x;
  ru_resolved : forall tid out, (tid, Ok out) ∈ settled (hr_hub x) ->
    exists p, (tid, p) ∈ hr_started x /\ out = (tid, co_checkpointId p)
      /\ (co_workerId p, co_workerSessionId p, tid, co_checkpointId p) ∈ hr_acks x;
  ru_once : NoDup (settled (hr_hub x)).*1;
  ru_done : forall tid, tid ∈ (settled (hr_hub x)).*1 ->
    map_get (completions (hr_hub x)) tid = None /\ tid ∈ (hr_started x).*1;
}.

Lemma authority_step a x : run_ok x -> shrinks (activationCheckpointTransfers (hr_hub x)) a ->
  run_ok (HubRun (set_authority a (hr_hub x)) (hr_started x) (hr_acks x)).
Proof.
  intros [Hr Hc Ha Hs Hv Ho Hd] Hsh. destruct (Hsh Hr) as [Hw Hsub]. split; simpl; try done. eauto.
Qed.

Lemma acks_step l x : run_ok x -> run_ok (HubRun (hr_hub x) (hr_started x) (hr_acks x ++ l)).
Proof.
  intros [Hr Hc Ha Hs Hv Ho Hd]. split; simpl; try done. intros tid out H.
  destruct (Hv tid out H) as (p & Hp & Hout & Hack). exists p. split_and!; [done|done|]. apply elem_of_app. by left.
Qed.

Lemma settle_step tid p out x :
  run_ok x -> map_get (completions (hr_hub x)) tid = Some p ->
  match out with
  | Ok o => o = (tid, co_checkpointId p)
            /\ (co_workerId p, co_workerSessionId p, tid, co_checkpointId p) ∈ hr_acks x
  | Err _ => True
  end ->
  run_ok (HubRun (settle tid out (hr_hub x)) (hr_started x) (hr_acks x)).
Proof.
  intros [Hr Hc Ha Hs Hv Ho Hd] Hp Hout. split; simpl; [done|auto with myc| | | | |].
  - intros t r q Hg Hq. apply (Ha t); [done|]. by eapply map_delete_sub.
  - intros t q Hq. apply Hs. by eapply map_delete_sub.
  - intros t o [H|H]%elem_of_app; [by apply Hv|]. apply list_elem_of_singleton in H as [= -> <-].
    exists p. split; [by apply Hs|done].
  - rewrite fmap_app. apply NoDup_app. split_and!; [done| |apply NoDup_singleton].
    intros t Ht Ht'. cbn [fmap list_fmap fst] in Ht'. apply list_elem_of_singleton in Ht' as ->.
    destruct (Hd tid Ht). congruence.
  - intros t. rewrite fmap_app. intros [H|H]%elem_of_app.
    + destruct (Hd t H) as [Hn Hst]. split; [|done]. destruct (map_get (map_delete _ _) t) eqn:E; [|done].
      pose proof (map_delete_sub _ _ _ _ Hc E). congruence.
    + cbn [fmap list_fmap fst] in H. apply list_elem_of_singleton in H as ->. split; [by apply map_get_delete_eq|].
      apply list_elem_of_fmap. by exists (tid, p); split; [|apply Hs].
Qed.

Lemma reject_step tid message x :
  run_ok x ->
  run_ok (HubRun (rejectActivationCheckpointRestoreCompletion tid message (hr_hub x)) (hr_started x) (hr_acks x)).
Proof.
  intros Hok. unfold rejectActivationCheckpointRestoreCompletion.
  destruct (map_get (completions (hr_hub x)) tid) as [p|] eqn:E; [by eapply settle_step|by destruct x].
Qed.

Lemma reject_all_step (keep : jsstring * PendingActivationCheckpointRestoreCompletion -> bool) message l x :
  run_ok x ->
  run_ok (HubRun (foldl (fun h e => if keep e then rejectActivationCheckpointRestoreCompletion e.1 message h else h)
                    (hr_hub x) l) (hr_started x) (hr_acks x)).
Proof.
  revert x. induction l as [|e l IH]; intros x Hok; simpl; [by destruct x|].
  destruct (keep e); [|by apply IH]. by apply (IH (HubRun _ _ _)), reject_step.
Qed.
(** ** Steps *)

(** A method of the authority that adds no restore. *)
Lemma on_authority_step {A} (c : SE authority A) x :
  run_ok x -> (forall a, shrinks a (c a).2) ->
  run_ok (HubRun (on_authority c (hr_hub x)).2 (hr_started x) (hr_acks x)).
Proof.
  intros Hok Hc. unfold on_authority. pose proof (Hc (activationCheckpointTransfers (hr_hub x))) as Hs.
  destruct (c _) as [r a]. by apply authority_step.
Qed.

Lemma request_step sends uuid w stage expected maximum expiry now x :
  run_ok x ->
  run_ok (HubRun (requestActivationCheckpoint sends uuid w stage expected maximum expiry now (hr_hub x)).2
            (hr_started x) (hr_acks x)).
Proof.
  intros Hok. unfold requestActivationCheckpoint, se_bind, se_get.
  destruct (map_get (connections (hr_hub x)) w) as [session|]; [|by destruct x].
  pose proof (on_authority_step (expect uuid w session expected (NInt maximum) (NInt expiry) now) x Hok) as H1.
  specialize (H1 (fun a => shrinks_same _ _ (expect_restores _ _ _ _ _ _ _ a))).
  destruct (on_authority _ (hr_hub x)) as [[tid|] h]; [|done]. destruct sends; [done|].
  apply (on_authority_step (fun a => (Ok tt, (abort tid a).2)) (HubRun h (hr_started x) (hr_acks x)) H1).
  intros a. apply shrinks_abort.
Qed.

Lemma message_step w s m now x :
  run_ok x -> run_ok (HubRun (handle w s m now (hr_hub x)).2 (hr_started x) (hr_acks x ++ acks_of w s m)).
Proof.
  intros Hok. apply (acks_step (acks_of w s m)) in Hok. set (y := HubRun _ _ _) in Hok.
  change (hr_hub x) with (hr_hub y). change (hr_started x) with (hr_started y).
  assert (Hacks : hr_acks x ++ acks_of w s m = hr_acks y) by done. rewrite Hacks.
  unfold handle, handleCheckpointMessage. destruct m as [b|c|c|tid code|tid cid|tid cid code]; unfold se_bind at 1.
  - pose proof (on_authority_step (begin is_uuid w s b now) y Hok (fun a => shrinks_same _ _ (begin_restores _ _ _ _ _ a))) as H.
    by destruct (on_authority _ (hr_hub y)) as [[]].
  - pose proof (on_authority_step (chunk is_uuid w s c now) y Hok (fun a => shrinks_same _ _ (chunk_restores _ _ _ _ _ a))) as H.
    by destruct (on_authority _ (hr_hub y)) as [[]].
  - pose proof (on_authority_step (commit is_uuid sha256_hex localeCompare pinnedKeys w s c now) y Hok
      (fun a => shrinks_same _ _ (commit_restores _ _ _ _ _ _ _ _ a))) as H.
    by destruct (on_authority _ (hr_hub y)) as [[]].
  - by apply (on_authority_step (fun a => (Ok tt, (abort tid a).2)) y Hok), shrinks_abort.
  - pose proof (on_authority_step (completeRestore w s tid cid now) y Hok
      (fun a => proj1 (failRestore_shrinks w s tid cid now a))) as H.
    unfold on_authority in *. destruct (completeRestore _ _ _ _ _ _) as [[cid'|] a] eqn:Hrun; [|done].
    apply completeRestore_inv in Hrun as (r & Hr & Hw & Hs & Hc).
    unfold se_bind, resolveActivationCheckpointRestoreCompletion. cbn [completions set_authority].
    destruct (map_get (completions (hr_hub y)) tid) as [p|] eqn:Hp; [|done].
    destruct (bool_decide (co_checkpointId p = cid)) eqn:Hcid; [|done].
    apply (settle_step tid p (Ok (tid, cid)) (HubRun (set_authority a (hr_hub y)) (hr_started y) (hr_acks y)));
      [exact H|exact Hp|].
    rewrite (ru_agree _ Hok tid r p Hr Hp). cbn [co_workerId co_workerSessionId co_checkpointId].
    rewrite Hw, Hs, Hc. split; [done|]. apply elem_of_app. right. by apply list_elem_of_singleton.
  - pose proof (on_authority_step (failRestore w s tid cid now) y Hok
      (fun a => proj2 (failRestore_shrinks w s tid cid now a))) as H.
    destruct (on_authority _ (hr_hub y)) as [[[]|] h]; [|done]. by apply (reject_step tid code (HubRun h _ _)).
Qed.

(** A restoration that starts, or throws. *)
Lemma prepareRestore_inv uuid w s id expected expiry now a :
  (exists c payload,
     (prepareRestore sha256_hex pinnedKeys uuid w s id expected expiry now a).1 = Ok (uuid, c, payload)
     /\ restores (prepareRestore sha256_hex pinnedKeys uuid w s id expected expiry now a).2
        = map_set (restores a) uuid (Restore w s (checkpointId c) expiry))
  \/ (exists code, (prepareRestore sha256_hex pinnedKeys uuid w s id expected expiry now a).1 = Err code
     /\ restores (prepareRestore sha256_hex pinnedKeys uuid w s id expected expiry now a).2 = restores a).
Proof.
  unfold prepareRestore. destruct (_ || _); [right; by eexists|]. unfold se_bind, on_store.
  destruct (CheckpointStore.get _ _ _ _ _ _) as [[[[c payload]|]|code] st].
  - left. by exists c, payload.
  - right. by eexists.
  - right. by eexists.
Qed.
(** A restoration that throws leaves at most a restore that nobody waits for. *)
Lemma orphan_step uuid r x h :
  run_ok x -> unused uuid x ->
  restores (activationCheckpointTransfers h) = map_set (restores (activationCheckpointTransfers (hr_hub x))) uuid r ->
  completions h = completions (hr_hub x) -> settled h = settled (hr_hub x) ->
  run_ok (HubRun h (hr_started x) (hr_acks x)).
Proof.
  intros [Hr Hc Ha Hs Hv Ho Hd] [Hu _] E1 E2 E3. split; cbn [hr_hub hr_started hr_acks]; rewrite ?E1, ?E2, ?E3; try done.
  - auto with myc.
  - intros tid r' p. rewrite map_get_set. case_decide; [|by apply Ha]. intros _ Hp. subst tid.
    exfalso. apply Hu. apply list_elem_of_fmap. by exists (uuid, p); split; [|apply Hs].
Qed.

Lemma start_ok_step uuid w session launch stage cid expected maximum expiry now x t h :
  run_ok x -> unused uuid x -> map_get (connections (hr_hub x)) w = Some session ->
  start uuid w launch stage cid expected maximum expiry now (hr_hub x) = (Ok t, h) ->
  run_ok (HubRun h (hr_started x ++ [(uuid, Completion w session (checkpointId (rb_checkpoint (rt_begin t))))])
            (hr_acks x)).
Proof.
  intros [Hr Hc Ha Hs Hv Ho Hd] [Hu Hn] Hconn. unfold restoreStart, se_bind at 1 2, se_get. rewrite Hconn.
  unfold on_authority at 1.
  destruct (prepareRestore_inv uuid w session cid expected expiry now (activationCheckpointTransfers (hr_hub x)))
    as [(c & payload & Hout & Hrs)|(code & Hout & _)];
    destruct (prepareRestore _ _ _ _ _ _ _ _ _ _) as [out a]; cbn [fst snd] in *; subst out; [|done].
  destruct (maximum <? byteLength payload); [done|]. unfold se_bind, se_lift.
  destruct (activationCheckpointChunks _ _ _ _) as [chunks|]; [|done]. intros [= <- <-].
  assert (Hsub : forall tid p, (tid, p) ∈ hr_started x -> (tid, p) ∈ hr_started x ++ [(uuid, Completion w session (checkpointId c))]).
  { intros. apply elem_of_app. by left. }
  split; cbn [hr_hub hr_started hr_acks rt_begin rb_checkpoint set_completions set_authority completions
    activationCheckpointTransfers settled]; [rewrite Hrs; auto with myc|auto with myc| | | |done|].
  - intros tid r p. rewrite Hrs, !map_get_set. case_decide; [by intros [= <-] [= <-]|apply Ha].
  - intros tid p. rewrite map_get_set. case_decide; [|by intros; apply Hsub, Hs]. intros [= <-]. subst tid.
    apply elem_of_app. right. by apply list_elem_of_singleton.
  - intros tid out H. destruct (Hv tid out H) as (p & Hp & Ho' & Hack). exists p. split_and!; [by apply Hsub|done|done].
  - intros tid H. destruct (Hd tid H) as [Hnone Hst]. rewrite fmap_app. split; [|apply elem_of_app; by left].
    rewrite map_get_set, decide_False; [done|]. by intros ->.
Qed.

Lemma start_throws_step uuid w launch stage cid expected maximum expiry now x code h :
  run_ok x -> unused uuid x ->
  start uuid w launch stage cid expected maximum expiry now (hr_hub x) = (Err code, h) ->
  run_ok (HubRun h (hr_started x) (hr_acks x)).
Proof.
  intros Hok Hu. unfold restoreStart, se_bind at 1, se_get.
  destruct (map_get (connections (hr_hub x)) w) as [session|]; [|intros [= <- <-]; by destruct x].
  unfold se_bind at 1, on_authority at 1.
  destruct (prepareRestore_inv uuid w session cid expected expiry now (activationCheckpointTransfers (hr_hub x)))
    as [(c & payload & Hout & Hrs)|(code' & Hout & Hrs)];
    destruct (prepareRestore _ _ _ _ _ _ _ _ _ _) as [out a]; cbn [fst snd] in *; subst out.
  2: { intros [= <- <-]. by apply authority_step, shrinks_same. }
  destruct (maximum <? byteLength payload).
  - intros [= <- <-]. destruct Hok as [Hr Hc Ha Hs Hv Ho Hd].
    apply (authority_step _ (HubRun (set_authority a (hr_hub x)) (hr_started x) (hr_acks x)));
      [by apply (orphan_step uuid (Restore w session (checkpointId c) expiry) x)|apply shrinks_abortRestore].
  - unfold se_bind, se_lift. destruct (activationCheckpointChunks _ _ _ _); [done|]. intros [= <- <-].
    by apply (orphan_step uuid (Restore w session (checkpointId c) expiry) x).
Qed.

Lemma restore_step_ok x y : hub_step x y -> run_ok x -> run_ok y.
Proof.
  intros Hstep Hok. destruct Hstep.
  - by destruct Hok.
  - by apply request_step.
  - by eapply start_ok_step.
  - by eapply start_throws_step.
  - by apply message_step.
  - apply (reject_step _ _ (HubRun _ _ _)). by apply authority_step, shrinks_abortRestore.
  - unfold handleCheckpointClose. case_bool_decide; [|by destruct x].
    pose proof (authority_step _ x Hok (shrinks_abortSession w s _)) as H1.
    pose proof (reject_all_step (fun e => owned_by w s (co_workerId e.2) (co_workerSessionId e.2))
      "activation_checkpoint_restore_worker_disconnected" (completions (hr_hub x)) (HubRun _ _ _) H1) as H2.
    by destruct H2.
  - exact (reject_all_step (fun _ => true) _ (completions (hr_hub x)) x Hok).
Qed.

Definition new_run (s : store) : hub_run := HubRun (CheckpointHub [] (newAuthority s) [] []) [] [].

Lemma new_run_ok s : run_ok (new_run s).
Proof. split; simpl; try done; try (apply map_wf_nil); try apply NoDup_nil_2; by intros ? ? ?%elem_of_nil || by intros ? ?%elem_of_nil. Qed.

Lemma runs_ok s x : rtc hub_step (new_run s) x -> run_ok x.
Proof.
  intros H. assert (Hgen : forall y, rtc hub_step y x -> run_ok y -> run_ok x).
  { induction 1 as [|a b c Hstep _ IH]; [done|]. intros Ha. by apply IH, (restore_step_ok a). }
  by apply (Hgen _ H), new_run_ok.
Qed.
End Runs.

(** ** Claims *)

(** C18 (safety). However connections, requests, messages, failures, timers and closings
    interleave, the promise of a restoration is settled at most once, and it is resolved
    only with its own transfer and checkpoint, after the worker it was started for
    acknowledged both in the session it was started in. *)
Theorem restore_resolved_by_acknowledgement (is_uuid : jsstring -> bool) (sha256_hex : bytes -> jsstring)
    (localeCompare : jsstring -> jsstring -> Z) (pinnedKeys : jsstring -> option (bytes -> bytes -> bool))
    (s : store) (x : hub_run)
    (Hrun : rtc (hub_step is_uuid sha256_hex localeCompare pinnedKeys) (new_run s) x) :
  NoDup (settled (hr_hub x)).*1
  /\ forall tid out, (tid, Ok out) ∈ settled (hr_hub x) ->
     exists p, (tid, p) ∈ hr_started x /\ out = (tid, co_checkpointId p)
       /\ (co_workerId p, co_workerSessionId p, tid, co_checkpointId p) ∈ hr_acks x.
Proof.
  pose proof (runs_ok is_uuid sha256_hex localeCompare pinnedKeys s x Hrun) as Hok.
  split; [apply Hok|]. intros tid out. apply (ru_resolved _ Hok).
Qed.
