(* ===== verification/CheckpointScope.v ===== *)
(** * What a checkpoint message may touch

    The handler of the [runtime.checkpoint.*] messages, on any hub that runs of
    [CheckpointHubProps] reach: what a worker's message leaves as it is. *)

From S2P Require Import Prelude JsString JsMap JsSort JsonText CanonicalJson Schema Base64 Checkpoint CheckpointStore CheckpointStoreProps CheckpointTransfer CheckpointTransferProps CheckpointWorker CheckpointHub CheckpointHubProps.

#[local] Open Scope Z_scope.

Section Scope.
Context (is_uuid : jsstring -> bool) (sha256_hex : bytes -> jsstring)
  (localeCompare : jsstring -> jsstring -> Z) (pinnedKeys : jsstring -> option (bytes -> bytes -> bool)).

Abbreviation handle := (handleCheckpointMessage is_uuid sha256_hex localeCompare pinnedKeys).
Abbreviation ok := (authority_ok sha256_hex pinnedKeys).
Abbreviation authority_of h := (activationCheckpointTransfers h).
Abbreviation do_call := (perform is_uuid sha256_hex localeCompare pinnedKeys).

(** ** The authority of a hub *)

(** The call to the authority that a message leads to. *)
Definition message_call (w s : jsstring) (m : WorkerMessage) : call :=
  match m with
  | MBegin b => CBegin w s b
  | MChunk c => CChunk w s c
  | MCommit c => CCommit w s c
  | MFailed tid _ => CAbort tid
  | MRestored tid cid => CCompleteRestore w s tid cid
  | MRestoreFailed tid cid _ => CFailRestore w s tid cid
  end.

Lemma rejected_authority tid message h :
  authority_of (rejectActivationCheckpointRestoreCompletion tid message h) = authority_of h.
Proof. unfold rejectActivationCheckpointRestoreCompletion. by destruct (map_get _ _). Qed.

Lemma rejected_all_authority {A} (p : A -> bool) (tid : A -> jsstring) message l h :
  authority_of (foldl (fun h e => if p e then rejectActivationCheckpointRestoreCompletion (tid e) message h else h) h l)
  = authority_of h.
Proof.
  revert h. induction l as [|e l IH]; intros h; [done|]. simpl. rewrite IH.
  destruct (p e); [apply rejected_authority|done].
Qed.

Lemma message_authority w s m now h :
  authority_of (handle w s m now h).2 = (do_call now (message_call w s m) (authority_of h)).2.
Proof.
  unfold handleCheckpointMessage. destruct m as [b|c|c|tid code|tid cid|tid cid code]; unfold se_bind, on_authority; cbn [message_call perform].
  - by destruct (begin _ _ _ _ _ _) as [[] a].
  - by destruct (chunk _ _ _ _ _ _) as [[] a].
  - by destruct (commit _ _ _ _ _ _ _ _ _) as [[] a].
  - done.
  - destruct (completeRestore _ _ _ _ _ _) as [[x|] a]; [|done]. unfold resolveActivationCheckpointRestoreCompletion.
    destruct (map_get _ _) as [p|]; [|done]. by destruct (bool_decide _).
  - destruct (failRestore _ _ _ _ _ _) as [[x|] a]; [|done]. cbn [se_modify se_ret snd]. apply rejected_authority.
Qed.

Lemma on_authority_ok {A} (c : SE authority A) now k h :
  ok (authority_of h) -> (c (authority_of h)).2 = (do_call now k (authority_of h)).2 -> ok (authority_of (on_authority c h).2).
Proof.
  intros Hok E. unfold on_authority. destruct (c (authority_of h)) as [r a]. cbn [snd set_authority activationCheckpointTransfers] in *.
  subst a. by apply perform_ok.
Qed.

Lemma start_authority uuid w launch stage cid expected maximum expiry now h :
  ok (authority_of h) ->
  ok (authority_of (restoreStart is_uuid sha256_hex pinnedKeys uuid w launch stage cid expected maximum expiry now h).2).
Proof.
  intros Hok. unfold restoreStart, se_bind at 1, se_get. destruct (map_get (connections h) w) as [session|]; [|done].
  pose proof (on_authority_ok (prepareRestore sha256_hex pinnedKeys uuid w session cid expected expiry now) now
    (CPrepareRestore uuid w session cid expected expiry) h Hok eq_refl) as H1.
  unfold se_bind at 1. destruct (on_authority _ h) as [[[[tid c] payload]|code] h1]; [|done]. cbn [snd] in H1.
  destruct (maximum <? byteLength payload); [by apply abortRestore_ok|].
  unfold se_bind, se_lift. by destruct (activationCheckpointChunks _ _ _ _).
Qed.

Lemma hub_step_authority x y :
  hub_step is_uuid sha256_hex localeCompare pinnedKeys x y -> ok (authority_of (hr_hub x)) -> ok (authority_of (hr_hub y)).
Proof.
  intros Hstep Hok. destruct Hstep; cbn [hr_hub].
  - done.
  - unfold requestActivationCheckpoint, se_bind, se_get. destruct (map_get (connections (hr_hub x)) w) as [session|]; [|done].
    pose proof (on_authority_ok (expect uuid w session expected (NInt maximum) (NInt expiry) now) now
      (CExpect uuid w session expected (NInt maximum) (NInt expiry)) (hr_hub x) Hok eq_refl) as H1.
    destruct (on_authority _ (hr_hub x)) as [[tid|] h]; [|done]. destruct sends; [done|]. by apply abort_ok.
  - pose proof (start_authority uuid w launch stage cid expected maximum expiry now (hr_hub x) Hok) as Ha.
    match goal with E : restoreStart _ _ _ _ _ _ _ _ _ _ _ _ _ = _ |- _ => by rewrite E in Ha end.
  - pose proof (start_authority uuid w launch stage cid expected maximum expiry now (hr_hub x) Hok) as Ha.
    match goal with E : restoreStart _ _ _ _ _ _ _ _ _ _ _ _ _ = _ |- _ => by rewrite E in Ha end.
  - rewrite message_authority. by apply perform_ok.
  - unfold restoreCaught. rewrite rejected_authority. by apply abortRestore_ok.
  - unfold handleCheckpointClose. case_bool_decide; [|done]. cbn [activationCheckpointTransfers].
    unfold rejectActivationCheckpointRestoreSession.
    rewrite (rejected_all_authority (fun e : jsstring * PendingActivationCheckpointRestoreCompletion =>
      owned_by w s (co_workerId e.2) (co_workerSessionId e.2)) fst). cbn [set_authority activationCheckpointTransfers].
    by apply (perform_ok is_uuid sha256_hex localeCompare pinnedKeys 0 (CAbortSession w s)).
  - unfold closeCompletions.
    by rewrite (rejected_all_authority (fun _ : jsstring * PendingActivationCheckpointRestoreCompletion => true) fst).
Qed.

Lemma runs_authority s x :
  store_ok sha256_hex pinnedKeys s -> rtc (hub_step is_uuid sha256_hex localeCompare pinnedKeys) (new_run s) x ->
  ok (authority_of (hr_hub x)).
Proof.
  intros Hs H. assert (Hgen : forall y, rtc (hub_step is_uuid sha256_hex localeCompare pinnedKeys) y x ->
    ok (authority_of (hr_hub y)) -> ok (authority_of (hr_hub x))).
  { induction 1 as [|a b c Hstep _ IH]; [done|]. intros Ha. by apply IH, (hub_step_authority a). }
  by apply (Hgen _ H), newAuthority_ok.
Qed.

(** ** Completions *)

Lemma reject_other tid message tid' h :
  tid' <> tid -> map_get (completions (rejectActivationCheckpointRestoreCompletion tid message h)) tid' = map_get (completions h) tid'.
Proof.
  intros Hne. unfold rejectActivationCheckpointRestoreCompletion. destruct (map_get (completions h) tid); [|done].
  cbn [settle completions]. by rewrite map_get_delete_ne.
Qed.

(** A restore that the caller completes or fails is its own. *)
Lemma failRestore_inv w s id cid now a x a' :
  failRestore w s id cid now a = (Ok x, a') ->
  exists r, map_get (restores a) id = Some r /\ rs_workerId r = w /\ rs_workerSessionId r = s.
Proof.
  unfold failRestore, se_bind.
  destruct (requireRestore_inv id w s now a) as [(r & -> & Hg & _ & Hw & Hs)|[[code ->]|(code & r & -> & _)]]; [|done..].
  intros _. by exists r.
Qed.

(** The completions of others stay. *)
Lemma message_completions w s m now x tid p :
  run_ok x -> map_get (completions (hr_hub x)) tid = Some p -> ~ (co_workerId p = w /\ co_workerSessionId p = s) ->
  map_get (completions (handle w s m now (hr_hub x)).2) tid = Some p.
Proof.
  intros Hok Hp Ho.
  assert (Hother : forall id r, map_get (restores (authority_of (hr_hub x))) id = Some r -> rs_workerId r = w ->
    rs_workerSessionId r = s -> tid <> id).
  { intros id r Hr Hw Hs ->. apply Ho. by rewrite (ru_agree _ Hok id r p Hr Hp). }
  unfold handleCheckpointMessage. destruct m as [b|c|c|id code|id cid|id cid code]; unfold se_bind, on_authority.
  - by destruct (begin _ _ _ _ _ _) as [[] a].
  - by destruct (chunk _ _ _ _ _ _) as [[] a].
  - by destruct (commit _ _ _ _ _ _ _ _ _) as [[] a].
  - done.
  - destruct (completeRestore _ _ _ _ _ _) as [[u|] a] eqn:E; [|done].
    apply completeRestore_inv in E as (r & Hr & Hw & Hs & _). unfold resolveActivationCheckpointRestoreCompletion.
    destruct (map_get (completions (set_authority a (hr_hub x))) id) as [q|]; [|done]. destruct (bool_decide _); [|done].
    cbn [se_ret snd settle set_authority completions]. rewrite map_get_delete_ne; [done|by eapply Hother].
  - destruct (failRestore _ _ _ _ _ _) as [[u|] a] eqn:E; [|done]. apply failRestore_inv in E as (r & Hr & Hw & Hs).
    cbn [se_modify se_ret snd]. rewrite reject_other; [done|by eapply Hother].
Qed.
End Scope.

(** A transfer that the coordinator expects of a worker in its session. *)
Definition expected_of (w session : jsstring) (now : Z) (a : authority) (t : ExpectedTransfer) : Prop :=
  exists tid, map_get (transfers a) tid = Some t /\ owns w session t /\ now < tr_expiresAt t.

(** ** Claims *)

(** C22 (safety). On any hub that connections, requests, restorations, messages, timers and
    closings reach, a [runtime.checkpoint.*] message of a worker in its session leaves the
    unexpired transfers and restores of other workers and sessions, and the promises that
    wait for their restorations, as they are, with one exception: the failure message,
    whose handler does not compare the worker, ends the transfer it names.  What it makes
    the store hold was there before, or is the verified checkpoint of a transfer that the
    coordinator expects of that worker in that session, within its maximum; and what it
    makes the store lose, of any worker, makes room in a full store for such a checkpoint,
    which is stored. *)
Theorem checkpoint_messages_scoped (is_uuid : jsstring -> bool) (sha256_hex : bytes -> jsstring)
    (localeCompare : jsstring -> jsstring -> Z) (pinnedKeys : jsstring -> option (bytes -> bytes -> bool))
    (maxEntries maxEntryBytes maxTotalBytes : num) (st : store) (x : hub_run)
    (w session : jsstring) (m : WorkerMessage) (now : Z)
    (Hnew : newStore maxEntries maxEntryBytes maxTotalBytes = Ok st)
    (Hrun : rtc (hub_step is_uuid sha256_hex localeCompare pinnedKeys) (new_run st) x) :
  let h := hr_hub x in
  let h' := (handleCheckpointMessage is_uuid sha256_hex localeCompare pinnedKeys w session m now h).2 in
  let a := activationCheckpointTransfers h in
  let a' := activationCheckpointTransfers h' in
  (forall id t, map_get (transfers a) id = Some t -> ~ owns w session t -> now < tr_expiresAt t ->
     map_get (transfers a') id = Some t
     \/ (map_get (transfers a') id = None /\ exists code, m = MFailed id code))
  /\ (forall id r, map_get (restores a) id = Some r -> ~ (rs_workerId r = w /\ rs_workerSessionId r = session) ->
     now < rs_expiresAt r -> map_get (restores a') id = Some r)
  /\ (forall id p, map_get (completions h) id = Some p -> ~ (co_workerId p = w /\ co_workerSessionId p = session) ->
     map_get (completions h') id = Some p)
  /\ (forall id e, map_get (entries (checkpoint_store a')) id = Some e ->
     (exists e0, map_get (entries (checkpoint_store a)) id = Some e0
        /\ stored_checkpoint e0 = stored_checkpoint e /\ stored_payload e0 = stored_payload e)
     \/ (exists t, expected_of w session now a t /\ byteLength (stored_payload e) <= tr_maximumBytes t
        /\ verified sha256_hex pinnedKeys (stored_checkpoint e) (stored_payload e) (tr_expected t) now))
  /\ (forall id e, map_get (entries (checkpoint_store a)) id = Some e -> map_get (entries (checkpoint_store a')) id = None ->
     exists t c, expected_of w session now a t /\ tr_checkpoint t = Some c
     /\ is_full (byteLength (concat (tr_chunks t))) (checkpoint_store a) = true
     /\ map_get (entries (checkpoint_store a')) (checkpointId c) = Some (Stored c (concat (tr_chunks t)) now)).
Proof.
  intros h h' a a'. assert (Hok : authority_ok sha256_hex pinnedKeys a)
    by (eapply runs_authority; [by eapply newStore_ok|exact Hrun]).
  assert (Ha' : a' = (perform is_uuid sha256_hex localeCompare pinnedKeys now (message_call w session m) a).2)
    by apply message_authority.
  assert (Hcomp : forall id p, map_get (completions h) id = Some p ->
    ~ (co_workerId p = w /\ co_workerSessionId p = session) -> map_get (completions h') id = Some p).
  { intros id p. apply message_completions. by eapply runs_ok. }
  destruct (caller (message_call w session m)) as [[w' s']|] eqn:Hc.
  - assert (Hcs : (w', s') = (w, session)) by (destruct m; simpl in Hc; congruence). injection Hcs as -> ->.
    pose proof (perform_effect is_uuid sha256_hex localeCompare pinnedKeys now _ a w session Hok Hc) as Heff.
    rewrite <- Ha' in Heff. split_and!; [|..|exact Hcomp| |].
    + intros id t Ht Ho He. left. exact (effect_transfers _ _ _ _ _ _ _ _ id t Heff Ht Ho He).
    + intros id r. exact (effect_restores _ _ _ _ _ _ _ _ id r Heff).
    + intros id e He. destruct (effect_store _ _ _ _ _ _ _ _ id e Hok Heff He) as [H|(tid & t & Ht & Ho & Hx & H)]; [by left|].
      right. exists t. split; [by exists tid|done].
    + intros id e He Hn. destruct (effect_evicts _ _ _ _ _ _ _ _ id e Hok Heff He Hn) as (tid & t & c & Ht & Ho & Hx & H).
      exists t, c. split; [by exists tid|done].
  - destruct m as [b|c|c|tid code|tid cid|tid cid code]; try discriminate Hc. cbn [message_call perform snd] in Ha'.
    assert (Hsame : restores a' = restores a /\ checkpoint_store a' = checkpoint_store a)
      by (rewrite Ha'; unfold abort; by destruct (map_get _ _)).
    destruct Hsame as [Er Es]. rewrite Er, Es. split_and!; [|done|exact Hcomp|by eauto|congruence].
    intros id t Ht _ _. rewrite Ha'. unfold abort. destruct (map_get (transfers a) tid) as [t'|] eqn:Et; [|by left].
    cbn [snd set_transfers transfers]. destruct (decide (id = tid)) as [->|Hne].
    + right. split; [apply map_get_delete_eq, Hok|by exists code].
    + left. by rewrite map_get_delete_ne.
Qed.
