(* ===== verification/CheckpointRestore.v ===== *)
(** * Restoring a checkpoint

    The messages the hub sends for a restoration, received by the worker in order. *)

From S2P Require Import Prelude JsString JsMap JsSort JsonText CanonicalJson Schema Base64 Checkpoint CheckpointStore CheckpointStoreProps CheckpointTransfer CheckpointTransferProps CheckpointChunks CheckpointWorker CheckpointUpload CheckpointHub.

#[local] Open Scope Z_scope.

Section Restore.
Context (is_uuid : jsstring -> bool) (sha256_hex : bytes -> jsstring)
  (localeCompare : jsstring -> jsstring -> Z) (pinnedKeys : jsstring -> option (bytes -> bytes -> bool)).

(** The cases of the agent's [handleMessage] for a restoration; a commit may call the
    runtime process. *)
Definition handleCoordinatorMessage (m : CoordinatorMessage) (now : Z) : SE worker (option restore_call) :=
  match m with
  | RBegin b => do! beginActivationCheckpointRestore b now ;; se_ret None
  | RChunk c => do! appendActivationCheckpointRestoreChunk c now ;; se_ret None
  | RCommit c => commitActivationCheckpointRestore sha256_hex c now
  | RRequest _ | RCommitted _ => se_ret None
  end.

(** Messages received in order, the [n]-th at [clock n]; the calls they led to. *)
Fixpoint receive (clock : nat -> Z) (n : nat) (l : list CoordinatorMessage) : SE worker (list restore_call) :=
  match l with
  | [] => se_ret []
  | m :: l' =>
      let! c := handleCoordinatorMessage m (clock n) in
      let! rest := receive clock (S n) l' in
      se_ret (match c with Some c => c :: rest | None => rest end)
  end.

Lemma receive_app clock n l l' w cs w' :
  receive clock n l w = (Ok cs, w') ->
  receive clock n (l ++ l') w
  = (match (receive clock (n + length l) l' w').1 with Ok cs' => Ok (cs ++ cs') | Err e => Err e end,
     (receive clock (n + length l) l' w').2).
Proof.
  revert n w cs. induction l as [|m l IH]; intros n w cs; cbn [receive app].
  - intros [= <- <-]. cbn [length]. rewrite Nat.add_0_r. by destruct (receive clock n l' w) as [[]].
  - unfold se_bind. destruct (handleCoordinatorMessage m (clock n) w) as [[c|] w1]; [|done].
    destruct (receive clock (S n) l w1) as [[cs1|] w2] eqn:E; [|done]. intros [= <- <-].
    rewrite (IH _ _ _ E). cbn [length]. replace (S n + length l)%nat with (n + S (length l))%nat by lia.
    destruct (receive clock (n + S (length l)) l' w2) as [[cs'|e] w3]; cbn [fst snd]; [|done].
    by destruct c.
Qed.

(** The pending restoration [b] with the bytes [got]. *)
Record pends (w : worker) (b : ActivationCheckpointRestoreBegin) (i : Z) (got : bytes) (w0 : worker) : Prop := {
  pe_get : exists chunks, map_get (pendingActivationCheckpointRestores w) (rb_transferId b)
             = Some (Pending b chunks (byteLength got))
             /\ concat chunks = got /\ Z.of_nat (length chunks) = i;
  pe_processes : runtimeProcesses w = runtimeProcesses w0;
  pe_stages : runtimeProcessStages w = runtimeProcessStages w0;
  pe_sent : sent w = sent w0;
}.

Lemma append_next b w w0 i got m now data :
  pends w b i got w0 -> now < rb_expiresAt b ->
  let u := unsigned (rb_checkpoint b) in
  cp_bytes u <= rb_maximumBytes b -> rb_chunkCount b = chunks_of (cp_bytes u) ->
  ch_transferId m = rb_transferId b -> ch_checkpointId m = checkpointId (rb_checkpoint b) -> ch_index m = i ->
  b64_decode (ch_data m) = data -> 0 <= i < chunks_of (cp_bytes u) ->
  byteLength data = (if i =? chunks_of (cp_bytes u) - 1 then cp_bytes u - 262144 * i else 262144) ->
  byteLength got + byteLength data <= cp_bytes u ->
  exists w', appendActivationCheckpointRestoreChunk m now w = (Ok tt, w') /\ pends w' b (i + 1) (got ++ data) w0.
Proof.
  intros [(chunks & Hg & Hcat & Hlen) Hp Hst Hsent] He u Hmax Hcount Htid Hcid Hidx Hdata Hi Hsize Hle.
  unfold appendActivationCheckpointRestoreChunk. rewrite Htid, Hg. cbn [pd_begin pd_chunks pd_receivedBytes].
  rewrite (proj2 (Z.leb_gt _ _)) by done. rewrite Hcid, bool_decide_true, Hidx, Hlen, Z.eqb_refl by done.
  rewrite Hcount, (proj2 (Z.leb_gt _ _)) by lia. cbn [negb orb]. fold u. rewrite Hdata.
  unfold ACTIVATION_CHECKPOINT_CHUNK_BYTES. change (256 * 1024) with 262144. rewrite (proj2 (Z.eqb_eq _ _) Hsize).
  rewrite (proj2 (Z.ltb_ge _ _)) by lia. cbn [negb orb]. eexists. split; [reflexivity|].
  split; [|done..]. exists (chunks ++ [data]). split_and!.
  - cbn [set_pending pendingActivationCheckpointRestores]. by rewrite map_get_set_eq, byteLength_app.
  - rewrite concat_app. simpl. by rewrite app_nil_r, Hcat.
  - rewrite length_app. simpl. lia.
Qed.

Lemma chunks_received clock b w0 i payload l :
  let u := unsigned (rb_checkpoint b) in
  cut is_uuid (rb_transferId b) (checkpointId (rb_checkpoint b)) i payload l -> 0 <= i ->
  262144 * i + byteLength payload = cp_bytes u \/ payload = [] ->
  cp_bytes u <= rb_maximumBytes b -> rb_chunkCount b = chunks_of (cp_bytes u) ->
  (forall k, clock k < rb_expiresAt b) ->
  forall n w got, pends w b i got w0 -> byteLength got + byteLength payload <= cp_bytes u ->
  exists w', receive clock n (RChunk <$> l) w = (Ok [], w')
    /\ pends w' b (i + Z.of_nat (length l)) (got ++ payload) w0.
Proof.
  intros u. induction 1 as [i|i payload m l Hne Htid Hcid Hidx Hv Hdata Hcut IH];
    intros Hi Hsize Hmax Hcount He n w got Hp Hle.
  { exists w. rewrite app_nil_r. simpl. by rewrite Z.add_0_r. }
  destruct Hsize as [Hsize|?]; [|done]. destruct (slice_size payload) as [Ht Hd].
  assert (1 <= byteLength payload) by (unfold byteLength; destruct payload; simpl; [done|lia]).
  destruct (slice_expected _ _ _ Hsize) as [Hlt Hmin]; [done|done|].
  destruct (append_next b w w0 i got m (clock n) (take CHUNK payload)) as (w1 & Hrun & Hp1);
    [done|apply He|done|done|done|done|done|done|done|by rewrite Ht|fold u; lia|].
  destruct IH with (n := S n) (w := w1) (got := got ++ take CHUNK payload) as (w2 & Hrun2 & Hp2); try done.
  - lia.
  - destruct (Z.le_gt_cases (byteLength payload) 262144); [right|left; lia].
    apply nil_length_inv. unfold byteLength in *. lia.
  - rewrite byteLength_app. fold u in Hle. lia.
  - exists w2. split.
    + cbn [fmap list_fmap receive]. unfold se_bind at 1. cbn [handleCoordinatorMessage]. unfold se_bind at 1. rewrite Hrun.
      cbn [se_ret]. unfold se_bind. fold (RChunk <$> l). by rewrite Hrun2.
    + rewrite <- app_assoc, take_drop in Hp2. cbn [length]. rewrite Nat2Z.inj_succ.
      by replace (i + Z.succ (Z.of_nat (length l))) with (i + 1 + Z.of_nat (length l)) by lia.
Qed.
(** ** The hub's messages *)

Lemma restore_chunks_all online drained n l :
  (forall k, online k = true) -> (forall k, drained k = true) ->
  restore_chunks online drained n l = (RChunk <$> l, Ok tt).
Proof.
  intros Ho Hd. revert n. induction l as [|m l IH]; intros n; simpl; [done|]. rewrite Ho, Hd. simpl. by rewrite IH.
Qed.

Lemma restore_sends_all online drained t :
  (forall k, online k = true) -> (forall k, drained k = true) ->
  restore_begin_valid is_uuid sha256_hex (rt_begin t) = true ->
  restore_sends is_uuid sha256_hex online drained t
  = (RBegin (rt_begin t) :: (RChunk <$> rt_chunks t)
     ++ [RCommit (Commit (rb_transferId (rt_begin t)) (checkpointId (rb_checkpoint (rt_begin t))))], Ok tt).
Proof.
  intros Ho Hd Hv. unfold restore_sends. rewrite Hv. cbn [negb]. by rewrite Ho, restore_chunks_all, Ho.
Qed.

(** The process that a restoration targets can restore. *)
Definition can_restore (w : worker) (b : ActivationCheckpointRestoreBegin) : Prop :=
  map_get (runtimeProcesses w) (rb_targetLaunchRequestId b) = Some true
  /\ map_get (runtimeProcessStages w) (rb_targetLaunchRequestId b) = Some (ex_stageId (rb_expected b)).

Lemma restore_received clock b w payload l :
  cut is_uuid (rb_transferId b) (checkpointId (rb_checkpoint b)) 0 payload l ->
  byteLength payload = cp_bytes (unsigned (rb_checkpoint b)) ->
  cp_bytes (unsigned (rb_checkpoint b)) <= rb_maximumBytes b ->
  rb_chunkCount b = chunks_of (cp_bytes (unsigned (rb_checkpoint b))) -> Z.of_nat (length l) = rb_chunkCount b ->
  payload_digest sha256_hex payload = cp_payloadDigest (unsigned (rb_checkpoint b)) ->
  (forall k, clock k < rb_expiresAt b) ->
  map_get (pendingActivationCheckpointRestores w) (rb_transferId b) = None -> can_restore w b ->
  exists w', receive clock 0 (RBegin b :: (RChunk <$> l)
                 ++ [RCommit (Commit (rb_transferId b) (checkpointId (rb_checkpoint b)))]) w
      = (Ok [RestoreCall b payload], w')
    /\ sent (restoreAwaited (RestoreCall b payload) true w')
       = sent w ++ [MRestored (rb_transferId b) (checkpointId (rb_checkpoint b))].
Proof.
  intros Hcut Hsize Hmax Hcount Hlen Hdig He Hnone [Hproc Hstage].
  set (w1 := set_pending (map_set (pendingActivationCheckpointRestores w) (rb_transferId b) (Pending b [] 0)) w).
  assert (Hbegin : receive clock 0 [RBegin b] w = (Ok [], w1)).
  { cbn [receive]. unfold se_bind. cbn [handleCoordinatorMessage]. unfold se_bind, beginActivationCheckpointRestore, map_has.
    rewrite (proj2 (Z.leb_gt _ _)) by apply He. rewrite Hnone. done. }
  destruct (chunks_received clock b w 0 payload l Hcut) with (n := 1%nat) (w := w1) (got := [] : bytes) as (w2 & Hrun & Hp2);
    [lia|left; lia|done|done|done| |rewrite byteLength_nil; lia|].
  { split; [|done..]. exists []. split_and!; [|done|done]. apply map_get_set_eq. }
  destruct Hp2 as [(chunks & Hg & Hcat & Hl) Hp Hst Hsent]. simpl in Hcat.
  assert (Hcommit : receive clock (1 + length (RChunk <$> l)) [RCommit (Commit (rb_transferId b) (checkpointId (rb_checkpoint b)))] w2
    = (Ok [RestoreCall b payload], w2)).
  { cbn [receive]. unfold se_bind. cbn [handleCoordinatorMessage]. unfold commitActivationCheckpointRestore.
    cbn [cm_transferId cm_checkpointId]. rewrite Hg. cbn [pd_begin pd_chunks pd_receivedBytes].
    rewrite (proj2 (Z.leb_gt _ _)) by apply He. rewrite bool_decide_true by done. cbn [app].
    rewrite Hl, Hsize, Z.eqb_refl, Hcat. replace (0 + Z.of_nat (length l) =? rb_chunkCount b) with true by (symmetry; apply Z.eqb_eq; lia).
    cbn [negb orb]. rewrite bool_decide_true by done. cbn [negb]. rewrite Hp, Hst, Hproc, Hstage.
    rewrite bool_decide_false, bool_decide_true, bool_decide_false by done. done. }
  exists w2. split; [|by simpl; rewrite Hsent].
  change (RBegin b :: (RChunk <$> l) ++ ?k) with ([RBegin b] ++ (RChunk <$> l) ++ k).
  rewrite (receive_app clock 0 [RBegin b] _ w [] w1 Hbegin). cbn [length Nat.add].
  rewrite (receive_app clock 1 (RChunk <$> l) _ w1 [] w2 Hrun). by rewrite Hcommit.
Qed.
(** ** The hub's steps *)

Lemma restoreStart_stored uuid w session launch stage expected maximum expiry now h c payload at_ l :
  map_get (connections h) w = Some session -> w <> [] -> session <> [] -> now < expiry ->
  map_get (entries (checkpoint_store (activationCheckpointTransfers h))) (checkpointId c) = Some (Stored c payload at_) ->
  verified sha256_hex pinnedKeys c payload expected now -> byteLength payload <= maximum ->
  activationCheckpointChunks is_uuid uuid c payload = Ok l ->
  exists h1,
    restoreStart is_uuid sha256_hex pinnedKeys uuid w launch stage (checkpointId c) expected maximum expiry now h
      = (Ok (RestoreTask w (RestoreBegin uuid launch stage expected c (Z.of_nat (length l)) maximum expiry) l), h1)
    /\ map_get (restores (activationCheckpointTransfers h1)) uuid
       = Some (Restore w session (checkpointId c) expiry)
    /\ map_get (completions h1) uuid = Some (Completion w session (checkpointId c))
    /\ settled h1 = settled h.
Proof.
  intros Hconn Hw Hs He Hg Hv Hle Hl. unfold restoreStart, se_bind at 1, se_get. rewrite Hconn.
  unfold se_bind at 1, on_authority, prepareRestore, is_empty. rewrite !bool_decide_false by done.
  rewrite (proj2 (Z.leb_gt _ _)) by done. cbn [orb]. unfold se_bind at 1, on_store.
  rewrite (get_stored sha256_hex pinnedKeys (checkpointId c) (Stored c payload at_) expected now _ Hg Hv).
  cbn [stored_checkpoint stored_payload]. unfold se_bind, se_modify, se_ret, se_lift. cbn [fst snd].
  rewrite (proj2 (Z.ltb_ge _ _)) by lia. rewrite Hl. eexists. split; [reflexivity|].
  split_and!; [exact (map_get_set_eq _ _ _)|exact (map_get_set_eq _ _ _)|done].
Qed.

Lemma restored_resolves w session uuid cid now expiry h :
  now < expiry ->
  map_get (restores (activationCheckpointTransfers h)) uuid = Some (Restore w session cid expiry) ->
  map_get (completions h) uuid = Some (Completion w session cid) ->
  exists h', handleCheckpointMessage is_uuid sha256_hex localeCompare pinnedKeys w session (MRestored uuid cid) now h
      = (Ok [], h') /\ settled h' = settled h ++ [(uuid, Ok (uuid, cid))].
Proof.
  intros He Hr Hp. unfold handleCheckpointMessage, se_bind, on_authority, completeRestore, se_bind, requireRestore, se_bind, se_get.
  rewrite Hr. cbn [rs_expiresAt rs_workerId rs_workerSessionId rs_checkpointId]. rewrite (proj2 (Z.leb_gt _ _)) by done.
  unfold owned_by. rewrite !bool_decide_true by done. cbn [andb negb se_ret]. rewrite bool_decide_true by done. cbn [negb].
  unfold se_modify, se_ret, resolveActivationCheckpointRestoreCompletion. cbn [completions set_authority]. rewrite Hp.
  cbn [co_checkpointId]. rewrite bool_decide_true by done. by eexists.
Qed.
End Restore.

(** ** From the store to a process *)

(** C20 (refinement). A checkpoint that the store holds, restored on a ready worker that has
    the process for it: the hub starts the restoration, its messages reach the worker
    before they expire, the worker calls its process once, with exactly the payload that is
    stored, and its answer, when the process resolves, resolves the hub's promise with the
    transfer and the checkpoint. *)
Theorem checkpoint_restore (is_uuid : jsstring -> bool) (sha256_hex : bytes -> jsstring)
    (localeCompare : jsstring -> jsstring -> Z) (pinnedKeys : jsstring -> option (bytes -> bytes -> bool))
    (online drained : nat -> bool) (clock : nat -> Z) (h : checkpoint_hub) (wk : worker)
    (uuid w session launch : jsstring) (stage : Z) (expected : ActivationCheckpointCompatibility)
    (maximum expiry now tack at_ : Z) (c : ActivationCheckpoint) (payload : bytes)
    (Hconn : map_get (connections h) w = Some session) (Hw : w <> []) (Hs : session <> [])
    (Hstored : map_get (entries (checkpoint_store (activationCheckpointTransfers h))) (checkpointId c)
               = Some (Stored c payload at_))
    (Hver : verified sha256_hex pinnedKeys c payload expected now)
    (Hbytes : Forall is_byte payload) (Hexpiry : now < expiry) (Hack : tack < expiry)
    (Hvalid : restore_begin_valid is_uuid sha256_hex
                (RestoreBegin uuid launch stage expected c (chunks_of (cp_bytes (unsigned c))) maximum expiry) = true)
    (Honline : forall n, online n = true) (Hdrained : forall n, drained n = true)
    (Hclock : forall n, clock n < expiry)
    (Hidle : map_get (pendingActivationCheckpointRestores wk) uuid = None)
    (Hproc : map_get (runtimeProcesses wk) launch = Some true)
    (Hstage : map_get (runtimeProcessStages wk) launch = Some (ex_stageId expected)) :
  exists t h1 msgs wk1 h2,
    restoreStart is_uuid sha256_hex pinnedKeys uuid w launch stage (checkpointId c) expected maximum expiry now h
      = (Ok t, h1)
    /\ restore_sends is_uuid sha256_hex online drained t = (msgs, Ok tt)
    /\ receive sha256_hex clock 0 msgs wk = (Ok [RestoreCall (rt_begin t) payload], wk1)
    /\ sent (restoreAwaited (RestoreCall (rt_begin t) payload) true wk1) = sent wk ++ [MRestored uuid (checkpointId c)]
    /\ handleCheckpointMessage is_uuid sha256_hex localeCompare pinnedKeys w session
         (MRestored uuid (checkpointId c)) tack h1 = (Ok [], h2)
    /\ settled h2 = settled h ++ [(uuid, Ok (uuid, checkpointId c))].
Proof.
  pose proof (ve_valid _ _ _ _ _ _ Hver) as Hv. pose proof (checkpoint_bytes_bound _ Hv) as Hb.
  pose proof (ve_size _ _ _ _ _ _ Hver) as Hsize. pose proof (ve_payload _ _ _ _ _ _ Hver) as Hdig.
  unfold MAX_ACTIVATION_CHECKPOINT_BYTES in Hb.
  assert (Hid : is_sha256 (checkpointId c) = true) by (unfold checkpoint_valid in Hv; by bool_prop).
  assert (Hprops : is_uuid uuid = true /\ cp_bytes (unsigned c) <= maximum).
  { unfold restore_begin_valid in Hvalid. cbn [rb_transferId rb_checkpoint rb_maximumBytes rb_expected rb_chunkCount
      rb_targetLaunchRequestId rb_targetStageRequestId rb_expiresAt] in Hvalid. by bool_prop. }
  destruct Hprops as [Huuid Hmax].
  destruct (activationCheckpointChunks_cut is_uuid uuid c payload) as (l & Hl & Hcut & Hcount);
    [done|done|done|done|unfold MAX_ACTIVATION_CHECKPOINT_BYTES; lia|].
  rewrite Hsize in Hcount.
  set (b := RestoreBegin uuid launch stage expected c (chunks_of (cp_bytes (unsigned c))) maximum expiry) in *.
  destruct (restoreStart_stored is_uuid sha256_hex pinnedKeys uuid w session launch stage expected maximum expiry now
    h c payload at_ l) as (h1 & Hstart & Hr1 & Hp1 & Hs1); try done; [lia|].
  rewrite Hcount in Hstart. fold b in Hstart.
  destruct (restore_received is_uuid sha256_hex clock b wk payload l) as (wk1 & Hrecv & Hsent); try done.
  destruct (restored_resolves is_uuid sha256_hex localeCompare pinnedKeys w session uuid (checkpointId c) tack expiry h1)
    as (h2 & Hh2 & Hs2); [done|exact Hr1|exact Hp1|].
  exists (RestoreTask w b l), h1. eexists. exists wk1, h2.
  split_and!; [exact Hstart|by apply (restore_sends_all is_uuid sha256_hex online drained (RestoreTask w b l))|
    exact Hrecv|exact Hsent|exact Hh2|by rewrite Hs2, Hs1].
Qed.
