(* ===== verification/CheckpointRecovery.v ===== *)
(** * Recoveries

    [ActivationCheckpointRecoveryAuthority] of
    [src/src/coordinator/activation-checkpoint-recovery.ts] over its table
    ([src/src/storage/database.ts]).  [restoreThenPromote] is cut at its two [await]s:
    [startRecovery] up to the call of the restorer, [restoreSettled] from its answer to
    the call of [promote], [promoteSettled] from there.

    [readBigInts] is whether the statements of [node:sqlite] report [changes] as a
    [bigint].  It is [false] unless [setReadBigInts] or the option [readBigInts] of
    [DatabaseSync] say otherwise, and the sources use neither. *)

From S2P Require Import Prelude JsString JsMap JsonText CanonicalJson JsonParse Schema Sql Base64 Checkpoint CheckpointTransfer CheckpointWorker.

#[local] Open Scope Z_scope.

(** ** Data *)

Inductive ActivationCheckpointRecoveryStatus :=
| prepared | restoring | restored | promoting | promoted | failed.

#[export] Instance status_eq_dec : EqDecision ActivationCheckpointRecoveryStatus.
Proof. solve_decision. Defined.

Definition status_text (s : ActivationCheckpointRecoveryStatus) : string :=
  match s with
  | prepared => "prepared" | restoring => "restoring" | restored => "restored"
  | promoting => "promoting" | promoted => "promoted" | failed => "failed"
  end.

Record ActivationCheckpointRecoveryInput := RecoveryInput {
  in_modelId : jsstring;
  in_reservationId : option jsstring;
  in_recoveryGeneration : Z;
  in_sourceCheckpointId : jsstring;
  in_targetWorkerId : jsstring;
  in_targetLaunchRequestId : jsstring;
  in_targetStageRequestId : Z;
  in_expected : ActivationCheckpointCompatibility;
  in_maximumBytes : Z;
  in_expiresAt : Z;
}.

Record RecoveryRow := Row {
  id : jsstring;
  operation_key : jsstring;
  model_id : jsstring;
  reservation_id : option jsstring;
  recovery_generation : Z;
  source_checkpoint_id : jsstring;
  target_worker_id : jsstring;
  target_launch_request_id : jsstring;
  target_stage_request_id : Z;
  compatibility_json : jsstring;
  maximum_bytes : Z;
  expires_at : Z;
  status : ActivationCheckpointRecoveryStatus;
  transfer_id : option jsstring;
  error : option string;
  created_at : Z;
  updated_at : Z;
  restored_at : option Z;
  promoted_at : option Z;
}.

(** The row with what its [compatibility_json] was parsed to. *)
Record ActivationCheckpointRecoveryRecord := RecoveryRecord {
  rec_row : RecoveryRow;
  rec_expected : ActivationCheckpointCompatibility;
}.

Record database := Database {
  recoveries : list RecoveryRow;
  requested_models : list jsstring;
  route_reservations : list jsstring;
}.

Definition set_recoveries (t : list RecoveryRow) (d : database) : database :=
  Database t (requested_models d) (route_reservations d).

(** ** Schemas and texts *)

Definition bounded_text (s : jsstring) : bool := (1 <=? utf16_length s) && (utf16_length s <=? 256).

Definition input_valid (i : ActivationCheckpointRecoveryInput) : bool :=
  bounded_text (in_modelId i)
  && match in_reservationId i with Some r => bounded_text r | None => true end
  && safe_positive (in_recoveryGeneration i) && is_sha256 (in_sourceCheckpointId i)
  && bounded_text (in_targetWorkerId i) && bounded_text (in_targetLaunchRequestId i)
  && safe_nonneg (in_targetStageRequestId i) && compatibility_valid (in_expected i)
  && bytes_valid (in_maximumBytes i) && safe_positive (in_expiresAt i).

Definition compatibility_fields (e : ActivationCheckpointCompatibility) : list (jsstring * json) :=
  [ (js "keyId", JStr (ex_keyId e)); (js "requestIdHash", JStr (ex_requestIdHash e));
    (js "nodeIdHash", JStr (ex_nodeIdHash e)); (js "topologyGeneration", JNum (ex_topologyGeneration e));
    (js "topologyDigest", JStr (ex_topologyDigest e));
    (js "engineDescriptorDigest", JStr (ex_engineDescriptorDigest e));
    (js "artifactManifestDigest", JStr (ex_artifactManifestDigest e));
    (js "configurationDigest", JStr (ex_configurationDigest e)); (js "stageId", JStr (ex_stageId e));
    (js "layerStart", JNum (ex_layerStart e)); (js "layerEnd", JNum (ex_layerEnd e)) ]
  ++ match ex_minimumCommittedPosition e with
     | Some p => [(js "minimumCommittedPosition", JNum p)]
     | None => []
     end.

Definition identity_fields (i : ActivationCheckpointRecoveryInput) : list (jsstring * json) :=
  [ (js "schema", JStr (js "mycellios-activation-checkpoint-recovery/1"));
    (js "modelId", JStr (in_modelId i));
    (js "reservationId", match in_reservationId i with Some r => JStr r | None => JNull end);
    (js "recoveryGeneration", JNum (in_recoveryGeneration i));
    (js "sourceCheckpointId", JStr (in_sourceCheckpointId i));
    (js "targetWorkerId", JStr (in_targetWorkerId i));
    (js "targetLaunchRequestId", JStr (in_targetLaunchRequestId i));
    (js "targetStageRequestId", JNum (in_targetStageRequestId i));
    (js "expected", JObj (compatibility_fields (in_expected i)));
    (js "maximumBytes", JNum (in_maximumBytes i)); (js "expiresAt", JNum (in_expiresAt i)) ].

(** [activationCheckpointCompatibilitySchema.parse], of a value that JSON text gives. *)
Definition str_field (l : list (jsstring * value)) (k : jsstring) : option jsstring :=
  match map_get l k with Some (VStr s) => Some s | _ => None end.
Definition int_field (l : list (jsstring * value)) (k : jsstring) : option Z :=
  match map_get l k with Some (VNum (NInt z)) => Some z | _ => None end.

Definition compatibility_keys : list jsstring :=
  [ js "keyId"; js "requestIdHash"; js "nodeIdHash"; js "topologyGeneration"; js "topologyDigest";
    js "engineDescriptorDigest"; js "artifactManifestDigest"; js "configurationDigest"; js "stageId";
    js "layerStart"; js "layerEnd"; js "minimumCommittedPosition" ].

Definition compatibility_of (l : list (jsstring * value)) : option ActivationCheckpointCompatibility :=
  keyId ← str_field l (js "keyId");
  requestIdHash ← str_field l (js "requestIdHash");
  nodeIdHash ← str_field l (js "nodeIdHash");
  topologyGeneration ← int_field l (js "topologyGeneration");
  topologyDigest ← str_field l (js "topologyDigest");
  engineDescriptorDigest ← str_field l (js "engineDescriptorDigest");
  artifactManifestDigest ← str_field l (js "artifactManifestDigest");
  configurationDigest ← str_field l (js "configurationDigest");
  stageId ← str_field l (js "stageId");
  layerStart ← int_field l (js "layerStart");
  layerEnd ← int_field l (js "layerEnd");
  minimum ← match map_get l (js "minimumCommittedPosition") with
            | None => Some None
            | Some (VNum (NInt z)) => Some (Some z)
            | Some _ => None
            end;
  Some (Compatibility keyId requestIdHash nodeIdHash topologyGeneration topologyDigest engineDescriptorDigest
          artifactManifestDigest configurationDigest stageId layerStart layerEnd minimum).

Definition parse_compatibility (v : value) : res ActivationCheckpointCompatibility :=
  match v with
  | VObj l =>
      if forallb (fun e => bool_decide (e.1 ∈ compatibility_keys)) l then
        match compatibility_of l with
        | Some e => if compatibility_valid e then Ok e else Err ZodError
        | None => Err ZodError
        end
      else Err ZodError
  | _ => Err ZodError
  end.

Definition mapRecovery (row : RecoveryRow) : res ActivationCheckpointRecoveryRecord :=
  match JSON_parse (compatibility_json row) with
  | None => Err "SyntaxError"
  | Some v => let? expected := parse_compatibility v in Ok (RecoveryRecord row expected)
  end.

(** ** Statements *)

(** [UPDATE ... SET ... WHERE p]: the number of rows changed, and the table. *)
Definition update_where (p : RecoveryRow -> bool) (f : RecoveryRow -> RecoveryRow) (t : list RecoveryRow)
    : Z * list RecoveryRow :=
  (Z.of_nat (length (List.filter p t)), map (fun r => if p r then f r else r) t).

(** The value of [changes], and its comparison with [1n]. *)
Inductive changes := ChangesNumber (n : Z) | ChangesBigInt (n : Z).
Definition changes_value (readBigInts : bool) (n : Z) : changes :=
  if readBigInts then ChangesBigInt n else ChangesNumber n.
Definition equals_1n (c : changes) : bool :=
  match c with ChangesBigInt n => n =? 1 | ChangesNumber _ => false end.

Definition has_id (i : jsstring) (r : RecoveryRow) : bool := bool_decide (id r = i).
Definition has_status (s : ActivationCheckpointRecoveryStatus) (r : RecoveryRow) : bool :=
  bool_decide (status r = s).

(** The columns the statements assign. *)
Definition assign (s : ActivationCheckpointRecoveryStatus) (transfer : option jsstring) (e : option string)
    (now : Z) (restoredAt promotedAt : option Z) (r : RecoveryRow) : RecoveryRow :=
  Row (id r) (operation_key r) (model_id r) (reservation_id r) (recovery_generation r) (source_checkpoint_id r)
    (target_worker_id r) (target_launch_request_id r) (target_stage_request_id r) (compatibility_json r)
    (maximum_bytes r) (expires_at r) s transfer e (created_at r) now restoredAt promotedAt.

Definition set_status (s : ActivationCheckpointRecoveryStatus) (now : Z) (r : RecoveryRow) : RecoveryRow :=
  assign s (transfer_id r) (error r) now (restored_at r) (promoted_at r) r.
Definition set_failed (e : string) (now : Z) (r : RecoveryRow) : RecoveryRow :=
  assign failed (transfer_id r) (Some e) now (restored_at r) (promoted_at r) r.
Definition set_restored (transferId : jsstring) (now : Z) (r : RecoveryRow) : RecoveryRow :=
  assign restored (Some transferId) (error r) now (Some now) (promoted_at r) r.
Definition set_promoted (now : Z) (r : RecoveryRow) : RecoveryRow :=
  assign promoted (transfer_id r) (error r) now (restored_at r) (Some now) r.

Definition run_update (p : RecoveryRow -> bool) (f : RecoveryRow -> RecoveryRow) : SE database Z := fun d =>
  let '(n, t) := update_where p f (recoveries d) in (Ok n, set_recoveries t d).

(** ** Methods *)

Definition initialize (now : Z) : SE database Z :=
  run_update (fun r => has_status restoring r || has_status promoting r)
    (set_failed "coordinator_restarted_during_recovery" now).

Definition get (i : jsstring) : SE database (option ActivationCheckpointRecoveryRecord) := fun d =>
  match select_one (has_id i) (recoveries d) with
  | None => (Ok None, d)
  | Some row => (match mapRecovery row with Ok r => Ok (Some r) | Err code => Err code end, d)
  end.

(** The message ends with the identifier, which is left out here. *)
Definition require (i : jsstring) : SE database ActivationCheckpointRecoveryRecord :=
  let! r := get i in
  match r with
  | Some r => se_ret r
  | None => se_throw "activation_checkpoint_recovery_not_found"
  end.

Section Recovery.
Context (sha256_hex : bytes -> jsstring) (readBigInts : bool).

Definition operationKey (i : ActivationCheckpointRecoveryInput) : jsstring :=
  digest sha256_hex (JObj (identity_fields i)).
Definition recoveryId (i : ActivationCheckpointRecoveryInput) : jsstring :=
  js "acr_" ++ take 32 (drop 7 (operationKey i)).

Definition new_row (i : ActivationCheckpointRecoveryInput) (now : Z) : RecoveryRow :=
  Row (recoveryId i) (operationKey i) (in_modelId i) (in_reservationId i) (in_recoveryGeneration i)
    (in_sourceCheckpointId i) (in_targetWorkerId i) (in_targetLaunchRequestId i) (in_targetStageRequestId i)
    (evidence_text (JObj (compatibility_fields (in_expected i)))) (in_maximumBytes i) (in_expiresAt i)
    prepared None None now now None None.

(** [INSERT ... ON CONFLICT(operation_key) DO NOTHING], with the references of the table. *)
Definition insert_recovery (row : RecoveryRow) : SE database unit := fun d =>
  if existsb (fun r => bool_decide (operation_key r = operation_key row)) (recoveries d) then (Ok tt, d)
  else
    let refs := bool_decide (model_id row ∈ requested_models d)
                && match reservation_id row with
                   | Some r => bool_decide (r ∈ route_reservations d)
                   | None => true
                   end in
    match insert_row (fun a b => bool_decide (id a = id b)) refs row (recoveries d) with
    | Ok t => (Ok tt, set_recoveries t d)
    | Err code => (Err code, d)
    end.

Definition prepare (i : ActivationCheckpointRecoveryInput) (now : Z)
    : SE database ActivationCheckpointRecoveryRecord :=
  fail_if negb (input_valid i) with ZodError ;;
  fail_if in_expiresAt i <=? now with "activation_checkpoint_recovery_is_expired" ;;
  do! insert_recovery (new_row i now) ;;
  require (recoveryId i).

Definition transition (i : jsstring) (from to : ActivationCheckpointRecoveryStatus) (now : Z)
    : SE database unit :=
  let! n := run_update (fun r => has_id i r && has_status from r) (set_status to now) in
  if equals_1n (changes_value readBigInts n) then se_ret tt
  else se_throw (String.append "activation_checkpoint_recovery_transition_failed:"
                   (String.append (status_text from) (String.append ":" (status_text to)))).

(** [error.slice(0, 2_000)]. *)
Definition fail (i : jsstring) (message : string) (now : Z) : SE database unit :=
  do! run_update (fun r => has_id i r && negb (has_status promoted r))
        (set_failed (String.substring 0 2000 message) now) ;;
  se_ret tt.

(** The [catch] of [restoreThenPromote]. *)
Definition catching {A} (i : jsstring) (now : Z) (body : SE database A) : SE database A := fun d =>
  match body d with
  | (Ok a, d) => (Ok a, d)
  | (Err message, d) => let '(_, d) := fail i message now d in (Err message, d)
  end.

(** [inl]: it was promoted before; [inr]: the restorer is called for this record. *)
Definition startRecovery (i : jsstring) (now : Z)
    : SE database (ActivationCheckpointRecoveryRecord + ActivationCheckpointRecoveryRecord) :=
  let! r := require i in
  if has_status promoted (rec_row r) then se_ret (inl r)
  else if negb (has_status prepared (rec_row r)) then
    se_throw (String.append "activation_checkpoint_recovery_is_not_prepared:" (status_text (status (rec_row r))))
  else if expires_at (rec_row r) <=? now then
    do! fail i "activation_checkpoint_recovery_is_expired" now ;;
    se_throw "activation_checkpoint_recovery_is_expired"
  else
    do! transition i prepared restoring now ;;
    se_ret (inr r).

(** The [try] block, from the restorer's answer ([transferId] and [checkpointId]) to the
    call of [promote]; the result is the record it is called with. *)
Definition acknowledged (r : ActivationCheckpointRecoveryRecord) (answer : res (jsstring * jsstring))
    (restoredAt : Z) : SE database ActivationCheckpointRecoveryRecord :=
  let i := id (rec_row r) in
  let! ack := se_lift answer in
  fail_if negb (bool_decide (ack.2 = source_checkpoint_id (rec_row r)))
    with "activation_checkpoint_recovery_ack_identity_is_invalid" ;;
  let! n := run_update (fun row => has_id i row && has_status restoring row) (set_restored ack.1 restoredAt) in
  fail_if negb (equals_1n (changes_value readBigInts n))
    with "activation_checkpoint_recovery_restore_fence_failed" ;;
  do! transition i restored promoting restoredAt ;;
  require i.

(** The rest of the block, from the answer of [promote]. *)
Definition is_promotable (row : RecoveryRow) : bool :=
  has_status promoting row && negb (bool_decide (restored_at row = None))
  && negb (bool_decide (transfer_id row = None)).

Definition promotion (i : jsstring) (answer : res unit) (promotedAt : Z)
    : SE database ActivationCheckpointRecoveryRecord :=
  do! se_lift answer ;;
  let! n := run_update (fun row => has_id i row && is_promotable row) (set_promoted promotedAt) in
  fail_if negb (equals_1n (changes_value readBigInts n))
    with "activation_checkpoint_recovery_promotion_fence_failed" ;;
  require i.

Definition restoreSettled (r : ActivationCheckpointRecoveryRecord) (answer : res (jsstring * jsstring))
    (restoredAt failedAt : Z) : SE database ActivationCheckpointRecoveryRecord :=
  catching (id (rec_row r)) failedAt (acknowledged r answer restoredAt).

Definition promoteSettled (i : jsstring) (answer : res unit) (promotedAt failedAt : Z)
    : SE database ActivationCheckpointRecoveryRecord :=
  catching i failedAt (promotion i answer promotedAt).
End Recovery.

#[global] Arguments fail : simpl never.
#[global] Arguments transition : simpl never.
#[global] Arguments require : simpl never.
#[global] Arguments run_update : simpl never.
#[global] Arguments mapRecovery : simpl never.
#[global] Arguments operationKey : simpl never.
#[global] Arguments recoveryId : simpl never.
