(* ===== verification/CheckpointRecoveryText.v ===== *)
(** * The text of a compatibility

    What [prepare] writes in [compatibility_json] is what [mapRecovery] reads. *)

From S2P Require Import Prelude JsString JsMap JsSort JsonText CanonicalJson JsonParse Schema Sql Base64 Checkpoint CheckpointTransfer CheckpointWorker CheckpointRecovery.

#[local] Open Scope Z_scope.

(** The fields in the order of the canonical text. *)
Definition sorted_fields (e : ActivationCheckpointCompatibility) : list (jsstring * json) :=
  [ (js "artifactManifestDigest", JStr (ex_artifactManifestDigest e));
    (js "configurationDigest", JStr (ex_configurationDigest e));
    (js "engineDescriptorDigest", JStr (ex_engineDescriptorDigest e)); (js "keyId", JStr (ex_keyId e));
    (js "layerEnd", JNum (ex_layerEnd e)); (js "layerStart", JNum (ex_layerStart e)) ]
  ++ match ex_minimumCommittedPosition e with
     | Some p => [(js "minimumCommittedPosition", JNum p)]
     | None => []
     end
  ++ [ (js "nodeIdHash", JStr (ex_nodeIdHash e)); (js "requestIdHash", JStr (ex_requestIdHash e));
       (js "stageId", JStr (ex_stageId e)); (js "topologyDigest", JStr (ex_topologyDigest e));
       (js "topologyGeneration", JNum (ex_topologyGeneration e)) ].

Lemma canon_compatibility e : canon (JObj (compatibility_fields e)) = JObj (sorted_fields e).
Proof. destruct e as [a b c d e' f g h i j k [p|]]; vm_compute; reflexivity. Qed.

Lemma range_scalars (p : Z -> bool) (s : jsstring) :
  (forall c, p c = true -> 0 <= c < 128) -> forallb p s = true -> scalars s.
Proof.
  intros Hp H. apply ascii_scalars. apply Forall_forall. intros c Hc. apply Hp.
  rewrite forallb_forall in H. by apply H, list_elem_of_In.
Qed.

Lemma sha256_scalars s : is_sha256 s = true -> scalars s.
Proof.
  unfold is_sha256. intros H. bool_prop. rewrite <- (take_drop 7 s), H. apply Forall_app. split.
  - by apply ascii_scalars; repeat constructor.
  - eapply range_scalars; [|eassumption]. intros c Hc. unfold is_hex, in_range in Hc. lia.
Qed.

Lemma identifier_scalars s : is_checkpoint_identifier s = true -> scalars s.
Proof.
  unfold is_checkpoint_identifier. destruct s as [|c s]; [done|]. intros H. bool_prop.
  apply (Forall_app _ [c] s). split.
  - eapply (range_scalars is_alnum); [|simpl; by rewrite H]. intros d Hd. unfold is_alnum, in_range in Hd. lia.
  - eapply range_scalars; [|eassumption]. intros d Hd. unfold is_alnum, in_range in Hd. lia.
Qed.

Lemma safe_nonneg_safe z : safe_nonneg z = true -> is_safe z = true.
Proof. unfold safe_nonneg, is_safe. intros H. bool_prop. lia. Qed.
Lemma safe_positive_safe z : safe_positive z = true -> is_safe z = true.
Proof. unfold safe_positive, is_safe. intros H. bool_prop. lia. Qed.

Lemma plain_object l :
  NoDup l.*1 -> Forall scalars l.*1 -> Forall plain l.*2 -> plain (JObj l).
Proof.
  intros Hn Hk Hv. cbn [plain]. split; [done|]. clear Hn.
  induction l as [|[k v] l IH]; [done|]. cbn [fmap list_fmap fst snd foldr] in *.
  apply Forall_cons in Hk as [Hk Hks]. apply Forall_cons in Hv as [Hv Hvs]. split; [done|by apply IH].
Qed.

Definition sorted_keys (position : bool) : list jsstring :=
  [ js "artifactManifestDigest"; js "configurationDigest"; js "engineDescriptorDigest"; js "keyId";
    js "layerEnd"; js "layerStart" ]
  ++ (if position then [js "minimumCommittedPosition"] else [])
  ++ [ js "nodeIdHash"; js "requestIdHash"; js "stageId"; js "topologyDigest"; js "topologyGeneration" ].

Lemma sorted_keys_ok b : NoDup (sorted_keys b) /\ Forall ascii (sorted_keys b).
Proof.
  split; destruct b; (match goal with |- ?P => apply (bool_decide_unpack P) end); vm_compute; exact I.
Qed.

Lemma compatibility_plain e :
  compatibility_valid e = true -> scalars (ex_stageId e) -> plain (JObj (sorted_fields e)).
Proof.
  unfold compatibility_valid. intros H Hs. bool_prop.
  assert (Hkeys : exists b, (sorted_fields e).*1 = sorted_keys b).
  { unfold sorted_fields. destruct (ex_minimumCommittedPosition e); [by exists true|by exists false]. }
  destruct Hkeys as [b Hkeys]. destruct (sorted_keys_ok b) as [Hn Ha].
  apply plain_object; [by rewrite Hkeys| |].
  { rewrite Hkeys. eapply Forall_impl; [exact Ha|]. apply ascii_scalars. }
  unfold sorted_fields. rewrite !fmap_app, !Forall_app. split_and!.
  2: { destruct (ex_minimumCommittedPosition e) as [p|]; [|done]. apply Forall_singleton. by apply safe_nonneg_safe. }
  all: cbn [fmap list_fmap snd]; repeat (apply Forall_cons; split); cbn [plain]; try apply Forall_nil_2;
    auto using sha256_scalars, identifier_scalars, safe_nonneg_safe, safe_positive_safe.
Qed.

Lemma compatibility_of_fields e :
  compatibility_of (map (fun x => (x.1, embed x.2)) (sorted_fields e)) = Some e.
Proof. destruct e as [a b c d e' f g h i j k [p|]]; vm_compute; reflexivity. Qed.

Lemma compatibility_fields_known e :
  forallb (fun x => bool_decide (x.1 ∈ compatibility_keys))
    (map (fun x => (x.1, embed x.2)) (sorted_fields e)) = true.
Proof. destruct e as [a b c d e' f g h i j k [p|]]; vm_compute; reflexivity. Qed.

(** Written and read back. *)
Lemma compatibility_round_trip e :
  compatibility_valid e = true -> scalars (ex_stageId e) ->
  exists v, JSON_parse (evidence_text (JObj (compatibility_fields e))) = Some v /\ parse_compatibility v = Ok e.
Proof.
  intros Hv Hs. unfold evidence_text. rewrite canon_compatibility.
  eexists. split; [by apply JSON_parse_stringify, compatibility_plain|].
  cbn [embed parse_compatibility]. by rewrite compatibility_fields_known, compatibility_of_fields, Hv.
Qed.
