(* ===== verification/CheckpointRecoveryProps.v ===== *)
(** * Properties of recoveries

    Histories of the recovery authority: calls, answers of the restorer and of
    [promote], crashes and initializations, in any order.  The log lists the effects
    outside the database: the restorer called, its acknowledgement, [promote] called. *)

From S2P Require Import Prelude JsString JsMap JsSort JsonText CanonicalJson JsonParse Schema Sql Base64 Checkpoint CheckpointTransfer CheckpointWorker CheckpointRecovery CheckpointRecoveryText.

#[local] Open Scope Z_scope.

(** ** Histories *)

Inductive waiting :=
| AwaitRestore (r : ActivationCheckpointRecoveryRecord)
| AwaitPromote (i : jsstring).

Inductive logged :=
| LRestore (r : ActivationCheckpointRecoveryRecord)
| LAck (i transferId cid : jsstring)
| LPromote (r : ActivationCheckpointRecoveryRecord).

Record system := System {
  db : database;
  calls : list waiting;
  log : list logged;
}.

Inductive event :=
| EPrepare (i : ActivationCheckpointRecoveryInput) (now : Z)
| EStart (i : jsstring) (now : Z)
| ERestore (n : nat) (answer : res (jsstring * jsstring)) (restoredAt failedAt : Z)
| EPromote (n : nat) (answer : res unit) (promotedAt failedAt : Z)
| EInitialize (now : Z)
| ECrash.

Definition log_answer (i : jsstring) (answer : res (jsstring * jsstring)) : list logged :=
  match answer with Ok (tid, cid) => [LAck i tid cid] | Err _ => [] end.

Definition take_call (n : nat) (l : list waiting) : list waiting := take n l ++ drop (S n) l.

Section Histories.
Context (sha256_hex : bytes -> jsstring) (readBigInts : bool).

Definition step (s : system) (e : event) : system :=
  match e with
  | EPrepare i now => System (prepare sha256_hex i now (db s)).2 (calls s) (log s)
  | EStart i now =>
      match startRecovery readBigInts i now (db s) with
      | (Ok (inr r), d) => System d (calls s ++ [AwaitRestore r]) (log s ++ [LRestore r])
      | (_, d) => System d (calls s) (log s)
      end
  | ERestore n answer t1 t2 =>
      match calls s !! n with
      | Some (AwaitRestore r) =>
          let l := log s ++ log_answer (id (rec_row r)) answer in
          match restoreSettled readBigInts r answer t1 t2 (db s) with
          | (Ok r', d) => System d (take_call n (calls s) ++ [AwaitPromote (id (rec_row r))]) (l ++ [LPromote r'])
          | (Err _, d) => System d (take_call n (calls s)) l
          end
      | _ => s
      end
  | EPromote n answer t1 t2 =>
      match calls s !! n with
      | Some (AwaitPromote i) =>
          System (promoteSettled readBigInts i answer t1 t2 (db s)).2 (take_call n (calls s)) (log s)
      | _ => s
      end
  | EInitialize now => System (initialize now (db s)).2 (calls s) (log s)
  | ECrash => System (db s) [] (log s)
  end.

Definition run (l : list event) (s : system) : system := foldl step s l.

(** ** Statements on one row *)

Definition fresh_system (models reservations : list jsstring) : system :=
  System (Database [] models reservations) [] [].

Definition ids (d : database) : list jsstring := id <$> recoveries d.

(** The row of an identifier. *)
Definition row_of (i : jsstring) (d : database) : option RecoveryRow := select_one (has_id i) (recoveries d).

Lemma row_of_id i d r : row_of i d = Some r -> id r = i /\ r ∈ recoveries d.
Proof. intros H. apply select_one_Some in H as [Hin Hp]. unfold has_id in Hp. by bool_prop. Qed.

Lemma find_map_same (g : RecoveryRow -> RecoveryRow) (i : jsstring) t :
  (forall r, id (g r) = id r) ->
  List.find (has_id i) (map g t) = g <$> List.find (has_id i) t.
Proof.
  intros Hg. induction t as [|r t IH]; simpl; [done|]. unfold has_id at 1 3. rewrite Hg.
  by destruct (bool_decide (id r = i)).
Qed.

Lemma update_ids p f d n d' :
  (forall r, id (f r) = id r) -> run_update p f d = (Ok n, d') -> ids d' = ids d.
Proof.
  intros Hf [= <- <-]. unfold ids. simpl. rewrite <- list_fmap_compose. apply list_fmap_ext.
  intros k r _. simpl. by destruct (p r).
Qed.

Lemma filter_other p i (t : list RecoveryRow) :
  i ∉ id <$> t -> List.filter (fun r => has_id i r && p r) t = [].
Proof.
  induction t as [|r t IH]; csimpl; [done|]. intros [Hne Hr]%not_elem_of_cons.
  unfold has_id at 1. rewrite bool_decide_false by congruence. simpl. by apply IH.
Qed.

Lemma count_row p i (t : list RecoveryRow) :
  NoDup (id <$> t) ->
  Z.of_nat (length (List.filter (fun r => has_id i r && p r) t))
  = match List.find (has_id i) t with Some r => if p r then 1 else 0 | None => 0 end.
Proof.
  induction t as [|r t IH]; csimpl; [done|]. intros [Hr Hnd]%NoDup_cons.
  destruct (has_id i r) eqn:E; simpl; [|by apply IH]. unfold has_id in E. bool_prop. subst i.
  destruct (p r); simpl; by rewrite filter_other.
Qed.

(** [d'] is [d] with [g] applied to the row [i]. *)
Record updated (i : jsstring) (g : RecoveryRow -> RecoveryRow) (d d' : database) : Prop := {
  up_ids : ids d' = ids d;
  up_models : requested_models d' = requested_models d;
  up_reservations : route_reservations d' = route_reservations d;
  up_row : forall j, row_of j d' = if decide (j = i) then g <$> row_of i d else row_of j d;
}.

Lemma updated_id i d : updated i (fun r => r) d d.
Proof. split; [done..|]. intros j. case_decide; [|done]. subst. by destruct (row_of i d). Qed.

Lemma updated_trans i g h d1 d2 d3 :
  updated i g d1 d2 -> updated i h d2 d3 -> updated i (fun r => h (g r)) d1 d3.
Proof.
  intros [I1 M1 R1 U1] [I2 M2 R2 U2]. split; [congruence..|]. intros j. rewrite U2. case_decide; [|by rewrite U1, decide_False].
  rewrite U1, decide_True by done. by destruct (row_of i d1).
Qed.

Lemma run_update_row p f i d :
  NoDup (ids d) -> (forall r, id (f r) = id r) ->
  exists d', run_update (fun r => has_id i r && p r) f d
    = (Ok (match row_of i d with Some r => if p r then 1 else 0 | None => 0 end), d')
    /\ updated i (fun r => if p r then f r else r) d d'.
Proof.
  intros Hnd Hf. eexists. split.
  { unfold run_update, update_where, row_of, select_one. by rewrite (count_row p i). }
  split; [by eapply (update_ids (fun r => has_id i r && p r) f d)|done|done|].
  intros j. unfold row_of, select_one. cbn [recoveries set_recoveries]. rewrite find_map_same.
  2: { intros r. by destruct (has_id i r && p r). }
  case_decide as Hj.
  - subst j. destruct (List.find (has_id i) (recoveries d)) as [r|] eqn:E; [|done]. simpl.
    apply find_some in E as [_ E]. by rewrite E.
  - destruct (List.find (has_id j) (recoveries d)) as [r|] eqn:E; [|done]. simpl.
    apply find_some in E as [_ E]. unfold has_id in *. bool_prop. subst j.
    by rewrite bool_decide_false by done.
Qed.

(** *** How a row may change *)

(** The statuses that may follow, at the points where the code waits or returns. *)
Definition moves (from to : ActivationCheckpointRecoveryStatus) : bool :=
  match from, to with
  | prepared, (prepared | restoring | failed) => true
  | restoring, (restoring | restored | promoting | failed) => true
  | restored, (restored | promoting | failed) => true
  | promoting, (promoting | promoted | failed) => true
  | promoted, promoted => true
  | failed, failed => true
  | _, _ => false
  end.

(** What was prepared stays, and the status moves forward. *)
Record grows (r r' : RecoveryRow) : Prop := {
  gr_id : id r' = id r;
  gr_key : operation_key r' = operation_key r;
  gr_source : source_checkpoint_id r' = source_checkpoint_id r;
  gr_worker : target_worker_id r' = target_worker_id r;
  gr_compatibility : compatibility_json r' = compatibility_json r;
  gr_expiry : expires_at r' = expires_at r;
  gr_status : moves (status r) (status r') = true;
}.

Lemma grows_refl r : grows r r.
Proof. split; try done. by destruct (status r). Qed.

Lemma grows_fail r r' message now :
  grows r r' -> grows r (if negb (has_status promoted r') then set_failed message now r' else r').
Proof.
  intros [Hi Hk Hs Hw Hc He Hm]. unfold has_status. case_bool_decide as Hp; simpl; [by split|].
  split; try done. simpl. by destruct (status r), (status r').
Qed.

(** *** The methods *)

Lemma transition_row i from to now d :
  NoDup (ids d) ->
  exists d', transition readBigInts i from to now d
    = (if readBigInts && match row_of i d with Some r => has_status from r | None => false end
       then Ok tt
       else Err (String.append "activation_checkpoint_recovery_transition_failed:"
                   (String.append (status_text from) (String.append ":" (status_text to)))), d')
    /\ updated i (fun r => if has_status from r then set_status to now r else r) d d'.
Proof.
  intros Hnd. destruct (run_update_row (has_status from) (set_status to now) i d Hnd) as (d' & Hrun & Hup); [done|].
  exists d'. split; [|done]. unfold transition, se_bind. rewrite Hrun. unfold equals_1n, changes_value.
  destruct readBigInts; [|done]. destruct (row_of i d) as [r|]; [|done]. by destruct (has_status from r).
Qed.

Lemma fail_row i message now d :
  NoDup (ids d) ->
  exists d', fail i message now d = (Ok tt, d')
    /\ updated i (fun r => if negb (has_status promoted r)
                           then set_failed (String.substring 0 2000 message) now r else r) d d'.
Proof.
  intros Hnd. destruct (run_update_row (fun r => negb (has_status promoted r))
    (set_failed (String.substring 0 2000 message) now) i d Hnd) as (d' & Hrun & Hup); [done|].
  exists d'. split; [|done]. unfold fail, se_bind. by rewrite Hrun.
Qed.

Lemma require_row i d :
  require i d = (match row_of i d with
                 | None => Err "activation_checkpoint_recovery_not_found"
                 | Some row => mapRecovery row
                 end, d).
Proof.
  unfold require, get, se_bind, row_of. destruct (select_one _ _) as [row|]; [|done]. by destruct (mapRecovery row).
Qed.

Lemma mapRecovery_row row r : mapRecovery row = Ok r -> rec_row r = row.
Proof.
  unfold mapRecovery. destruct (JSON_parse _) as [v|]; [|done]. destruct (parse_compatibility v); [|done].
  by intros [= <-].
Qed.
(** The row [i] grows, and the others stay. *)
Definition advances (i : jsstring) (d d' : database) : Prop :=
  exists g, updated i g d d' /\ forall r, row_of i d = Some r -> grows r (g r).

Lemma advances_refl i d : advances i d d.
Proof. eexists. split; [apply updated_id|]. intros r _. apply grows_refl. Qed.

Lemma advances_row i d d' :
  advances i d d' ->
  match row_of i d with
  | Some r => exists r', row_of i d' = Some r' /\ grows r r'
  | None => row_of i d' = None
  end.
Proof.
  intros (g & [_ _ _ Hup] & Hg). specialize (Hup i). rewrite decide_True in Hup by done. rewrite Hup.
  destruct (row_of i d) as [r|]; [|done]. simpl. eauto.
Qed.

Lemma advances_fail i d d' message now :
  NoDup (ids d) -> advances i d d' ->
  exists d'', fail i message now d' = (Ok tt, d'') /\ advances i d d''.
Proof.
  intros Hnd (g & Hup & Hg). destruct (fail_row i message now d') as (d'' & Hf & Hup'); [by rewrite (up_ids _ _ _ _ Hup)|].
  exists d''. split; [done|]. eexists. split; [by eapply updated_trans|]. intros r Hr. by apply grows_fail, Hg.
Qed.

(** [catching] advances the row when its body does, and returns what it returns. *)
Lemma catching_row {A} i now (body : SE database A) d :
  NoDup (ids d) -> advances i d (body d).2 ->
  advances i d (catching i now body d).2
  /\ (forall a, (catching i now body d).1 = Ok a -> catching i now body d = body d).
Proof.
  intros Hnd Hadv. unfold catching. destruct (body d) as [[a|message] d1]; cbn [fst snd] in *.
  - split; [done|]. by intros a' [= <-].
  - destruct (advances_fail i d d1 message now Hnd Hadv) as (d2 & -> & Hadv2). by split.
Qed.

Lemma start_row i now d out d' :
  NoDup (ids d) -> startRecovery readBigInts i now d = (out, d') ->
  advances i d d'
  /\ (forall r, out = Ok (inr r) ->
      readBigInts = true
      /\ exists row row', row_of i d = Some row /\ rec_row r = row /\ status row = prepared
           /\ row_of i d' = Some row' /\ status row' = restoring).
Proof.
  intros Hnd. unfold startRecovery, se_bind at 1. rewrite require_row.
  destruct (row_of i d) as [row|] eqn:Hrow; [|intros [= <- <-]; by split; [apply advances_refl|]].
  destruct (mapRecovery row) as [r|] eqn:Hmap; [|intros [= <- <-]; by split; [apply advances_refl|]].
  apply mapRecovery_row in Hmap. subst row.
  destruct (has_status promoted (rec_row r)) eqn:Hp; [intros [= <- <-]; by split; [apply advances_refl|]|].
  destruct (negb (has_status prepared (rec_row r))) eqn:Hs; [intros [= <- <-]; by split; [apply advances_refl|]|].
  assert (Hhas : has_status prepared (rec_row r) = true) by by bool_prop.
  unfold has_status in Hs. bool_prop. unfold se_bind.
  destruct (expires_at (rec_row r) <=? now).
  { destruct (advances_fail i d d "activation_checkpoint_recovery_is_expired" now Hnd (advances_refl i d))
      as (d1 & Hf & Hadv). rewrite Hf. intros [= <- <-]. by split. }
  destruct (transition_row i prepared restoring now d Hnd) as (d1 & Ht & Hup). rewrite Ht, Hrow, Hhas, andb_true_r.
  pose proof (up_row _ _ _ _ Hup i) as Hi. rewrite decide_True, Hrow in Hi by done. simpl in Hi. rewrite Hhas in Hi.
  assert (Hadv : advances i d d1).
  { eexists. split; [exact Hup|]. intros r' Hr'. assert (r' = rec_row r) as -> by congruence.
    rewrite Hhas. split; try done. simpl. by rewrite Hs. }
  destruct readBigInts; intros [= <- <-]; split; try done. intros r' [= <-]. split; [done|].
  eexists _, _. by split_and!.
Qed.

Definition restarted (r : ActivationCheckpointRecoveryRecord) (answer : res (jsstring * jsstring)) (t1 : Z)
    (d d' : database) (out : res ActivationCheckpointRecoveryRecord) : Prop :=
  forall r', out = Ok r' ->
    readBigInts = true
    /\ exists tid row, answer = Ok (tid, source_checkpoint_id (rec_row r))
         /\ row_of (id (rec_row r)) d = Some row /\ status row = restoring
         /\ row_of (id (rec_row r)) d' = Some (rec_row r') /\ status (rec_row r') = promoting
         /\ transfer_id (rec_row r') = Some tid /\ restored_at (rec_row r') = Some t1.

Lemma acknowledged_row r answer t1 d out d' :
  NoDup (ids d) -> acknowledged readBigInts r answer t1 d = (out, d') ->
  advances (id (rec_row r)) d d' /\ restarted r answer t1 d d' out.
Proof.
  intros Hnd. unfold acknowledged. set (i := id (rec_row r)). unfold se_bind at 1, se_lift.
  destruct answer as [[tid cid]|message]; [|intros [= <- <-]; by split; [apply advances_refl|]]. cbn [fst snd].
  destruct (negb (bool_decide _)) eqn:Hcid; [intros [= <- <-]; by split; [apply advances_refl|]|]. bool_prop. subst cid.
  destruct (run_update_row (has_status restoring) (set_restored tid t1) i d Hnd) as (d1 & Hrun1 & Hup1); [done|].
  unfold se_bind at 1. rewrite Hrun1.
  assert (Hadv1 : advances i d d1).
  { eexists. split; [exact Hup1|]. intros row _. cbv beta. destruct (has_status restoring row) eqn:Hs; [|apply grows_refl].
    unfold has_status in Hs. bool_prop. split; try done. simpl. by rewrite Hs. }
  destruct (negb (equals_1n _)) eqn:Hn; [intros [= <- <-]; by split|]. bool_prop.
  unfold equals_1n, changes_value in Hn. destruct readBigInts eqn:Hbig; [|done].
  destruct (row_of i d) as [row|] eqn:Hrow; [|done]. destruct (has_status restoring row) eqn:Hs; [|done].
  unfold se_bind. destruct (transition_row i restored promoting t1 d1) as (d2 & Ht & Hup2);
    [by rewrite (up_ids _ _ _ _ Hup1)|].
  pose proof (up_row _ _ _ _ Hup1 i) as Hi1. rewrite decide_True, Hrow in Hi1 by done. simpl in Hi1. rewrite Hs in Hi1.
  pose proof (up_row _ _ _ _ Hup2 i) as Hi2. rewrite decide_True, Hi1 in Hi2 by done.
  rewrite Hbig, Hi1 in Ht. rewrite Ht. cbn [andb has_status]. rewrite require_row, Hi2.
  assert (Hs' : status row = restoring) by (unfold has_status in Hs; by bool_prop).
  intros [= <- <-]. split.
  - eexists. split; [by eapply updated_trans|]. intros row' Hrow'. assert (row' = row) as -> by congruence.
    cbv beta. rewrite Hs. split; try done. simpl. by rewrite Hs'.
  - intros r' Hr'. apply mapRecovery_row in Hr'. split; [done|]. exists tid, row. rewrite Hr'. fold i. by split_and!.
Qed.

Lemma restore_row r answer t1 t2 d out d' :
  NoDup (ids d) -> restoreSettled readBigInts r answer t1 t2 d = (out, d') ->
  advances (id (rec_row r)) d d' /\ restarted r answer t1 d d' out.
Proof.
  intros Hnd Hrun. unfold restoreSettled in Hrun.
  destruct (acknowledged readBigInts r answer t1 d) as [out1 d1] eqn:Hack.
  destruct (acknowledged_row _ _ _ _ _ _ Hnd Hack) as [Hadv Hok].
  destruct (catching_row (id (rec_row r)) t2 (acknowledged readBigInts r answer t1) d Hnd) as [Hadv' Hsame];
    [by rewrite Hack|]. rewrite Hrun, Hack in *. split; [done|].
  intros r' ->. by pose proof (Hsame r' eq_refl) as [= <- <-]; apply Hok.
Qed.

Lemma promote_row i answer t1 t2 d :
  NoDup (ids d) -> advances i d (promoteSettled readBigInts i answer t1 t2 d).2.
Proof.
  intros Hnd. apply catching_row; [done|]. unfold promotion, se_bind, se_lift.
  destruct answer as [[]|message]; [|apply advances_refl].
  destruct (run_update_row is_promotable (set_promoted t1) i d Hnd) as (d1 & -> & Hup); [done|].
  assert (Hadv : advances i d d1).
  { eexists. split; [exact Hup|]. intros row _. cbv beta. destruct (is_promotable row) eqn:Hp; [|apply grows_refl].
    unfold is_promotable, has_status in Hp. bool_prop. split; try done. simpl. by replace (status row) with promoting. }
  destruct (negb _); [done|]. by rewrite require_row.
Qed.
(** ** The invariant of histories *)

Definition restores_of (i : jsstring) (l : list logged) : nat :=
  length (List.filter (fun e => match e with LRestore r => has_id i (rec_row r) | _ => false end) l).
Definition promotes_of (i : jsstring) (l : list logged) : nat :=
  length (List.filter (fun e => match e with LPromote r => has_id i (rec_row r) | _ => false end) l).

(** [promote] is called right after the acknowledgement of the checkpoint that the
    recovery is for, with the transfer of that acknowledgement. *)
Definition acknowledged_first (l : list logged) : Prop :=
  forall l1 r l2, l = l1 ++ LPromote r :: l2 ->
  exists l0 tid, l1 = l0 ++ [LAck (id (rec_row r)) tid (source_checkpoint_id (rec_row r))]
    /\ transfer_id (rec_row r) = Some tid.

(** How often the effects of a recovery happened, by its status. *)
Definition counts_ok (row : option RecoveryRow) (restores promotes : nat) : Prop :=
  match row with
  | None => restores = 0%nat /\ promotes = 0%nat
  | Some r =>
      match status r with
      | prepared => restores = 0%nat /\ promotes = 0%nat
      | restoring | restored => (restores <= 1)%nat /\ promotes = 0%nat
      | promoting | promoted | failed => (restores <= 1)%nat /\ (promotes <= 1)%nat
      end
  end.

Record system_ok (s : system) : Prop := {
  so_ids : NoDup (ids (db s));
  so_calls : forall r, AwaitRestore r ∈ calls s ->
    exists row, row_of (id (rec_row r)) (db s) = Some row
      /\ source_checkpoint_id row = source_checkpoint_id (rec_row r);
  so_counts : forall i, counts_ok (row_of i (db s)) (restores_of i (log s)) (promotes_of i (log s));
  so_acked : acknowledged_first (log s);
}.

(** A change of the table that the invariant allows. *)
Definition moved (d d' : database) : Prop :=
  NoDup (ids d') /\ forall j,
  match row_of j d with
  | Some r => exists r', row_of j d' = Some r' /\ grows r r'
  | None => match row_of j d' with Some r' => status r' = prepared | None => True end
  end.

Lemma advances_moved i d d' : NoDup (ids d) -> advances i d d' -> moved d d'.
Proof.
  intros Hnd (g & Hup & Hg). split; [by rewrite (up_ids _ _ _ _ Hup)|]. intros j. rewrite (up_row _ _ _ _ Hup j).
  case_decide; [|by destruct (row_of j d); [eexists; split; [done|apply grows_refl]|]].
  subst. destruct (row_of i d) as [r|]; simpl; eauto.
Qed.

Lemma initialize_moved now d : NoDup (ids d) -> moved d (initialize now d).2.
Proof.
  intros Hnd. unfold initialize. destruct (run_update _ _ d) as [n d'] eqn:Hrun. destruct n as [n|]; [|done].
  split; [cbn [snd]; by rewrite (fun f => update_ids _ _ _ _ _ f Hrun)|]. intros j. unfold row_of, select_one.
  injection Hrun as _ <-. cbn [snd recoveries set_recoveries]. rewrite find_map_same.
  2: { intros r. by destruct (_ || _). }
  destruct (List.find (has_id j) (recoveries d)) as [r|]; [|done]. simpl. eexists. split; [done|].
  destruct (_ || _) eqn:Hs; [|apply grows_refl]. split; try done. simpl. unfold has_status in Hs. bool_prop.
  destruct Hs as [Hs|Hs]; bool_prop; by rewrite Hs.
Qed.

Lemma prepare_moved i now d : NoDup (ids d) -> moved d (prepare sha256_hex i now d).2.
Proof.
  intros Hnd. assert (Hrefl : moved d d).
  { split; [done|]. intros j. destruct (row_of j d); [eexists; split; [done|apply grows_refl]|done]. }
  unfold prepare. destruct (negb _); [done|]. destruct (_ <=? now); [done|]. unfold se_bind, insert_recovery.
  destruct (existsb _ _); [by rewrite require_row|].
  destruct (insert_row _ _ _ _) as [t|] eqn:Hins; [|done]. rewrite require_row.
  apply insert_row_inv in Hins as (-> & Hnew & _). rewrite existsb_false in Hnew. cbn [snd].
  assert (Hne : id (new_row sha256_hex i now) ∉ ids d).
  { unfold ids. rewrite list_elem_of_fmap. intros (r & Hid & Hr). rewrite Forall_forall in Hnew.
    specialize (Hnew r Hr). cbv beta in Hnew. by rewrite bool_decide_true in Hnew. }
  split.
  - unfold ids. cbn [recoveries set_recoveries]. rewrite fmap_app. apply NoDup_app. split_and!; [done| |apply NoDup_singleton].
    intros x Hx Hx'. apply list_elem_of_singleton in Hx' as ->. done.
  - intros j. unfold row_of. cbn [recoveries set_recoveries]. rewrite select_one_app.
    destruct (select_one (has_id j) (recoveries d)); [eexists; split; [done|apply grows_refl]|].
    cbn [select_one List.find]. by destruct (has_id j _).
Qed.

Lemma counts_moved d d' i n m : moved d d' -> counts_ok (row_of i d) n m -> counts_ok (row_of i d') n m.
Proof.
  intros [_ Hm] Hc. specialize (Hm i). destruct (row_of i d) as [r|]; simpl in *.
  - destruct Hm as (r' & -> & Hg). pose proof (gr_status _ _ Hg) as Hs. simpl.
    destruct (status r), (status r'); try discriminate Hs; lia.
  - destruct Hc as [-> ->]. destruct (row_of i d') as [r'|]; simpl; [by rewrite Hm|done].
Qed.

Lemma calls_moved d d' (l : list waiting) :
  moved d d' ->
  (forall r, AwaitRestore r ∈ l -> exists row, row_of (id (rec_row r)) d = Some row
     /\ source_checkpoint_id row = source_checkpoint_id (rec_row r)) ->
  forall r, AwaitRestore r ∈ l -> exists row, row_of (id (rec_row r)) d' = Some row
     /\ source_checkpoint_id row = source_checkpoint_id (rec_row r).
Proof.
  intros [_ Hm] H r Hr. destruct (H r Hr) as (row & Hrow & Hs). specialize (Hm (id (rec_row r))).
  rewrite Hrow in Hm. destruct Hm as (row' & -> & Hg). exists row'. split; [done|]. by rewrite (gr_source _ _ Hg).
Qed.

(** A step without effects outside the database. *)
Lemma quiet_step d calls' s :
  system_ok s -> moved (db s) d -> (forall w, w ∈ calls' -> w ∈ calls s) -> system_ok (System d calls' (log s)).
Proof.
  intros [Hi Hc Hn Ha] Hm Hsub. split; cbn [db CheckpointRecoveryProps.calls log]; [apply Hm| | |done].
  - intros r Hr. eapply calls_moved; eauto.
  - intros i. eapply counts_moved; eauto.
Qed.
Lemma acknowledged_first_snoc l e :
  acknowledged_first l ->
  match e with
  | LPromote r => exists l0 tid, l = l0 ++ [LAck (id (rec_row r)) tid (source_checkpoint_id (rec_row r))]
                    /\ transfer_id (rec_row r) = Some tid
  | _ => True
  end -> acknowledged_first (l ++ [e]).
Proof.
  intros Ha He l1 r l2 E. destruct l2 as [|x l2] using rev_ind.
  - apply app_inj_tail in E as [-> ->]. exact He.
  - clear IHl2. rewrite app_comm_cons, app_assoc in E. apply app_inj_tail in E as [-> _]. by eapply Ha.
Qed.

Lemma restores_of_app i l k : restores_of i (l ++ k) = (restores_of i l + restores_of i k)%nat.
Proof. unfold restores_of. by rewrite List.filter_app, length_app. Qed.
Lemma promotes_of_app i l k : promotes_of i (l ++ k) = (promotes_of i l + promotes_of i k)%nat.
Proof. unfold promotes_of. by rewrite List.filter_app, length_app. Qed.

Lemma has_id_spec i r : has_id i r = bool_decide (id r = i).
Proof. done. Qed.

Lemma start_step s i now : system_ok s -> system_ok (step s (EStart i now)).
Proof.
  intros Hok. simpl. destruct (startRecovery readBigInts i now (db s)) as [out d] eqn:Hrun.
  destruct (start_row _ _ _ _ _ (so_ids _ Hok) Hrun) as [Hadv Hst].
  pose proof (advances_moved _ _ _ (so_ids _ Hok) Hadv) as Hm.
  destruct out as [[r|r]|message]; [by apply quiet_step| |by apply quiet_step].
  destruct (Hst r eq_refl) as (_ & row & row' & Hrow & Hr & Hs & Hrow' & Hs').
  pose proof (row_of_id _ _ _ Hrow) as [Hid _]. rewrite <- Hr in Hid.
  destruct Hok as [Hi Hc Hn Ha]. split; cbn [db calls log]; [apply Hm| | |].
  - intros r' [Hr'|Hr']%elem_of_app; [by eapply calls_moved|]. apply list_elem_of_singleton in Hr' as [= ->].
    rewrite Hid. exists row'. split; [done|]. destruct Hm as [_ Hm]. specialize (Hm i). rewrite Hrow in Hm.
    destruct Hm as (r2 & Hr2 & Hg). assert (r2 = row') as -> by congruence. by rewrite (gr_source _ _ Hg), Hr.
  - intros j. rewrite restores_of_app, promotes_of_app. unfold restores_of at 2, promotes_of at 2. cbn [List.filter].
    rewrite has_id_spec, Hid. destruct (decide (i = j)) as [<-|Hne].
    + rewrite bool_decide_true by done. rewrite Hrow'. specialize (Hn i). rewrite Hrow in Hn. simpl in *.
      rewrite Hs in Hn. rewrite Hs'. lia.
    + rewrite bool_decide_false by done. cbn [length]. rewrite !Nat.add_0_r. by eapply counts_moved.
  - by apply acknowledged_first_snoc.
Qed.

Lemma elem_of_take_call n (l : list waiting) w : w ∈ take_call n l -> w ∈ l.
Proof.
  unfold take_call. intros [H|H]%elem_of_app; [by apply elem_of_take in H as (k & H & _); eapply list_elem_of_lookup_2|].
  apply list_elem_of_lookup in H as [k H]. rewrite lookup_drop in H. by eapply list_elem_of_lookup_2.
Qed.

Lemma log_answer_counts i j answer :
  restores_of i (log_answer j answer) = 0%nat /\ promotes_of i (log_answer j answer) = 0%nat.
Proof. by destruct answer as [[tid cid]|]. Qed.

Lemma acknowledged_first_answer l i answer : acknowledged_first l -> acknowledged_first (l ++ log_answer i answer).
Proof.
  intros Ha. destruct answer as [[tid cid]|]; simpl; [by apply acknowledged_first_snoc|by rewrite app_nil_r].
Qed.

Lemma restore_step s n answer t1 t2 : system_ok s -> system_ok (step s (ERestore n answer t1 t2)).
Proof.
  intros Hok. simpl. destruct (calls s !! n) as [[r|]|] eqn:Hcall; [|done..].
  destruct (restoreSettled readBigInts r answer t1 t2 (db s)) as [out d] eqn:Hrun.
  destruct (restore_row _ _ _ _ _ _ _ (so_ids _ Hok) Hrun) as [Hadv Hst].
  pose proof (advances_moved _ _ _ (so_ids _ Hok) Hadv) as Hm.
  destruct (so_calls _ Hok r) as (row0 & Hrow0 & Hsrc); [by eapply list_elem_of_lookup_2|].
  destruct Hok as [Hi Hc Hn Ha]. set (i := id (rec_row r)) in *. destruct out as [r'|message].
  - destruct (Hst r' eq_refl) as (_ & tid & row & -> & Hrow & Hs & Hrow' & Hs' & Htid & _).
    fold i in Hrow, Hrow'. pose proof (row_of_id _ _ _ Hrow') as [Hid _].
    split; cbn [db calls log]; [apply Hm| | |].
    + intros r2 [Hr2|Hr2]%elem_of_app; [|by apply list_elem_of_singleton in Hr2].
      eapply calls_moved; [exact Hm|exact Hc|]. by eapply elem_of_take_call.
    + intros j. rewrite !restores_of_app, !promotes_of_app.
      destruct (log_answer_counts j i (Ok (tid, source_checkpoint_id (rec_row r)))) as [-> ->].
      unfold restores_of at 2, promotes_of at 2. cbn [List.filter]. rewrite has_id_spec, Hid.
      destruct (decide (i = j)) as [<-|Hne].
      * rewrite bool_decide_true by done. rewrite Hrow'. specialize (Hn i). rewrite Hrow in Hn. simpl in *.
        rewrite Hs in Hn. rewrite Hs'. lia.
      * rewrite bool_decide_false by done. cbn [length]. rewrite !Nat.add_0_r. by eapply counts_moved.
    + apply acknowledged_first_snoc; [by apply acknowledged_first_answer|]. exists (log s), tid. rewrite Hid.
      split; [|done]. simpl. f_equal. f_equal. f_equal. destruct Hm as [_ Hm]. specialize (Hm i). rewrite Hrow in Hm.
      destruct Hm as (r2 & Hr2 & Hg). assert (r2 = rec_row r') as -> by congruence.
      rewrite (gr_source _ _ Hg), <- Hsrc. congruence.
  - split; cbn [db calls log]; [apply Hm| | |].
    + intros r2 Hr2. eapply calls_moved; [exact Hm|exact Hc|]. by eapply elem_of_take_call.
    + intros j. rewrite restores_of_app, promotes_of_app. destruct (log_answer_counts j i answer) as [-> ->].
      rewrite !Nat.add_0_r. by eapply counts_moved.
    + by apply acknowledged_first_answer.
Qed.

Lemma history_step_ok s e : system_ok s -> system_ok (step s e).
Proof.
  intros Hok. pose proof (so_ids _ Hok) as Hnd. destruct e.
  - apply quiet_step; [done|by apply prepare_moved|done].
  - by apply start_step.
  - by apply restore_step.
  - simpl. destruct (calls s !! n) as [[|i]|]; [done| |done].
    apply quiet_step; [done| |apply elem_of_take_call]. by eapply advances_moved, promote_row.
  - apply quiet_step; [done|by apply initialize_moved|done].
  - apply quiet_step; [done| |by intros w ?%elem_of_nil].
    eapply (advances_moved []); [done|apply advances_refl].
Qed.
Lemma history_run_ok l s : system_ok s -> system_ok (run l s).
Proof. revert s. induction l as [|e l IH]; simpl; intros s Hs; [done|]. by apply IH, history_step_ok. Qed.

Lemma fresh_system_ok models reservations : system_ok (fresh_system models reservations).
Proof.
  split; simpl; [apply NoDup_nil_2|by intros r ?%elem_of_nil|done|].
  intros l1 r l2 E. by destruct l1.
Qed.

(** *** Final statuses *)

Definition final (s : ActivationCheckpointRecoveryStatus) : bool :=
  match s with promoted | failed => true | _ => false end.

Lemma step_moved s e : system_ok s -> moved (db s) (db (step s e)).
Proof.
  intros Hok. pose proof (so_ids _ Hok) as Hnd.
  assert (Hrefl : moved (db s) (db s)) by (apply (advances_moved [] _ _ Hnd), advances_refl).
  destruct e; simpl.
  - by apply prepare_moved.
  - destruct (startRecovery readBigInts i now (db s)) as [out d] eqn:Hrun.
    destruct (start_row _ _ _ _ _ Hnd Hrun) as [Hadv _]. apply advances_moved in Hadv; [|done].
    by destruct out as [[]|].
  - destruct (calls s !! n) as [[r|]|]; [|done..].
    destruct (restoreSettled readBigInts r answer restoredAt failedAt (db s)) as [out d] eqn:Hrun.
    destruct (restore_row _ _ _ _ _ _ _ Hnd Hrun) as [Hadv _]. apply advances_moved in Hadv; [|done].
    by destruct out.
  - destruct (calls s !! n) as [[|i]|]; [done| |done]. by eapply advances_moved, promote_row.
  - by apply initialize_moved.
  - done.
Qed.

(** A step leaves what was done for a recovery that is at an end. *)
Lemma final_step s e i r :
  system_ok s -> row_of i (db s) = Some r -> final (status r) = true ->
  restores_of i (log (step s e)) = restores_of i (log s)
  /\ promotes_of i (log (step s e)) = promotes_of i (log s).
Proof.
  intros Hok Hr Hf. pose proof (so_ids _ Hok) as Hnd. destruct e; simpl; try done.
  - destruct (startRecovery readBigInts i0 now (db s)) as [out d] eqn:Hrun.
    destruct (start_row _ _ _ _ _ Hnd Hrun) as [_ Hst]. destruct out as [[|r0]|]; try done. simpl.
    destruct (Hst r0 eq_refl) as (_ & row & _ & Hrow & Hr0 & Hs & _). pose proof (row_of_id _ _ _ Hrow) as [Hid _].
    rewrite restores_of_app, promotes_of_app. unfold restores_of at 2, promotes_of at 2. cbn [List.filter].
    rewrite has_id_spec, Hr0, Hid. rewrite bool_decide_false; [simpl; lia|]. intros ->.
    assert (row = r) as -> by congruence. by rewrite Hs in Hf.
  - destruct (calls s !! n) as [[r0|]|]; try done.
    destruct (restoreSettled readBigInts r0 answer restoredAt failedAt (db s)) as [out d] eqn:Hrun.
    destruct (restore_row _ _ _ _ _ _ _ Hnd Hrun) as [_ Hst].
    destruct out as [r1|]; simpl; rewrite !restores_of_app, !promotes_of_app;
      destruct (log_answer_counts i (id (rec_row r0)) answer) as [-> ->]; [|lia].
    destruct (Hst r1 eq_refl) as (_ & tid & row & _ & Hrow & Hs & Hrow' & _).
    pose proof (row_of_id _ _ _ Hrow') as [Hid _].
    unfold restores_of at 2, promotes_of at 2. cbn [List.filter]. rewrite has_id_spec, Hid.
    rewrite bool_decide_false; [simpl; lia|]. intros Heq. rewrite Heq in Hrow.
    assert (row = r) as -> by congruence. by rewrite Hs in Hf.
  - by destruct (calls s !! n) as [[]|].
Qed.

Lemma final_kept l s i r :
  system_ok s -> row_of i (db s) = Some r -> final (status r) = true ->
  (exists r', row_of i (db (run l s)) = Some r' /\ status r' = status r)
  /\ restores_of i (log (run l s)) = restores_of i (log s)
  /\ promotes_of i (log (run l s)) = promotes_of i (log s).
Proof.
  revert s r. induction l as [|e l IH]; intros s r Hok Hr Hf; [by split; [exists r|]|].
  destruct (step_moved s e Hok) as [_ Hm]. specialize (Hm i). rewrite Hr in Hm. destruct Hm as (r1 & Hr1 & Hg).
  assert (Hs1 : status r1 = status r).
  { pose proof (gr_status _ _ Hg) as Hs. by destruct (status r), (status r1). }
  destruct (final_step s e i r Hok Hr Hf) as [Hn Hp].
  destruct (IH (step s e) r1) as ((r' & Hr' & Hs') & Hn' & Hp'); [by apply history_step_ok|done|by rewrite Hs1|].
  split; [|by rewrite <- Hn, <- Hp]. exists r'. split; [exact Hr'|congruence].
Qed.

(** *** Preparing *)

Definition preparable (i : ActivationCheckpointRecoveryInput) (now : Z) (d : database) : Prop :=
  input_valid i = true /\ now < in_expiresAt i /\ scalars (ex_stageId (in_expected i))
  /\ in_modelId i ∈ requested_models d
  /\ match in_reservationId i with Some r => r ∈ route_reservations d | None => True end
  /\ Forall (fun r => operation_key r <> operationKey sha256_hex i /\ id r <> recoveryId sha256_hex i) (recoveries d).

Lemma prepare_new i now d :
  preparable i now d ->
  prepare sha256_hex i now d
  = (Ok (RecoveryRecord (new_row sha256_hex i now) (in_expected i)),
     set_recoveries (recoveries d ++ [new_row sha256_hex i now]) d)
  /\ row_of (recoveryId sha256_hex i) (set_recoveries (recoveries d ++ [new_row sha256_hex i now]) d)
     = Some (new_row sha256_hex i now).
Proof.
  intros (Hv & He & Hs & Hm & Hr & Hall). rewrite Forall_forall in Hall.
  assert (Hrow : row_of (recoveryId sha256_hex i) (set_recoveries (recoveries d ++ [new_row sha256_hex i now]) d)
     = Some (new_row sha256_hex i now)).
  { unfold row_of. cbn [recoveries set_recoveries]. apply select_one_snoc_hit.
    - apply Forall_forall. intros r Hin. unfold has_id. apply bool_decide_eq_false. by apply Hall.
    - unfold has_id. by apply bool_decide_eq_true. }
  split; [|exact Hrow]. unfold prepare. rewrite Hv, (proj2 (Z.leb_gt _ _)) by done. cbn [negb].
  unfold se_bind, insert_recovery.
  assert (Hex : existsb (fun r => bool_decide (operation_key r = operation_key (new_row sha256_hex i now)))
    (recoveries d) = false).
  { apply existsb_false, Forall_forall. intros r Hin. apply bool_decide_eq_false. by apply Hall. }
  rewrite Hex. cbn [model_id reservation_id new_row]. rewrite (bool_decide_true (in_modelId i ∈ _)) by done.
  rewrite insert_row_ok; [|apply Forall_forall; intros r Hin; apply bool_decide_eq_false; cbn [id new_row]|].
  - rewrite require_row, Hrow. unfold mapRecovery. cbn [compatibility_json new_row].
    destruct (compatibility_round_trip (in_expected i)) as (v & -> & ->); [|done|done].
    unfold input_valid in Hv. by bool_prop.
  - intros E. symmetry in E. by apply Hall in Hin as [_ Hin].
  - simpl. by destruct (in_reservationId i); [apply bool_decide_eq_true|].
Qed.
End Histories.

(** ** A recovery that is carried out *)

Lemma mapRecovery_same row row' r :
  mapRecovery row = Ok r -> compatibility_json row' = compatibility_json row ->
  mapRecovery row' = Ok (RecoveryRecord row' (rec_expected r)).
Proof.
  unfold mapRecovery. intros H ->. destruct (JSON_parse _) as [v|]; [|done].
  destruct (parse_compatibility v); [|done]. by injection H as <-.
Qed.

Lemma updated_hit i g d d' r : updated i g d d' -> row_of i d = Some r -> row_of i d' = Some (g r).
Proof. intros Hup Hr. by rewrite (up_row _ _ _ _ Hup i), decide_True, Hr by done. Qed.

Lemma start_exact i now d r :
  NoDup (ids d) -> row_of i d = Some (rec_row r) -> mapRecovery (rec_row r) = Ok r ->
  status (rec_row r) = prepared -> now < expires_at (rec_row r) ->
  exists d', startRecovery true i now d = (Ok (inr r), d') /\ ids d' = ids d
    /\ row_of i d' = Some (set_status restoring now (rec_row r)).
Proof.
  intros Hnd Hrow Hmap Hs He. destruct (transition_row true i prepared restoring now d Hnd) as (d' & Ht & Hup).
  exists d'. split_and!; [|apply Hup|].
  - unfold startRecovery, se_bind at 1. rewrite require_row, Hrow, Hmap. unfold has_status at 1 2. rewrite Hs.
    rewrite (proj2 (Z.leb_gt _ _)) by done. cbn [bool_decide decide negb]. simpl.
    unfold se_bind. rewrite Ht, Hrow. unfold has_status. rewrite Hs. done.
  - rewrite (updated_hit _ _ _ _ _ Hup Hrow). unfold has_status. by rewrite Hs.
Qed.

Lemma restore_exact r0 r tid t1 t2 d :
  NoDup (ids d) -> id (rec_row r0) = id (rec_row r) ->
  source_checkpoint_id (rec_row r0) = source_checkpoint_id (rec_row r) ->
  row_of (id (rec_row r)) d = Some (rec_row r) ->
  mapRecovery (rec_row r) = Ok r -> status (rec_row r) = restoring ->
  let row := set_status promoting t1 (set_restored tid t1 (rec_row r)) in
  exists d', restoreSettled true r0 (Ok (tid, source_checkpoint_id (rec_row r))) t1 t2 d
      = (Ok (RecoveryRecord row (rec_expected r)), d') /\ ids d' = ids d
    /\ row_of (id (rec_row r)) d' = Some row.
Proof.
  intros Hnd Hid Hsrc Hrow Hmap Hs row. set (i := id (rec_row r)) in *.
  destruct (run_update_row (has_status restoring) (set_restored tid t1) i d Hnd) as (d1 & Hrun1 & Hup1); [done|].
  pose proof (updated_hit _ _ _ _ _ Hup1 Hrow) as Hi1. cbv beta in Hi1.
  assert (Hhas : has_status restoring (rec_row r) = true) by (unfold has_status; by rewrite Hs).
  rewrite Hhas in Hi1.
  destruct (transition_row true i restored promoting t1 d1) as (d2 & Ht & Hup2); [by rewrite (up_ids _ _ _ _ Hup1)|].
  pose proof (updated_hit _ _ _ _ _ Hup2 Hi1) as Hi2. cbv beta in Hi2. change (has_status restored _) with true in Hi2.
  exists d2. split_and!; [|by rewrite (up_ids _ _ _ _ Hup2), (up_ids _ _ _ _ Hup1)|exact Hi2].
  unfold restoreSettled, catching, acknowledged. rewrite Hid. fold i. unfold se_bind, se_lift. cbn [fst snd].
  rewrite Hsrc, bool_decide_true by done. cbn [negb]. rewrite Hrun1, Hrow, Hhas. cbn [changes_value equals_1n].
  rewrite Z.eqb_refl. cbn [negb]. rewrite Ht, Hi1. change (has_status restored _) with true. cbn [andb].
  rewrite require_row, Hi2. by rewrite (mapRecovery_same _ _ _ Hmap).
Qed.

Lemma promote_exact r t1 t2 d :
  NoDup (ids d) -> row_of (id (rec_row r)) d = Some (rec_row r) -> mapRecovery (rec_row r) = Ok r ->
  is_promotable (rec_row r) = true ->
  exists d', promoteSettled true (id (rec_row r)) (Ok tt) t1 t2 d
      = (Ok (RecoveryRecord (set_promoted t1 (rec_row r)) (rec_expected r)), d')
    /\ row_of (id (rec_row r)) d' = Some (set_promoted t1 (rec_row r)).
Proof.
  intros Hnd Hrow Hmap Hp. set (i := id (rec_row r)) in *.
  destruct (run_update_row is_promotable (set_promoted t1) i d Hnd) as (d1 & Hrun1 & Hup1); [done|].
  pose proof (updated_hit _ _ _ _ _ Hup1 Hrow) as Hi1. cbv beta in Hi1. rewrite Hp in Hi1.
  exists d1. split; [|exact Hi1]. unfold promoteSettled, catching, promotion, se_bind, se_lift.
  rewrite Hrun1, Hrow, Hp. cbn [changes_value equals_1n]. rewrite Z.eqb_refl. cbn [negb].
  rewrite require_row, Hi1. by rewrite (mapRecovery_same _ _ _ Hmap).
Qed.

(** With numbers, no call is ever made. *)
Lemma never_called sha256_hex l s :
  system_ok s -> log s = [] /\ calls s = [] ->
  log (run sha256_hex false l s) = [] /\ calls (run sha256_hex false l s) = [].
Proof.
  revert s. induction l as [|e l IH]; intros s Hok [Hl Hc]; [done|]. apply IH; [by apply history_step_ok|].
  destruct e; simpl; try (by rewrite ?Hc).
  destruct (startRecovery false i now (db s)) as [out d] eqn:Hrun.
  destruct (start_row _ _ _ _ _ _ (so_ids _ Hok) Hrun) as [_ Hst].
  destruct out as [[|r]|]; try done. by destruct (Hst r eq_refl).
Qed.

(** ** Claims *)

(** C17 (safety). Over every history of calls, answers, crashes and initializations, in any
    order and however [changes] is reported, the restorer is called at most once for a
    recovery and so is [promote]; [promote] is called only right after the acknowledgement
    of the very checkpoint the recovery names, with the transfer of that acknowledgement;
    and a recovery that was promoted or failed keeps that status and has no further effect. *)
Theorem recovery_promotes_once (sha256_hex : bytes -> jsstring) (readBigInts : bool)
    (models reservations : list jsstring) (l l' : list event) (i : jsstring) :
  let s := run sha256_hex readBigInts l (fresh_system models reservations) in
  let s' := run sha256_hex readBigInts l' s in
  (restores_of i (log s) <= 1)%nat /\ (promotes_of i (log s) <= 1)%nat /\ acknowledged_first (log s)
  /\ (forall r, row_of i (db s) = Some r -> final (status r) = true ->
      (exists r', row_of i (db s') = Some r' /\ status r' = status r)
      /\ restores_of i (log s') = restores_of i (log s) /\ promotes_of i (log s') = promotes_of i (log s)).
Proof.
  intros s s'. pose proof (history_run_ok sha256_hex readBigInts l _ (fresh_system_ok models reservations)) as Hok. fold s in Hok.
  pose proof (so_counts _ Hok i) as Hc. split_and!.
  - unfold counts_ok in Hc. destruct (row_of i (db s)) as [r|]; [destruct (status r)|]; lia.
  - unfold counts_ok in Hc. destruct (row_of i (db s)) as [r|]; [destruct (status r)|]; lia.
  - apply Hok.
  - intros r Hr Hf. by apply final_kept.
Qed.

(** Where [changes] is a [bigint], a recovery that can be prepared, whose
    restorer acknowledges its checkpoint and whose [promote] resolves, ends promoted: the
    restorer was called with the input's target and compatibility, then [promote]. *)
Theorem recovery_completes (sha256_hex : bytes -> jsstring) (models reservations : list jsstring)
    (l : list event) (i : ActivationCheckpointRecoveryInput) (tid : jsstring) (t0 t1 t2 f2 t3 f3 : Z) :
  let s0 := run sha256_hex true l (fresh_system models reservations) in
  let n := length (calls s0) in
  let s := run sha256_hex true
             [EPrepare i t0; EStart (recoveryId sha256_hex i) t1;
              ERestore n (Ok (tid, in_sourceCheckpointId i)) t2 f2; EPromote n (Ok tt) t3 f3] s0 in
  preparable sha256_hex i t0 (db s0) -> t1 < in_expiresAt i ->
  exists row r r', row_of (recoveryId sha256_hex i) (db s) = Some row
    /\ status row = promoted /\ transfer_id row = Some tid /\ promoted_at row = Some t3
    /\ log s = log s0 ++ [LRestore r; LAck (recoveryId sha256_hex i) tid (in_sourceCheckpointId i); LPromote r']
    /\ r = RecoveryRecord (new_row sha256_hex i t0) (in_expected i)
    /\ rec_expected r' = in_expected i /\ calls s = calls s0.
Proof.
  intros s0 n s Hprep Ht1. set (i0 := recoveryId sha256_hex i).
  pose proof (history_run_ok sha256_hex true l _ (fresh_system_ok models reservations)) as Hok. fold s0 in Hok.
  destruct (prepare_new sha256_hex i t0 (db s0) Hprep) as [Hp1 Hrow1]. fold i0 in Hrow1.
  set (r := RecoveryRecord (new_row sha256_hex i t0) (in_expected i)) in *.
  set (d1 := set_recoveries _ (db s0)) in *.
  assert (Hmap : mapRecovery (rec_row r) = Ok r).
  { pose proof Hp1 as Hreq. destruct Hprep as (Hv & He & Hsc & _). unfold mapRecovery. cbn [r rec_row compatibility_json new_row].
    destruct (compatibility_round_trip (in_expected i)) as (v & -> & ->); [|done|done].
    unfold input_valid in Hv. by bool_prop. }
  assert (Hnd1 : NoDup (ids d1)).
  { pose proof (prepare_moved sha256_hex i t0 (db s0) (so_ids _ Hok)) as [H _]. by rewrite Hp1 in H. }
  destruct (start_exact i0 t1 d1 r Hnd1 Hrow1 Hmap) as (d2 & Hst & Hids2 & Hrow2); [done|done|].
  set (r2 := RecoveryRecord (set_status restoring t1 (rec_row r)) (rec_expected r)).
  pose proof (mapRecovery_same (rec_row r) (rec_row r2) r Hmap eq_refl : mapRecovery (rec_row r2) = Ok r2) as Hmap2.
  destruct (restore_exact r r2 tid t2 f2 d2) as (d3 & Hres & Hids3 & Hrow3);
    [by rewrite Hids2|done|done|exact Hrow2|done|done|].
  set (r3 := RecoveryRecord (set_status promoting t2 (set_restored tid t2 (rec_row r2))) (rec_expected r2)) in *.
  pose proof (mapRecovery_same (rec_row r) (rec_row r3) r Hmap eq_refl : mapRecovery (rec_row r3) = Ok r3) as Hmap3.
  destruct (promote_exact r3 t3 f3 d3) as (d4 & Hpro & Hrow4); [by rewrite Hids3, Hids2|exact Hrow3|done|done|].
  assert (Hcall : forall w, (calls s0 ++ [w]) !! n = Some w) by (intros w; unfold n; by rewrite list_lookup_middle).
  assert (Htake : forall w, take_call n (calls s0 ++ [w]) = calls s0).
  { intros w. unfold take_call, n. rewrite take_app_length, drop_ge by (rewrite length_app; simpl; lia). by rewrite app_nil_r. }
  assert (Hs : s = System d4 (calls s0) (log s0 ++ [LRestore r; LAck i0 tid (in_sourceCheckpointId i); LPromote r3])).
  { unfold s, run. cbn [foldl]. unfold step at 4. rewrite Hp1. cbn [snd].
    unfold step at 3. cbn [db calls log]. fold i0. rewrite Hst.
    unfold step at 2. cbn [db calls log]. rewrite Hcall. cbn [in_sourceCheckpointId].
    change (in_sourceCheckpointId i) with (source_checkpoint_id (rec_row r2)). rewrite Hres, Htake.
    unfold step. cbn [db calls log]. rewrite Hcall. change (id (rec_row r)) with (id (rec_row r3)). rewrite Hpro, Htake.
    cbn [snd log_answer]. f_equal. by rewrite <- !app_assoc. }
  exists (set_promoted t3 (rec_row r3)), r, r3. rewrite Hs. cbn [db calls log]. by split_and!.
Qed.

(** C25 (error). With the numbers that [node:sqlite] reports by default, no recovery is ever
    carried out: neither the restorer nor [promote] is ever called, because the first
    transition of a prepared recovery throws after it wrote its row, which is left
    [restoring] and can never be started again. *)
Theorem recovery_never_starts (sha256_hex : bytes -> jsstring) (models reservations : list jsstring)
    (l : list event) :
  let s := run sha256_hex false l (fresh_system models reservations) in
  log s = [] /\ calls s = []
  /\ forall i r now, row_of i (db s) = Some (rec_row r) -> mapRecovery (rec_row r) = Ok r ->
     status (rec_row r) = prepared -> now < expires_at (rec_row r) ->
     exists d row, startRecovery false i now (db s)
         = (Err "activation_checkpoint_recovery_transition_failed:prepared:restoring", d)
       /\ row_of i d = Some row /\ status row = restoring.
Proof.
  intros s. pose proof (history_run_ok sha256_hex false l _ (fresh_system_ok models reservations)) as Hok. fold s in Hok.
  pose proof (never_called sha256_hex l _ (fresh_system_ok models reservations) (conj eq_refl eq_refl)) as Hquiet.
  split_and!; [apply Hquiet|apply Hquiet|].
  intros i r now Hrow Hmap Hs He.
  destruct (transition_row false i prepared restoring now (db s) (so_ids _ Hok)) as (d & Ht & Hup).
  pose proof (updated_hit _ _ _ _ _ Hup Hrow) as Hrow'. cbv beta in Hrow'.
  assert (Hhas : has_status prepared (rec_row r) = true) by (unfold has_status; by rewrite Hs).
  rewrite Hhas in Hrow'. exists d, (set_status restoring now (rec_row r)). split_and!; [|done|done].
  unfold startRecovery, se_bind at 1. rewrite require_row, Hrow, Hmap. unfold has_status at 1 2. rewrite Hs.
  rewrite (proj2 (Z.leb_gt _ _)) by done. simpl. unfold se_bind. by rewrite Ht.
Qed.
