(* ===== verification/CheckpointExamples.v ===== *)
(** * Checkpoints: concrete runs

    The claims on checkpoints and recoveries at concrete inputs.  The hash and the
    signature are functions of the right type that are easy to compute. *)

From S2P Require Import Prelude JsString JsMap JsSort JsonText CanonicalJson JsonParse Schema Sql Base64 Checkpoint CheckpointStore CheckpointStoreProps CheckpointTransfer CheckpointTransferProps CheckpointChunks CheckpointWorker CheckpointUpload CheckpointHub CheckpointHubProps CheckpointScope CheckpointRestore CheckpointRecovery CheckpointRecoveryText CheckpointRecoveryProps.

#[local] Open Scope Z_scope.

(** ** Parameters *)

Definition toy_hash (b : bytes) : jsstring := replicate 63 48 ++ [48 + byteLength b mod 10].
Definition toy_sign (m : bytes) : bytes := repeat (byteLength m mod 256) 64.
Definition toy_verify (m signature : bytes) : bool := bool_decide (signature = toy_sign m).
Definition toy_keys (k : jsstring) : option (bytes -> bytes -> bool) :=
  if decide (k = js "key-1") then Some toy_verify else None.
Definition toy_uuid (s : jsstring) : bool := Z.of_nat (length s) =? 36.
Definition toy_compare (a b : jsstring) : Z := if units_lt (utf16 a) (utf16 b) then -1 else 1.

Lemma toy_hash_typed : hash_well_typed toy_hash.
Proof.
  intros b. unfold toy_hash. rewrite length_app, length_replicate. split; [done|].
  rewrite forallb_app. simpl. rewrite andb_true_r. unfold is_hex, in_range. pose proof (Z.mod_pos_bound (byteLength b) 10). lia.
Qed.

Lemma toy_sign_typed : signer_well_typed toy_sign.
Proof.
  intros b. unfold toy_sign. split; [|by unfold byteLength; rewrite repeat_length].
  apply Forall_forall. intros x Hx. apply list_elem_of_In, repeat_spec in Hx as ->.
  unfold is_byte. pose proof (Z.mod_pos_bound (byteLength b) 256). lia.
Qed.

Lemma toy_verify_sign m : toy_verify m (toy_sign m) = true.
Proof. unfold toy_verify. by apply bool_decide_eq_true. Qed.

Lemma toy_collation : collation (fun _ _ => 0).
Proof. split; [by left|done]. Qed.

(** ** A checkpoint of three bytes *)

Definition zeros : jsstring := js "sha256:0000000000000000000000000000000000000000000000000000000000000000".
Definition payload0 : bytes := [7; 8; 9].
Definition u0 : UnsignedActivationCheckpoint :=
  Unsigned (js "sha256:0000000000000000000000000000000000000000000000000000000000000007") (js "stage-1") zeros 1
    zeros zeros zeros zeros 0 4 10 (payload_digest toy_hash payload0) 3 100 5000 (js "key-1").
Definition c0 : ActivationCheckpoint :=
  Checkpoint u0 (identity_of toy_hash u0) (b64url_encode (toy_sign (signed_text u0 (identity_of toy_hash u0)))).
Definition e0 : ActivationCheckpointCompatibility :=
  Compatibility (js "key-1") (js "sha256:0000000000000000000000000000000000000000000000000000000000000007") zeros 1
    zeros zeros zeros zeros (js "stage-1") 0 4 (Some 10).

Definition uuid1 : jsstring := js "00000000-0000-4000-8000-000000000001".
Definition uuid2 : jsstring := js "00000000-0000-4000-8000-000000000002".
Definition store0 : store := Store [] 0 (Limits 2 10 20).
Definition r0 : ActivationCheckpointRequest := Request uuid1 7 e0 10 4000.

Lemma c0_signed : signActivationCheckpoint toy_hash u0 toy_sign = Ok c0.
Proof. vm_compute. reflexivity. Qed.

Lemma signed_checkpoint_well_typed_witness :
  exists c, signActivationCheckpoint toy_hash u0 toy_sign = Ok c
    /\ verifyActivationCheckpoint toy_hash c payload0 toy_keys e0 200 = Ok c.
Proof.
  destruct (signed_checkpoint_well_typed toy_hash toy_keys toy_sign toy_verify u0 toy_hash_typed toy_sign_typed)
    as (c & Hc & _ & _ & Hv); [vm_compute; reflexivity|apply toy_verify_sign|vm_compute; reflexivity|].
  exists c. split; [exact Hc|]. apply Hv; try (vm_compute; reflexivity). vm_compute. discriminate.
Defined.

(** Two more of the same stage, at later positions, fill the store. *)
Definition c_at (position : Z) : ActivationCheckpoint :=
  let u := Unsigned (js "sha256:0000000000000000000000000000000000000000000000000000000000000007") (js "stage-1") zeros 1
    zeros zeros zeros zeros 0 4 position (payload_digest toy_hash payload0) 3 100 5000 (js "key-1") in
  Checkpoint u (identity_of toy_hash u) (b64url_encode (toy_sign (signed_text u (identity_of toy_hash u)))).
Definition toy_put (c : ActivationCheckpoint) (now : Z) (s : store) : res ActivationCheckpoint * store :=
  put toy_hash (fun _ _ => 0) toy_keys c payload0 e0 now s.
Lemma toy_put_ok c now s : store_ok toy_hash toy_keys s -> store_ok toy_hash toy_keys (toy_put c now s).2.
Proof. intros H. exact (proj1 (put_keeps toy_hash (fun _ _ => 0) toy_keys c payload0 e0 now s H)). Qed.

Definition full_store : store := (toy_put (c_at 1000) 160 (toy_put (c_at 100) 150 store0).2).2.

(** The store is full; of its two entries the one used first is evicted and the other
    stays. *)
Lemma store_put_makes_room_witness :
  is_full 3 full_store = true
  /\ exists s', toy_put c0 200 full_store = (Ok c0, s')
    /\ map_get (entries s') (checkpointId c0) = Some (Stored c0 payload0 200)
    /\ map_get (entries s') (checkpointId (c_at 100)) = None
    /\ map_get (entries s') (checkpointId (c_at 1000)) = Some (Stored (c_at 1000) payload0 160).
Proof.
  split; [vm_compute; reflexivity|].
  destruct (store_put_makes_room toy_hash (fun _ _ => 0) toy_keys full_store c0 payload0 e0 200)
    as (s' & Hp & _ & Hg & _).
  - unfold full_store. do 2 apply toy_put_ok. apply (newStore_ok _ _ (NInt 2) (NInt 10) (NInt 20)). vm_compute. reflexivity.
  - exact toy_collation.
  - vm_compute. reflexivity.
  - vm_compute. discriminate.
  - vm_compute. reflexivity.
  - exists s'. split; [exact Hp|]. split; [exact Hg|]. vm_compute in Hp. injection Hp as <-. split; vm_compute; reflexivity.
Defined.

Definition first_call : call := CExpect uuid1 (js "worker") (js "session") e0 (NInt 10) (NInt 4000).
Definition begin_call : call := CBegin (js "worker") (js "session") (Begin uuid1 c0 1).

Lemma checkpoint_authority_bounded_witness :
  store_ok toy_hash toy_keys
    (checkpoint_store (history toy_uuid toy_hash toy_compare toy_keys [(10, first_call); (20, begin_call)]
       (newAuthority store0))).
Proof.
  apply (checkpoint_authority_bounded toy_uuid toy_hash toy_compare toy_keys (NInt 2) (NInt 10) (NInt 20) store0
    [(10, first_call); (20, begin_call)]). vm_compute. reflexivity.
Defined.

(** A hub that asked its worker for a checkpoint. *)
Definition connected : hub_run := HubRun (CheckpointHub [(js "worker", js "session")] (newAuthority store0) [] []) [] [].
Definition asked : hub_run :=
  HubRun (requestActivationCheckpoint true uuid1 (js "worker") 7 e0 10 4000 10 (hr_hub connected)).2 [] [].

Lemma asked_reached : rtc (hub_step toy_uuid toy_hash toy_compare toy_keys) (new_run store0) asked.
Proof.
  eapply rtc_l; [exact (hs_connect toy_uuid toy_hash toy_compare toy_keys (js "worker") (js "session") (new_run store0))|].
  apply rtc_once. exact (hs_request toy_uuid toy_hash toy_compare toy_keys true uuid1 (js "worker") 7 e0 10 4000 10 connected).
Qed.

(** Another worker's first message leaves the transfer as it is. *)
Lemma checkpoint_messages_scoped_witness :
  exists t, map_get (transfers (activationCheckpointTransfers
      (handleCheckpointMessage toy_uuid toy_hash toy_compare toy_keys (js "stranger") (js "session")
         (MBegin (Begin uuid1 c0 1)) 20 (hr_hub asked)).2)) uuid1 = Some t.
Proof.
  destruct (checkpoint_messages_scoped toy_uuid toy_hash toy_compare toy_keys (NInt 2) (NInt 10) (NInt 20) store0 asked
    (js "stranger") (js "session") (MBegin (Begin uuid1 c0 1)) 20) as (Ht & _).
  - vm_compute. reflexivity.
  - exact asked_reached.
  - eexists. edestruct (Ht uuid1) as [H|[_ [code H]]]; [vm_compute; reflexivity|..|exact H|discriminate H].
    + vm_compute. intros [H _]. discriminate H.
    + vm_compute. reflexivity.
Defined.

(** ** The upload *)

Lemma c0_agrees : upload_agrees toy_hash toy_keys r0 toy_sign u0 payload0.
Proof.
  split.
  - exact toy_sign_typed.
  - exists toy_verify. split; [vm_compute; reflexivity|apply toy_verify_sign].
  - repeat constructor; unfold is_byte; lia.
  - reflexivity.
  - vm_compute. discriminate.
  - reflexivity.
  - vm_compute. reflexivity.
  - vm_compute. reflexivity.
Qed.

Definition a1 : authority :=
  (expect uuid1 (js "worker") (js "session") e0 (NInt 10) (NInt 4000) 50 (newAuthority store0)).2.

Lemma checkpoint_upload_witness :
  exists a', deliver toy_uuid toy_hash (fun _ _ => 0) toy_keys (js "worker") (js "session") (fun _ => 200) 0
      (publishActivationCheckpoint toy_uuid toy_hash (fun _ => true) (fun _ => 150) (fun _ => true) r0
         (Some (Ok (c0, payload0)))) a1 = (Ok tt, a')
    /\ (prepareRestore toy_hash toy_keys uuid2 (js "other") (js "session-2") (checkpointId c0) e0 3000 300 a').1
       = Ok (uuid2, c0, payload0).
Proof.
  destruct (checkpoint_upload toy_uuid toy_hash (fun _ _ => 0) toy_keys (fun _ => true) (fun _ => true)
    (fun _ => 150) (fun _ => 200) toy_sign (newAuthority store0) a1 (js "worker") (js "session") r0 50 u0 c0 payload0)
    as (a' & Hd & _ & Hr).
  - apply (newStore_ok _ _ (NInt 2) (NInt 10) (NInt 20)). vm_compute. reflexivity.
  - vm_compute. reflexivity.
  - vm_compute. reflexivity.
  - exact c0_signed.
  - exact c0_agrees.
  - vm_compute. discriminate.
  - reflexivity.
  - apply map_wf_nil.
  - reflexivity.
  - reflexivity.
  - intros n. vm_compute. reflexivity.
  - intros n. vm_compute. split; reflexivity.
  - exists a'. split; [exact Hd|]. apply Hr; [discriminate|discriminate|lia|vm_compute; reflexivity].
Defined.

(** ** The restoration *)

Definition stage_hash : jsstring :=
  match activationCheckpointRequestIdHash toy_hash 7 with Ok h => h | Err _ => [] end.
Definition u1 : UnsignedActivationCheckpoint :=
  Unsigned stage_hash (js "stage-1") zeros 1 zeros zeros zeros zeros 0 4 10 (payload_digest toy_hash payload0) 3
    100 5000 (js "key-1").
Definition c1 : ActivationCheckpoint :=
  Checkpoint u1 (identity_of toy_hash u1) (b64url_encode (toy_sign (signed_text u1 (identity_of toy_hash u1)))).
Definition e1 : ActivationCheckpointCompatibility :=
  Compatibility (js "key-1") stage_hash zeros 1 zeros zeros zeros zeros (js "stage-1") 0 4 (Some 10).
Definition store1 : store := Store [(checkpointId c1, Stored c1 payload0 120)] 3 (Limits 2 10 20).
Definition hub1 : checkpoint_hub :=
  CheckpointHub [(js "other", js "session-2")] (newAuthority store1) [] [].
Definition worker1 : worker := Worker [] [(js "launch-1", true)] [(js "launch-1", js "stage-1")] [].

Lemma c1_verified now : now < 5000 -> verified toy_hash toy_keys c1 payload0 e1 now.
Proof.
  intros Hn. split; try (vm_compute; reflexivity); [|exact Hn|vm_compute; discriminate].
  exists toy_verify. split; vm_compute; reflexivity.
Qed.

Lemma checkpoint_restore_witness :
  exists t h1 msgs wk1,
    restoreStart toy_uuid toy_hash toy_keys uuid2 (js "other") (js "launch-1") 7 (checkpointId c1) e1 10 3000 300 hub1
      = (Ok t, h1)
    /\ restore_sends toy_uuid toy_hash (fun _ => true) (fun _ => true) t = (msgs, Ok tt)
    /\ receive toy_hash (fun _ => 310) 0 msgs worker1 = (Ok [RestoreCall (rt_begin t) payload0], wk1).
Proof.
  destruct (checkpoint_restore toy_uuid toy_hash toy_compare toy_keys (fun _ => true) (fun _ => true) (fun _ => 310)
    hub1 worker1 uuid2 (js "other") (js "session-2") (js "launch-1") 7 e1 10 3000 300 320 120 c1 payload0)
    as (t & h1 & msgs & wk1 & h2 & H1 & H2 & H3 & _).
  - vm_compute. reflexivity.
  - discriminate.
  - discriminate.
  - vm_compute. reflexivity.
  - apply c1_verified. lia.
  - repeat constructor; unfold is_byte; lia.
  - lia.
  - lia.
  - vm_compute. reflexivity.
  - reflexivity.
  - reflexivity.
  - intros n. lia.
  - reflexivity.
  - vm_compute. reflexivity.
  - vm_compute. reflexivity.
  - exists t, h1, msgs, wk1. split; [exact H1|]. split; [exact H2|exact H3].
Defined.

(** A restoration that is started, acknowledged, and resolved. *)
Definition started1 := restoreStart toy_uuid toy_hash toy_keys uuid2 (js "other") (js "launch-1") 7 (checkpointId c1)
  e1 10 3000 300 hub1.
Definition acked1 := handleCheckpointMessage toy_uuid toy_hash toy_compare toy_keys (js "other") (js "session-2")
  (MRestored uuid2 (checkpointId c1)) 320 started1.2.
Definition run1 : hub_run :=
  HubRun acked1.2 [(uuid2, Completion (js "other") (js "session-2") (checkpointId c1))]
    [(js "other", js "session-2", uuid2, checkpointId c1)].

Lemma run1_steps : rtc (hub_step toy_uuid toy_hash toy_compare toy_keys) (new_run store1) run1.
Proof.
  eapply rtc_l; [apply (hs_connect _ _ _ _ (js "other") (js "session-2"))|].
  eapply rtc_l; [|apply rtc_once; apply (hs_message _ _ _ _ (js "other") (js "session-2")
    (MRestored uuid2 (checkpointId c1)) 320 (HubRun started1.2 [(uuid2, Completion (js "other") (js "session-2") (checkpointId c1))] []))].
  apply (hs_start toy_uuid toy_hash toy_compare toy_keys uuid2 (js "other") (js "session-2") (js "launch-1") 7
    (checkpointId c1) e1 10 3000 300 (HubRun hub1 [] [])
    (match started1.1 with Ok t => t | Err _ => RestoreTask [] (RestoreBegin [] [] 0 e1 c1 0 0 0) [] end) started1.2).
  - split; [by intros ?%elem_of_nil|reflexivity].
  - vm_compute. reflexivity.
  - vm_compute. reflexivity.
Qed.

Lemma restore_resolved_by_acknowledgement_witness :
  exists p, (uuid2, p) ∈ hr_started run1 /\ co_workerId p = js "other".
Proof.
  destruct (restore_resolved_by_acknowledgement toy_uuid toy_hash toy_compare toy_keys store1 run1 run1_steps) as [_ H].
  destruct (H uuid2 (uuid2, checkpointId c1)) as (p & Hp & _ & Hack).
  - vm_compute. left.
  - exists p. split; [exact Hp|]. apply list_elem_of_singleton in Hack. congruence.
Defined.

(** ** A recovery *)

Definition input1 : ActivationCheckpointRecoveryInput :=
  RecoveryInput (js "model") None 1 (checkpointId c1) (js "other") (js "launch-1") 7 e1 10 3000.

Lemma input1_preparable : preparable toy_hash input1 300 (Database [] [js "model"] []).
Proof.
  split_and!; [vm_compute; reflexivity|vm_compute; reflexivity| |by left|done|done].
  apply ascii_scalars. match goal with |- ?P => apply (bool_decide_unpack P) end. vm_compute. exact I.
Qed.

Lemma recovery_completes_witness :
  exists row, row_of (recoveryId toy_hash input1)
      (db (run toy_hash true [EPrepare input1 300; EStart (recoveryId toy_hash input1) 310;
             ERestore 0 (Ok (uuid2, checkpointId c1)) 320 321; EPromote 0 (Ok tt) 330 331]
             (fresh_system [js "model"] []))) = Some row
    /\ status row = promoted.
Proof.
  destruct (recovery_completes toy_hash [js "model"] [] [] input1 uuid2 300 310 320 321 330 331)
    as (row & r & r' & Hrow & Hs & _).
  - exact input1_preparable.
  - vm_compute. reflexivity.
  - exists row. split; [exact Hrow|exact Hs].
Defined.

(** With the numbers that [changes] has by default, the recovery is left [restoring]. *)
Lemma recovery_is_stuck :
  let d := (prepare toy_hash input1 300 (Database [] [js "model"] [])).2 in
  let '(out, d) := startRecovery false (recoveryId toy_hash input1) 310 d in
  out = Err "activation_checkpoint_recovery_transition_failed:prepared:restoring"
  /\ (startRecovery false (recoveryId toy_hash input1) 320 d).1
     = Err "activation_checkpoint_recovery_is_not_prepared:restoring".
Proof. vm_compute. split; reflexivity. Qed.

(** [runtime.checkpoint.failed] ends the transfer it names, whoever sends it. *)
Lemma failed_message_ends_any_transfer :
  let h := CheckpointHub [] a1 [] [] in
  (map_get (transfers a1) uuid1 <> None)
  /\ map_get (transfers (activationCheckpointTransfers
       (handleCheckpointMessage toy_uuid toy_hash toy_compare toy_keys (js "stranger") (js "elsewhere")
          (MFailed uuid1 "checkpoint_capture_failed") 60 h).2)) uuid1 = None.
Proof. vm_compute. split; [discriminate|reflexivity]. Qed.
