(* ===== verification/Tunnel.v ===== *)
(** * The runtime stream tunnel

    [RuntimeStreamTunnel] of [src/src/worker/runtime-stream-tunnel.ts]: the
    sockets of the local runtime processes carried over the coordinator's
    connection, with replay buffers and offsets that let a stream survive the
    loss of that connection.

    A socket is seen through what the tunnel does with it: the bytes written to
    it, its [writableLength], whether it is paused.  The [send] callback, the
    clock and the direct transport are outside: [answers] holds what [send] will
    return, a message that is compared with the clock comes with the time, and a
    call on the direct transport is logged in [direct].  Timestamps kept only for
    display are left out. *)

From S2P Require Import Prelude JsString JsMap JsonText Base64.

#[local] Open Scope Z_scope.

(** ** Data *)

Record ReplayChunk := Replay {
  sequence : Z; offset : Z; data : jsstring; chunkBytes : Z }.

Record RecoveryState := Recovery {
  recoveryToken : jsstring;
  generation : Z;
  sendOffset : Z;
  acknowledgedOffset : Z;
  receiveOffset : Z;
  replayBytes : Z;
  replay : list ReplayChunk;
  suspended : bool;
}.

Inductive TransportMode := Negotiating | Relay | Direct.
#[export] Instance TransportMode_eq_dec : EqDecision TransportMode.
Proof. solve_decision. Defined.

Record Socket := Sock {
  written : bytes;          (* everything written to it *)
  writableLength : Z;
  paused : bool;
  destroyed : bool;
}.

(** [taken] is the content that [bytesTx] counts. *)
Record StreamSession := Session {
  socket : Socket;
  opened : bool;
  sendSequence : Z;
  receiveSequence : Z;
  recovery : option RecoveryState;
  destinationNodeId : option jsstring;
  targetPort : Z;
  transportMode : TransportMode;
  bytesTx : Z;
  bytesRx : Z;
  taken : bytes;
}.

(** The optional recovery identity of a message. *)
Definition ident : Type := option Z * option jsstring.

(** What the tunnel sends to the coordinator. *)
Inductive envelope :=
| StreamOpen (id destination : jsstring) (port generation : Z) (token : jsstring)
| StreamOpened (id : jsstring) (who : ident)
| StreamData (id : jsstring) (sequence : Z) (who : ident) (offset : option Z) (data : jsstring)
| StreamAck (id : jsstring) (generation : Z) (token : jsstring) (acknowledged : Z)
| StreamResume (id : jsstring) (generation : Z) (token : jsstring)
    (sendOffset acknowledged receiveOffset bufferedFrom : Z)
| StreamEnd (id : jsstring) (who : ident) (final : option Z)
| StreamError (id : jsstring) (who : ident) (message : jsstring)
| DirectFallback (id connection reason : jsstring)
| DirectCommitted (id connection : jsstring).

(** What the coordinator sends to the tunnel. *)
Inductive message :=
| MOpen (id : jsstring) (port : Z) (who : ident)
| MOpened (id : jsstring) (who : ident)
| MData (id : jsstring) (sequence : Z) (who : ident) (offset : option Z) (data : jsstring)
| MAck (id : jsstring) (generation : Z) (token : jsstring) (acknowledged : Z)
| MSuspend (id : jsstring) (generation : Z) (token : jsstring) (deadline now : Z)
| MResumed (id : jsstring) (previous generation : Z) (token : jsstring) (sendFrom : Z)
| MEnd (id : jsstring) (who : ident) (final : option Z)
| MError (id : jsstring) (who : ident) (message : jsstring)
| MDirectOffer (id connection : jsstring)
| MDirectConnect (id destination connection : jsstring) (grantPort : Z)
| MDirectCommit (id connection : jsstring) (isDestination : bool)
| MDirectCancel (id connection : jsstring).

(** Calls on the direct transport. *)
Inductive direct_call :=
| DirectOffer (id connection : jsstring)
| DirectConnect (id connection : jsstring)
| DirectCommit (id connection : jsstring)
| DirectCancel (id connection : jsstring)
| DirectWrite (id : jsstring) (chunk : bytes)
| DirectCloseSource (id : jsstring).

Record LinkFailure := Failure {
  f_stream : jsstring; f_destination : option jsstring; f_generation : Z;
  f_checkpoint : bool; f_sourceOffset : Z; f_destinationOffset : Z }.

Record Snapshot := Completed {
  c_stream : jsstring; c_destination : option jsstring; c_port : Z; c_bytesTx : Z; c_bytesRx : Z }.

Record tunnel := Tunnel {
  nodeId : jsstring;
  maxReplayBytes : Z;
  replayHighWaterBytes : Z;
  replayLowWaterBytes : Z;
  sessions : list (jsstring * StreamSession);
  allowedTargetPorts : list Z;
  transportAvailable : bool;
  runtimeLinkFailures : list LinkFailure;
  completedTransportSnapshots : list Snapshot;
  answers : list bool;
  outbox : list envelope;
  direct : list direct_call;
}.

Definition MAX_STREAMS : Z := 256.
Definition MAX_SOCKET_BUFFERED_BYTES : Z := 8 * 1024 * 1024.
Definition MAX_RUNTIME_STREAM_REPLAY_BYTES : Z := 8 * 1024 * 1024.
Definition MAX_RUNTIME_STREAM_CHUNK_BYTES : Z := 48 * 1024.

(** ** Field updates *)

Definition set_paused (v : bool) (s : Socket) : Socket :=
  Sock (written s) (writableLength s) v (destroyed s).
Definition sock_write (b : bytes) (s : Socket) : Socket :=
  Sock (written s ++ b) (writableLength s + byteLength b) (paused s) (destroyed s).

Definition set_generation v r := Recovery (recoveryToken r) v (sendOffset r) (acknowledgedOffset r) (receiveOffset r) (replayBytes r) (replay r) (suspended r).
Definition set_receiveOffset v r := Recovery (recoveryToken r) (generation r) (sendOffset r) (acknowledgedOffset r) v (replayBytes r) (replay r) (suspended r).
Definition set_suspended v r := Recovery (recoveryToken r) (generation r) (sendOffset r) (acknowledgedOffset r) (receiveOffset r) (replayBytes r) (replay r) v.
Definition push_replay c r := Recovery (recoveryToken r) (generation r) (sendOffset r + chunkBytes c) (acknowledgedOffset r) (receiveOffset r) (replayBytes r + chunkBytes c) (replay r ++ [c]) (suspended r).

Definition set_socket v s := Session v (opened s) (sendSequence s) (receiveSequence s) (recovery s) (destinationNodeId s) (targetPort s) (transportMode s) (bytesTx s) (bytesRx s) (taken s).
Definition set_opened v s := Session (socket s) v (sendSequence s) (receiveSequence s) (recovery s) (destinationNodeId s) (targetPort s) (transportMode s) (bytesTx s) (bytesRx s) (taken s).
Definition set_recovery v s := Session (socket s) (opened s) (sendSequence s) (receiveSequence s) v (destinationNodeId s) (targetPort s) (transportMode s) (bytesTx s) (bytesRx s) (taken s).
Definition set_mode v s := Session (socket s) (opened s) (sendSequence s) (receiveSequence s) (recovery s) (destinationNodeId s) (targetPort s) v (bytesTx s) (bytesRx s) (taken s).
Definition count_sent (b : bytes) s := Session (socket s) (opened s) (sendSequence s) (receiveSequence s) (recovery s) (destinationNodeId s) (targetPort s) (transportMode s) (bytesTx s + byteLength b) (bytesRx s) (taken s ++ b).
Definition next_sequence s := Session (socket s) (opened s) (sendSequence s + 1) (receiveSequence s) (recovery s) (destinationNodeId s) (targetPort s) (transportMode s) (bytesTx s) (bytesRx s) (taken s).
Definition next_received s := Session (socket s) (opened s) (sendSequence s) (receiveSequence s + 1) (recovery s) (destinationNodeId s) (targetPort s) (transportMode s) (bytesTx s) (bytesRx s) (taken s).
Definition write_socket (b : bytes) s := Session (sock_write b (socket s)) (opened s) (sendSequence s) (receiveSequence s) (recovery s) (destinationNodeId s) (targetPort s) (transportMode s) (bytesTx s) (bytesRx s + byteLength b) (taken s).
Definition pause_socket (v : bool) s := set_socket (set_paused v (socket s)) s.
Definition on_recovery (f : RecoveryState -> RecoveryState) s := set_recovery (f <$> recovery s) s.

Definition set_sessions v t := Tunnel (nodeId t) (maxReplayBytes t) (replayHighWaterBytes t) (replayLowWaterBytes t) v (allowedTargetPorts t) (transportAvailable t) (runtimeLinkFailures t) (completedTransportSnapshots t) (answers t) (outbox t) (direct t).
Definition set_ports v t := Tunnel (nodeId t) (maxReplayBytes t) (replayHighWaterBytes t) (replayLowWaterBytes t) (sessions t) v (transportAvailable t) (runtimeLinkFailures t) (completedTransportSnapshots t) (answers t) (outbox t) (direct t).
Definition set_available v t := Tunnel (nodeId t) (maxReplayBytes t) (replayHighWaterBytes t) (replayLowWaterBytes t) (sessions t) (allowedTargetPorts t) v (runtimeLinkFailures t) (completedTransportSnapshots t) (answers t) (outbox t) (direct t).
Definition set_failures v t := Tunnel (nodeId t) (maxReplayBytes t) (replayHighWaterBytes t) (replayLowWaterBytes t) (sessions t) (allowedTargetPorts t) (transportAvailable t) v (completedTransportSnapshots t) (answers t) (outbox t) (direct t).
Definition set_completed v t := Tunnel (nodeId t) (maxReplayBytes t) (replayHighWaterBytes t) (replayLowWaterBytes t) (sessions t) (allowedTargetPorts t) (transportAvailable t) (runtimeLinkFailures t) v (answers t) (outbox t) (direct t).
Definition set_answers v t := Tunnel (nodeId t) (maxReplayBytes t) (replayHighWaterBytes t) (replayLowWaterBytes t) (sessions t) (allowedTargetPorts t) (transportAvailable t) (runtimeLinkFailures t) (completedTransportSnapshots t) v (outbox t) (direct t).
Definition push_out e t := Tunnel (nodeId t) (maxReplayBytes t) (replayHighWaterBytes t) (replayLowWaterBytes t) (sessions t) (allowedTargetPorts t) (transportAvailable t) (runtimeLinkFailures t) (completedTransportSnapshots t) (answers t) (outbox t ++ [e]) (direct t).
Definition call_direct c t := Tunnel (nodeId t) (maxReplayBytes t) (replayHighWaterBytes t) (replayLowWaterBytes t) (sessions t) (allowedTargetPorts t) (transportAvailable t) (runtimeLinkFailures t) (completedTransportSnapshots t) (answers t) (outbox t) (direct t ++ [c]).

Definition session_of (t : tunnel) (id : jsstring) : option StreamSession := map_get (sessions t) id.

(** Mutation of a session that is in the table. *)
Definition on_session (id : jsstring) (f : StreamSession -> StreamSession) (t : tunnel) : tunnel :=
  match session_of t id with
  | Some s => set_sessions (map_set (sessions t) id (f s)) t
  | None => t
  end.

(** ** Construction *)

Definition tunnel_new (node : jsstring) (requested : option num) (available : option bool)
  : res tunnel :=
  let limit := match requested with Some n => n | None => NInt MAX_RUNTIME_STREAM_REPLAY_BYTES end in
  match limit with
  | NFrac => Err "runtime_stream_replay_limit_is_invalid"
  | NInt z =>
      throw_if (negb (is_safe z) || (z <? MAX_RUNTIME_STREAM_CHUNK_BYTES)
                || (MAX_RUNTIME_STREAM_REPLAY_BYTES <? z))
        with "runtime_stream_replay_limit_is_invalid" ;;
      Ok (Tunnel node z (Z.max MAX_RUNTIME_STREAM_CHUNK_BYTES (z * 3 / 4)) (z / 2) [] []
            (default true available) [] [] [] [] [])
  end.

(** ** Sending *)

Definition sendEnvelope (e : envelope) (t : tunnel) : bool * tunnel :=
  if negb (transportAvailable t) then (false, t)
  else match answers t with
       | false :: rest => (false, set_answers rest t)
       | true :: rest => (true, push_out e (set_answers rest t))
       | [] => (true, push_out e t)
       end.

Definition identity_of (s : StreamSession) : ident :=
  match recovery s with
  | Some r => (Some (generation r), Some (recoveryToken r))
  | None => (None, None)
  end.

Definition matchesRecoveryIdentity (s : StreamSession) (who : ident) : bool :=
  bool_decide (who = identity_of s).

(** [error] is the text of the error, if any. *)
Definition closeSession (id : jsstring) (notify : bool) (error : option jsstring) (t : tunnel) : tunnel :=
  match session_of t id with
  | None => t
  | Some s =>
      let t := set_sessions (map_delete (sessions t) id) t in
      if bool_decide (transportMode s = Direct) then call_direct (DirectCloseSource id) t
      else
        let t := set_completed (take 256 (Completed id (destinationNodeId s) (targetPort s)
                   (bytesTx s) (bytesRx s) :: completedTransportSnapshots t)) t in
        if notify then
          (sendEnvelope (match error with
             | Some text => StreamError id (identity_of s) (slice 1024 text)
             | None => StreamEnd id (identity_of s) (sendOffset <$> recovery s)
             end) t).2
        else t
  end.

Definition sendRecoveryChunk (id : jsstring) (r : RecoveryState) (c : ReplayChunk) (t : tunnel)
  : bool * tunnel :=
  sendEnvelope (StreamData id (sequence c) (Some (generation r), Some (recoveryToken r))
    (Some (offset c)) (data c)) t.

Definition sendAcknowledgement (id : jsstring) (t : tunnel) : tunnel :=
  match session_of t id with
  | Some s =>
      match recovery s with
      | Some r =>
          if negb (transportAvailable t) || suspended r then t
          else (sendEnvelope (StreamAck id (generation r) (recoveryToken r) (receiveOffset r)) t).2
      | None => t
      end
  | None => t
  end.

(** One piece of at most [MAX_RUNTIME_STREAM_CHUNK_BYTES] bytes from the socket. *)
Definition sendSocketChunk (id : jsstring) (piece : bytes) (t : tunnel) : bool * tunnel :=
  match session_of t id with
  | None => (false, t)
  | Some s =>
      let text := b64_encode piece in
      let seq := sendSequence s in
      let t := on_session id (fun s => next_sequence (count_sent piece s)) t in
      match recovery s with
      | None =>
          let '(sent, t) := sendEnvelope (StreamData id seq (None, None) None text) t in
          if sent then (true, t)
          else (false, closeSession id false (Some (js "runtime_stream_transport_unavailable")) t)
      | Some r =>
          if maxReplayBytes t <? replayBytes r + byteLength piece then
            (false, closeSession id true (Some (js "runtime_stream_replay_buffer_exceeded")) t)
          else
            let chunk := Replay seq (sendOffset r) text (byteLength piece) in
            let r := push_replay chunk r in
            let t := on_session id (fun s =>
              let s := set_recovery (Some r) s in
              if replayHighWaterBytes t <=? replayBytes r then pause_socket true s else s) t in
            if negb (transportAvailable t) || suspended r then (true, t)
            else
              let '(sent, t) := sendRecoveryChunk id r chunk t in
              if sent then (true, t)
              else (true, on_session id (fun s =>
                      pause_socket true (on_recovery (set_suspended true) s)) t)
      end
  end.

(** The loop over the pieces of a chunk; [fuel] bounds their number. *)
Fixpoint send_pieces (fuel : nat) (id : jsstring) (chunk : bytes) (t : tunnel) : tunnel :=
  match fuel, chunk with
  | S fuel', _ :: _ =>
      let n := Z.to_nat MAX_RUNTIME_STREAM_CHUNK_BYTES in
      match sendSocketChunk id (take n chunk) t with
      | (true, t) => send_pieces fuel' id (drop n chunk) t
      | (false, t) => t
      end
  | _, _ => t
  end.

(** The socket's "data" event.  [accepted] is what the direct transport would
    answer to [writeSource]. *)
Definition socketData (id : jsstring) (chunk : bytes) (accepted : bool) (t : tunnel) : tunnel :=
  match session_of t id with
  | None => t
  | Some s =>
      if negb (opened s) then t
      else match transportMode s with
           | Direct =>
               let t := call_direct (DirectWrite id chunk) t in
               if accepted then on_session id (count_sent chunk) t
               else closeSession id false (Some (js "direct_transport_session_is_unavailable")) t
           | Negotiating =>
               closeSession id false (Some (js "runtime_stream_data_before_transport_commit")) t
           | Relay => send_pieces (length chunk) id chunk t
           end
  end.

(** ** Opening *)

Definition attachSocket (id : jsstring) (opened : bool) (identity : option (jsstring * Z))
    (destination : option jsstring) (port : Z) (mode : TransportMode) (t : tunnel) : tunnel :=
  let r := match identity with
           | Some (token, g) => Some (Recovery token g 0 0 0 0 [] (negb (transportAvailable t)))
           | None => None
           end in
  set_sessions (map_set (sessions t) id
    (Session (Sock [] 0 false false) opened 0 0 r destination port mode 0 0 [])) t.

(** [openOutgoing], with the stream id and the token it draws. *)
Definition openOutgoing (id token destination : jsstring) (port : Z) (t : tunnel) : tunnel :=
  if MAX_STREAMS <=? map_size (sessions t) then t
  else
    let t := attachSocket id false (Some (token, 0)) (Some destination) port Negotiating t in
    let t := on_session id (pause_socket true) t in
    let '(sent, t) := sendEnvelope (StreamOpen id destination port 0 token) t in
    if sent then t
    else closeSession id false (Some (js "runtime_stream_transport_unavailable")) t.

(** [openIncoming] up to the connection of its socket. *)
Definition openIncoming (id : jsstring) (port : Z) (who : ident) (t : tunnel) : tunnel :=
  let refuse text := (sendEnvelope (StreamError id (None, None) text) t).2 in
  if map_has (sessions t) id then refuse (js "runtime_stream_is_duplicate")
  else if MAX_STREAMS <=? map_size (sessions t) then refuse (js "runtime_stream_capacity_exceeded")
  else if negb (bool_decide (port ∈ allowedTargetPorts t)) then
    refuse (colon (js "runtime_stream_target_is_not_authorized") [port])
  else match who with
       | (Some g, Some token) => attachSocket id true (Some (token, g)) None port Relay t
       | (None, None) => attachSocket id true None None port Relay t
       | _ => refuse (js "runtime_stream_recovery_identity_is_incomplete")
       end.

(** The events of the socket [openIncoming] connects. *)
Definition socketConnected (id : jsstring) (t : tunnel) : tunnel :=
  match session_of t id with
  | None => t
  | Some s => (sendEnvelope (StreamOpened id (identity_of s)) (on_session id (set_opened true) t)).2
  end.

Definition socketTimeout (id : jsstring) (port : Z) (t : tunnel) : tunnel :=
  match session_of t id with
  | None => t
  | Some s =>
      let text := colon (js "runtime_stream_connect_timeout") [port] in
      closeSession id false (Some text) (sendEnvelope (StreamError id (identity_of s) (slice 1024 text)) t).2
  end.

(** [runtime.stream.opened]. *)
Definition receiveOpened (id : jsstring) (who : ident) (t : tunnel) : tunnel :=
  match session_of t id with
  | None => t
  | Some s =>
      if opened s then t
      else
        let downgrade := match recovery s with
          | Some r => bool_decide (who = (None, None)) && (sendOffset r =? 0) && (receiveOffset r =? 0)
          | None => false
          end in
        let t := if downgrade then on_session id (set_recovery None) t else t in
        let s := if downgrade then set_recovery None s else s in
        if negb (matchesRecoveryIdentity s who) then
          closeSession id true (Some (js "runtime_stream_opened_recovery_identity_mismatch")) t
        else
          on_session id (fun s =>
            let s := set_opened true (set_mode Relay s) in
            match recovery s with
            | Some r => if suspended r then s else pause_socket false s
            | None => pause_socket false s
            end) t
  end.

(** ** Receiving *)

Definition receiveRecoverableData (id : jsstring) (s : StreamSession) (r : RecoveryState)
    (who : ident) (off : option Z) (text : jsstring) (t : tunnel) : tunnel :=
  match off with
  | Some off =>
      if negb (matchesRecoveryIdentity s who) then
        closeSession id true (Some (js "runtime_stream_recovery_identity_mismatch")) t
      else
        let bytes := b64_decode text in
        let endOffset := off + byteLength bytes in
        if off <? receiveOffset r then
          if endOffset <=? receiveOffset r then sendAcknowledgement id t
          else closeSession id true (Some (colon (js "runtime_stream_overlapping_replay")
                 [receiveOffset r; off; endOffset])) t
        else if negb (off =? receiveOffset r) then
          closeSession id true (Some (colon (js "runtime_stream_offset_mismatch")
            [receiveOffset r; off])) t
        else if destroyed (socket s)
                || (MAX_SOCKET_BUFFERED_BYTES <? writableLength (socket s) + byteLength bytes) then
          closeSession id true (Some (js "runtime_stream_buffer_exceeded")) t
        else
          sendAcknowledgement id (on_session id (fun s =>
            on_recovery (set_receiveOffset endOffset) (write_socket bytes s)) t)
  | None => closeSession id true (Some (js "runtime_stream_recovery_identity_mismatch")) t
  end.

Definition receiveData (id : jsstring) (seq : Z) (who : ident) (off : option Z) (text : jsstring)
    (t : tunnel) : tunnel :=
  match session_of t id with
  | None => t
  | Some s =>
      if negb (opened s) then t
      else match recovery s with
      | Some r => receiveRecoverableData id s r who off text t
      | None =>
          if negb (bool_decide (who = (None, None))) || match off with Some _ => true | None => false end
          then closeSession id true (Some (js "runtime_stream_unnegotiated_recovery_data")) t
          else if negb (seq =? receiveSequence s) then
            closeSession id true (Some (colon (js "runtime_stream_sequence_mismatch")
              [receiveSequence s; seq])) t
          else
            let t := on_session id next_received t in
            if MAX_SOCKET_BUFFERED_BYTES <? writableLength (socket s) then
              closeSession id true (Some (js "runtime_stream_buffer_exceeded")) t
            else on_session id (write_socket (b64_decode text)) t
      end
  end.

(** The chunks of the replay buffer that end at or before [ack], and the rest. *)
Fixpoint split_replay (ack : Z) (l : list ReplayChunk) : list ReplayChunk * list ReplayChunk :=
  match l with
  | [] => ([], [])
  | c :: l' =>
      if ack <? offset c + chunkBytes c then ([], l)
      else let '(gone, kept) := split_replay ack l' in (c :: gone, kept)
  end.

Definition trimReplayToOffset (r : RecoveryState) (ack : Z) : option RecoveryState :=
  let '(gone, kept) := split_replay ack (replay r) in
  let at_boundary := match kept with c :: _ => offset c =? ack | [] => false end in
  if negb (ack =? sendOffset r) && negb at_boundary then None
  else Some (Recovery (recoveryToken r) (generation r) (sendOffset r) ack (receiveOffset r)
               (replayBytes r - zsum chunkBytes gone) kept (suspended r)).

Definition receiveAcknowledgement (id : jsstring) (g : Z) (token : jsstring) (ack : Z) (t : tunnel)
  : tunnel :=
  match session_of t id with
  | None => t
  | Some s =>
      match recovery s with
      | None => t
      | Some r =>
          if negb (g =? generation r) || negb (bool_decide (token = recoveryToken r)) then
            closeSession id true (Some (js "runtime_stream_ack_recovery_identity_mismatch")) t
          else if ack <=? acknowledgedOffset r then t
          else
            let invalid := closeSession id true (Some (colon
              (js "runtime_stream_ack_offset_is_invalid")
              [acknowledgedOffset r; ack; sendOffset r])) t in
            if sendOffset r <? ack then invalid
            else match trimReplayToOffset r ack with
                 | None => invalid
                 | Some r' =>
                     on_session id (fun s =>
                       let s := set_recovery (Some r') s in
                       if opened s && negb (suspended r') && (replayBytes r' <=? replayLowWaterBytes t)
                       then pause_socket false s else s) t
                 end
      end
  end.

Definition bufferedFromOffset (r : RecoveryState) : Z :=
  match replay r with c :: _ => offset c | [] => acknowledgedOffset r end.

Definition sendResumeState (id : jsstring) (t : tunnel) : tunnel :=
  match session_of t id with
  | None => t
  | Some s =>
      match recovery s with
      | None => t
      | Some r =>
          if negb (transportAvailable t) then t
          else if (acknowledgedOffset r <? bufferedFromOffset r)
                  || (sendOffset r <? acknowledgedOffset r) then
            closeSession id true (Some (js "runtime_stream_replay_state_is_invalid")) t
          else (sendEnvelope (StreamResume id (generation r) (recoveryToken r) (sendOffset r)
                  (acknowledgedOffset r) (receiveOffset r) (bufferedFromOffset r)) t).2
      end
  end.

Definition suspendSession (id : jsstring) (g : Z) (token : jsstring) (deadline now : Z) (t : tunnel)
  : tunnel :=
  match session_of t id with
  | None => t
  | Some s =>
      match recovery s with
      | None => t
      | Some r =>
          if negb (g =? generation r) || negb (bool_decide (token = recoveryToken r))
             || (deadline <=? now) then
            closeSession id true (Some (js "runtime_stream_suspend_is_invalid")) t
          else
            sendResumeState id (on_session id (fun s =>
              pause_socket true (on_recovery (set_suspended true) s)) t)
      end
  end.

(** The loop of [resumeSession] over the replay buffer: [false] when a send
    failed. *)
Fixpoint resend (id : jsstring) (r : RecoveryState) (from : Z) (l : list ReplayChunk) (t : tunnel)
  : bool * tunnel :=
  match l with
  | [] => (true, t)
  | c :: l' =>
      if offset c <? from then resend id r from l' t
      else match sendRecoveryChunk id r c t with
           | (true, t) => resend id r from l' t
           | (false, t) => (false, t)
           end
  end.

Definition resumeSession (id : jsstring) (previous g : Z) (token : jsstring) (from : Z) (t : tunnel)
  : tunnel :=
  match session_of t id with
  | None => t
  | Some s =>
      match recovery s with
      | None => t
      | Some r =>
          let close text := closeSession id true (Some text) t in
          let duplicate := (previous + 1 =? g) && (generation r =? g) in
          if negb duplicate && (negb (previous =? generation r) || negb (g =? generation r + 1)) then
            close (js "runtime_stream_resume_generation_is_invalid")
          else if negb (bool_decide (token = recoveryToken r)) then
            close (js "runtime_stream_resume_token_is_invalid")
          else if (from <? bufferedFromOffset r) || (sendOffset r <? from)
                  || (negb (from =? sendOffset r)
                      && negb (existsb (fun c => offset c =? from) (replay r))) then
            close (colon (js "runtime_stream_resume_offset_is_unavailable")
                     [bufferedFromOffset r; from; sendOffset r])
          else
            match (if duplicate then Some r
                   else set_generation g <$> trimReplayToOffset r from) with
            | None => close (js "runtime_stream_resume_offset_is_not_a_chunk_boundary")
            | Some r =>
                let r := set_suspended false r in
                let t := on_session id (set_recovery (Some r)) t in
                match resend id r from (replay r) t with
                | (false, t) => on_session id (fun s =>
                    pause_socket true (on_recovery (set_suspended true) s)) t
                | (true, t) =>
                    let t := sendAcknowledgement id t in
                    if replayBytes r <=? replayLowWaterBytes t
                    then on_session id (pause_socket false) t else t
                end
            end
      end
  end.

Definition receiveEnd (id : jsstring) (who : ident) (final : option Z) (t : tunnel) : tunnel :=
  match session_of t id with
  | None => t
  | Some s =>
      if negb (matchesRecoveryIdentity s who) then
        closeSession id true (Some (js "runtime_stream_end_recovery_identity_mismatch")) t
      else match recovery s with
           | Some r =>
               if bool_decide (final = Some (receiveOffset r)) then closeSession id false None t
               else closeSession id true (Some (colon (js "runtime_stream_end_offset_mismatch")
                      [receiveOffset r; default (-1) final])) t
           | None => closeSession id false None t
           end
  end.

Definition receiveError (id : jsstring) (who : ident) (text : jsstring) (t : tunnel) : tunnel :=
  match session_of t id with
  | None => t
  | Some s =>
      if negb (matchesRecoveryIdentity s who) then
        closeSession id false (Some (js "runtime_stream_error_recovery_identity_mismatch")) t
      else closeSession id false (Some text) t
  end.

(** ** The connection to the coordinator *)

Definition length_within (lo hi : Z) (s : jsstring) : bool :=
  (lo <=? utf16_length s) && (utf16_length s <=? hi).
Definition safe_offset (z : Z) : bool := (0 <=? z) && (z <=? MAX_SAFE_INTEGER).

(** [runtimeLinkFailureEvidenceSchema], for the fields that vary. *)
Definition failure_valid (node : jsstring) (f : LinkFailure) : bool :=
  length_within 1 128 (f_stream f) && length_within 1 256 node
  && match f_destination f with Some d => length_within 1 256 d | None => true end
  && safe_offset (f_generation f) && safe_offset (f_sourceOffset f)
  && safe_offset (f_destinationOffset f).

Definition recordCoordinatorFailure (id : jsstring) (s : StreamSession) : SE tunnel unit :=
  let f := match recovery s with
    | Some r => Failure id (destinationNodeId s) (generation r) true (sendOffset r) (receiveOffset r)
    | None => Failure id (destinationNodeId s) 0 false (bytesTx s) (bytesRx s)
    end in
  let! node := se_gets nodeId in
  fail_if (negb (failure_valid node f)) with "ZodError" ;;
  se_modify (fun t => set_failures (take 256 (f :: runtimeLinkFailures t)) t).

(** The loop of [transportDisconnected] over the sessions it found. *)
Fixpoint disconnect_sessions (l : list (jsstring * StreamSession)) : SE tunnel unit :=
  match l with
  | [] => se_ret tt
  | (id, s) :: l' =>
      if bool_decide (transportMode s = Direct) then disconnect_sessions l'
      else
        do! recordCoordinatorFailure id s ;;
        do! se_modify (match recovery s with
          | None => closeSession id false (Some (js "runtime_stream_transport_disconnected"))
          | Some _ => on_session id (fun s => pause_socket true (on_recovery (set_suspended true) s))
          end) ;;
        disconnect_sessions l'
  end.

Definition transportDisconnected : SE tunnel unit :=
  let! t := se_get in
  if negb (transportAvailable t) then se_ret tt
  else
    do! se_modify (set_available false) ;;
    disconnect_sessions (sessions t).

Definition transportConnected (t : tunnel) : tunnel :=
  if transportAvailable t then t
  else foldl (fun t e => match recovery e.2 with
                         | Some r => if suspended r then sendResumeState e.1 t else t
                         | None => t
                         end) (set_available true t) (sessions t).

(** [resetPreparedRuntime], for the sessions and the authorised ports. *)
Definition resetPreparedRuntime (t : tunnel) : tunnel :=
  set_ports [] (foldl (fun t e => closeSession e.1 true None t) t (sessions t)).

(** ** The direct transport *)

(** [onSourceCommitted]. *)
Definition sourceCommitted (id : jsstring) (t : tunnel) : tunnel :=
  match session_of t id with
  | Some s =>
      if bool_decide (transportMode s = Negotiating)
      then on_session id (fun s => pause_socket false (set_opened true (set_mode Direct s))) t
      else t
  | None => t
  end.

Definition directConnect (id destination connection : jsstring) (grantPort : Z) (t : tunnel) : tunnel :=
  let fallback := (sendEnvelope (DirectFallback id connection (js "direct_source_session_is_invalid")) t).2 in
  match session_of t id with
  | None => fallback
  | Some s =>
      if negb (bool_decide (transportMode s = Negotiating)) || opened s
         || negb (bytesTx s =? 0) || negb (bytesRx s =? 0)
         || negb (bool_decide (destinationNodeId s = Some destination))
         || negb (targetPort s =? grantPort)
      then fallback else call_direct (DirectConnect id connection) t
  end.

(** ** Dispatch and runs *)

Definition handle (m : message) (t : tunnel) : tunnel :=
  match m with
  | MOpen id port who => openIncoming id port who t
  | MOpened id who => receiveOpened id who t
  | MData id seq who off text => receiveData id seq who off text t
  | MAck id g token ack => receiveAcknowledgement id g token ack t
  | MSuspend id g token deadline now => suspendSession id g token deadline now t
  | MResumed id previous g token from => resumeSession id previous g token from t
  | MEnd id who final => receiveEnd id who final t
  | MError id who text => receiveError id who text t
  | MDirectOffer id connection => call_direct (DirectOffer id connection) t
  | MDirectConnect id destination connection port => directConnect id destination connection port t
  | MDirectCommit id connection isDestination =>
      let t := call_direct (DirectCommit id connection) t in
      if isDestination then (sendEnvelope (DirectCommitted id connection) t).2 else t
  | MDirectCancel id connection => call_direct (DirectCancel id connection) t
  end.

(** Everything that happens to a tunnel.  The sockets belong to the host: they
    emit no data while paused, and what was written to them drains. *)
Inductive event :=
| Message (m : message)
| Outgoing (id token destination : jsstring) (port : Z)
| SocketData (id : jsstring) (chunk : bytes) (accepted : bool)
| SocketEnd (id : jsstring)
| SocketError (id text : jsstring)
| SocketConnected (id : jsstring)
| SocketTimeout (id : jsstring) (port : Z)
| SocketDrained (id : jsstring) (n : Z)
| Disconnected
| Connected
| ResetRuntime
| SourceCommitted (id : jsstring)
| SourceClosed (id : jsstring) (error : option jsstring)
| Authorize (ports : list Z)
| Answers (l : list bool).

Definition drain_socket (n : Z) (s : StreamSession) : StreamSession :=
  let k := socket s in
  set_socket (Sock (written k) (Z.max 0 (writableLength k - n)) (paused k) (destroyed k)) s.

Definition tunnel_step (e : event) (t : tunnel) : tunnel :=
  match e with
  | Message m => handle m t
  | Outgoing id token destination port => openOutgoing id token destination port t
  | SocketData id chunk accepted =>
      match session_of t id with
      | Some s => if paused (socket s) then t else socketData id chunk accepted t
      | None => t
      end
  | SocketEnd id => closeSession id true None t
  | SocketError id text => closeSession id true (Some text) t
  | SocketConnected id => socketConnected id t
  | SocketTimeout id port => socketTimeout id port t
  | SocketDrained id n => on_session id (drain_socket (Z.max 0 n)) t
  | Disconnected => (transportDisconnected t).2
  | Connected => transportConnected t
  | ResetRuntime => resetPreparedRuntime t
  | SourceCommitted id => sourceCommitted id t
  | SourceClosed id error => closeSession id false error t
  | Authorize ports => set_ports ports t
  | Answers l => set_answers l t
  end.

Definition tunnel_run (es : list event) (t : tunnel) : tunnel := foldl (fun t e => tunnel_step e t) t es.

(** ** Command rewriting *)

(** [replaceFlagValue]: the value after the first occurrence of the flag. *)
Fixpoint replaceFlagValue (args : list jsstring) (flag value : jsstring) : res (list jsstring) :=
  match args with
  | [] => Err "runtime_command_flag_is_missing"
  | a :: rest =>
      if bool_decide (a = flag) then
        match rest with
        | [] => Err "runtime_command_flag_is_missing"
        | _ :: rest' => Ok (a :: value :: rest')
        end
      else let? rest' := replaceFlagValue rest flag value in Ok (a :: rest')
  end.

(** [rewriteProcess], on the arguments of the command. *)
Fixpoint rewriteProcess (rewrite : list (jsstring * jsstring)) (args : list jsstring) : res (list jsstring) :=
  match rewrite with
  | [] => Ok args
  | (flag, value) :: rest =>
      let? args := replaceFlagValue args flag value in rewriteProcess rest args
  end.

(** [shortNodeId]. *)
Definition shortNodeId (node : jsstring) : jsstring :=
  slice 64 (mbind (fun c =>
    if ((65 <=? c) && (c <=? 90)) || ((97 <=? c) && (c <=? 122)) || ((48 <=? c) && (c <=? 57))
       || (c =? 95) || (c =? 45) then [c]
    else if 65536 <=? c then [45; 45] else [45]) node).
