(* ===== verification/TunnelInv.v ===== *)
(** * Invariants of the runtime stream tunnel

    How an operation of the tunnel may change a session is the step relation
    [move]; [quiet] says that an operation only moves sessions, closes them and
    sends again what their replay buffers hold.  Every operation is quiet except
    three: the opening of a session, data from the local socket and data from
    the other side.  [sess_ok] is the invariant of a session, relative to the
    list of the pieces it has taken from its socket. *)

From S2P Require Import Prelude JsString JsMap JsonText Base64 Tunnel.

#[local] Open Scope Z_scope.

(** ** Moves of a session *)

Inductive move (low : Z) (s : StreamSession) : StreamSession -> Prop :=
| mv_pause : move low s (pause_socket true s)
| mv_unpause :
    (forall r, recovery s = Some r -> replayBytes r <= low) ->
    move low s (pause_socket false s)
| mv_suspend v : move low s (on_recovery (set_suspended v) s)
| mv_generation r :
    recovery s = Some r ->
    move low s (on_recovery (set_generation (generation r + 1)) s)
| mv_trim r r' ack :
    recovery s = Some r ->
    acknowledgedOffset r < ack \/ bufferedFromOffset r <= ack ->
    ack <= sendOffset r ->
    trimReplayToOffset r ack = Some r' ->
    move low s (set_recovery (Some r') s)
| mv_relay :
    opened s = false ->
    move low s (set_opened true (set_mode Relay s))
| mv_relay_resume :
    opened s = false ->
    move low s (pause_socket false (set_opened true (set_mode Relay s)))
| mv_direct :
    transportMode s = Negotiating ->
    move low s (pause_socket false (set_opened true (set_mode Direct s)))
| mv_opened : move low s (set_opened true s)
| mv_downgrade r :
    recovery s = Some r -> opened s = false -> sendOffset r = 0 -> receiveOffset r = 0 ->
    move low s (set_recovery None s)
| mv_drain n : move low s (drain_socket n s).

(** ** Pieces *)

(** The replay chunks of consecutive pieces. *)
Fixpoint chunks (seq off : Z) (ps : list bytes) : list ReplayChunk :=
  match ps with
  | [] => []
  | p :: ps' => Replay seq off (b64_encode p) (byteLength p) :: chunks (seq + 1) (off + byteLength p) ps'
  end.

Definition size (ps : list bytes) : Z := byteLength (mjoin ps).

(** A piece the socket may deliver. *)
Definition piece_ok (p : bytes) : Prop := p <> [] /\ Forall is_byte p.

(** ** The invariant of a session

    [ps] are the pieces it has numbered so far, the first [n] of which are
    acknowledged. *)

Record recovery_ok (maxB high : Z) (ps : list bytes) (s : StreamSession) (r : RecoveryState) (n : nat)
  : Prop := {
  ro_n : (n <= length ps)%nat;
  ro_sent : sendOffset r = size ps;
  ro_ack : acknowledgedOffset r = size (take n ps);
  ro_replay : replay r = chunks (Z.of_nat n) (size (take n ps)) (drop n ps);
  ro_bytes : replayBytes r = size (drop n ps);
  ro_max : replayBytes r <= maxB;
  ro_pause : high <= replayBytes r -> paused (socket s) = true;
  ro_received : receiveOffset r = byteLength (written (socket s));
  ro_sequence : receiveSequence s = 0;
}.

Record sess_ok (maxB high : Z) (ps : list bytes) (s : StreamSession) : Prop := {
  so_pieces : Forall piece_ok ps;
  so_tx : bytesTx s = byteLength (taken s);
  so_rx : bytesRx s = byteLength (written (socket s));
  so_seq : sendSequence s = Z.of_nat (length ps);
  so_taken : transportMode s <> Direct -> taken s = mjoin ps;
  so_early : opened s = false \/ transportMode s <> Relay -> ps = [];
  so_direct : transportMode s = Direct -> opened s = true;
  so_recovery : forall r, recovery s = Some r -> exists n, recovery_ok maxB high ps s r n;
}.

(** ** Lemmas on pieces *)

Lemma size_nil : size [] = 0.
Proof. reflexivity. Qed.
Lemma size_cons p ps : size (p :: ps) = byteLength p + size ps.
Proof. unfold size; simpl. apply byteLength_app. Qed.
Lemma size_app ps qs : size (ps ++ qs) = size ps + size qs.
Proof. unfold size. rewrite join_app. apply byteLength_app. Qed.
Lemma size_nonneg ps : 0 <= size ps.
Proof. apply byteLength_nonneg. Qed.
Lemma size_take_drop n ps : size (take n ps) + size (drop n ps) = size ps.
Proof. rewrite <- size_app, take_drop. done. Qed.
Lemma piece_pos p : piece_ok p -> 0 < byteLength p.
Proof. intros [H _]. destruct p; [done|]. unfold byteLength; simpl; lia. Qed.

#[export] Hint Rewrite size_nil size_cons size_app : myc.

Lemma chunks_app seq off ps qs :
  chunks seq off (ps ++ qs) = chunks seq off ps ++ chunks (seq + Z.of_nat (length ps)) (off + size ps) qs.
Proof.
  revert seq off; induction ps as [|p ps IH]; intros seq off; simpl.
  - rewrite size_nil, !Z.add_0_r. done.
  - rewrite IH, size_cons. do 3 f_equal; lia.
Qed.

Lemma chunks_elem seq off ps c :
  c ∈ chunks seq off ps ->
  exists i p, ps !! i = Some p /\ sequence c = seq + Z.of_nat i /\ offset c = off + size (take i ps)
    /\ data c = b64_encode p /\ chunkBytes c = byteLength p.
Proof.
  revert seq off; induction ps as [|p ps IH]; intros seq off; simpl; [by intros ?%elem_of_nil|].
  intros [->|(i & q & ? & ? & ? & ? & ?)%IH]%elem_of_cons.
  - exists 0%nat, p; simpl. rewrite size_nil. split_and!; auto; lia.
  - exists (S i), q; simpl. rewrite size_cons. split_and!; auto; lia.
Qed.

Lemma chunks_total seq off ps : zsum chunkBytes (chunks seq off ps) = size ps.
Proof.
  revert seq off; induction ps as [|p ps IH]; intros; simpl; [done|].
  rewrite IH, size_cons. done.
Qed.

(** The chunks that [split_replay] removes are the first [k] ones. *)
Lemma split_chunks ack seq off ps :
  exists k, (k <= length ps)%nat /\
    split_replay ack (chunks seq off ps) =
      (chunks seq off (take k ps), chunks (seq + Z.of_nat k) (off + size (take k ps)) (drop k ps))
    /\ (k = length ps \/ ack < off + size (take (S k) ps))
    /\ (k = 0%nat \/ off + size (take k ps) <= ack).
Proof.
  revert seq off; induction ps as [|p ps IH]; intros seq off; simpl.
  - exists 0%nat; simpl. auto.
  - destruct (ack <? off + byteLength p) eqn:E.
    + exists 0%nat; simpl. rewrite size_nil, !Z.add_0_r. apply Z.ltb_lt in E.
      split_and!; [lia|done|right; destruct ps; cbn; autorewrite with myc; lia|auto].
    + apply Z.ltb_ge in E.
      destruct (IH (seq + 1) (off + byteLength p)) as (k & Hk & Heq & Hlo & Hhi).
      exists (S k). rewrite Heq. simpl. autorewrite with myc in *.
      split_and!; [lia| |destruct Hlo; [left; lia|right]|right].
      * do 2 f_equal; lia.
      * destruct ps; simpl in *; autorewrite with myc in *; lia.
      * destruct Hhi as [->|]; [rewrite take_0|]; autorewrite with myc; lia.
Qed.

(** Trimming a well-formed replay buffer drops exactly the acknowledged pieces. *)
Lemma trim_ok maxB high ps s r n ack r' :
  Forall piece_ok ps ->
  recovery_ok maxB high ps s r n ->
  acknowledgedOffset r <= ack <= sendOffset r ->
  trimReplayToOffset r ack = Some r' ->
  exists m, (n <= m)%nat /\ recovery_ok maxB high ps s r' m /\ acknowledgedOffset r' = ack.
Proof.
  intros Hps [] [Hlo Hhi]. unfold trimReplayToOffset. rewrite ro_replay0.
  destruct (split_chunks ack (Z.of_nat n) (size (take n ps)) (drop n ps)) as (k & Hk & -> & Hk1 & Hk2).
  set (at_boundary := match chunks _ _ (drop k (drop n ps)) with _ :: _ => _ | [] => _ end).
  destruct (_ && _) eqn:E; [done|]. intros [= <-].
  rewrite length_drop in Hk.
  assert (Hsz : size (take (n + k) ps) = size (take n ps) + size (take k (drop n ps))).
  { rewrite <- (take_take_drop ps n k), size_app. done. }
  assert (ack = size (take (n + k) ps)) as Hack.
  { apply andb_false_iff in E as [E|E]; apply negb_false_iff in E.
    - apply Z.eqb_eq in E. subst ack. destruct Hk1 as [->|Hk1].
      + rewrite length_drop, firstn_all2 by lia. done.
      + exfalso. pose proof (size_take_drop (S k) (drop n ps)).
        pose proof (size_take_drop n ps). pose proof (size_nonneg (drop (S k) (drop n ps))). lia.
    - unfold at_boundary in E. destruct (drop k (drop n ps)); simpl in E; [done|].
      apply Z.eqb_eq in E. lia. }
  exists (n + k)%nat. split; [lia|]. split; [|done].
  constructor; simpl; rewrite ?chunks_total; try done; try lia.
  - rewrite drop_drop, Hsz. f_equal. lia.
  - rewrite ro_bytes0. rewrite <- (drop_drop ps), <- (size_take_drop k (drop n ps)). lia.
  - intros. apply ro_pause0. pose proof (size_nonneg (take k (drop n ps))). lia.
Qed.

Lemma bufferedFrom_ok maxB high ps s r n :
  recovery_ok maxB high ps s r n -> bufferedFromOffset r = acknowledgedOffset r.
Proof.
  intros []. unfold bufferedFromOffset. rewrite ro_replay0.
  destruct (drop n ps); simpl; done.
Qed.

(** ** Moves preserve the invariant *)

(** The invariant of the recovery state does not see the fields that most moves
    change. *)
Lemma recovery_ok_ext maxB high ps s s' r r' n :
  recovery_ok maxB high ps s r n ->
  (sendOffset r', acknowledgedOffset r', replay r', replayBytes r', receiveOffset r')
    = (sendOffset r, acknowledgedOffset r, replay r, replayBytes r, receiveOffset r) ->
  written (socket s') = written (socket s) -> receiveSequence s' = receiveSequence s ->
  (high <= replayBytes r -> paused (socket s) = true -> paused (socket s') = true) ->
  recovery_ok maxB high ps s' r' n.
Proof.
  intros [] [= E1 E2 E3 E4 E5] W S Hp.
  constructor; rewrite ?E1, ?E2, ?E3, ?E4, ?E5, ?W, ?S; auto.
Qed.

Lemma sess_ok_ext maxB high ps s s' :
  sess_ok maxB high ps s ->
  (bytesTx s', bytesRx s', sendSequence s', taken s', written (socket s'))
    = (bytesTx s, bytesRx s, sendSequence s, taken s, written (socket s)) ->
  (transportMode s' <> Direct -> transportMode s <> Direct) ->
  (opened s' = false \/ transportMode s' <> Relay -> opened s = false \/ transportMode s <> Relay) ->
  (transportMode s' = Direct -> opened s' = true) ->
  (forall r', recovery s' = Some r' -> exists n, recovery_ok maxB high ps s' r' n) ->
  sess_ok maxB high ps s'.
Proof.
  intros [] [= E1 E2 E3 E4 E5] Hmode Hearly Hdirect Hr.
  constructor; rewrite ?E1, ?E2, ?E3, ?E4, ?E5; auto.
Qed.

Lemma fresh_replay maxB high s r n : recovery_ok maxB high [] s r n -> replayBytes r = 0.
Proof. intros []. rewrite ro_bytes0, drop_nil. apply size_nil. Qed.

(** A move that keeps the offsets and the replay buffer. *)
Lemma recovery_kept maxB high ps s s' :
  sess_ok maxB high ps s ->
  (forall r', recovery s' = Some r' -> exists r, recovery s = Some r /\
    (sendOffset r', acknowledgedOffset r', replay r', replayBytes r', receiveOffset r')
      = (sendOffset r, acknowledgedOffset r, replay r, replayBytes r, receiveOffset r)
    /\ (high <= replayBytes r -> paused (socket s) = true -> paused (socket s') = true)) ->
  written (socket s') = written (socket s) -> receiveSequence s' = receiveSequence s ->
  forall r', recovery s' = Some r' -> exists n, recovery_ok maxB high ps s' r' n.
Proof.
  intros [] Hr Hw Hq r' Hr'. destruct (Hr r' Hr') as (r & Hs & He & Hp).
  destruct (so_recovery0 r Hs) as [n Hn]. exists n. by eapply recovery_ok_ext.
Qed.

Lemma move_ok maxB high low ps s s' :
  low < high -> 0 < high ->
  move low s s' -> sess_ok maxB high ps s -> sess_ok maxB high ps s'.
Proof.
  intros Hlow Hhigh Hm Hok. pose proof (so_early _ _ _ _ Hok) as Hearly.
  pose proof (so_direct _ _ _ _ Hok) as Hdir.
  assert (Hempty : opened s = false \/ transportMode s <> Relay ->
            forall r, recovery s = Some r -> replayBytes r = 0).
  { intros He r Hr. rewrite (Hearly He) in Hok.
    destruct (so_recovery _ _ _ _ Hok r Hr) as [n Hn]. by eapply fresh_replay. }
  destruct Hm; (eapply sess_ok_ext; [exact Hok|reflexivity|simpl|simpl|simpl|]); try done; try tauto;
    try (destruct H; congruence); try (intuition congruence);
    try (apply (recovery_kept _ _ _ _ _ Hok); [|done..]; simpl; intros r' Hr').
  all: try (exists r'; split_and!; [done..|]; simpl; intros).
  - done.
  - specialize (H _ Hr'). lia.
  - destruct (recovery s) as [r|]; simplify_eq/=. by exists r.
  - rewrite H in Hr'. simplify_eq/=. by exists r.
  - intros r0 [= <-]. destruct (so_recovery _ _ _ _ Hok r) as [n Hn]; [done|].
    destruct (trim_ok maxB high ps s r n ack r') as (m & _ & Hm & _); try done.
    { apply (so_pieces _ _ _ _ Hok). }
    { rewrite (bufferedFrom_ok _ _ _ _ _ _ Hn) in *. lia. }
    exists m. by eapply recovery_ok_ext; [exact Hm|..].
  - done.
  - rewrite (Hempty (or_introl H) _ Hr') in *. lia.
  - assert (transportMode s <> Relay) by congruence.
    rewrite (Hempty (or_intror H2) _ Hr') in *. lia.
  - done.
  - done.
Qed.

Lemma moves_ok maxB high low ps s s' :
  low < high -> 0 < high ->
  rtc (move low) s s' -> sess_ok maxB high ps s -> sess_ok maxB high ps s'.
Proof.
  intros Hl Hh. induction 1 as [|x y z Hm _ IH]; [done|].
  intros Hx. apply IH. eapply move_ok; [exact Hl|exact Hh|exact Hm|exact Hx].
Qed.

(** The replay buffer only loses chunks. *)
Lemma split_replay_app ack l : (split_replay ack l).1 ++ (split_replay ack l).2 = l.
Proof.
  induction l as [|c l IH]; simpl; [done|]. destruct (ack <? _); [done|].
  destruct (split_replay ack l). simpl in *. by f_equal.
Qed.

Lemma trim_replay r ack r' c :
  trimReplayToOffset r ack = Some r' -> c ∈ replay r' -> c ∈ replay r.
Proof.
  unfold trimReplayToOffset. pose proof (split_replay_app ack (replay r)) as E.
  destruct (split_replay ack (replay r)) as [gone kept]. simpl in E.
  destruct (_ && _); [done|]. intros [= <-]. rewrite <- E. set_solver.
Qed.

Lemma move_replay low s s' r' c :
  move low s s' -> recovery s' = Some r' -> c ∈ replay r' ->
  exists r, recovery s = Some r /\ c ∈ replay r.
Proof.
  destruct 1; simpl; try (by eauto).
  - destruct (recovery s) as [r|]; [|done]. intros [= <-]. by exists r.
  - rewrite H. intros [= <-]. by exists r.
  - intros [= <-] Hc. exists r. split; [done|]. by eapply trim_replay.
Qed.

Lemma moves_replay low s s' r' c :
  rtc (move low) s s' -> recovery s' = Some r' -> c ∈ replay r' ->
  exists r, recovery s = Some r /\ c ∈ replay r.
Proof.
  induction 1 as [|x y z Hm _ IH] in r' |- *; [eauto|].
  intros Hr Hc. destruct (IH r' Hr Hc) as (r & Hy & Hin). by eapply move_replay.
Qed.

(** ** Quiet operations *)

(** A data envelope that repeats a chunk of a replay buffer. *)
Definition replayed (t : tunnel) (e : envelope) : Prop :=
  match e with
  | StreamData id seq _ off text =>
      exists s r c, session_of t id = Some s /\ recovery s = Some r /\ c ∈ replay r
        /\ seq = sequence c /\ off = Some (offset c) /\ text = data c
  | _ => True
  end.

Definition config (t : tunnel) : jsstring * Z * Z * Z :=
  (nodeId t, maxReplayBytes t, replayHighWaterBytes t, replayLowWaterBytes t).

(** The tables of the tunnel keep their bounds. *)
Definition bounded (t : tunnel) : Prop :=
  map_size (sessions t) <= MAX_STREAMS /\ (length (runtimeLinkFailures t) <= 256)%nat
  /\ (length (completedTransportSnapshots t) <= 256)%nat.

Record quiet_step (t t' : tunnel) : Prop := {
  q_config : config t' = config t;
  q_wf : map_wf (sessions t');
  q_bounded : bounded t -> bounded t';
  q_sessions : forall id s', session_of t' id = Some s' ->
    exists s, session_of t id = Some s /\ rtc (move (replayLowWaterBytes t)) s s';
  q_outbox : exists es, outbox t' = outbox t ++ es /\ Forall (replayed t) es;
}.

Definition quiet (t t' : tunnel) : Prop := map_wf (sessions t) -> quiet_step t t'.

Lemma replayed_back t t' e : quiet_step t t' -> replayed t' e -> replayed t e.
Proof.
  intros []. destruct e; simpl; try done. intros (s' & r' & c & Hs & Hr & Hc & He).
  destruct (q_sessions0 _ _ Hs) as (s & Hs0 & Hm).
  destruct (moves_replay _ _ _ _ _ Hm Hr Hc) as (r & Hr0 & Hc0).
  exists s, r, c. done.
Qed.

#[export] Instance quiet_refl : Reflexive quiet.
Proof.
  intros t Hwf. constructor; try done.
  - intros. eexists; split; [done|]. reflexivity.
  - exists []. rewrite app_nil_r. done.
Qed.

#[export] Instance quiet_trans : Transitive quiet.
Proof.
  intros t1 t2 t3 H12 H23 Hwf. specialize (H12 Hwf). specialize (H23 (q_wf _ _ H12)).
  pose proof (fun e => replayed_back _ _ e H12) as Hback.
  destruct H12 as [Hc1 _ Hb1 Hs1 (es1 & Ho1 & He1)].
  destruct H23 as [Hc2 Hw2 Hb2 Hs2 (es2 & Ho2 & He2)].
  constructor; [congruence|done|auto| |].
  - intros id s3 H3. destruct (Hs2 _ _ H3) as (s2 & H2 & M2). destruct (Hs1 _ _ H2) as (s1 & H1 & M1).
    exists s1. split; [done|]. etrans; [exact M1|].
    assert (replayLowWaterBytes t2 = replayLowWaterBytes t1) as <- by (unfold config in Hc1; congruence).
    done.
  - exists (es1 ++ es2). rewrite Ho2, Ho1, app_assoc. split; [done|]. apply Forall_app. split; [done|].
    eapply Forall_impl; [exact He2|]. exact Hback.
Qed.
