(* ===== verification/TunnelSteps.v ===== *)
(** * Every operation of the tunnel preserves its invariant

    First the operations that are [quiet], then the three that are not: what the
    local socket delivers, what the other side delivers, and the opening of a
    session. *)

From S2P Require Import Prelude JsString JsMap JsonText Base64 Tunnel TunnelInv.

#[local] Open Scope Z_scope.

(** ** Primitives *)

Lemma session_on_session id f t j :
  session_of (on_session id f t) j =
    if decide (j = id) then f <$> session_of t id else session_of t j.
Proof.
  unfold on_session. destruct (session_of t id) as [s|] eqn:E.
  - unfold session_of at 1. simpl. rewrite map_get_set. done.
  - case_decide; subst; done.
Qed.

Lemma outbox_on_session id f t : outbox (on_session id f t) = outbox t.
Proof. unfold on_session. by destruct (session_of t id). Qed.
Lemma config_on_session id f t : config (on_session id f t) = config t.
Proof. unfold on_session. by destruct (session_of t id). Qed.
Lemma available_on_session id f t : transportAvailable (on_session id f t) = transportAvailable t.
Proof. unfold on_session. by destruct (session_of t id). Qed.
Lemma answers_on_session id f t : answers (on_session id f t) = answers t.
Proof. unfold on_session. by destruct (session_of t id). Qed.

Lemma bounded_on_session id f t : bounded t -> bounded (on_session id f t).
Proof.
  unfold on_session, bounded. destruct (session_of t id) as [s|] eqn:E; [|done]. simpl.
  intros (? & ? & ?). rewrite map_size_set. unfold map_has.
  change (session_of t id) with (map_get (sessions t) id) in E. rewrite E.
  split_and!; [lia|done..].
Qed.

Lemma wf_on_session id f t : map_wf (sessions t) -> map_wf (sessions (on_session id f t)).
Proof. unfold on_session. destruct (session_of t id); simpl; auto with myc. Qed.

Lemma quiet_on_session id f t :
  (forall s, session_of t id = Some s -> rtc (move (replayLowWaterBytes t)) s (f s)) ->
  quiet t (on_session id f t).
Proof.
  intros Hf Hwf. constructor.
  - apply config_on_session.
  - by apply wf_on_session.
  - apply bounded_on_session.
  - intros j s'. rewrite session_on_session. case_decide as Hj.
    + subst j. destruct (session_of t id) as [s|] eqn:E; [|done]. intros [= <-]. eauto.
    + intros. exists s'. split; [done|reflexivity].
  - exists []. rewrite outbox_on_session, app_nil_r. done.
Qed.

(** A change of the fields that no invariant reads. *)
Lemma quiet_unseen t t' :
  config t' = config t -> sessions t' = sessions t -> outbox t' = outbox t ->
  (bounded t -> bounded t') -> quiet t t'.
Proof.
  intros Hc Hs Ho Hb Hwf. constructor; auto.
  - by rewrite Hs.
  - unfold session_of. rewrite Hs. intros id s' H. exists s'. split; [done|reflexivity].
  - exists []. rewrite Ho, app_nil_r. done.
Qed.

Lemma quiet_send e t : replayed t e -> quiet t (sendEnvelope e t).2.
Proof.
  intros He. unfold sendEnvelope. destruct (transportAvailable t); simpl; [|reflexivity].
  assert (Hp : forall rest, quiet t (push_out e (set_answers rest t))).
  { intros rest Hwf. constructor; try done.
    - intros id s' H. exists s'. split; [done|reflexivity].
    - exists [e]. split; [done|]. by constructor. }
  destruct (answers t) as [|[] rest] eqn:E; simpl.
  - specialize (Hp (answers t)). by destruct t.
  - apply Hp.
  - by apply quiet_unseen.
Qed.

Lemma quiet_direct c t : quiet t (call_direct c t).
Proof. by apply quiet_unseen. Qed.

Lemma quiet_close id notify error t : quiet t (closeSession id notify error t).
Proof.
  unfold closeSession. destruct (session_of t id) as [s|]; [|reflexivity].
  assert (Hd : quiet t (set_sessions (map_delete (sessions t) id) t)).
  { intros Hwf. constructor; simpl; auto with myc.
    - unfold bounded; simpl. pose proof (map_size_delete (sessions t) id). intuition lia.
    - intros j s' Hj. unfold session_of in Hj; simpl in Hj. exists s'. split; [|reflexivity].
      destruct (decide (j = id)) as [->|]; [|by rewrite map_get_delete_ne in Hj].
      rewrite map_get_delete_eq in Hj; done.
    - exists []. by rewrite app_nil_r. }
  destruct (bool_decide _); [etrans; [exact Hd|apply quiet_direct]|].
  assert (Hc : forall c, quiet t (set_completed (take 256 c) (set_sessions (map_delete (sessions t) id) t))).
  { intros c. etrans; [exact Hd|]. apply quiet_unseen; try done.
    unfold bounded; simpl. rewrite length_take. intuition lia. }
  destruct notify; [|apply Hc]. etrans; [apply Hc|]. apply quiet_send.
  by destruct error.
Qed.

#[export] Hint Resolve quiet_direct quiet_close : quiet.

(** Sequencing: [quiet] of a composition from its parts. *)
Ltac qstep := etrans; [|first [apply quiet_send; exact I | apply quiet_close | apply quiet_direct]].
Ltac moves := repeat (eapply rtc_l; [constructor; eauto|]); try reflexivity.

Lemma suspend_moves low s :
  rtc (move low) s (pause_socket true (on_recovery (set_suspended true) s)).
Proof. eapply rtc_l; [apply (mv_suspend _ _ true)|]. apply rtc_once, mv_pause. Qed.

(** ** Quiet operations *)

Lemma quiet_sendAcknowledgement id t : quiet t (sendAcknowledgement id t).
Proof.
  unfold sendAcknowledgement. destruct (session_of t id) as [s|]; [|reflexivity].
  destruct (recovery s) as [r|]; [|reflexivity].
  destruct (_ || _); [reflexivity|]. by apply quiet_send.
Qed.

Lemma quiet_socketConnected id t : quiet t (socketConnected id t).
Proof.
  unfold socketConnected. destruct (session_of t id) as [s|]; [|reflexivity].
  qstep. apply quiet_on_session. intros. apply rtc_once, mv_opened.
Qed.

Lemma quiet_socketTimeout id port t : quiet t (socketTimeout id port t).
Proof.
  unfold socketTimeout. destruct (session_of t id) as [s|]; [|reflexivity].
  qstep. by apply quiet_send.
Qed.

Lemma quiet_receiveOpened id who t : quiet t (receiveOpened id who t).
Proof.
  unfold receiveOpened. destruct (session_of t id) as [s|] eqn:Hs; [|reflexivity].
  destruct (opened s) eqn:Ho; [reflexivity|].
  set (down := match recovery s with Some _ => _ | None => false end).
  set (t1 := if down then _ else t).
  assert (Hq : quiet t t1 /\ session_of t1 id = Some (if down then set_recovery None s else s)).
  { subst t1. destruct down eqn:E; [|split; [reflexivity|done]]. split.
    - apply quiet_on_session. intros s0 H0. rewrite Hs in H0. injection H0 as <-.
      subst down. destruct (recovery s) as [r|] eqn:Er; [|done]. bool_prop.
      apply rtc_once. eapply mv_downgrade; eauto.
    - rewrite session_on_session, decide_True, Hs by done. done. }
  destruct Hq as [Hq Hs1]. etrans; [exact Hq|]. clear Hq.
  assert (Ho1 : opened (if down then set_recovery None s else s) = false) by (by destruct down).
  revert Hs1 Ho1. generalize (if down then set_recovery None s else s) as s1. intros s1 Hs1 Ho1.
  destruct (negb _); [apply quiet_close|].
  apply quiet_on_session. intros s2 H2. rewrite Hs1 in H2. injection H2 as <-.
  cbn [recovery set_opened set_mode].
  destruct (recovery s1) as [r|]; [destruct (suspended r)|]; apply rtc_once; by constructor.
Qed.

Lemma quiet_receiveAcknowledgement id g token ack t :
  quiet t (receiveAcknowledgement id g token ack t).
Proof.
  unfold receiveAcknowledgement. destruct (session_of t id) as [s|] eqn:Hs; [|reflexivity].
  destruct (recovery s) as [r|] eqn:Hr; [|reflexivity].
  destruct (_ || _); [apply quiet_close|].
  destruct (ack <=? _) eqn:E1; [reflexivity|].
  destruct (sendOffset r <? ack) eqn:E2; [apply quiet_close|].
  destruct (trimReplayToOffset r ack) as [r'|] eqn:Et; [|apply quiet_close].
  bool_prop. apply quiet_on_session. intros s0 H0. rewrite Hs in H0. injection H0 as <-.
  eapply rtc_l; [eapply mv_trim; eauto|]. simpl.
  destruct (_ && _) eqn:E; [|reflexivity]. bool_prop.
  apply rtc_once, mv_unpause. simpl. by intros ? [= <-].
Qed.

Lemma quiet_sendResumeState id t : quiet t (sendResumeState id t).
Proof.
  unfold sendResumeState. destruct (session_of t id) as [s|]; [|reflexivity].
  destruct (recovery s) as [r|]; [|reflexivity].
  destruct (negb _); [reflexivity|]. destruct (_ || _); [apply quiet_close|]. by apply quiet_send.
Qed.

Lemma quiet_suspendSession id g token deadline now t :
  quiet t (suspendSession id g token deadline now t).
Proof.
  unfold suspendSession. destruct (session_of t id) as [s|]; [|reflexivity].
  destruct (recovery s) as [r|]; [|reflexivity].
  destruct (_ || _); [apply quiet_close|].
  etrans; [|apply quiet_sendResumeState]. apply quiet_on_session. intros. apply suspend_moves.
Qed.

Lemma sessions_send e t : sessions (sendEnvelope e t).2 = sessions t.
Proof.
  unfold sendEnvelope. destruct (transportAvailable t); simpl; [|done].
  by destruct (answers t) as [|[] ?].
Qed.

Lemma sessions_ack id t : sessions (sendAcknowledgement id t) = sessions t.
Proof.
  unfold sendAcknowledgement. destruct (session_of t id) as [s|]; [|done].
  destruct (recovery s); [|done]. destruct (_ || _); [done|]. apply sessions_send.
Qed.

Lemma sessions_resend id r from l t : sessions (resend id r from l t).2 = sessions t.
Proof.
  revert t; induction l as [|c l IH]; intros t; simpl; [done|].
  destruct (offset c <? from); [apply IH|]. unfold sendRecoveryChunk.
  destruct (sendEnvelope _ t) as [sent t1] eqn:E.
  assert (sessions t1 = sessions t) as Hs by (change t1 with (sent, t1).2; rewrite <- E; apply sessions_send).
  destruct sent; simpl; [rewrite IH|]; done.
Qed.

Lemma quiet_resend id s r from l t :
  session_of t id = Some s -> recovery s = Some r -> (forall c, c ∈ l -> c ∈ replay r) ->
  quiet t (resend id r from l t).2.
Proof.
  intros Hs Hr. revert t Hs; induction l as [|c l IH]; intros t Hs Hl; simpl; [reflexivity|].
  assert (Hl' : forall c, c ∈ l -> c ∈ replay r) by (intros; apply Hl; set_solver).
  destruct (offset c <? from); [by apply IH|]. unfold sendRecoveryChunk.
  set (e := StreamData _ _ _ _ _).
  assert (Hq : quiet t (sendEnvelope e t).2).
  { apply quiet_send. exists s, r, c. split_and!; try done. apply Hl. set_solver. }
  pose proof (sessions_send e t) as Hse.
  destruct (sendEnvelope e t) as [[] t1]; simpl in *; [|exact Hq].
  etrans; [exact Hq|]. apply IH; [|done]. unfold session_of in *. by rewrite Hse.
Qed.

Lemma quiet_resumeSession id previous g token from t :
  quiet t (resumeSession id previous g token from t).
Proof.
  unfold resumeSession. destruct (session_of t id) as [s|] eqn:Hs; [|reflexivity].
  destruct (recovery s) as [r|] eqn:Hr; [|reflexivity].
  set (dup := (previous + 1 =? g) && (generation r =? g)).
  destruct (negb dup && _) eqn:Eg; [apply quiet_close|].
  destruct (negb (bool_decide _)); [apply quiet_close|].
  destruct ((from <? _) || _ || _) eqn:Eoff; [apply quiet_close|].
  destruct (if dup then _ else _) as [r1|] eqn:E1; [|apply quiet_close].
  set (r2 := set_suspended false r1).
  assert (Hq : quiet t (on_session id (set_recovery (Some r2)) t)).
  { apply quiet_on_session. intros s0 H0. rewrite Hs in H0. injection H0 as <-.
    assert (Hlast : forall s1, recovery s1 = Some r1 ->
              rtc (move (replayLowWaterBytes t)) s1 (set_recovery (Some r2) s1)).
    { intros s1 H1. eapply rtc_l; [apply (mv_suspend _ _ false)|].
      unfold on_recovery. rewrite H1. reflexivity. }
    destruct dup; [injection E1 as <-; by apply Hlast|].
    destruct (trimReplayToOffset r from) as [r3|] eqn:Et; [|done]. simpl in E1. injection E1 as E1.
    bool_prop. destruct Eg as [Eg|Eg]; [done|]. bool_prop.
    eapply rtc_l; [eapply (mv_trim _ _ r r3 from); eauto; right; lia|].
    eapply rtc_l; [apply (mv_generation _ _ r3); done|].
    assert (generation r3 = generation r) as Hg.
    { revert Et. unfold trimReplayToOffset. destruct (split_replay _ _), (_ && _); [done|].
      by intros [= <-]. }
    change (set_recovery (Some r2) s) with
      (set_recovery (Some r2) (on_recovery (set_generation (generation r3 + 1)) (set_recovery (Some r3) s))).
    apply Hlast. simpl. rewrite <- E1, Hg. congruence. }
  assert (Hs2 : session_of (on_session id (set_recovery (Some r2)) t) id = Some (set_recovery (Some r2) s)).
  { rewrite session_on_session, decide_True, Hs by done. done. }
  pose proof (quiet_resend id _ r2 from (replay r2) _ Hs2 eq_refl (fun c H => H)) as Hq2.
  destruct (resend _ _ _ _ _) as [[] t3] eqn:E3; simpl in Hq2; (etrans; [exact Hq|]); (etrans; [exact Hq2|]).
  - etrans; [apply quiet_sendAcknowledgement|].
    destruct (_ <=? _) eqn:El; [|reflexivity].
    apply quiet_on_session. intros s0 H0. apply rtc_once, mv_unpause. intros r0 Hr0.
    assert (sessions t3 = sessions (on_session id (set_recovery (Some r2)) t)) as Hse.
    { change t3 with (true, t3).2. rewrite <- E3. apply sessions_resend. }
    assert (session_of (sendAcknowledgement id t3) id = session_of t3 id) as Hack.
    { unfold session_of. by rewrite sessions_ack. }
    rewrite Hack in H0. unfold session_of in H0, Hs2. rewrite Hse, Hs2 in H0.
    simplify_eq/=. bool_prop. lia.
  - apply quiet_on_session. intros. apply suspend_moves.
Qed.

Lemma quiet_receiveEnd id who final t : quiet t (receiveEnd id who final t).
Proof.
  unfold receiveEnd. destruct (session_of t id) as [s|]; [|reflexivity].
  destruct (negb _); [apply quiet_close|].
  destruct (recovery s); [destruct (bool_decide _)|]; apply quiet_close.
Qed.

Lemma quiet_receiveError id who text t : quiet t (receiveError id who text t).
Proof.
  unfold receiveError. destruct (session_of t id) as [s|]; [|reflexivity].
  destruct (negb _); apply quiet_close.
Qed.

Lemma quiet_disconnect_sessions l t : quiet t (disconnect_sessions l t).2.
Proof.
  revert t; induction l as [|[id s] l IH]; intros t; simpl; [reflexivity|].
  destruct (bool_decide _); [apply IH|].
  unfold recordCoordinatorFailure, se_bind, se_gets, se_modify, se_throw. simpl.
  destruct (negb _); [reflexivity|]. etrans; [|apply IH].
  match goal with |- quiet _ (_ (set_failures ?l _)) => set (fs := l) end.
  etrans; [apply (quiet_unseen _ (set_failures fs t)); try done|].
  - unfold bounded, fs; simpl. rewrite length_take. intuition lia.
  - destruct (recovery s); [|apply quiet_close]. apply quiet_on_session. intros. apply suspend_moves.
Qed.

Lemma quiet_transportDisconnected t : quiet t (transportDisconnected t).2.
Proof.
  unfold transportDisconnected, se_bind, se_get, se_modify, se_ret. simpl.
  destruct (negb _); [reflexivity|].
  etrans; [|apply quiet_disconnect_sessions]. by apply quiet_unseen.
Qed.

Lemma quiet_foldl {A} (f : tunnel -> A -> tunnel) l t :
  (forall t x, quiet t (f t x)) -> quiet t (foldl f t l).
Proof.
  intros Hf. revert t; induction l as [|x l IH]; intros t; simpl; [reflexivity|].
  etrans; [apply Hf|apply IH].
Qed.

Lemma quiet_transportConnected t : quiet t (transportConnected t).
Proof.
  unfold transportConnected. destruct (transportAvailable t); [reflexivity|].
  etrans; [apply (quiet_unseen _ (set_available true t)); done|].
  apply quiet_foldl. intros t1 e. destruct (recovery e.2) as [r|]; [|reflexivity].
  destruct (suspended r); [apply quiet_sendResumeState|reflexivity].
Qed.

Lemma quiet_resetPreparedRuntime t : quiet t (resetPreparedRuntime t).
Proof.
  unfold resetPreparedRuntime.
  transitivity (foldl (fun t e => closeSession e.1 true None t) t (sessions t)).
  - apply quiet_foldl. intros. apply quiet_close.
  - by apply quiet_unseen.
Qed.

Lemma quiet_sourceCommitted id t : quiet t (sourceCommitted id t).
Proof.
  unfold sourceCommitted. destruct (session_of t id) as [s|] eqn:Hs; [|reflexivity].
  destruct (bool_decide _) eqn:E; [|reflexivity]. bool_prop.
  apply quiet_on_session. intros s0 H0. rewrite Hs in H0. injection H0 as <-.
  apply rtc_once. by constructor.
Qed.

Lemma quiet_directConnect id destination connection port t :
  quiet t (directConnect id destination connection port t).
Proof.
  unfold directConnect. destruct (session_of t id) as [s|]; [|by apply quiet_send].
  destruct (_ || _); [by apply quiet_send|apply quiet_direct].
Qed.

(** The events that are not quiet. *)
Definition loud (e : event) : bool :=
  match e with
  | Message (MOpen _ _ _) | Message (MData _ _ _ _ _) | Outgoing _ _ _ _ | SocketData _ _ _ => true
  | _ => false
  end.

Lemma quiet_tunnel_step e t : loud e = false -> quiet t (tunnel_step e t).
Proof.
  destruct e as [[]| | | | | | | | | | | | | |]; simpl; try done; intros _;
    auto using quiet_receiveOpened, quiet_receiveAcknowledgement, quiet_suspendSession,
      quiet_resumeSession, quiet_receiveEnd, quiet_receiveError, quiet_directConnect,
      quiet_direct, quiet_close, quiet_socketConnected, quiet_socketTimeout,
      quiet_transportDisconnected, quiet_transportConnected, quiet_resetPreparedRuntime,
      quiet_sourceCommitted.
  - destruct isDestination; [|apply quiet_direct].
    etrans; [apply quiet_direct|by apply quiet_send].
  - apply quiet_on_session. intros. apply rtc_once, mv_drain.
  - by apply quiet_unseen.
  - by apply quiet_unseen.
Qed.

(** ** Data from the local socket *)

(** A data envelope carries the piece its sequence number names. *)
Definition carries (ps : list bytes) (seq : Z) (off : option Z) (text : jsstring) : Prop :=
  exists i p, seq = Z.of_nat i /\ ps !! i = Some p /\ text = b64_encode p
    /\ (off = None \/ off = Some (size (take i ps))).

Definition data_ok (id : jsstring) (ps : list bytes) (e : envelope) : Prop :=
  match e with
  | StreamData i seq _ off text => i = id -> carries ps seq off text
  | _ => True
  end.

(** An envelope that concerns the data of no other stream. *)
Definition only_data_of (id : jsstring) (e : envelope) : Prop :=
  match e with StreamData i _ _ _ _ => i = id | _ => True end.

Lemma carries_app ps qs seq off text : carries ps seq off text -> carries (ps ++ qs) seq off text.
Proof.
  intros (i & p & -> & Hi & -> & Hoff). exists i, p.
  pose proof (lookup_lt_Some _ _ _ Hi). rewrite lookup_app_l, take_app_le by lia. done.
Qed.

Lemma data_ok_app id ps qs e : data_ok id ps e -> data_ok id (ps ++ qs) e.
Proof. destruct e; simpl; auto using carries_app. Qed.

(** A step that takes pieces of one stream: the others do not see it. *)
Record taking (id : jsstring) (ps : list bytes) (t t' : tunnel) : Prop := {
  tk_config : config t' = config t;
  tk_wf : map_wf (sessions t');
  tk_bounded : bounded t -> bounded t';
  tk_frame : forall j, j <> id -> session_of t' j = session_of t j;
  tk_outbox : exists es, outbox t' = outbox t ++ es
    /\ Forall (data_ok id ps) es /\ Forall (only_data_of id) es;
}.

Lemma taking_trans id ps qs t1 t2 t3 :
  taking id ps t1 t2 -> taking id (ps ++ qs) t2 t3 -> taking id (ps ++ qs) t1 t3.
Proof.
  intros [? ? ? F1 (es1 & O1 & D1 & N1)] [? ? ? F2 (es2 & O2 & D2 & N2)]. constructor; auto.
  - congruence.
  - intros. rewrite F2, F1; done.
  - exists (es1 ++ es2). rewrite O2, O1, app_assoc. split; [done|].
    split; apply Forall_app; split; try done.
    eapply Forall_impl; [exact D1|]. intros. by apply data_ok_app.
Qed.

Lemma taking_on_session id ps f t : map_wf (sessions t) -> taking id ps t (on_session id f t).
Proof.
  intros Hwf. constructor.
  - apply config_on_session.
  - by apply wf_on_session.
  - apply bounded_on_session.
  - intros. rewrite session_on_session, decide_False by done. done.
  - exists []. rewrite outbox_on_session, app_nil_r. auto.
Qed.

Lemma taking_same id ps t1 t2 t3 : taking id ps t1 t2 -> taking id ps t2 t3 -> taking id ps t1 t3.
Proof. intros. rewrite <- (app_nil_r ps). eapply taking_trans; rewrite ?app_nil_r; eassumption. Qed.

Lemma taking_send id ps e t :
  map_wf (sessions t) -> data_ok id ps e -> only_data_of id e -> taking id ps t (sendEnvelope e t).2.
Proof.
  intros Hwf Hd Ho. unfold sendEnvelope. destruct (transportAvailable t); simpl.
  - destruct (answers t) as [|[] rest]; simpl; constructor; try done; simpl.
    1,2: exists [e]; auto. exists []. rewrite app_nil_r. auto.
  - constructor; try done. exists []. rewrite app_nil_r. auto.
Qed.

Lemma session_close id notify error t :
  map_wf (sessions t) -> session_of (closeSession id notify error t) id = None.
Proof.
  intros Hwf. unfold closeSession. destruct (session_of t id) eqn:E; [|done].
  destruct (bool_decide _); [by apply map_get_delete_eq|].
  destruct notify; unfold session_of; rewrite ?sessions_send; by apply map_get_delete_eq.
Qed.

Lemma taking_close id ps notify error t :
  map_wf (sessions t) -> taking id ps t (closeSession id notify error t).
Proof.
  intros Hwf. destruct (quiet_close id notify error t Hwf) as [Hc Hw Hb _ _].
  constructor; try done; unfold closeSession; destruct (session_of t id) as [s|] eqn:E; try done.
  - intros j Hj. destruct (bool_decide _); [by apply map_get_delete_ne|].
    destruct notify; unfold session_of; rewrite ?sessions_send; by apply map_get_delete_ne.
  - set (t1 := set_sessions _ t). destruct (bool_decide _).
    { exists []. rewrite app_nil_r. auto. }
    set (t2 := set_completed _ t1). destruct notify; [|exists []; rewrite app_nil_r; auto].
    apply (tk_outbox id ps t2). apply taking_send; [by apply map_wf_delete|by destruct error..].
  - exists []. rewrite app_nil_r. auto.
Qed.

Section Take.
Context (maxB high : Z).

Lemma size_snoc ps p : size (ps ++ [p]) = size ps + byteLength p.
Proof. rewrite size_app, size_cons, size_nil. lia. Qed.

Lemma sess_ok_take ps s s' piece :
  sess_ok maxB high ps s -> opened s = true -> transportMode s = Relay -> piece_ok piece ->
  (bytesTx s', bytesRx s', sendSequence s', taken s', written (socket s'), opened s', transportMode s')
    = (bytesTx s + byteLength piece, bytesRx s, sendSequence s + 1, taken s ++ piece,
       written (socket s), opened s, transportMode s) ->
  (forall r', recovery s' = Some r' -> exists n, recovery_ok maxB high (ps ++ [piece]) s' r' n) ->
  sess_ok maxB high (ps ++ [piece]) s'.
Proof.
  intros [] Ho Hm Hp [= E1 E2 E3 E4 E5 E6 E7] Hr.
  constructor; rewrite ?E1, ?E2, ?E3, ?E4, ?E5, ?E6, ?E7; auto.
  - apply Forall_app; auto.
  - rewrite so_tx, byteLength_app. done.
  - rewrite so_seq, length_app. simpl. lia.
  - intros H. rewrite (so_taken H), join_app. simpl. rewrite app_nil_r. done.
  - intros [H|H]; congruence.
Qed.

(** What [sendSocketChunk] does to the session before it sends. *)
Definition take_piece (piece : bytes) (s : StreamSession) (r : RecoveryState) : StreamSession :=
  let r' := push_replay (Replay (sendSequence s) (sendOffset r) (b64_encode piece) (byteLength piece)) r in
  let s' := set_recovery (Some r') (next_sequence (count_sent piece s)) in
  if high <=? replayBytes r' then pause_socket true s' else s'.

Lemma take_recovery_ok ps s r piece :
  sess_ok maxB high ps s -> recovery s = Some r -> opened s = true -> transportMode s = Relay ->
  piece_ok piece -> replayBytes r + byteLength piece <= maxB ->
  sess_ok maxB high (ps ++ [piece]) (take_piece piece s r).
Proof.
  intros Hok Hr Ho Hm Hp Hfit. destruct (so_recovery _ _ _ _ Hok r Hr) as [n []].
  pose proof (so_seq _ _ _ _ Hok) as so_seq.
  unfold take_piece. set (r' := push_replay _ r). set (s' := set_recovery _ _).
  assert (Hn : recovery_ok maxB high (ps ++ [piece]) (if high <=? replayBytes r' then pause_socket true s' else s') r' n).
  { constructor; subst r'; simpl.
    - rewrite length_app. lia.
    - rewrite ro_sent, size_snoc. done.
    - rewrite take_app_le by done. done.
    - rewrite take_app_le, drop_app_le, chunks_app, ro_replay by done. f_equal. simpl.
      rewrite length_drop, so_seq, ro_sent, <- (size_take_drop n ps). do 2 f_equal. lia.
    - rewrite drop_app_le, size_snoc by done. lia.
    - lia.
    - intros H. replace (high <=? _) with true by lia. done.
    - rewrite ro_received. by destruct (high <=? _).
    - by destruct (high <=? _). }
  eapply (sess_ok_take ps s); try done.
  - by destruct (high <=? _).
  - intros r0 Hr0. exists n. replace r0 with r'; [exact Hn|].
    destruct (high <=? _); simpl in Hr0; congruence.
Qed.
End Take.

(** The session after a piece was taken. *)
Definition took (id : jsstring) (ps : list bytes) (t : tunnel) (s : StreamSession) : Prop :=
  session_of t id = Some s /\ sess_ok (maxReplayBytes t) (replayHighWaterBytes t) ps s
  /\ opened s = true /\ transportMode s = Relay.

Lemma carries_last maxB high ps s piece off :
  sess_ok maxB high ps s -> off = None \/ off = Some (size ps) ->
  carries (ps ++ [piece]) (sendSequence s) off (b64_encode piece).
Proof.
  intros Hok Hoff. exists (length ps), piece. split_and!; [apply (so_seq _ _ _ _ Hok)| |done|].
  - rewrite lookup_app_r, Nat.sub_diag by lia. done.
  - rewrite take_app_le, firstn_all by lia. done.
Qed.

Lemma config_eq t t' :
  config t' = config t ->
  maxReplayBytes t' = maxReplayBytes t /\ replayHighWaterBytes t' = replayHighWaterBytes t
  /\ replayLowWaterBytes t' = replayLowWaterBytes t.
Proof. unfold config. intros. simplify_eq. auto. Qed.

Lemma took_session id ps t t' s :
  config t' = config t -> session_of t' id = session_of t id -> took id ps t s -> took id ps t' s.
Proof.
  intros (E1 & E2 & _)%config_eq Hs (Hs0 & Hok & Ho & Hm). unfold took. rewrite Hs, E1, E2. done.
Qed.

(** Sending from a session that has just taken a piece. *)
Lemma send_taken id ps e t s :
  map_wf (sessions t) -> data_ok id ps e -> only_data_of id e -> took id ps t s ->
  let '(sent, t') := sendEnvelope e t in taking id ps t t' /\ took id ps t' s.
Proof.
  intros Hwf Hd Ho Ht. pose proof (taking_send id ps e t Hwf Hd Ho) as T.
  pose proof (sessions_send e t) as Hse. destruct (sendEnvelope e t) as [sent t']. simpl in *.
  split; [done|]. eapply took_session; [apply T| |exact Ht]. unfold session_of. by rewrite Hse.
Qed.

Lemma took_suspended id ps t s :
  map_wf (sessions t) -> replayLowWaterBytes t < replayHighWaterBytes t ->
  0 < replayHighWaterBytes t -> took id ps t s ->
  let t' := on_session id (fun s => pause_socket true (on_recovery (set_suspended true) s)) t in
  exists s', took id ps t' s'.
Proof.
  intros Hwf Hl Hh (Hs & Hok & Ho & Hm) t'. eexists.
  assert (Hc : config t' = config t) by apply config_on_session.
  apply config_eq in Hc as (E1 & E2 & E3). unfold took. rewrite E1, E2. split.
  - subst t'. rewrite session_on_session, decide_True, Hs by done. reflexivity.
  - split; [|done]. eapply moves_ok; [exact Hl|exact Hh|apply suspend_moves|exact Hok].
Qed.

Lemma sendSocketChunk_ok id piece t s ps :
  map_wf (sessions t) -> replayLowWaterBytes t < replayHighWaterBytes t ->
  0 < replayHighWaterBytes t ->
  took id ps t s -> piece_ok piece ->
  let '(more, t') := sendSocketChunk id piece t in
  taking id (ps ++ [piece]) t t' /\
  if more then exists s', took id (ps ++ [piece]) t' s' else session_of t' id = None.
Proof.
  intros Hwf Hlow Hhigh (Hs & Hok & Ho & Hm) Hp. unfold sendSocketChunk. rewrite Hs.
  set (t1 := on_session id _ t).
  assert (T1 : taking id (ps ++ [piece]) t t1) by (by apply taking_on_session).
  assert (Hs1 : session_of t1 id = Some (next_sequence (count_sent piece s))).
  { subst t1. rewrite session_on_session, decide_True, Hs by done. done. }
  assert (Hwf1 := tk_wf _ _ _ _ T1). destruct (config_eq _ _ (tk_config _ _ _ _ T1)) as (M1 & H1 & L1).
  assert (Hclose : forall n m t2, taking id (ps ++ [piece]) t t2 ->
            taking id (ps ++ [piece]) t (closeSession id n m t2)
            /\ session_of (closeSession id n m t2) id = None).
  { intros n m t2 T2. pose proof (tk_wf _ _ _ _ T2).
    split; [eapply taking_same; [exact T2|by apply taking_close]|by apply session_close]. }
  cbv zeta. destruct (recovery s) as [r|] eqn:Hr.
  - rewrite M1. destruct (maxReplayBytes t <? _) eqn:Hfit; [by apply Hclose|]. bool_prop.
    set (chunk := Replay _ _ _ _). set (r' := push_replay chunk r). set (t2 := on_session id _ t1).
    assert (T2 : taking id (ps ++ [piece]) t t2).
    { eapply taking_same; [exact T1|by apply taking_on_session]. }
    assert (Hs2 : took id (ps ++ [piece]) t2 (take_piece (replayHighWaterBytes t) piece s r)).
    { destruct (config_eq _ _ (tk_config _ _ _ _ T2)) as (M2 & H2 & L2). unfold took. rewrite M2, H2.
      split_and!; [|by apply take_recovery_ok|unfold take_piece; by destruct (replayHighWaterBytes t <=? _)..].
      subst t2. rewrite session_on_session, decide_True, Hs1, H1 by done. reflexivity. }
    destruct (negb _ || _); [split; [exact T2|by eexists]|].
    unfold sendRecoveryChunk. set (e := StreamData _ _ _ _ _).
    assert (He : data_ok id (ps ++ [piece]) e).
    { intros _. eapply carries_last; [exact Hok|]. right. simpl.
      destruct (so_recovery _ _ _ _ Hok r Hr) as [n []]. congruence. }
    pose proof (send_taken id _ e t2 _ (tk_wf _ _ _ _ T2) He eq_refl Hs2) as Hsend.
    destruct (sendEnvelope e t2) as [[] t3], Hsend as [T3 Hs3].
    + split; [by eapply taking_same|by eexists].
    + assert (T4 : taking id (ps ++ [piece]) t t3) by (by eapply taking_same).
      destruct (config_eq _ _ (tk_config _ _ _ _ T4)) as (M4 & H4 & L4).
      split; [eapply taking_same; [exact T4|apply taking_on_session, T4]|].
      eapply took_suspended; [apply T4|lia..|exact Hs3].
  - set (e := StreamData _ _ _ _ _).
    assert (He : data_ok id (ps ++ [piece]) e).
    { intros _. eapply carries_last; [exact Hok|auto]. }
    assert (Hs2 : took id (ps ++ [piece]) t1 (next_sequence (count_sent piece s))).
    { unfold took. rewrite M1, H1. split_and!; try done.
      eapply sess_ok_take; [exact Hok|done..|simpl; congruence]. }
    pose proof (send_taken id _ e t1 _ Hwf1 He eq_refl Hs2) as Hsend.
    destruct (sendEnvelope e t1) as [[] t3], Hsend as [T3 Hs3].
    + split; [by eapply taking_same|by eexists].
    + apply Hclose. by eapply taking_same.
Qed.

Lemma chunk_limit : (0 < Z.to_nat MAX_RUNTIME_STREAM_CHUNK_BYTES)%nat.
Proof. unfold MAX_RUNTIME_STREAM_CHUNK_BYTES. lia. Qed.

Lemma send_pieces_ok fuel id chunk t s ps :
  map_wf (sessions t) -> replayLowWaterBytes t < replayHighWaterBytes t ->
  0 < replayHighWaterBytes t -> took id ps t s -> Forall is_byte chunk ->
  (length chunk <= fuel)%nat ->
  let t' := send_pieces fuel id chunk t in
  exists qs, taking id (ps ++ qs) t t' /\ Forall piece_ok qs /\ mjoin qs `prefix_of` chunk /\
    (session_of t' id = None \/ (mjoin qs = chunk /\ exists s', took id (ps ++ qs) t' s')).
Proof.
  revert chunk t s ps; induction fuel as [|fuel IH];
    intros chunk t s ps Hwf Hlow Hhigh Hs Hb Hfuel; cbn [send_pieces].
  1: assert (chunk = []) as -> by (destruct chunk; simpl in *; [done|lia]).
  2: destruct chunk as [|x chunk0]; [|remember (x :: chunk0) as chunk eqn:Ec].
  1,2: exists []; rewrite app_nil_r; split_and!; [by constructor; try done; exists []; rewrite app_nil_r|done|done|eauto].
  pose proof chunk_limit as Hlim. set (n := Z.to_nat MAX_RUNTIME_STREAM_CHUNK_BYTES) in *. clearbody n.
  assert (Hp : piece_ok (take n chunk)).
  { split; [subst chunk; destruct n; [lia|done]|by apply Forall_take]. }
  pose proof (sendSocketChunk_ok id (take n chunk) t s ps Hwf Hlow Hhigh Hs Hp) as H1.
  destruct (sendSocketChunk id (take n chunk) t) as [[] t1].
  - destruct H1 as (T1 & s1 & Hs1).
    destruct (config_eq _ _ (tk_config _ _ _ _ T1)) as (M1 & G1 & L1).
    destruct (IH (drop n chunk) t1 s1 (ps ++ [take n chunk])) as (qs & T2 & Hqs & Hpre & Hend).
    { apply T1. } 1,2: lia. { done. } { by apply Forall_drop. }
    { rewrite length_drop. subst chunk. simpl in *. lia. }
    pose proof (taking_trans _ _ _ _ _ _ T1 T2) as T12. clear T2.
    exists (take n chunk :: qs). rewrite <- app_assoc in T12, Hend. simpl in *.
    split_and!; [exact T12|by constructor| |].
    + destruct Hpre as [k Hk]. exists k. rewrite <- app_assoc, <- Hk. by rewrite take_drop.
    + destruct Hend as [?|[Hq ?]]; [by left|right]. split; [|done]. rewrite Hq. apply take_drop.
  - destruct H1 as [T1 Hn1]. exists [take n chunk]. split_and!; [done|by constructor| |by left].
    simpl. rewrite app_nil_r. exists (drop n chunk). by rewrite take_drop.
Qed.

(** ** Data from the other side *)

Definition heard (seq : Z) (off : option Z) (text : jsstring) (s s' : StreamSession) : Prop :=
  let b := b64_decode text in
  opened s = true /\
  match recovery s with
  | Some r => off = Some (receiveOffset r)
      /\ s' = on_recovery (set_receiveOffset (receiveOffset r + byteLength b)) (write_socket b s)
  | None => off = None /\ seq = receiveSequence s /\ s' = write_socket b (next_received s)
  end.

Lemma taking_ack id ps t : map_wf (sessions t) -> taking id ps t (sendAcknowledgement id t).
Proof.
  intros Hwf. unfold sendAcknowledgement.
  assert (taking id ps t t) as Hrefl by (constructor; try done; exists []; by rewrite app_nil_r).
  destruct (session_of t id) as [s|]; [|done]. destruct (recovery s); [|done].
  destruct (_ || _); [done|]. by apply taking_send.
Qed.

Lemma receiveData_effect id seq who off text t :
  map_wf (sessions t) ->
  let t' := receiveData id seq who off text t in
  quiet_step t t' \/
  (taking id [] t t' /\
   (session_of t' id = None \/
    exists s s', session_of t id = Some s /\ heard seq off text s s' /\ session_of t' id = Some s')).
Proof.
  intros Hwf. unfold receiveData. destruct (session_of t id) as [s|] eqn:Hs; [|left; by apply quiet_refl].
  destruct (opened s) eqn:Ho; simpl; [|left; by apply quiet_refl].
  assert (Hq : forall b m, quiet_step t (closeSession id b m t)) by (intros; by apply quiet_close).
  destruct (recovery s) as [r|] eqn:Hr.
  - unfold receiveRecoverableData. destruct off as [off|]; [|by left].
    destruct (negb _); [by left|]. set (b := b64_decode text).
    destruct (off <? _).
    { destruct (_ <=? _); left; [by apply quiet_sendAcknowledgement|done]. }
    destruct (off =? receiveOffset r) eqn:Eo; simpl; [|by left]. apply Z.eqb_eq in Eo. subst off.
    destruct (_ || _); [by left|]. right.
    set (t1 := on_session id _ t). assert (T1 : taking id [] t t1) by (by apply taking_on_session).
    split; [eapply taking_same; [exact T1|apply taking_ack, T1]|right].
    eexists s, _. split; [done|]. split; [split; [done|]; rewrite Hr; split; [done|reflexivity]|].
    unfold session_of. rewrite sessions_ack. fold (session_of t1 id). subst t1.
    rewrite session_on_session, decide_True, Hs by done. reflexivity.
  - destruct (negb _ || _) eqn:Ew; [by left|]. destruct (seq =? _) eqn:Eq; simpl; [|by left].
    apply Z.eqb_eq in Eq. right.
    set (t1 := on_session id next_received t). assert (T1 : taking id [] t t1) by (by apply taking_on_session).
    destruct (_ <? _).
    + split; [eapply taking_same; [exact T1|apply taking_close, T1]|left]. apply session_close, T1.
    + split; [eapply taking_same; [exact T1|apply taking_on_session, T1]|right].
      eexists s, _. split; [done|]. split; [split; [done|]; rewrite Hr; split_and!; [|done|reflexivity]|].
      { destruct off; [|done]. rewrite orb_true_r in Ew. done. }
      rewrite session_on_session, decide_True by done. subst t1.
      rewrite session_on_session, decide_True, Hs by done. reflexivity.
Qed.

Lemma heard_ok maxB high ps seq off text s s' :
  sess_ok maxB high ps s -> heard seq off text s s' -> sess_ok maxB high ps s'.
Proof.
  intros Hok (Ho & H). pose proof (so_rx _ _ _ _ Hok) as Hrx.
  destruct (recovery s) as [r|] eqn:Hr.
  - destruct H as [-> ->]. destruct (so_recovery _ _ _ _ Hok r Hr) as [n []].
    destruct Hok. constructor; simpl; auto; rewrite ?byteLength_app; [lia|].
    rewrite Hr. intros r0 [= <-]. exists n. constructor; simpl; auto. rewrite byteLength_app. lia.
  - destruct H as (-> & -> & ->). destruct Hok. constructor; simpl; auto; rewrite ?byteLength_app; [lia|].
    congruence.
Qed.

(** ** Opening *)

Definition fresh (s : StreamSession) : Prop :=
  taken s = [] /\ written (socket s) = [] /\ sendSequence s = 0 /\ receiveSequence s = 0
  /\ bytesTx s = 0 /\ bytesRx s = 0 /\ transportMode s <> Direct
  /\ match recovery s with
     | Some r => sendOffset r = 0 /\ acknowledgedOffset r = 0 /\ receiveOffset r = 0
         /\ replayBytes r = 0 /\ replay r = []
     | None => True
     end.

Lemma fresh_ok maxB high s : 0 <= maxB -> 0 < high -> fresh s -> sess_ok maxB high [] s.
Proof.
  intros HM Hh (Ht & Hw & Hss & Hrs & Htx & Hrx & Hm & Hr).
  constructor; rewrite ?Ht, ?Hw; try done. intros r E. rewrite E in Hr.
  destruct Hr as (? & ? & ? & Hb & ?). exists 0%nat.
  constructor; rewrite ?Hw; try done; rewrite Hb; done || lia.
Qed.

Lemma attach_effect id opened identity destination port mode t :
  map_wf (sessions t) -> map_size (sessions t) < MAX_STREAMS -> mode <> Direct ->
  let t' := attachSocket id opened identity destination port mode t in
  taking id [] t t' /\ exists s, session_of t' id = Some s /\ fresh s.
Proof.
  intros Hwf Hsize Hm. unfold attachSocket. set (s := Session _ _ _ _ _ _ _ _ _ _ _). split.
  - constructor; simpl; auto with myc.
    + intros (? & ? & ?). split_and!; [|done..]. simpl. rewrite map_size_set.
      destruct (map_has _ _); lia.
    + intros j Hj. by apply map_get_set_ne.
    + exists []. by rewrite app_nil_r.
  - exists s. split; [apply map_get_set_eq|].
    split_and!; try done. subst s. simpl. by destruct identity as [[]|].
Qed.

Lemma openOutgoing_effect id token destination port t :
  map_wf (sessions t) ->
  let t' := openOutgoing id token destination port t in
  quiet_step t t' \/
  (taking id [] t t' /\ forall s, session_of t' id = Some s -> fresh s).
Proof.
  intros Hwf. unfold openOutgoing. destruct (_ <=? _) eqn:E; [left; by apply quiet_refl|right].
  bool_prop. set (t1 := attachSocket _ _ _ _ _ _ t).
  destruct (attach_effect id false (Some (token, 0)) (Some destination) port Negotiating t)
    as [T1 (s & Hs & Hf)]; [done..|]. fold t1 in T1, Hs.
  set (t2 := on_session id (pause_socket true) t1).
  assert (T2 : taking id [] t t2) by (eapply taking_same; [exact T1|apply taking_on_session, T1]).
  assert (Hs2 : session_of t2 id = Some (pause_socket true s)).
  { subst t2. rewrite session_on_session, decide_True, Hs by done. done. }
  set (e := StreamOpen _ _ _ _ _). pose proof (sessions_send e t2) as Hse.
  assert (T3 : taking id [] t (sendEnvelope e t2).2)
    by (eapply taking_same; [exact T2|apply taking_send; [apply T2|done..]]).
  destruct (sendEnvelope e t2) as [[] t3]; simpl in *.
  - split; [exact T3|]. unfold session_of in *. rewrite Hse, Hs2. intros s' [= <-]. exact Hf.
  - split; [eapply taking_same; [exact T3|apply taking_close, T3]|].
    rewrite session_close by apply T3. done.
Qed.

Lemma openIncoming_effect id port who t :
  map_wf (sessions t) ->
  let t' := openIncoming id port who t in
  quiet_step t t' \/
  (taking id [] t t' /\ forall s, session_of t' id = Some s -> fresh s).
Proof.
  intros Hwf. unfold openIncoming. cbv zeta.
  destruct (map_has _ _); [left; by apply quiet_send|].
  destruct (_ <=? _) eqn:E; [left; by apply quiet_send|]. bool_prop.
  destruct (negb _); [left; by apply quiet_send|].
  assert (Hattach : forall i, let t' := attachSocket id true i None port Relay t in
            taking id [] t t' /\ forall s, session_of t' id = Some s -> fresh s).
  { intros i. destruct (attach_effect id true i None port Relay t) as [T1 (s & Hs & Hf)]; [done..|].
    split; [done|]. intros s'. rewrite Hs. by intros [= <-]. }
  destruct who as [[g|] [token|]]; [right; apply Hattach|left; by apply quiet_send..|right; apply Hattach].
Qed.
