(* ===== verification/TunnelProps.v ===== *)
(** * What the runtime stream tunnel guarantees

    The invariant of every reachable tunnel, its bounds and its back-pressure;
    then two tunnels and a relay between them: what reaches the
    other end is a prefix of what the socket delivered, and a resumed stream
    delivers exactly what is missing. *)

From S2P Require Import Prelude JsString JsMap JsonText Base64 Tunnel TunnelInv TunnelSteps.

#[local] Open Scope Z_scope.

(** ** The invariant of a tunnel *)

Definition config_ok (t : tunnel) : Prop :=
  0 < replayHighWaterBytes t /\ replayLowWaterBytes t < replayHighWaterBytes t
  /\ 0 <= maxReplayBytes t <= MAX_RUNTIME_STREAM_REPLAY_BYTES.

Record tunnel_ok (t : tunnel) : Prop := {
  to_config : config_ok t;
  to_wf : map_wf (sessions t);
  to_bounded : bounded t;
  to_sessions : forall id s, session_of t id = Some s ->
    exists ps, sess_ok (maxReplayBytes t) (replayHighWaterBytes t) ps s;
}.

(** The sockets deliver bytes. *)
Definition event_ok (e : event) : Prop :=
  match e with SocketData _ chunk _ => Forall is_byte chunk | _ => True end.

Lemma tunnel_new_ok node requested available t :
  tunnel_new node requested available = Ok t -> tunnel_ok t.
Proof.
  unfold tunnel_new. destruct requested as [[z|]|]; cbn -[Z.div Z.mul Z.max]; try done.
  - destruct (_ || _) eqn:E; [done|]. intros [= <-]. bool_prop.
    unfold MAX_RUNTIME_STREAM_CHUNK_BYTES, MAX_RUNTIME_STREAM_REPLAY_BYTES in *.
    constructor; [|apply NoDup_nil_2| |done].
    + unfold config_ok, MAX_RUNTIME_STREAM_REPLAY_BYTES; simpl. zdiv_lia.
    + unfold bounded; simpl; unfold map_size, MAX_STREAMS; simpl; lia.
  - intros [= <-]. constructor; [|apply NoDup_nil_2| |done].
    + unfold config_ok; simpl. vm_compute. intuition congruence.
    + unfold bounded; simpl; unfold map_size, MAX_STREAMS; simpl; lia.
Qed.

Lemma config_ok_eq t t' : config t' = config t -> config_ok t -> config_ok t'.
Proof. intros (E1 & E2 & E3)%config_eq. unfold config_ok. by rewrite E1, E2, E3. Qed.

(** ** The invariant for one stream, with its pieces *)

Record stream_ok (id : jsstring) (ps : list bytes) (t : tunnel) : Prop := {
  st_session : forall s, session_of t id = Some s ->
    sess_ok (maxReplayBytes t) (replayHighWaterBytes t) ps s;
  st_outbox : Forall (data_ok id ps) (outbox t);
}.

Lemma quiet_sess t t' id ps s' :
  config_ok t -> quiet_step t t' ->
  (forall s, session_of t id = Some s -> sess_ok (maxReplayBytes t) (replayHighWaterBytes t) ps s) ->
  session_of t' id = Some s' -> sess_ok (maxReplayBytes t') (replayHighWaterBytes t') ps s'.
Proof.
  intros (Hh & Hl & _) [Hc _ _ Hs _] Hok H'. destruct (Hs _ _ H') as (s & H & Hm).
  apply config_eq in Hc as (-> & -> & _). eapply moves_ok; [exact Hl|exact Hh|exact Hm|auto].
Qed.

(** Replayed chunks carry the pieces they came from. *)
Lemma replayed_ok t id ps e :
  stream_ok id ps t -> replayed t e -> data_ok id ps e.
Proof.
  intros [Hs _] He. destruct e; simpl in *; try done. intros ->.
  destruct He as (s & r & c & Hid & Hr & Hc & -> & -> & ->).
  destruct (so_recovery _ _ _ _ (Hs _ Hid) r Hr) as [n Hn].
  rewrite (ro_replay _ _ _ _ _ _ Hn) in Hc.
  apply chunks_elem in Hc as (i & p & Hp & -> & -> & -> & _). rewrite lookup_drop in Hp.
  exists (n + i)%nat, p. split_and!; [lia|done|done|right].
  rewrite <- (take_take_drop ps n i), size_app. done.
Qed.

Lemma quiet_stream t t' id ps :
  config_ok t -> quiet_step t t' -> stream_ok id ps t -> stream_ok id ps t'.
Proof.
  intros Hc Hq Hok. constructor.
  - intros s'. eapply quiet_sess; [done|done|apply Hok].
  - destruct (q_outbox _ _ Hq) as (es & -> & He). apply Forall_app. split; [apply Hok|].
    eapply Forall_impl; [exact He|]. intros. by eapply replayed_ok.
Qed.

(** A step that takes pieces [ps] of stream [id], seen from stream [j]. *)
Lemma taking_outbox id ps t t' j qs :
  taking id ps t t' -> Forall (data_ok j qs) (outbox t) -> j <> id ->
  Forall (data_ok j qs) (outbox t').
Proof.
  intros T Ho Hj. destruct (tk_outbox _ _ _ _ T) as (es & -> & _ & He).
  apply Forall_app. split; [done|]. eapply Forall_impl; [exact He|].
  intros []; simpl; congruence.
Qed.

Lemma taking_other id ps t t' j qs :
  taking id ps t t' -> j <> id -> stream_ok j qs t -> stream_ok j qs t'.
Proof.
  intros T Hj [Hs Ho]. constructor; [|by eapply taking_outbox].
  destruct (config_eq _ _ (tk_config _ _ _ _ T)) as (-> & -> & _).
  intros s. rewrite (tk_frame _ _ _ _ T j Hj). apply Hs.
Qed.

Lemma taking_self id ps qs t t' :
  taking id (ps ++ qs) t t' -> Forall (data_ok id ps) (outbox t) ->
  (forall s, session_of t' id = Some s ->
     sess_ok (maxReplayBytes t') (replayHighWaterBytes t') (ps ++ qs) s) ->
  stream_ok id (ps ++ qs) t'.
Proof.
  intros T Ho Hs. constructor; [done|].
  destruct (tk_outbox _ _ _ _ T) as (es & -> & He & _).
  apply Forall_app. split; [|done]. eapply Forall_impl; [exact Ho|]. intros. by apply data_ok_app.
Qed.

(** ** The socket's data *)

(** Whether a [SocketData] event is counted: the stream is there, its socket not
    paused, and it is open. *)
Definition listening (id : jsstring) (t : tunnel) : bool :=
  match session_of t id with
  | Some s => negb (paused (socket s)) && opened s
  | None => false
  end.

Lemma count_direct_ok maxB high ps s chunk :
  sess_ok maxB high ps s -> transportMode s = Direct -> sess_ok maxB high ps (count_sent chunk s).
Proof.
  intros [] Hm. constructor; simpl; auto; try congruence.
  - rewrite byteLength_app. lia.
  - intros r Hr. destruct (so_recovery r Hr) as [n []]. exists n. by constructor.
Qed.

(** What a [SocketData] event does to its stream: the pieces of a prefix of the
    chunk are taken, all of it unless the stream is closed. *)
Definition sess_all (id : jsstring) (ps : list bytes) (t : tunnel) : Prop :=
  forall s, session_of t id = Some s -> sess_ok (maxReplayBytes t) (replayHighWaterBytes t) ps s.

Lemma taking_keep id ps t u :
  map_wf (sessions t) -> config u = config t -> sessions u = sessions t -> outbox u = outbox t ->
  (bounded t -> bounded u) -> taking id ps t u.
Proof.
  intros Hwf Hc Hs Ho Hb. constructor; unfold session_of; rewrite ?Hs; try done.
  exists []. by rewrite app_nil_r.
Qed.

Lemma socketData_effect id chunk accepted t ps :
  tunnel_ok t -> sess_all id ps t -> Forall is_byte chunk ->
  let t' := tunnel_step (SocketData id chunk accepted) t in
  exists qs, taking id (ps ++ qs) t t' /\ Forall piece_ok qs
    /\ mjoin qs `prefix_of` (if listening id t then chunk else []) /\ sess_all id (ps ++ qs) t'
    /\ (qs = [] \/ exists s, session_of t id = Some s /\ taken s = mjoin ps) /\
    (forall s', session_of t' id = Some s' ->
      if listening id t then exists s, session_of t id = Some s /\ taken s' = taken s ++ chunk
      else session_of t id = Some s').
Proof.
  intros Hok Hst Hb. simpl. pose proof (to_wf _ Hok) as Hwf. destruct (to_config _ Hok) as (Hh & Hl & _).
  unfold listening.
  assert (Hrefl : taking id ps t t) by (by apply taking_keep).
  assert (Hclose : forall n m u, taking id ps t u ->
     let t' := closeSession id n m u in
     taking id ps t t' /\ sess_all id ps t' /\ session_of t' id = None).
  { intros n m u T.
    assert (Hn : session_of (closeSession id n m u) id = None) by apply session_close, T.
    split_and!; [eapply taking_same; [exact T|apply taking_close, T]| |done].
    intros s. rewrite Hn. done. }
  destruct (session_of t id) as [s|] eqn:Hs.
  2: { exists []. rewrite app_nil_r, Hs. split_and!; auto. }
  destruct (paused (socket s)) eqn:Hp; simpl.
  { exists []. rewrite app_nil_r, Hs. split_and!; auto. }
  unfold socketData. rewrite Hs. destruct (opened s) eqn:Ho; simpl.
  2: { exists []. rewrite app_nil_r, Hs. split_and!; auto. }
  pose proof (Hst s Hs) as Hss. destruct (transportMode s) eqn:Hm.
  - exists []. rewrite app_nil_r.
    destruct (Hclose false (Some (js "runtime_stream_data_before_transport_commit")) t Hrefl) as (T & S & N).
    split_and!; [done|done|apply prefix_nil|done|by left|]. rewrite N. done.
  - destruct (send_pieces_ok (length chunk) id chunk t s ps) as (qs & T & Hqs & Hpre & Hend); [done..|].
    exists qs. split_and!; [done|done|done| | |].
    + intros s' Hs'. destruct Hend as [Hn|[_ (s2 & H2 & Hok2 & _)]]; congruence.
    + right. exists s. split; [done|]. apply (so_taken _ _ _ _ Hss). congruence.
    + intros s' Hs'. destruct Hend as [Hn|[Hq (s2 & H2 & Hok2 & _ & Hm2)]]; [congruence|].
      exists s. split; [done|]. assert (s2 = s') as -> by congruence.
      rewrite (so_taken _ _ _ _ Hok2), (so_taken _ _ _ _ Hss), join_app, Hq by congruence. done.
  - exists []. rewrite app_nil_r. set (u := call_direct (DirectWrite id chunk) t).
    assert (Tu : taking id ps t u) by (by apply taking_keep). destruct accepted.
    + set (t1 := on_session _ _ _).
      assert (T1 : taking id ps t t1) by (eapply taking_same; [exact Tu|by apply taking_on_session]).
      assert (Hs1 : session_of t1 id = Some (count_sent chunk s)).
      { subst t1. rewrite session_on_session, decide_True by done.
        change (session_of u id) with (session_of t id). by rewrite Hs. }
      split_and!; [done|done|apply prefix_nil| |by left|].
      * intros s'. rewrite Hs1. intros [= <-].
        destruct (config_eq _ _ (tk_config _ _ _ _ T1)) as (-> & -> & _). by apply count_direct_ok.
      * rewrite Hs1. intros s' [= <-]. by exists s.
    + destruct (Hclose false (Some (js "direct_transport_session_is_unavailable")) u Tu) as (T & S & N).
      split_and!; [done|done|apply prefix_nil|done|by left|]. rewrite N. done.
Qed.

(** ** Every step preserves the invariant *)

Lemma taking_tunnel_ok id ps t t' :
  taking id ps t t' -> tunnel_ok t -> (exists qs, sess_all id qs t') -> tunnel_ok t'.
Proof.
  intros T [Hc Hw Hb Hs] (qs & Hq). constructor.
  - by eapply config_ok_eq; [apply T|].
  - apply T.
  - by apply T.
  - intros j s Hj. destruct (decide (j = id)) as [->|Hne]; [exists qs; auto|].
    rewrite (tk_frame _ _ _ _ T j Hne) in Hj.
    destruct (config_eq _ _ (tk_config _ _ _ _ T)) as (-> & -> & _). by eapply Hs.
Qed.

Lemma quiet_tunnel_ok t t' : quiet_step t t' -> tunnel_ok t -> tunnel_ok t'.
Proof.
  intros Hq [Hc Hw Hb Hs]. constructor.
  - by eapply config_ok_eq; [apply Hq|].
  - apply Hq.
  - by apply Hq.
  - intros id s' H'. destruct (q_sessions _ _ Hq _ _ H') as (s & H & _).
    destruct (Hs _ _ H) as [ps Hps]. exists ps. eapply quiet_sess; [done|exact Hq| |done].
    intros s0 H0. congruence.
Qed.

Lemma stream_exists id t : tunnel_ok t -> exists ps, sess_all id ps t.
Proof.
  intros Hok. destruct (session_of t id) as [s|] eqn:E.
  - destruct (to_sessions _ Hok _ _ E) as [ps Hps]. exists ps. intros s' H'. congruence.
  - exists []. intros s' H'. congruence.
Qed.

Lemma fresh_sess_all id t t' :
  config t' = config t -> config_ok t ->
  (forall s, session_of t' id = Some s -> fresh s) -> sess_all id [] t'.
Proof.
  intros (E1 & E2 & _)%config_eq (Hh & _ & Hm) Hf s Hs. rewrite E1, E2.
  apply fresh_ok; [lia|lia|auto].
Qed.

Lemma heard_sess_all id ps t t' seq off text :
  taking id [] t t' -> sess_all id ps t ->
  (session_of t' id = None \/
    exists s s', session_of t id = Some s /\ heard seq off text s s' /\ session_of t' id = Some s') ->
  sess_all id ps t'.
Proof.
  intros T Hs [Hn|(s & s' & H & Hh & H')] s0 H0; [congruence|].
  destruct (config_eq _ _ (tk_config _ _ _ _ T)) as (-> & -> & _).
  assert (s0 = s') as -> by congruence. eapply heard_ok; [by apply Hs|done].
Qed.

Lemma tunnel_step_ok e t : event_ok e -> tunnel_ok t -> tunnel_ok (tunnel_step e t).
Proof.
  intros He Hok. pose proof (to_wf _ Hok) as Hwf. destruct (loud e) eqn:El.
  2: { eapply quiet_tunnel_ok; [by apply quiet_tunnel_step|done]. }
  destruct e as [[]| | | | | | | | | | | | | |]; try done.
  - destruct (openIncoming_effect id port who t Hwf) as [Hq|[T Hf]]; [by eapply quiet_tunnel_ok|].
    eapply taking_tunnel_ok; [exact T|done|]. exists [].
    eapply fresh_sess_all; [apply T|apply Hok|exact Hf].
  - destruct (receiveData_effect id sequence who offset data t Hwf) as [Hq|[T Hf]]; [by eapply quiet_tunnel_ok|].
    destruct (stream_exists id t Hok) as [ps Hps].
    eapply taking_tunnel_ok; [exact T|done|]. exists ps. by eapply heard_sess_all.
  - destruct (openOutgoing_effect id token destination port t Hwf) as [Hq|[T Hf]]; [by eapply quiet_tunnel_ok|].
    eapply taking_tunnel_ok; [exact T|done|]. exists [].
    eapply fresh_sess_all; [apply T|apply Hok|exact Hf].
  - destruct (stream_exists id t Hok) as [ps Hps].
    destruct (socketData_effect id chunk accepted t ps) as (qs & T & _ & _ & Hs & _); [done..|].
    eapply taking_tunnel_ok; [exact T|done|]. by eexists.
Qed.

Lemma tunnel_run_ok es t : Forall event_ok es -> tunnel_ok t -> tunnel_ok (tunnel_run es t).
Proof.
  intros He. revert t; induction He as [|e es He _ IH]; intros t Hok; simpl; [done|].
  apply IH. by apply tunnel_step_ok.
Qed.

(** ** The replay buffer *)

Definition decoded (l : list ReplayChunk) : bytes := mjoin ((fun c => b64_decode (data c)) <$> l).

Lemma decoded_chunks seq off ps : Forall piece_ok ps -> decoded (chunks seq off ps) = mjoin ps.
Proof.
  intros Hp. revert seq off; induction Hp as [|p ps [_ Hp] _ IH]; intros; [done|].
  unfold decoded in *. simpl. rewrite b64_round_trip by done. f_equal. apply IH.
Qed.

Lemma contiguous_chunks seq off ps :
  Forall piece_ok ps -> contiguous offset chunkBytes off (chunks seq off ps).
Proof.
  intros Hp. revert seq off; induction Hp as [|p ps Hp _ IH]; intros; simpl; [done|].
  split_and!; [done|by apply piece_pos|apply IH].
Qed.

Lemma drop_join n (ps : list bytes) :
  drop (Z.to_nat (size (take n ps))) (mjoin ps) = mjoin (drop n ps).
Proof.
  rewrite <- (take_drop n ps) at 2. rewrite join_app. unfold size, byteLength.
  rewrite Nat2Z.id, drop_app_length. done.
Qed.

(** C3 (invariant). In every tunnel that runs, whatever the sockets, the
    coordinator and the direct transport do, the replay buffer of a recoverable
    stream that is not on a direct route holds exactly the bytes taken from its socket and not yet
    acknowledged: its chunks follow one another without a gap from the
    acknowledged offset to the send offset, they decode to the bytes of that
    range, their total is [replayBytes] and stays within the configured limit,
    and the receive offset counts the bytes written to the socket. *)
Theorem tunnel_replay_exact node requested available t0 es id s r :
  tunnel_new node requested available = Ok t0 ->
  Forall event_ok es ->
  session_of (tunnel_run es t0) id = Some s -> recovery s = Some r ->
  transportMode s <> Direct ->
  sendOffset r = byteLength (taken s)
  /\ 0 <= acknowledgedOffset r <= sendOffset r
  /\ contiguous offset chunkBytes (acknowledgedOffset r) (replay r)
  /\ decoded (replay r) = drop (Z.to_nat (acknowledgedOffset r)) (taken s)
  /\ replayBytes r = zsum chunkBytes (replay r)
  /\ replayBytes r = sendOffset r - acknowledgedOffset r
  /\ replayBytes r <= maxReplayBytes (tunnel_run es t0)
  /\ receiveOffset r = byteLength (written (socket s)).
Proof.
  intros Hnew Hes Hs Hr Hm.
  pose proof (tunnel_run_ok es t0 Hes (tunnel_new_ok _ _ _ _ Hnew)) as Hok.
  destruct (to_sessions _ Hok _ _ Hs) as [ps Hps]. destruct (so_recovery _ _ _ _ Hps r Hr) as [n []].
  rewrite (so_taken _ _ _ _ Hps Hm). pose proof (so_pieces _ _ _ _ Hps) as Hp.
  pose proof (size_nonneg (take n ps)). pose proof (size_nonneg (drop n ps)).
  pose proof (size_take_drop n ps). fold (size ps).
  rewrite ro_ack, ro_replay, chunks_total, decoded_chunks, drop_join by (by apply Forall_drop).
  split_and!; try done; try lia. apply contiguous_chunks. by apply Forall_drop.
Qed.

(** C4 (bounds). Every table of a running tunnel is bounded, whatever the other
    parties send: at most 256 sessions, 256 recorded link failures and 256
    completed snapshots, and no replay buffer over eight megabytes. *)
Theorem tunnel_tables_bounded node requested available t0 es :
  tunnel_new node requested available = Ok t0 ->
  Forall event_ok es ->
  let t := tunnel_run es t0 in
  map_size (sessions t) <= 256
  /\ (length (runtimeLinkFailures t) <= 256)%nat
  /\ (length (completedTransportSnapshots t) <= 256)%nat
  /\ forall id s r, session_of t id = Some s -> recovery s = Some r ->
       replayBytes r <= MAX_RUNTIME_STREAM_REPLAY_BYTES.
Proof.
  intros Hnew Hes t. pose proof (tunnel_run_ok es t0 Hes (tunnel_new_ok _ _ _ _ Hnew)) as Hok.
  destruct (to_bounded _ Hok) as (H1 & H2 & H3). destruct (to_config _ Hok) as (_ & _ & H4).
  split_and!; try done. intros id s r Hs Hr. destruct (to_sessions _ Hok _ _ Hs) as [ps Hps].
  destruct (so_recovery _ _ _ _ Hps r Hr) as [n []]. subst t. lia.
Qed.

(** ** Back-pressure *)

Lemma sendSocketChunk_fits id piece t s r :
  session_of t id = Some s -> recovery s = Some r ->
  replayBytes r + byteLength piece <= maxReplayBytes t ->
  exists t' s' r', sendSocketChunk id piece t = (true, t') /\ session_of t' id = Some s'
    /\ recovery s' = Some r' /\ replayBytes r' = replayBytes r + byteLength piece
    /\ maxReplayBytes t' = maxReplayBytes t.
Proof.
  intros Hs Hr Hfit. unfold sendSocketChunk. rewrite Hs, Hr. set (t1 := on_session id _ t).
  destruct (config_eq _ _ (config_on_session id (fun s => next_sequence (count_sent piece s)) t))
    as (M1 & H1 & _). fold t1 in M1, H1. rewrite M1.
  replace (maxReplayBytes t <? _) with false by lia.
  set (r' := push_replay _ r). set (t2 := on_session id _ t1).
  assert (Hs2 : exists s2, session_of t2 id = Some s2 /\ recovery s2 = Some r').
  { subst t2. rewrite session_on_session, decide_True by done. subst t1.
    rewrite session_on_session, decide_True, Hs by done. eexists. split; [reflexivity|].
    by destruct (_ <=? _). }
  destruct Hs2 as (s2 & Hs2 & Hr2).
  assert (M2 : maxReplayBytes t2 = maxReplayBytes t).
  { rewrite <- M1. apply (config_eq t1 t2), config_on_session. }
  destruct (negb _ || _); [exists t2, s2, r'; done|].
  unfold sendRecoveryChunk. set (e := StreamData _ _ _ _ _).
  pose proof (sessions_send e t2) as Hse.
  assert (Hcf : config (sendEnvelope e t2).2 = config t2).
  { unfold sendEnvelope. destruct (transportAvailable t2); [|done]. by destruct (answers t2) as [|[] ?]. }
  apply config_eq in Hcf as (M3 & _).
  destruct (sendEnvelope e t2) as [[] t3]; simpl in *.
  - exists t3, s2, r'. unfold session_of in *. rewrite Hse. split_and!; try done; congruence.
  - set (t4 := on_session id _ t3).
    assert (M4 : maxReplayBytes t4 = maxReplayBytes t3) by apply (config_eq t3 t4), config_on_session.
    eexists t4, _, (set_suspended true r'). split; [done|]. split.
    { subst t4. rewrite session_on_session, decide_True by done. unfold session_of in *. rewrite Hse, Hs2.
      reflexivity. }
    simpl. rewrite Hr2. split_and!; try done. congruence.
Qed.

Lemma send_pieces_fits fuel id chunk t s r :
  session_of t id = Some s -> recovery s = Some r ->
  replayBytes r + byteLength chunk <= maxReplayBytes t ->
  exists s', session_of (send_pieces fuel id chunk t) id = Some s'.
Proof.
  revert chunk t s r; induction fuel as [|fuel IH]; intros chunk t s r Hs Hr Hfit; cbn [send_pieces]; [eauto|].
  destruct chunk as [|x chunk0]; [eauto|]. remember (x :: chunk0) as chunk eqn:Ec.
  set (n := Z.to_nat MAX_RUNTIME_STREAM_CHUNK_BYTES). clearbody n.
  assert (Hsplit : byteLength (take n chunk) + byteLength (drop n chunk) = byteLength chunk)
    by (rewrite <- byteLength_app, take_drop; done).
  destruct (sendSocketChunk_fits id (take n chunk) t s r) as (t' & s' & r' & -> & Hs' & Hr' & Hb & HM);
    [done|done|pose proof (byteLength_nonneg (drop n chunk)); lia|].
  eapply IH; [exact Hs'|exact Hr'|lia].
Qed.

(** Back-pressure works: a recoverable stream is never closed because
    its replay buffer overflows, as long as its socket delivers chunks no larger
    than the distance between the high-water mark and the limit.  The socket is
    paused from the high-water mark on, so the event finds room for the whole
    chunk and the session is still there after it. *)
Theorem tunnel_backpressure node requested available t0 es id chunk accepted s r :
  tunnel_new node requested available = Ok t0 ->
  Forall event_ok es ->
  let t := tunnel_run es t0 in
  session_of t id = Some s -> recovery s = Some r -> transportMode s = Relay ->
  byteLength chunk <= maxReplayBytes t - replayHighWaterBytes t + 1 ->
  is_Some (session_of (tunnel_step (SocketData id chunk accepted) t) id).
Proof.
  intros Hnew Hes t Hs Hr Hm Hfit.
  pose proof (tunnel_run_ok es t0 Hes (tunnel_new_ok _ _ _ _ Hnew)) as Hok. fold t in Hok.
  destruct (to_sessions _ Hok _ _ Hs) as [ps Hps]. destruct (so_recovery _ _ _ _ Hps r Hr) as [n []].
  cbn [tunnel_step]. rewrite Hs. destruct (paused (socket s)) eqn:Hp; [by eexists|].
  unfold socketData. rewrite Hs. destruct (opened s); simpl; [|by eexists]. rewrite Hm.
  destruct (Z.lt_ge_cases (replayBytes r) (replayHighWaterBytes t)) as [Hlt|Hge].
  - destruct (send_pieces_fits (length chunk) id chunk t s r Hs Hr) as [s' Hs']; [lia|]. by eexists.
  - pose proof (ro_pause Hge). congruence.
Qed.
