(* ===== verification/TunnelLink.v ===== *)
(** * Two tunnels and the relay between them

    A stream between a source and a target tunnel.  Both live through any
    events; the relay may drop, delay, repeat and reorder what the source sends,
    and make up every other message, but a data message of the stream is one the
    source sent.  A stream identifier is drawn once (it is a random UUID), so
    each side opens it at most once. *)

From S2P Require Import Prelude JsString JsMap JsonText Base64 Tunnel TunnelInv TunnelSteps TunnelProps.

#[local] Open Scope Z_scope.

#[export] Instance envelope_eq_dec : EqDecision envelope.
Proof. solve_decision. Defined.

(** [delivered] is what the source's socket delivered to the open stream. *)
Record link := Link {
  source : tunnel; target : tunnel;
  source_used : bool; target_used : bool;
  delivered : bytes }.

Inductive link_event := AtSource (e : event) | AtTarget (e : event).

Definition creates (id : jsstring) (e : event) : bool :=
  match e with
  | Outgoing i _ _ _ | Message (MOpen i _ _) => bool_decide (i = id)
  | _ => false
  end.

(** What the source's socket hands to the stream. *)
Definition hands (id : jsstring) (e : event) (t : tunnel) : bytes :=
  match e with
  | SocketData i chunk _ => if bool_decide (i = id) && listening id t then chunk else []
  | _ => []
  end.

(** A data message of the stream was sent by the source. *)
Definition genuine (id : jsstring) (t : tunnel) (e : event) : bool :=
  match e with
  | Message (MData i seq who off text) =>
      negb (bool_decide (i = id)) || bool_decide (StreamData i seq who off text ∈ outbox t)
  | _ => true
  end.

Definition link_step (id : jsstring) (l : link) (le : link_event) : link :=
  match le with
  | AtSource e =>
      if creates id e && source_used l then l
      else Link (tunnel_step e (source l)) (target l) (source_used l || creates id e) (target_used l)
             (delivered l ++ hands id e (source l))
  | AtTarget e =>
      if (creates id e && target_used l) || negb (genuine id (source l) e) then l
      else Link (source l) (tunnel_step e (target l)) (source_used l) (target_used l || creates id e)
             (delivered l)
  end.

Definition link_run (id : jsstring) (es : list link_event) (l : link) : link :=
  foldl (link_step id) l es.

Definition link_event_ok (le : link_event) : Prop :=
  match le with AtSource e | AtTarget e => event_ok e end.

(** ** The receiving side *)

Definition dst_ok (ps : list bytes) (s : StreamSession) : Prop :=
  match recovery s with
  | Some r => receiveSequence s = 0 /\ receiveOffset r = byteLength (written (socket s))
      /\ written (socket s) `prefix_of` mjoin ps
  | None => exists n, receiveSequence s = Z.of_nat n /\ (n <= length ps)%nat
      /\ written (socket s) = mjoin (take n ps)
  end.

Lemma dst_prefix ps s : dst_ok ps s -> written (socket s) `prefix_of` mjoin ps.
Proof.
  unfold dst_ok. destruct (recovery s); [tauto|]. intros (n & _ & _ & ->).
  exists (mjoin (drop n ps)). by rewrite <- join_app, take_drop.
Qed.

Lemma dst_app ps qs s : dst_ok ps s -> dst_ok (ps ++ qs) s.
Proof.
  unfold dst_ok. destruct (recovery s).
  - intros (? & ? & ?). rewrite join_app. split_and!; auto using prefix_app_r.
  - intros (n & ? & ? & ->). exists n. rewrite length_app, take_app_le by done. auto with lia.
Qed.

Lemma dst_fresh ps s : fresh s -> dst_ok ps s.
Proof.
  intros (_ & Hw & _ & Hq & _ & _ & _ & Hr). unfold dst_ok. rewrite Hw, Hq.
  destruct (recovery s).
  - destruct Hr as (_ & _ & -> & _). split_and!; try done. apply prefix_nil.
  - exists 0%nat. rewrite take_0. auto with lia.
Qed.

(** The invariant of the receiving side only reads this. *)
Definition rview (s : StreamSession) : bytes * Z * option Z :=
  (written (socket s), receiveSequence s, receiveOffset <$> recovery s).

Lemma dst_view ps s s' : rview s' = rview s -> dst_ok ps s -> dst_ok ps s'.
Proof.
  unfold rview, dst_ok. intros [= -> -> Hr].
  destruct (recovery s), (recovery s'); simplify_eq/=; try done. by rewrite Hr.
Qed.

Lemma trim_receive r ack r' : trimReplayToOffset r ack = Some r' -> receiveOffset r' = receiveOffset r.
Proof.
  unfold trimReplayToOffset. destruct (split_replay _ _), (_ && _); [done|]. by intros [= <-].
Qed.

Lemma dst_move low ps s s' : move low s s' -> dst_ok ps s -> dst_ok ps s'.
Proof.
  intros Hm Hd. destruct Hm; try (eapply dst_view; [|exact Hd]; unfold rview; simpl; done).
  - eapply dst_view; [|exact Hd]. unfold rview; simpl. by destruct (recovery s).
  - eapply dst_view; [|exact Hd]. unfold rview; simpl. by rewrite H.
  - eapply dst_view; [|exact Hd]. unfold rview; simpl. rewrite H. simpl. by erewrite trim_receive.
  - unfold dst_ok in *. rewrite H in Hd. destruct Hd as (Hq & Hw & _). simpl. exists 0%nat.
    rewrite take_0. split_and!; [done|lia|]. rewrite H2 in Hw. unfold byteLength in Hw.
    destruct (written (socket s)); [done|]. simpl in Hw. lia.
Qed.

Lemma dst_moves low ps s s' : rtc (move low) s s' -> dst_ok ps s -> dst_ok ps s'.
Proof.
  induction 1 as [|x y z Hm _ IH]; [done|]. intros Hx. apply IH. eapply dst_move; [exact Hm|exact Hx].
Qed.

Lemma prefix_at (w : bytes) (ps : list bytes) i p :
  ps !! i = Some p -> w `prefix_of` mjoin ps -> byteLength w = size (take i ps) ->
  w ++ p = mjoin (take (S i) ps).
Proof.
  intros Hi [k Hk] Hw. erewrite take_S_r by exact Hi. rewrite join_app. simpl. rewrite app_nil_r. f_equal.
  rewrite <- (take_drop i ps), join_app in Hk. unfold byteLength, size in Hw.
  assert (length w = length (mjoin (take i ps))) by (unfold byteLength in Hw; lia).
  assert (take (length w) (w ++ k) = take (length w) (mjoin (take i ps) ++ mjoin (drop i ps))) as E by congruence.
  rewrite take_app_length, H, take_app_length in E. done.
Qed.

Lemma dst_heard ps seq off text s s' :
  Forall piece_ok ps -> carries ps seq off text -> heard seq off text s s' -> dst_ok ps s -> dst_ok ps s'.
Proof.
  intros Hp (i & p & -> & Hi & -> & Hoff) (_ & Hh) Hd. unfold dst_ok in *.
  assert (b64_decode (b64_encode p) = p) as Hdec
    by (apply b64_round_trip; apply (Forall_lookup_1 _ _ _ _ Hp Hi)).
  rewrite Hdec in Hh. destruct (recovery s) as [r|] eqn:Hr.
  - destruct Hh as [-> ->]. simpl. rewrite Hr. simpl. destruct Hd as (Hq & Hw & Hpre).
    destruct Hoff as [|[= Hoff]]; [done|]. split_and!; [done|rewrite byteLength_app; lia|].
    rewrite (prefix_at _ ps i p) by (done || lia).
    exists (mjoin (drop (S i) ps)). by rewrite <- join_app, take_drop.
  - destruct Hh as (-> & Heq & ->). simpl. rewrite Hr. destruct Hd as (n & Hq & Hn & Hw).
    assert (n = i) as -> by lia. exists (S i). pose proof (lookup_lt_Some _ _ _ Hi).
    split_and!; [lia|lia|]. rewrite Hw. erewrite take_S_r by exact Hi. rewrite join_app. simpl.
    by rewrite app_nil_r.
Qed.

(** ** Sending does not touch the receiving side *)

Definition keeps_view (id : jsstring) (t t' : tunnel) : Prop :=
  forall s', session_of t' id = Some s' -> exists s, session_of t id = Some s /\ rview s' = rview s.

#[export] Instance keeps_view_refl id : Reflexive (keeps_view id).
Proof. intros t s' H. by exists s'. Qed.
#[export] Instance keeps_view_trans id : Transitive (keeps_view id).
Proof.
  intros t1 t2 t3 H12 H23 s3 H3. destruct (H23 _ H3) as (s2 & H2 & E2).
  destruct (H12 _ H2) as (s1 & H1 & E1). exists s1. split; [done|congruence].
Qed.

Lemma view_on_session id f t :
  (forall s, session_of t id = Some s -> rview (f s) = rview s) -> keeps_view id t (on_session id f t).
Proof.
  intros Hf s'. rewrite session_on_session, decide_True by done.
  destruct (session_of t id) as [s|]; [|done]. intros [= <-]. eauto.
Qed.

Lemma view_send id e t : keeps_view id t (sendEnvelope e t).2.
Proof. intros s'. unfold session_of. rewrite sessions_send. eauto. Qed.

Lemma view_close id n m t : map_wf (sessions t) -> keeps_view id t (closeSession id n m t).
Proof. intros Hwf s'. by rewrite session_close. Qed.

Lemma view_sendSocketChunk id piece t :
  map_wf (sessions t) ->
  keeps_view id t (sendSocketChunk id piece t).2 /\ map_wf (sessions (sendSocketChunk id piece t).2).
Proof.
  intros Hwf. unfold sendSocketChunk. destruct (session_of t id) as [s|] eqn:Hs; [|done].
  set (t1 := on_session id _ t).
  assert (V1 : keeps_view id t t1) by (by apply view_on_session).
  assert (W1 : map_wf (sessions t1)) by (by apply wf_on_session).
  assert (Hs1 : session_of t1 id = Some (next_sequence (count_sent piece s))).
  { subst t1. rewrite session_on_session, decide_True, Hs by done. done. }
  destruct (recovery s) as [r|] eqn:Hr.
  - destruct (_ <? _); simpl.
    { split; [etrans; [exact V1|by apply view_close]|by apply quiet_close]. }
    set (r' := push_replay _ r). set (t2 := on_session id _ t1).
    assert (V2 : keeps_view id t t2).
    { etrans; [exact V1|]. apply view_on_session. intros s0. rewrite Hs1. intros [= <-].
      unfold rview. destruct (replayHighWaterBytes t1 <=? _); simpl; by rewrite Hr. }
    assert (W2 : map_wf (sessions t2)) by (by apply wf_on_session).
    destruct (negb _ || _); [done|]. unfold sendRecoveryChunk. set (e := StreamData _ _ _ _ _).
    pose proof (view_send id e t2) as V3. pose proof (sessions_send e t2) as Hse.
    destruct (sendEnvelope e t2) as [[] t3]; simpl in *; rewrite <- Hse in W2.
    + split; [by etrans|done].
    + split; [|by apply wf_on_session]. etrans; [by etrans|]. apply view_on_session.
      intros s0 _. unfold rview. simpl. by destruct (recovery s0).
  - set (e := StreamData _ _ _ _ _).
    pose proof (view_send id e t1) as V3. pose proof (sessions_send e t1) as Hse.
    destruct (sendEnvelope e t1) as [[] t3]; simpl in *; rewrite <- Hse in W1.
    + split; [by etrans|done].
    + split; [etrans; [by etrans|by apply view_close]|by apply quiet_close].
Qed.

Lemma view_send_pieces fuel id chunk t :
  map_wf (sessions t) -> keeps_view id t (send_pieces fuel id chunk t).
Proof.
  revert chunk t; induction fuel as [|fuel IH]; intros chunk t Hwf; cbn [send_pieces]; [done|].
  destruct chunk as [|x chunk]; [done|].
  destruct (view_sendSocketChunk id (take (Z.to_nat MAX_RUNTIME_STREAM_CHUNK_BYTES) (x :: chunk)) t Hwf) as [V W].
  destruct (sendSocketChunk _ _ _) as [[] t1]; simpl in V, W; [|done]. etrans; [exact V|]. by apply IH.
Qed.

Lemma view_socketData id chunk accepted t :
  map_wf (sessions t) -> keeps_view id t (tunnel_step (SocketData id chunk accepted) t).
Proof.
  intros Hwf. simpl. destruct (session_of t id) as [s|] eqn:Hs; [|done].
  destruct (paused _); [done|]. unfold socketData. rewrite Hs. destruct (opened s); simpl; [|done].
  destruct (transportMode s); [by apply view_close|by apply view_send_pieces|].
  destruct accepted.
  - transitivity (call_direct (DirectWrite id chunk) t); [exact (keeps_view_refl id t)|]. by apply view_on_session.
  - transitivity (call_direct (DirectWrite id chunk) t); [exact (keeps_view_refl id t)|]. by apply view_close.
Qed.

(** ** The invariant of the link *)

Record link_ok (id : jsstring) (ps : list bytes) (l : link) : Prop := {
  lk_source : tunnel_ok (source l);
  lk_target : tunnel_ok (target l);
  lk_pieces : Forall piece_ok ps;
  lk_stream : stream_ok id ps (source l);
  lk_delivered : mjoin ps `prefix_of` delivered l;
  lk_taken : forall s, session_of (source l) id = Some s -> taken s = delivered l;
  lk_dst : forall s, session_of (target l) id = Some s -> dst_ok ps s;
  lk_unused : source_used l = false -> ps = [] /\ delivered l = [] /\ session_of (source l) id = None;
  lk_untouched : target_used l = false -> session_of (target l) id = None;
}.

Lemma move_taken low s s' : move low s s' -> taken s' = taken s.
Proof. by destruct 1. Qed.
Lemma moves_taken low s s' : rtc (move low) s s' -> taken s' = taken s.
Proof. induction 1 as [|x y z Hm _ IH]; [done|]. rewrite IH. by eapply move_taken. Qed.

(** A step at the source that is none of the stream's own. *)
Lemma source_other id ps l t' used :
  link_ok id ps l -> tunnel_ok t' -> stream_ok id ps t' ->
  (forall s', session_of t' id = Some s' ->
     exists s, session_of (source l) id = Some s /\ taken s' = taken s) ->
  (used = false -> source_used l = false) ->
  link_ok id ps (Link t' (target l) used (target_used l) (delivered l ++ [])).
Proof.
  intros [] Hok Hst Hs Hu. rewrite app_nil_r. constructor; simpl; auto.
  - intros s' H'. destruct (Hs _ H') as (s & H & ->). auto.
  - intros [-> [-> Hn]]%Hu%lk_unused0. split_and!; try done.
    destruct (session_of t' id) as [s'|] eqn:E; [|done]. destruct (Hs _ eq_refl) as (s & ? & _). congruence.
Qed.

Lemma taking_stream id ps t t' :
  taking id [] t t' -> stream_ok id ps t -> sess_all id ps t' -> stream_ok id ps t'.
Proof.
  intros T [_ Ho] Hs. constructor; [exact Hs|]. destruct (tk_outbox _ _ _ _ T) as (es & -> & He & _).
  apply Forall_app. split; [done|]. eapply Forall_impl; [exact He|].
  intros e. apply (data_ok_app id [] ps).
Qed.

Lemma heard_taken seq off text s s' : heard seq off text s s' -> taken s' = taken s.
Proof.
  intros [_ H]. destruct (recovery s); [destruct H as [_ ->]|destruct H as (_ & _ & ->)]; done.
Qed.

(** The data of the stream's own socket. *)
Lemma step_socket_ok id ps qs l chunk accepted used :
  let t := source l in
  let t' := tunnel_step (SocketData id chunk accepted) t in
  link_ok id ps l -> tunnel_ok t' -> taking id (ps ++ qs) t t' -> Forall piece_ok qs ->
  mjoin qs `prefix_of` (if listening id t then chunk else []) ->
  sess_all id (ps ++ qs) t' ->
  (qs = [] \/ exists s, session_of t id = Some s /\ taken s = mjoin ps) ->
  (forall s', session_of t' id = Some s' ->
     if listening id t then exists s, session_of t id = Some s /\ taken s' = taken s ++ chunk
     else session_of t id = Some s') ->
  (used = false -> source_used l = false) ->
  link_ok id (ps ++ qs) (Link t' (target l) used (target_used l)
    (delivered l ++ hands id (SocketData id chunk accepted) t)).
Proof.
  intros t t' [] Ht' T Hqs Hpre Hs Hq Ht Hu. simpl hands. rewrite bool_decide_true by done. simpl.
  set (h := if listening id t then chunk else []) in *.
  constructor; simpl; auto.
  - by apply Forall_app.
  - eapply taking_self; [exact T|apply lk_stream0|exact Hs].
  - rewrite join_app. destruct Hq as [->|(s & Hse & Htk)].
    + simpl. rewrite app_nil_r. by apply prefix_app_r.
    + rewrite <- Htk, (lk_taken0 s Hse). by apply prefix_app.
  - intros s' Hs'. specialize (Ht s' Hs'). subst h. destruct (listening id t).
    + destruct Ht as (s & Hse & ->). by rewrite (lk_taken0 s Hse).
    + rewrite app_nil_r. auto.
  - intros s Hse. by apply dst_app, lk_dst0.
  - intros Hf. destruct (lk_unused0 (Hu Hf)) as (-> & Hd & Hn).
    assert (t' = t) as -> by (subst t' t; simpl; by rewrite Hn).
    assert (h = []) as -> by (subst h t; unfold listening; by rewrite Hn).
    destruct Hq as [->|(s & Hse & _)]; [|subst t; congruence]. rewrite Hd. done.
Qed.

Lemma step_source_ok id ps e l :
  event_ok e -> link_ok id ps l -> exists qs, link_ok id qs (link_step id l (AtSource e)).
Proof.
  intros He Hl. simpl. destruct (creates id e && source_used l) eqn:Ecu; [by exists ps|].
  pose proof (lk_source _ _ _ Hl) as Hok. pose proof (tunnel_step_ok e _ He Hok) as Hok'.
  pose proof (to_wf _ Hok) as Hwf. pose proof (to_config _ Hok) as Hcf.
  pose proof (st_session _ _ _ (lk_stream _ _ _ Hl) : sess_all id ps (source l)) as Hsess.
  set (t := source l) in *. set (used := source_used l || creates id e).
  assert (Hused : used = false -> source_used l = false) by (intros [? _]%orb_false_iff; done).
  assert (Hquiet : forall t', tunnel_ok t' -> quiet_step t t' ->
     link_ok id ps (Link t' (target l) used (target_used l) (delivered l ++ []))).
  { intros t' Ht' Hq. apply source_other; try done.
    - eapply quiet_stream; [exact Hcf|exact Hq|apply Hl].
    - intros s' H'. destruct (q_sessions _ _ Hq _ _ H') as (s & H & Hm). exists s.
      split; [done|]. by eapply moves_taken. }
  assert (Hother : forall j qs t', tunnel_ok t' -> taking j qs t t' -> id <> j ->
     link_ok id ps (Link t' (target l) used (target_used l) (delivered l ++ []))).
  { intros j qs t' Ht' T Hj. apply source_other; try done.
    - eapply taking_other; [exact T|exact Hj|apply Hl].
    - intros s'. rewrite (tk_frame _ _ _ _ T id Hj). eauto. }
  assert (Hnew : forall t', tunnel_ok t' -> taking id [] t t' -> source_used l = false -> used = true ->
     (forall s, session_of t' id = Some s -> fresh s) ->
     link_ok id ps (Link t' (target l) used (target_used l) (delivered l ++ []))).
  { intros t' Ht' T Hu0 Hu1 Hf. destruct (lk_unused _ _ _ Hl Hu0) as (-> & Hd & _).
    rewrite app_nil_r. destruct Hl. constructor; simpl; auto.
    - apply (taking_self id [] [] t t' T); [apply lk_stream0|].
      eapply (fresh_sess_all id t t'); [apply T|done|exact Hf].
    - intros s Hs. destruct (Hf s Hs) as [-> _]. done.
    - congruence. }
  destruct (loud e) eqn:El.
  2: { exists ps. replace (hands id e t) with ([] : bytes) by (by destruct e).
       apply Hquiet; [done|]. by apply quiet_tunnel_step. }
  destruct e as [[]| | | | | | | | | | | | | |]; try done; simpl hands.
  - exists ps. destruct (openIncoming_effect id0 port who t Hwf) as [Hq|[T Hf]]; [by apply Hquiet|].
    destruct (decide (id0 = id)) as [->|Hne]; [|eapply Hother; [done|exact T|done]].
    subst used. simpl in Ecu, Hnew |- *. rewrite bool_decide_true in Ecu, Hnew |- * by done.
    apply Hnew; auto using orb_true_r.
  - exists ps. destruct (receiveData_effect id0 sequence who offset data t Hwf) as [Hq|[T Hf]]; [by apply Hquiet|].
    destruct (decide (id0 = id)) as [->|Hne]; [|eapply Hother; [done|exact T|done]].
    apply source_other; try done.
    + eapply taking_stream; [exact T|apply Hl|]. eapply heard_sess_all; [exact T|exact Hsess|exact Hf].
    + cbn [tunnel_step handle]. intros s' H'. destruct Hf as [Hn|(s & s0 & H & Hh & H0)]; [congruence|]. exists s. split; [done|].
      assert (s0 = s') as -> by congruence. by eapply heard_taken.
  - exists ps. destruct (openOutgoing_effect id0 token destination port t Hwf) as [Hq|[T Hf]]; [by apply Hquiet|].
    destruct (decide (id0 = id)) as [->|Hne]; [|eapply Hother; [done|exact T|done]].
    subst used. simpl in Ecu, Hnew |- *. rewrite bool_decide_true in Ecu, Hnew |- * by done.
    apply Hnew; auto using orb_true_r.
  - destruct (decide (id0 = id)) as [->|Hne].
    + destruct (socketData_effect id chunk accepted t ps) as (qs & T & Hqs & Hpre & Hs & Hq & Ht);
        [done|exact Hsess|done|]. exists (ps ++ qs). by eapply step_socket_ok.
    + exists ps. rewrite bool_decide_false by done. simpl.
      destruct (stream_exists id0 t Hok) as [ps0 Hps0].
      destruct (socketData_effect id0 chunk accepted t ps0) as (qs & T & _); [done..|].
      eapply Hother; [done|exact T|done].
Qed.

(** A step at the target, from what it does to the stream's session there. *)
Lemma target_other id ps l t' used :
  link_ok id ps l -> tunnel_ok t' ->
  (forall s, session_of t' id = Some s -> dst_ok ps s) ->
  (used = false -> session_of t' id = None) ->
  link_ok id ps (Link (source l) t' (source_used l) used (delivered l)).
Proof. intros [] Hok Hd Hu. by constructor. Qed.

Lemma carried id ps t i seq who off text :
  stream_ok id ps t -> i = id -> StreamData i seq who off text ∈ outbox t -> carries ps seq off text.
Proof.
  intros [_ Ho] -> Hin. rewrite Forall_forall in Ho. by apply (Ho _ Hin).
Qed.

Lemma step_target_ok id ps e l :
  event_ok e -> link_ok id ps l -> link_ok id ps (link_step id l (AtTarget e)).
Proof.
  intros He Hl. simpl. destruct (_ || _) eqn:Eg; [done|]. apply orb_false_iff in Eg as [Ecu Egen].
  apply negb_false_iff in Egen.
  pose proof (lk_target _ _ _ Hl) as Hok. pose proof (tunnel_step_ok e _ He Hok) as Hok'.
  pose proof (to_wf _ Hok) as Hwf. set (t := target l) in *. set (used := target_used l || creates id e).
  assert (Huse : used = false -> session_of t id = None).
  { intros [? _]%orb_false_iff. by apply (lk_untouched _ _ _ Hl). }
  assert (Hquiet : forall t', tunnel_ok t' -> quiet_step t t' ->
            link_ok id ps (Link (source l) t' (source_used l) used (delivered l))).
  { intros t' Ht' Hq. apply target_other; try done.
    - intros s' H'. destruct (q_sessions _ _ Hq _ _ H') as (s & H & Hm).
      eapply dst_moves; [exact Hm|]. by apply (lk_dst _ _ _ Hl).
    - intros Hu. destruct (session_of t' id) as [s'|] eqn:E; [|done].
      destruct (q_sessions _ _ Hq _ _ E) as (s & H & _). rewrite (Huse Hu) in H. done. }
  assert (Hother : forall j qs t', tunnel_ok t' -> taking j qs t t' -> id <> j ->
            link_ok id ps (Link (source l) t' (source_used l) used (delivered l))).
  { intros j qs t' Ht' T Hj. apply target_other; try done; rewrite (tk_frame _ _ _ _ T id Hj); [|done].
    apply (lk_dst _ _ _ Hl). }
  destruct (loud e) eqn:El; [|apply Hquiet; [done|by apply quiet_tunnel_step]].
  destruct e as [[]| | | | | | | | | | | | | |]; try done.
  - destruct (openIncoming_effect id0 port who t Hwf) as [Hq|[T Hf]]; [by apply Hquiet|].
    destruct (decide (id0 = id)) as [->|Hne]; [|eapply Hother; [done|exact T|done]].
    apply target_other; try done.
    + intros s Hs. by apply dst_fresh, Hf.
    + subst used. simpl. rewrite bool_decide_true, orb_true_r by done. done.
  - destruct (receiveData_effect id0 sequence who offset data t Hwf) as [Hq|[T Hf]]; [by apply Hquiet|].
    destruct (decide (id0 = id)) as [->|Hne]; [|eapply Hother; [done|exact T|done]].
    simpl in Egen. rewrite bool_decide_true in Egen by done. simpl in Egen. apply bool_decide_eq_true in Egen.
    cbn [tunnel_step handle] in *.
    apply target_other; [done|done| |].
    + intros s' H'. destruct Hf as [Hn|(s & s0 & H & Hh & H0)]; [congruence|].
      assert (s0 = s') as -> by congruence.
      eapply dst_heard; [apply Hl| |exact Hh|by apply (lk_dst _ _ _ Hl)].
      by eapply carried; [apply Hl| |exact Egen].
    + intros Hu. destruct Hf as [Hn|(s & s0 & H & _)]; [done|]. rewrite (Huse Hu) in H. done.
  - destruct (openOutgoing_effect id0 token destination port t Hwf) as [Hq|[T Hf]]; [by apply Hquiet|].
    destruct (decide (id0 = id)) as [->|Hne]; [|eapply Hother; [done|exact T|done]].
    apply target_other; try done.
    + intros s Hs. by apply dst_fresh, Hf.
    + subst used. simpl. rewrite bool_decide_true, orb_true_r by done. done.
  - destruct (decide (id0 = id)) as [->|Hne].
    + pose proof (view_socketData id chunk accepted t Hwf) as V. apply target_other; [done|done| |].
      * intros s' H'. destruct (V _ H') as (s & H & E). eapply dst_view; [exact E|].
        by apply (lk_dst _ _ _ Hl).
      * intros Hu. destruct (session_of (tunnel_step (SocketData id chunk accepted) t) id) as [s'|] eqn:E; [|done].
        destruct (V _ E) as (s & H & _). rewrite (Huse Hu) in H. done.
    + destruct (stream_exists id0 t Hok) as [ps0 Hps0].
      destruct (socketData_effect id0 chunk accepted t ps0) as (qs & T & _); [done..|].
      eapply Hother; [done|exact T|done].
Qed.

Lemma link_run_ok id es ps l :
  Forall link_event_ok es -> link_ok id ps l -> exists qs, link_ok id qs (link_run id es l).
Proof.
  intros He. revert ps l; induction He as [|[e|e] es He _ IH]; intros ps l Hl; simpl; [eauto| |].
  - destruct (step_source_ok id ps e l He Hl) as [qs Hq]. by eapply IH.
  - eapply IH, step_target_ok; [exact He|exact Hl].
Qed.

(** A link whose tunnels have just been made. *)
Definition link_new (source target : tunnel) : link := Link source target false false [].

Lemma link_new_ok id node1 req1 av1 t1 node2 req2 av2 t2 :
  tunnel_new node1 req1 av1 = Ok t1 -> tunnel_new node2 req2 av2 = Ok t2 ->
  link_ok id [] (link_new t1 t2).
Proof.
  intros H1 H2. assert (Hempty : forall node req av t, tunnel_new node req av = Ok t ->
    (forall j, session_of t j = None) /\ outbox t = []).
  { intros node req av t. unfold tunnel_new. destruct req as [[z|]|]; try done.
    - destruct (_ || _); [done|]. by intros [= <-].
    - destruct (_ || _); [done|]. by intros [= <-]. }
  destruct (Hempty _ _ _ _ H1) as [N1 O1]. destruct (Hempty _ _ _ _ H2) as [N2 O2].
  constructor; simpl; rewrite ?N1, ?N2; try done.
  - by eapply tunnel_new_ok.
  - by eapply tunnel_new_ok.
  - constructor; rewrite ?N1, ?O1; done.
Qed.

(** C1 (safety). End to end, across disconnections, resumptions, replays and a
    relay that drops, repeats, delays and reorders what the source sent, and makes up
    any message but data of the stream, which each end opens once: the bytes written to the
    socket at the far end are always a prefix of the bytes the source's socket
    delivered to the open stream.  Nothing is lost in the middle, repeated,
    reordered or made up; on a live relayed stream the source has taken
    everything its socket delivered. *)
Theorem tunnel_prefix_delivery node1 req1 av1 t1 node2 req2 av2 t2 id es :
  tunnel_new node1 req1 av1 = Ok t1 -> tunnel_new node2 req2 av2 = Ok t2 ->
  Forall link_event_ok es ->
  let l := link_run id es (link_new t1 t2) in
  (forall s, session_of (target l) id = Some s -> written (socket s) `prefix_of` delivered l)
  /\ (forall s, session_of (source l) id = Some s -> taken s = delivered l).
Proof.
  intros H1 H2 He l. destruct (link_run_ok id es [] _ He (link_new_ok id _ _ _ _ _ _ _ _ H1 H2)) as [ps []].
  split; [|done]. intros s Hs. etrans; [by apply dst_prefix, lk_dst0|done].
Qed.
