(* ===== verification/TunnelResume.v ===== *)
(** * Acknowledgement and resumption of a stream

    What an acknowledgement does to the replay buffer, on every branch, and that
    a resumed stream sends the far end exactly the bytes it is missing. *)

From S2P Require Import Prelude JsString JsMap JsonText Base64 Tunnel TunnelInv TunnelSteps TunnelProps.

#[local] Open Scope Z_scope.

(** ** Sending when the coordinator accepts everything *)

Definition chunk_envelope (id : jsstring) (r : RecoveryState) (c : ReplayChunk) : envelope :=
  StreamData id (sequence c) (Some (generation r), Some (recoveryToken r)) (Some (offset c)) (data c).

Lemma send_open e t :
  transportAvailable t = true -> answers t = [] -> sendEnvelope e t = (true, push_out e t).
Proof. unfold sendEnvelope. by intros -> ->. Qed.

Lemma resend_all id r from l t :
  transportAvailable t = true -> answers t = [] -> Forall (fun c => from <= offset c) l ->
  exists t', resend id r from l t = (true, t') /\ outbox t' = outbox t ++ (chunk_envelope id r <$> l)
    /\ sessions t' = sessions t /\ transportAvailable t' = true /\ answers t' = []
    /\ config t' = config t.
Proof.
  intros Ha Hn Hl. revert t Ha Hn; induction Hl as [|c l Hc _ IH]; intros t Ha Hn; simpl.
  - exists t. rewrite app_nil_r. done.
  - replace (offset c <? from) with false by lia. unfold sendRecoveryChunk. rewrite send_open by done.
    destruct (IH (push_out (chunk_envelope id r c) t)) as (t' & E & Ho & Hs & Ha' & Hn' & Hcf); [done..|].
    exists t'. unfold chunk_envelope in E at 1. rewrite E, Ho. simpl. rewrite <- app_assoc. done.
Qed.

Lemma chunks_offsets seq off ps :
  Forall (fun c => off <= offset c) (chunks seq off ps).
Proof.
  apply Forall_forall. intros c (i & p & _ & _ & -> & _)%chunks_elem.
  pose proof (size_nonneg (take i ps)). lia.
Qed.

(** ** Receiving consecutive chunks *)

Definition chunk_message (id : jsstring) (g : Z) (token : jsstring) (c : ReplayChunk) : message :=
  MData id (sequence c) (Some g, Some token) (Some (offset c)) (data c).

Definition receive_all (ms : list message) (t : tunnel) : tunnel := foldl (fun t m => handle m t) t ms.

(** A session that takes its next data at [off]. *)
Record expects (t : tunnel) (id : jsstring) (g : Z) (token : jsstring) (off : Z)
    (s : StreamSession) (r : RecoveryState) : Prop := {
  ex_session : session_of t id = Some s;
  ex_opened : opened s = true;
  ex_recovery : recovery s = Some r;
  ex_generation : generation r = g;
  ex_token : recoveryToken r = token;
  ex_offset : receiveOffset r = off;
  ex_socket : destroyed (socket s) = false;
}.

Lemma receive_chunk id g token c p t s r :
  expects t id g token (offset c) s r -> data c = b64_encode p -> Forall is_byte p ->
  writableLength (socket s) + byteLength p <= MAX_SOCKET_BUFFERED_BYTES ->
  exists s' r', expects (handle (chunk_message id g token c) t) id g token (offset c + byteLength p) s' r'
    /\ written (socket s') = written (socket s) ++ p
    /\ writableLength (socket s') = writableLength (socket s) + byteLength p.
Proof.
  intros [Hs Ho Hr Hg Ht Hoff Hd] Hdata Hb Hfit. cbn [handle chunk_message]. unfold receiveData.
  rewrite Hs, Ho, Hr. unfold receiveRecoverableData, matchesRecoveryIdentity, identity_of.
  rewrite Hr, Hg, Ht, bool_decide_true by done. simpl negb. cbv iota.
  rewrite Hdata, b64_round_trip, Hoff, Z.ltb_irrefl, Z.eqb_refl, Hd by done. simpl negb. cbv iota.
  simpl orb. replace (MAX_SOCKET_BUFFERED_BYTES <? _) with false by lia.
  eexists _, _. split; [constructor|].
  - unfold session_of at 1. rewrite sessions_ack. fold (session_of).
    match goal with |- map_get (sessions ?u) id = _ => fold (session_of u id) end.
    rewrite session_on_session, decide_True, Hs by done. reflexivity.
  - done.
  - simpl. rewrite Hr. reflexivity.
  - simpl. done.
  - simpl. done.
  - done.
  - done.
  - done.
Qed.

Lemma receive_chunks id g token ps : Forall piece_ok ps ->
  forall seq off t s r, expects t id g token off s r ->
  writableLength (socket s) + size ps <= MAX_SOCKET_BUFFERED_BYTES ->
  exists s' r', expects (receive_all (chunk_message id g token <$> chunks seq off ps) t)
                  id g token (off + size ps) s' r'
    /\ written (socket s') = written (socket s) ++ mjoin ps.
Proof.
  induction 1 as [|p ps [_ Hp] _ IH]; intros seq off t s r He Hfit; simpl.
  - exists s, r. rewrite size_nil, Z.add_0_r, app_nil_r. done.
  - rewrite size_cons in *. pose proof (size_nonneg ps).
    destruct (receive_chunk id g token (Replay seq off (b64_encode p) (byteLength p)) p t s r)
      as (s1 & r1 & He1 & Hw1 & Hl1); [done..|lia|].
    destruct (IH (seq + 1) (off + byteLength p) _ s1 r1 He1) as (s2 & r2 & He2 & Hw2); [lia|].
    exists s2, r2. rewrite Z.add_assoc. split; [done|]. rewrite Hw2, Hw1, <- app_assoc. done.
Qed.

(** ** Chunk boundaries *)

(** An offset at which the replay buffer can be cut. *)
Definition boundary (r : RecoveryState) (a : Z) : Prop :=
  a = sendOffset r \/ exists c, c ∈ replay r /\ offset c = a.

Lemma size_take_mono ps i j :
  Forall piece_ok ps -> (i < j <= length ps)%nat -> size (take i ps) < size (take j ps).
Proof.
  intros Hp. revert i j; induction Hp as [|p ps Hp _ IH]; intros i j Hij; simpl in *; [lia|].
  destruct j as [|j]; [lia|]. apply piece_pos in Hp. destruct i as [|i]; simpl; rewrite !size_cons.
  - rewrite size_nil. pose proof (size_nonneg (take j ps)). lia.
  - specialize (IH i j). lia.
Qed.

Lemma boundary_piece maxB high ps s r n a :
  recovery_ok maxB high ps s r n -> boundary r a ->
  exists m, (n <= m <= length ps)%nat /\ a = size (take m ps).
Proof.
  intros [] [->|(c & Hc & <-)].
  - exists (length ps). rewrite firstn_all. auto.
  - rewrite ro_replay in Hc. apply chunks_elem in Hc as (i & p & Hi & _ & -> & _).
    apply lookup_lt_Some in Hi. rewrite length_drop in Hi.
    exists (n + i)%nat. rewrite <- (take_take_drop ps n i), size_app. auto with lia.
Qed.

(** Cutting at a boundary succeeds. *)
Lemma trim_boundary maxB high ps s r n a :
  Forall piece_ok ps -> recovery_ok maxB high ps s r n -> boundary r a ->
  is_Some (trimReplayToOffset r a).
Proof.
  intros Hp Hok Hb. destruct (boundary_piece _ _ _ _ _ _ _ Hok Hb) as (m & Hm & ->).
  destruct Hok. unfold trimReplayToOffset. rewrite ro_replay.
  destruct (split_chunks (size (take m ps)) (Z.of_nat n) (size (take n ps)) (drop n ps))
    as (k & Hk & -> & Hk1 & Hk2).
  assert (Hq : Forall piece_ok (drop n ps)) by (by apply Forall_drop).
  rewrite length_drop in *.
  assert (Hsz : size (take m ps) = size (take n ps) + size (take (m - n) (drop n ps))).
  { rewrite <- size_app, take_take_drop. do 2 f_equal. lia. }
  assert (k = (m - n)%nat) as ->.
  { destruct (Nat.lt_trichotomy k (m - n)) as [Hlt|[|Hlt]]; [|done|].
    - destruct Hk1 as [->|Hk1]; [lia|].
      destruct (decide (S k = m - n)%nat) as [E|Hne]; [rewrite E in Hk1; lia|].
      pose proof (size_take_mono (drop n ps) (S k) (m - n) Hq) as Hmono. rewrite length_drop in Hmono. lia.
    - destruct Hk2 as [->|Hk2]; [lia|].
      pose proof (size_take_mono (drop n ps) (m - n) k Hq) as Hmono. rewrite length_drop in Hmono. lia. }
  destruct (drop (m - n) (drop n ps)) eqn:E; simpl.
  - replace (_ =? sendOffset r) with true; [by eexists|].
    symmetry. apply Z.eqb_eq. rewrite ro_sent. rewrite drop_drop in E.
    assert (length (drop (n + (m - n)) ps) = 0%nat) as H0 by (by rewrite E).
    rewrite length_drop in H0. rewrite firstn_all2 by lia. done.
  - replace (_ =? size (take m ps)) with true by lia. rewrite andb_false_r. by eexists.
Qed.

Lemma boundary_range maxB high ps s r n a :
  recovery_ok maxB high ps s r n -> boundary r a -> acknowledgedOffset r <= a <= sendOffset r.
Proof.
  intros Hok Hb. destruct (boundary_piece _ _ _ _ _ _ _ Hok Hb) as (m & Hm & ->).
  destruct Hok. rewrite ro_ack, ro_sent, <- (size_take_drop m ps).
  replace (take n ps) with (take n (take m ps)) by (rewrite take_take; f_equal; lia).
  pose proof (size_take_drop n (take m ps)). pose proof (size_nonneg (drop n (take m ps))).
  pose proof (size_nonneg (drop m ps)). lia.
Qed.

(** Cutting elsewhere fails. *)
Lemma trim_inside r a r' : trimReplayToOffset r a = Some r' -> boundary r a.
Proof.
  unfold trimReplayToOffset. pose proof (split_replay_app a (replay r)) as E.
  destruct (split_replay a (replay r)) as [gone kept]. simpl in E.
  destruct (_ && _) eqn:Eb; [done|]. intros _. apply andb_false_iff in Eb as [Eb|Eb]; bool_prop; [by left|].
  right. destruct kept as [|c kept]; [done|]. bool_prop. exists c. split; [rewrite <- E; set_solver|done].
Qed.

(** The state after a cut. *)
Lemma trim_content maxB high ps s r n a r' :
  sess_ok maxB high ps s -> transportMode s <> Direct -> recovery_ok maxB high ps s r n ->
  boundary r a -> trimReplayToOffset r a = Some r' ->
  exists m, recovery_ok maxB high ps s r' m /\ acknowledgedOffset r' = a /\ sendOffset r' = sendOffset r
    /\ decoded (replay r') = drop (Z.to_nat a) (taken s) /\ replayBytes r' = sendOffset r - a.
Proof.
  intros Hok Hm Hr Hb Ht. pose proof (boundary_range _ _ _ _ _ _ _ Hr Hb) as Hrange.
  destruct (trim_ok maxB high ps s r n a r' (so_pieces _ _ _ _ Hok) Hr Hrange Ht) as (m & _ & Hr' & Ha).
  exists m. pose proof (so_pieces _ _ _ _ Hok) as Hp. rewrite (so_taken _ _ _ _ Hok Hm).
  pose proof (ro_sent _ _ _ _ _ _ Hr) as Hsent.
  destruct Hr' as [Hn' Hs' Ha' Hrep' Hb' ? ? ? ?] eqn:E. clear E.
  assert (a = size (take m ps)) as -> by congruence.
  rewrite Hrep', decoded_chunks, drop_join by (by apply Forall_drop).
  split_and!; try done; try congruence. pose proof (size_take_drop m ps). lia.
Qed.

(** An acknowledgement with the right identity, in a tunnel that
    runs: one that acknowledges nothing new is ignored; one at the end of a chunk
    removes exactly the acknowledged bytes from the replay buffer, keeps the rest
    and lets the socket deliver again once the buffer is at the low-water mark;
    any other offset closes the stream with an error to the other side. *)
Theorem tunnel_acknowledgement node requested available t0 es id s r ack :
  tunnel_new node requested available = Ok t0 ->
  Forall event_ok es ->
  let t := tunnel_run es t0 in
  session_of t id = Some s -> recovery s = Some r -> transportMode s <> Direct ->
  let t' := receiveAcknowledgement id (generation r) (recoveryToken r) ack t in
  (ack <= acknowledgedOffset r -> t' = t)
  /\ (acknowledgedOffset r < ack -> boundary r ack ->
      exists s' r', session_of t' id = Some s' /\ recovery s' = Some r'
        /\ acknowledgedOffset r' = ack
        /\ decoded (replay r') = drop (Z.to_nat ack) (taken s)
        /\ replayBytes r' = sendOffset r - ack
        /\ outbox t' = outbox t
        /\ paused (socket s') =
             (if opened s && negb (suspended r) && (replayBytes r' <=? replayLowWaterBytes t)
              then false else paused (socket s)))
  /\ (acknowledgedOffset r < ack -> ~ boundary r ack ->
      t' = closeSession id true (Some (colon (js "runtime_stream_ack_offset_is_invalid")
             [acknowledgedOffset r; ack; sendOffset r])) t).
Proof.
  intros Hnew Hes t Hs Hr Hm t'.
  pose proof (tunnel_run_ok es t0 Hes (tunnel_new_ok _ _ _ _ Hnew)) as Hok. fold t in Hok.
  destruct (to_sessions _ Hok _ _ Hs) as [ps Hps]. destruct (so_recovery _ _ _ _ Hps r Hr) as [n Hn].
  subst t'. unfold receiveAcknowledgement. rewrite Hs, Hr, Z.eqb_refl, bool_decide_true by done.
  cbn [negb orb]. cbv iota. split_and!.
  - intros H. replace (ack <=? _) with true by lia. done.
  - intros H Hb. replace (ack <=? _) with false by lia.
    pose proof (boundary_range _ _ _ _ _ _ _ Hn Hb) as Hrange.
    replace (sendOffset r <? ack) with false by lia.
    destruct (trim_boundary _ _ _ _ _ _ _ (so_pieces _ _ _ _ Hps) Hn Hb) as [r' Ht]. rewrite Ht.
    destruct (trim_content _ _ _ _ _ _ _ _ Hps Hm Hn Hb Ht) as (m & _ & Ha & _ & Hd & Hbytes).
    assert (suspended r' = suspended r) as Hsus.
    { revert Ht. unfold trimReplayToOffset. destruct (split_replay _ _), (_ && _); [done|]. by intros [= <-]. }
    eexists _, r'. rewrite session_on_session, decide_True, Hs, outbox_on_session by done.
    split; [reflexivity|]. cbn [opened set_recovery]. rewrite Hsus.
    destruct (_ && _); simpl; split_and!; done.
  - intros H Hb. replace (ack <=? _) with false by lia.
    destruct (sendOffset r <? ack); [done|]. destruct (trimReplayToOffset r ack) as [r'|] eqn:Ht; [|done].
    apply trim_inside in Ht. done.
Qed.

(** ** Resumption *)

Lemma existsb_offset a l : existsb (fun c => offset c =? a) l = true <-> exists c, c ∈ l /\ offset c = a.
Proof.
  rewrite existsb_exists. split; intros (c & Hc & E); exists c.
  - apply list_elem_of_In in Hc. apply Z.eqb_eq in E. done.
  - apply list_elem_of_In in Hc. apply Z.eqb_eq in E. done.
Qed.

(** The data messages a relay makes of what a tunnel sent. *)
Definition data_message (e : envelope) : option message :=
  match e with
  | StreamData id seq who off text => Some (MData id seq who off text)
  | _ => None
  end.

Lemma data_messages id r (l : list ReplayChunk) :
  omap data_message (chunk_envelope id r <$> l) = chunk_message id (generation r) (recoveryToken r) <$> l.
Proof. induction l as [|c l IH]; [done|]. simpl. f_equal. exact IH. Qed.

Lemma resume_accepted id g from t s r ps n :
  sess_ok (maxReplayBytes t) (replayHighWaterBytes t) ps s ->
  recovery_ok (maxReplayBytes t) (replayHighWaterBytes t) ps s r n ->
  transportMode s <> Direct -> session_of t id = Some s -> recovery s = Some r ->
  transportAvailable t = true -> answers t = [] ->
  g = generation r + 1 -> boundary r from ->
  let t' := resumeSession id (generation r) g (recoveryToken r) from t in
  exists m s' r', (m <= length ps)%nat /\ from = size (take m ps)
    /\ outbox t' = outbox t ++ (chunk_envelope id r' <$> chunks (Z.of_nat m) from (drop m ps))
         ++ [StreamAck id g (recoveryToken r) (receiveOffset r)]
    /\ session_of t' id = Some s' /\ recovery s' = Some r'
    /\ generation r' = g /\ recoveryToken r' = recoveryToken r /\ suspended r' = false
    /\ acknowledgedOffset r' = from /\ taken s' = taken s
    /\ (opened s', receiveOffset r', written (socket s'), writableLength (socket s'), destroyed (socket s'))
       = (opened s, receiveOffset r, written (socket s), writableLength (socket s), destroyed (socket s)).
Proof.
  intros Hok Hn Hm Hs Hr Ha Hans -> Hb t'. subst t'. unfold resumeSession. rewrite Hs, Hr.
  replace (generation r =? generation r + 1) with false by lia.
  rewrite andb_false_r, !Z.eqb_refl, bool_decide_true by done. cbn [negb andb orb].
  pose proof (boundary_range _ _ _ _ _ _ _ Hn Hb) as Hrange.
  rewrite (bufferedFrom_ok _ _ _ _ _ _ Hn).
  replace (from <? acknowledgedOffset r) with false by lia.
  replace (sendOffset r <? from) with false by lia.
  assert (negb (from =? sendOffset r) && negb (existsb (fun c => offset c =? from) (replay r)) = false) as ->.
  { destruct Hb as [->|Hb]; [by rewrite Z.eqb_refl|]. rewrite (proj2 (existsb_offset _ _) Hb). apply andb_false_r. }
  cbn [orb]. destruct (trim_boundary _ _ _ _ _ _ _ (so_pieces _ _ _ _ Hok) Hn Hb) as [r1 Ht].
  rewrite Ht. cbn [fmap option_fmap option_map].
  destruct (trim_content _ _ _ _ _ _ _ _ Hok Hm Hn Hb Ht) as (m & Hm1 & Ha1 & Hs1 & _ & _).
  assert (recoveryToken r1 = recoveryToken r /\ receiveOffset r1 = receiveOffset r) as [Htok Hrecv].
  { revert Ht. unfold trimReplayToOffset. destruct (split_replay _ _), (_ && _); [done|]. by intros [= <-]. }
  set (r2 := set_suspended false (set_generation (generation r + 1) r1)).
  set (t1 := on_session id (set_recovery (Some r2)) t).
  assert (Hfrom : from = size (take m ps)) by (rewrite <- Ha1; apply Hm1).
  assert (Hrep : replay r2 = chunks (Z.of_nat m) from (drop m ps)).
  { rewrite Hfrom. apply (ro_replay _ _ _ _ _ _ Hm1). }
  assert (Ha2 : transportAvailable t1 = true) by (subst t1; by rewrite available_on_session).
  assert (Hn2 : answers t1 = []) by (subst t1; by rewrite answers_on_session).
  destruct (resend_all id r2 from (replay r2) t1 Ha2 Hn2) as (t3 & -> & Ho3 & Hse3 & Ha3 & Hn3 & _).
  { rewrite Hrep. apply chunks_offsets. }
  assert (Hs3 : session_of t3 id = Some (set_recovery (Some r2) s)).
  { unfold session_of. rewrite Hse3. fold (session_of t1 id). subst t1.
    rewrite session_on_session, decide_True, Hs by done. done. }
  assert (Hack : sendAcknowledgement id t3
                 = push_out (StreamAck id (generation r + 1) (recoveryToken r) (receiveOffset r)) t3).
  { unfold sendAcknowledgement. rewrite Hs3. cbn [recovery set_recovery]. rewrite Ha3. cbn [negb orb suspended r2].
    subst r2. cbn. rewrite send_open, Htok, Hrecv by done. done. }
  rewrite Hack. set (t4 := push_out _ t3).
  assert (Ho4 : outbox t4 = outbox t ++ (chunk_envelope id r2 <$> chunks (Z.of_nat m) from (drop m ps))
                  ++ [StreamAck id (generation r + 1) (recoveryToken r) (receiveOffset r)]).
  { subst t4. simpl. rewrite Ho3, Hrep. subst t1. by rewrite outbox_on_session, <- app_assoc. }
  assert (Hs4 : session_of t4 id = Some (set_recovery (Some r2) s)) by done.
  exists m. destruct (replayBytes r2 <=? _).
  - exists (pause_socket false (set_recovery (Some r2) s)), r2.
    rewrite outbox_on_session, session_on_session, decide_True, Hs4 by done.
    split_and!; try done; [apply Hm1|simpl; by rewrite Hrecv].
  - exists (set_recovery (Some r2) s), r2. rewrite Hs4. split_and!; try done; [apply Hm1|simpl; by rewrite Hrecv].
Qed.

(** C2 (refinement). A resumption carries the stream on exactly: in a tunnel that
    runs, resumed at an offset where its replay buffer can be cut, the data sent
    for the new generation is what the far end is missing.  A far end that is at
    that offset and has room receives it all, and afterwards has written exactly
    the bytes the source has taken from its socket. *)
Theorem tunnel_resume_exact node requested available t0 es id s r far sf rf from :
  tunnel_new node requested available = Ok t0 ->
  Forall event_ok es ->
  let t := tunnel_run es t0 in
  session_of t id = Some s -> recovery s = Some r -> transportMode s <> Direct ->
  transportAvailable t = true -> answers t = [] -> boundary r from ->
  expects far id (generation r + 1) (recoveryToken r) from sf rf ->
  written (socket sf) = take (Z.to_nat from) (taken s) ->
  writableLength (socket sf) + (sendOffset r - from) <= MAX_SOCKET_BUFFERED_BYTES ->
  let t' := resumeSession id (generation r) (generation r + 1) (recoveryToken r) from t in
  exists sent sf' rf', outbox t' = outbox t ++ sent
    /\ expects (receive_all (omap data_message sent) far) id (generation r + 1) (recoveryToken r)
         (sendOffset r) sf' rf'
    /\ written (socket sf') = taken s.
Proof.
  intros Hnew Hes t Hs Hr Hm Ha Hans Hb Hex Hw Hroom t'.
  pose proof (tunnel_run_ok es t0 Hes (tunnel_new_ok _ _ _ _ Hnew)) as Hok. fold t in Hok.
  destruct (to_sessions _ Hok _ _ Hs) as [ps Hps]. destruct (so_recovery _ _ _ _ Hps r Hr) as [n Hn].
  destruct (resume_accepted id _ from t s r ps n Hps Hn Hm Hs Hr Ha Hans eq_refl Hb)
    as (m & s' & r' & Hlen & Hfrom & Hout & _ & _ & Hg & Htok & _).
  fold t' in Hout. pose proof (ro_sent _ _ _ _ _ _ Hn) as Hsent.
  assert (Hsz : from + size (drop m ps) = sendOffset r).
  { rewrite Hfrom, Hsent. apply size_take_drop. }
  destruct (receive_chunks id (generation r + 1) (recoveryToken r) (drop m ps)) with
    (seq := Z.of_nat m) (off := from) (t := far) (s := sf) (r := rf) as (sf' & rf' & Hex' & Hw');
    [by apply Forall_drop, Hps|done|lia|].
  eexists _, sf', rf'. split; [exact Hout|]. split.
  - rewrite omap_app. simpl. rewrite app_nil_r, <- Hsz.
    rewrite data_messages, Hg, Htok. exact Hex'.
  - rewrite Hw', Hw, (so_taken _ _ _ _ Hps Hm), Hfrom, <- drop_join. apply take_drop.
Qed.
