(* ===== verification/TunnelExamples.v ===== *)
(** * Runs of the runtime stream tunnel

    Concrete runs: the inputs on which the theorems of the tunnel are applied,
    and a run that shows what happens to a stream that is resumed before it was
    opened. *)

From S2P Require Import Prelude JsString JsMap JsonText Base64 Tunnel TunnelInv TunnelSteps TunnelProps TunnelLink TunnelResume.

#[local] Open Scope Z_scope.

Definition sid : jsstring := js "stream".
Definition tok : jsstring := js "token".
Definition node_a : jsstring := js "a".
Definition node_b : jsstring := js "b".

Definition tunnel_of (node : jsstring) : tunnel :=
  match tunnel_new node None None with Ok t => t | Err _ => Tunnel node 0 0 0 [] [] false [] [] [] [] [] end.

Lemma tunnel_of_ok node : tunnel_new node None None = Ok (tunnel_of node).
Proof. reflexivity. Qed.

(** A stream that is opened and carries two chunks, the first acknowledged. *)
Definition opening : list event :=
  [Outgoing sid tok node_b 5000; Message (MOpened sid (Some 0, Some tok))].
Definition carrying : list event :=
  opening ++ [SocketData sid [1; 2; 3] true; SocketData sid [4; 5] true; Message (MAck sid 0 tok 3)].

Abbreviation near := (tunnel_run carrying (tunnel_of node_a)) (only parsing).
Definition near_recovery : RecoveryState :=
  Recovery tok 0 5 3 0 2 [Replay 1 3 (b64_encode [4; 5]) 2] false.
Definition near_session : StreamSession :=
  Session (Sock [] 0 false false) true 2 0 (Some near_recovery) (Some node_b) 5000 Relay 5 0 [1; 2; 3; 4; 5].

Lemma near_has : session_of near sid = Some near_session.
Proof. vm_compute. reflexivity. Qed.

Lemma opening_ok : Forall event_ok opening.
Proof. repeat constructor. Qed.
Lemma carrying_ok : Forall event_ok carrying.
Proof. repeat constructor; unfold is_byte; lia. Qed.

Lemma tunnel_replay_exact_witness :
  decoded (replay near_recovery) = drop 3 (taken near_session) /\ replayBytes near_recovery = 2.
Proof.
  destruct (tunnel_replay_exact node_a None None (tunnel_of node_a) carrying sid near_session near_recovery)
    as (_ & _ & _ & H & _).
  - apply tunnel_of_ok.
  - apply carrying_ok.
  - apply near_has.
  - reflexivity.
  - discriminate.
  - split; [exact H|reflexivity].
Defined.

Lemma tunnel_tables_bounded_witness : map_size (sessions near) <= 256.
Proof.
  destruct (tunnel_tables_bounded node_a None None (tunnel_of node_a) carrying) as (H & _).
  - apply tunnel_of_ok.
  - apply carrying_ok.
  - exact H.
Defined.

Lemma tunnel_backpressure_witness :
  is_Some (session_of (tunnel_step (SocketData sid [6] true) near) sid).
Proof.
  apply (tunnel_backpressure node_a None None (tunnel_of node_a) carrying sid [6] true near_session near_recovery).
  - apply tunnel_of_ok.
  - apply carrying_ok.
  - apply near_has.
  - reflexivity.
  - reflexivity.
  - vm_compute. discriminate.
Defined.

Lemma tunnel_acknowledgement_witness :
  receiveAcknowledgement sid 0 tok 3 near = near
  /\ exists s' r', session_of (receiveAcknowledgement sid 0 tok 5 near) sid = Some s'
       /\ recovery s' = Some r' /\ acknowledgedOffset r' = 5 /\ replayBytes r' = 0.
Proof.
  assert (H : forall ack, _) by (intros ack;
    exact (tunnel_acknowledgement node_a None None (tunnel_of node_a) carrying sid near_session near_recovery ack
      (tunnel_of_ok node_a) carrying_ok near_has eq_refl ltac:(discriminate))).
  split.
  - destruct (H 3) as (H1 & _). apply H1. simpl. lia.
  - destruct (H 5) as (_ & H2 & _). destruct H2 as (s' & r' & Hs & Hr & Ha & _ & Hb & _).
    + simpl. lia.
    + left. reflexivity.
    + exists s', r'. split; [exact Hs|]. split; [exact Hr|]. split; [exact Ha|]. rewrite Hb. reflexivity.
Defined.

(** The far end, after the first chunk and a resumption. *)
Definition far_recovery : RecoveryState := Recovery tok 1 0 0 3 0 [] false.
Definition far_session : StreamSession :=
  Session (Sock [1; 2; 3] 3 false false) true 0 0 (Some far_recovery) None 5000 Relay 0 3 [].
Definition far : tunnel :=
  tunnel_run [Authorize [5000]; Message (MOpen sid 5000 (Some 0, Some tok)); SocketConnected sid;
              Message (MData sid 0 (Some 0, Some tok) (Some 0) (b64_encode [1; 2; 3]));
              Message (MResumed sid 0 1 tok 0)] (tunnel_of node_b).

Lemma far_has : session_of far sid = Some far_session.
Proof. vm_compute. reflexivity. Qed.

Lemma tunnel_resume_exact_witness :
  exists sent sf rf,
    outbox (resumeSession sid 0 1 tok 3 near) = outbox near ++ sent
    /\ expects (receive_all (omap data_message sent) far) sid 1 tok 5 sf rf
    /\ written (socket sf) = [1; 2; 3; 4; 5].
Proof.
  apply (tunnel_resume_exact node_a None None (tunnel_of node_a) carrying sid near_session near_recovery
           far far_session far_recovery 3).
  - apply tunnel_of_ok.
  - apply carrying_ok.
  - apply near_has.
  - reflexivity.
  - discriminate.
  - vm_compute. reflexivity.
  - vm_compute. reflexivity.
  - right. eexists. split; [apply list_elem_of_here|reflexivity].
  - constructor; [exact far_has|reflexivity..].
  - reflexivity.
  - vm_compute. discriminate.
Defined.

(** A stream through both tunnels: the source disconnects, the target is sent the
    chunk it missed twice. *)
Definition relayed : list link_event :=
  [AtTarget (Authorize [5000]); AtSource (Outgoing sid tok node_b 5000);
   AtTarget (Message (MOpen sid 5000 (Some 0, Some tok)));
   AtSource (Message (MOpened sid (Some 0, Some tok)));
   AtSource (SocketData sid [7] true); AtSource Disconnected; AtSource Connected;
   AtTarget (Message (MData sid 0 (Some 0, Some tok) (Some 0) (b64_encode [7])));
   AtTarget (Message (MData sid 0 (Some 0, Some tok) (Some 0) (b64_encode [7])))].

Lemma tunnel_prefix_delivery_witness :
  exists s, session_of (target (link_run sid relayed (link_new (tunnel_of node_a) (tunnel_of node_b)))) sid = Some s
    /\ written (socket s) = [7]
    /\ written (socket s) `prefix_of` delivered (link_run sid relayed (link_new (tunnel_of node_a) (tunnel_of node_b))).
Proof.
  eexists. split; [vm_compute; reflexivity|]. split; [reflexivity|].
  destruct (tunnel_prefix_delivery node_a None None (tunnel_of node_a) node_b None None (tunnel_of node_b)
              sid relayed) as (H & _).
  - apply tunnel_of_ok.
  - apply tunnel_of_ok.
  - repeat constructor; unfold is_byte; lia.
  - apply H. vm_compute. reflexivity.
Defined.

(** ** A stream resumed before it was opened

    [resumeSession] lets the socket deliver whenever the replay buffer is low; it
    does not ask whether the stream is open, and the handler of the socket's data
    drops what arrives before. *)

Definition resumed_unopened : list event :=
  [Outgoing sid tok node_b 5000; Disconnected; Connected; Message (MResumed sid 0 1 tok 0)].

(** A stream that loses the coordinator before it was opened and is
    then resumed loses data: its socket delivers again although the stream is not
    open, every byte of that time is dropped without an error, and when the
    stream is opened later the next bytes are sent at offset 0, in the place of
    those that were lost. *)
Theorem tunnel_resumed_before_open_loses_data :
  let t1 := tunnel_run resumed_unopened (tunnel_of node_a) in
  let t2 := tunnel_run [SocketData sid [1; 2; 3] true; Message (MOpened sid (Some 1, Some tok));
                        SocketData sid [4; 5] true] t1 in
  (exists s, session_of t1 sid = Some s /\ opened s = false /\ paused (socket s) = false)
  /\ tunnel_step (SocketData sid [1; 2; 3] true) t1 = t1
  /\ (exists s, session_of t2 sid = Some s /\ taken s = [4; 5])
  /\ last (outbox t2) = Some (StreamData sid 0 (Some 1, Some tok) (Some 0) (b64_encode [4; 5])).
Proof.
  split; [eexists; split; [vm_compute; reflexivity|split; reflexivity]|].
  split; [vm_compute; reflexivity|].
  split; [eexists; split; [vm_compute; reflexivity|reflexivity]|vm_compute; reflexivity].
Qed.
