(* ===== verification/RelayHub.v ===== *)
(** * The coordinator's stream relay

    The part of [WorkerHub] ([src/src/coordinator/worker-hub.ts]) that carries the
    runtime streams between workers: the connection table, the table of streams
    with their recovery state, the negotiation of a direct route, and the streams
    the coordinator opens itself.

    A WebSocket is seen through whether it is open; [sockets] holds what
    [sendSocket] will answer for the next open sockets.  Timers are the events
    that fire them; a message that sets a deadline comes with the time.  What is
    kept only to measure links (round-trip times, samples) is left out, but for the
    check that a reported round-trip time is above 0, as is the
    secret of a grant, 32 random bytes that the relay passes on. *)

From S2P Require Import Prelude JsString JsMap JsonText Base64 DirectGrant.

#[local] Open Scope Z_scope.

(** ** Data *)

Definition identity : Type := option Z * option jsstring.

Record DirectCaps := DirectCap {
  speaksDirect : bool;              (* protocol is mycellios-direct/1 *)
  commitAck : bool;                 (* commitAck, which is optional, is destination-v1 *)
  candidates : Z;
}.

(** [capabilities.distributedExecutor], for the fields the relay reads. *)
Record Executor := Exec {
  tunnelProtocol : bool;            (* protocol is gdlp-worker-tunnel/2 *)
  executorNode : jsstring;
  streamRecovery : bool;            (* streamRecovery is offset-ack-v1 *)
  directTransport : option DirectCaps;
}.

Record Worker := Wkr { workerId : jsstring; executor : option Executor }.

Record Connection := Conn { serial : Z; ready : bool; isOpen : bool }.

Inductive DirectState := Offered | Ready | Established | DestinationCommitting | Committed.
#[export] Instance DirectState_eq_dec : EqDecision DirectState.
Proof. solve_decision. Defined.

(** What the pending timer of a direct route will do. *)
Inductive DirectTimer := NegotiationTimer | CommitTimer | LifetimeTimer | NoTimer.

Record DirectRoute := Route { connectionId : jsstring; routeState : DirectState; timer : DirectTimer }.

Record Report := Rep {
  rSendOffset : Z; rAcknowledgedOffset : Z; rReceiveOffset : Z; rBufferedFromOffset : Z }.
#[export] Instance Report_eq_dec : EqDecision Report.
Proof. solve_decision. Defined.

Record RelayRecovery := RelayRec {
  recoveryToken : jsstring;
  generation : Z;
  sourceForwardOffset : Z;
  destinationForwardOffset : Z;
  suspended : bool;
  reports : list (jsstring * Report);
  timeout : bool;                   (* the recovery timer is pending *)
}.

Inductive RelayMode := Negotiating | Direct | Relay.
#[export] Instance RelayMode_eq_dec : EqDecision RelayMode.
Proof. solve_decision. Defined.

Record LocalSocket := Local { localWritten : bytes; localBuffered : Z; localPaused : bool; localDestroyed : bool }.

Record RelaySession := RSession {
  sourceWorkerId : option jsstring;
  destinationWorkerId : jsstring;
  sourceNodeId : option jsstring;
  destinationNodeId : jsstring;
  targetPort : Z;
  sourceSequence : Z;
  destinationSequence : Z;
  opened : bool;
  localSocket : option LocalSocket;
  recovery : option RelayRecovery;
  transportMode : RelayMode;
  direct : option DirectRoute;
  bytesSourceToDestination : Z;
  bytesDestinationToSource : Z;
}.

(** What a worker sends. *)
Inductive incoming :=
| InOpen (id node : jsstring) (port : Z) (who : identity)
| InOpened (id : jsstring) (who : identity)
| InData (id : jsstring) (sequence : Z) (who : identity) (offset : option Z) (data : jsstring)
| InAck (id : jsstring) (who : identity) (acknowledged : Z)
| InResume (id : jsstring) (who : identity) (report : Report)
| InEnd (id : jsstring) (who : identity) (final : option Z)
| InError (id : jsstring) (who : identity) (message : jsstring)
| InReady (id connection : jsstring)
| InFallback (id connection reason : jsstring)
| InEstablished (id connection : jsstring) (positiveRtt : bool)   (* connectRttMs is a finite number above 0 *)
| InCommitted (id connection : jsstring)
| InTelemetry (id connection : jsstring) (tx rx : Z)
| InClosed (id connection : jsstring) (tx rx : Z) (reason : option jsstring).

(** What the coordinator sends. *)
Inductive outgoing :=
| OutOpen (id : jsstring) (port : Z) (who : identity)
| OutOpened (id : jsstring) (who : identity)
| OutData (id : jsstring) (sequence : Z) (who : identity) (offset : option Z) (data : jsstring)
| OutAck (id : jsstring) (who : identity) (acknowledged : Z)
| OutSuspend (id : jsstring) (generation : Z) (token : jsstring) (deadline : Z)
| OutResumed (id : jsstring) (previous generation : Z) (token : jsstring) (sendFrom : Z)
| OutEnd (id : jsstring) (who : identity) (final : option Z)
| OutError (id : jsstring) (who : identity) (message : jsstring)
| OutOffer (id connection : jsstring)
| OutConnect (id node : jsstring) (port : Z) (connection : jsstring)
| OutCommit (id connection : jsstring)
| OutCancel (id connection : jsstring).

Record HubFailure := HFailure {
  hf_stream : jsstring; hf_direct : bool; hf_generation : Z; hf_source : Z; hf_destination : Z; hf_reason : jsstring }.

Record HubSnapshot := HSnapshot {
  hs_stream : jsstring; hs_mode : RelayMode; hs_source : Z; hs_destination : Z }.

Record hub := Hub {
  workers : list Worker;
  connections : list (jsstring * Connection);
  runtimeStreams : list (jsstring * RelaySession);
  runtimeLinkFailures : list HubFailure;
  completedRuntimeTransports : list HubSnapshot;
  sockets : list bool;
  sent : list (jsstring * outgoing);
}.

Definition MAX_RUNTIME_STREAMS : Z := 1024.
Definition MAX_RUNTIME_STREAM_BUFFERED_BYTES : Z := 8 * 1024 * 1024.
Definition RUNTIME_STREAM_RECOVERY_GRACE_MS : Z := 45000.
Definition DIRECT_GRANT_TTL_MS : Z := 10000.
Definition MAX_CHUNK_BYTES : Z := 48 * 1024.

(** ** Field updates *)

Definition set_connections v h := Hub (workers h) v (runtimeStreams h) (runtimeLinkFailures h) (completedRuntimeTransports h) (sockets h) (sent h).
Definition set_workers v h := Hub v (connections h) (runtimeStreams h) (runtimeLinkFailures h) (completedRuntimeTransports h) (sockets h) (sent h).
Definition set_streams v h := Hub (workers h) (connections h) v (runtimeLinkFailures h) (completedRuntimeTransports h) (sockets h) (sent h).
Definition set_hub_failures v h := Hub (workers h) (connections h) (runtimeStreams h) v (completedRuntimeTransports h) (sockets h) (sent h).
Definition set_transports v h := Hub (workers h) (connections h) (runtimeStreams h) (runtimeLinkFailures h) v (sockets h) (sent h).
Definition set_sockets v h := Hub (workers h) (connections h) (runtimeStreams h) (runtimeLinkFailures h) (completedRuntimeTransports h) v (sent h).
Definition push_sent w m h := Hub (workers h) (connections h) (runtimeStreams h) (runtimeLinkFailures h) (completedRuntimeTransports h) (sockets h) (sent h ++ [(w, m)]).

Definition set_open v s := RSession (sourceWorkerId s) (destinationWorkerId s) (sourceNodeId s) (destinationNodeId s) (targetPort s) (sourceSequence s) (destinationSequence s) v (localSocket s) (recovery s) (transportMode s) (direct s) (bytesSourceToDestination s) (bytesDestinationToSource s).
Definition set_local v s := RSession (sourceWorkerId s) (destinationWorkerId s) (sourceNodeId s) (destinationNodeId s) (targetPort s) (sourceSequence s) (destinationSequence s) (opened s) v (recovery s) (transportMode s) (direct s) (bytesSourceToDestination s) (bytesDestinationToSource s).
Definition set_relay_recovery v s := RSession (sourceWorkerId s) (destinationWorkerId s) (sourceNodeId s) (destinationNodeId s) (targetPort s) (sourceSequence s) (destinationSequence s) (opened s) (localSocket s) v (transportMode s) (direct s) (bytesSourceToDestination s) (bytesDestinationToSource s).
Definition set_route m d s := RSession (sourceWorkerId s) (destinationWorkerId s) (sourceNodeId s) (destinationNodeId s) (targetPort s) (sourceSequence s) (destinationSequence s) (opened s) (localSocket s) (recovery s) m d (bytesSourceToDestination s) (bytesDestinationToSource s).
Definition set_bytes a b s := RSession (sourceWorkerId s) (destinationWorkerId s) (sourceNodeId s) (destinationNodeId s) (targetPort s) (sourceSequence s) (destinationSequence s) (opened s) (localSocket s) (recovery s) (transportMode s) (direct s) a b.
Definition next_sequence (fromSource : bool) s := RSession (sourceWorkerId s) (destinationWorkerId s) (sourceNodeId s) (destinationNodeId s) (targetPort s) (if fromSource then sourceSequence s + 1 else sourceSequence s) (if fromSource then destinationSequence s else destinationSequence s + 1) (opened s) (localSocket s) (recovery s) (transportMode s) (direct s) (bytesSourceToDestination s) (bytesDestinationToSource s).
Definition count_bytes (fromSource : bool) (n : Z) s :=
  if fromSource then set_bytes (bytesSourceToDestination s + n) (bytesDestinationToSource s) s
  else set_bytes (bytesSourceToDestination s) (bytesDestinationToSource s + n) s.

Definition set_reports v r := RelayRec (recoveryToken r) (generation r) (sourceForwardOffset r) (destinationForwardOffset r) (suspended r) v (timeout r).
Definition forward (fromSource : bool) (n : Z) r :=
  RelayRec (recoveryToken r) (generation r)
    (if fromSource then sourceForwardOffset r + n else sourceForwardOffset r)
    (if fromSource then destinationForwardOffset r else destinationForwardOffset r + n)
    (suspended r) (reports r) (timeout r).
Definition suspend_recovery r := RelayRec (recoveryToken r) (generation r) (sourceForwardOffset r) (destinationForwardOffset r) true [] true.

Definition stream_of (h : hub) (id : jsstring) : option RelaySession := map_get (runtimeStreams h) id.

(** Mutation of a stream that is in the table. *)
Definition on_stream (id : jsstring) (f : RelaySession -> RelaySession) (h : hub) : hub :=
  match stream_of h id with
  | Some s => set_streams (map_set (runtimeStreams h) id (f s)) h
  | None => h
  end.

(** ** Connections *)

Definition isConnected (h : hub) (w : jsstring) : bool :=
  match map_get (connections h) w with Some c => ready c | None => false end.

(** [send] with [sendSocket]: a socket over its buffer limit is closed. *)
Definition send (w : jsstring) (m : outgoing) (h : hub) : bool * hub :=
  match map_get (connections h) w with
  | Some c =>
      if ready c && isOpen c then
        match sockets h with
        | false :: rest =>
            (false, set_connections (map_set (connections h) w (Conn (serial c) (ready c) false))
                      (set_sockets rest h))
        | true :: rest => (true, push_sent w m (set_sockets rest h))
        | [] => (true, push_sent w m h)
        end
      else (false, h)
  | None => (false, h)
  end.

Definition sends (w : jsstring) (m : outgoing) (h : hub) : hub := (send w m h).2.
Definition sends_to (w : option jsstring) (m : outgoing) (h : hub) : hub :=
  match w with Some w => sends w m h | None => h end.

Definition who_of (s : RelaySession) : identity :=
  match recovery s with
  | Some r => (Some (generation r), Some (recoveryToken r))
  | None => (None, None)
  end.

Definition runtimeStreamIdentityMatches (s : RelaySession) (who : identity) : bool :=
  bool_decide (who = who_of s).

Definition runtimeStreamMovedBytes (s : RelaySession) : bool :=
  (0 <? bytesSourceToDestination s) || (0 <? bytesDestinationToSource s).

Definition from_source (s : RelaySession) (w : jsstring) : bool := bool_decide (sourceWorkerId s = Some w).
Definition from_destination (s : RelaySession) (w : jsstring) : bool := bool_decide (destinationWorkerId s = w).

(** ** Ending and suspending a stream *)

Definition terminateRuntimeStream (id : jsstring) (message : option jsstring) (h : hub) : hub :=
  match stream_of h id with
  | None => h
  | Some s =>
      let h := set_streams (map_delete (runtimeStreams h) id) h in
      let h := match direct s with
        | Some d =>
            let cancel := OutCancel id (connectionId d) in
            sends (destinationWorkerId s) cancel (sends_to (sourceWorkerId s) cancel h)
        | None => h
        end in
      let h := set_transports (take 512 (HSnapshot id (transportMode s) (bytesSourceToDestination s)
                 (bytesDestinationToSource s) :: completedRuntimeTransports h)) h in
      match message with
      | Some text =>
          if bool_decide (transportMode s = Relay) then
            let m := OutError id (who_of s) (slice 1024 text) in
            sends (destinationWorkerId s) m (sends_to (sourceWorkerId s) m h)
          else h
      | None => h
      end
  end.

Definition within (lo hi : Z) (s : jsstring) : bool := (lo <=? utf16_length s) && (utf16_length s <=? hi).
Definition is_offset (z : Z) : bool := (0 <=? z) && (z <=? MAX_SAFE_INTEGER).

(** [recordRuntimeLinkFailure]: the evidence is parsed with
    [runtimeLinkFailureEvidenceSchema], which throws. *)
Definition recordRuntimeLinkFailure (id : jsstring) (s : RelaySession) (isDirect : bool) (reason : jsstring)
  : SE hub unit :=
  let reason := slice 256 reason in
  let g := match recovery s with Some r => generation r | None => 0 end in
  let offsets := match recovery s with
    | Some r => if isDirect then (bytesSourceToDestination s, bytesDestinationToSource s)
                else (sourceForwardOffset r, destinationForwardOffset r)
    | None => (bytesSourceToDestination s, bytesDestinationToSource s)
    end in
  let checkpoint := match recovery s with Some _ => negb isDirect | None => false end in
  fail_if (negb (within 1 128 id
                 && match sourceNodeId s with Some n => within 1 256 n | None => true end
                 && within 1 256 (destinationNodeId s) && within 1 256 reason
                 && is_offset g && is_offset offsets.1 && is_offset offsets.2
                 && eqb checkpoint (negb isDirect))) with "ZodError" ;;
  se_modify (fun h => set_hub_failures
    (take 512 (HFailure id isDirect g offsets.1 offsets.2 reason :: runtimeLinkFailures h)) h).

Definition suspendRuntimeStream (id : jsstring) (reason : jsstring) (now : Z) : SE hub unit :=
  let! h := se_get in
  match stream_of h id with
  | None => se_ret tt
  | Some s =>
      match recovery s with
      | None => se_ret tt
      | Some r =>
          if suspended r then se_ret tt
          else
            do! recordRuntimeLinkFailure id s false reason ;;
            se_modify (fun h =>
              let h := on_stream id (set_relay_recovery (Some (suspend_recovery r))) h in
              let m := OutSuspend id (generation r) (recoveryToken r) (now + RUNTIME_STREAM_RECOVERY_GRACE_MS) in
              let h := match sourceWorkerId s with
                       | Some w => if isConnected h w then sends w m h else h
                       | None => h
                       end in
              if isConnected h (destinationWorkerId s) then sends (destinationWorkerId s) m h else h)
      end
  end.

(** ** Starting the relay *)

Definition startRuntimeRelay (id : jsstring) (h : hub) : hub :=
  match stream_of h id with
  | None => h
  | Some s =>
      let h := on_stream id (set_route Relay None) h in
      match send (destinationWorkerId s) (OutOpen id (targetPort s) (who_of s)) h with
      | (true, h) => h
      | (false, h) => terminateRuntimeStream id (Some (js "runtime_stream_destination_disconnected")) h
      end
  end.

Definition fallbackRuntimeStreamToRelay (id : jsstring) (h : hub) : hub :=
  match stream_of h id with
  | None => h
  | Some s =>
      let refuse := terminateRuntimeStream id (Some (js "direct_downgrade_after_bytes_is_forbidden")) h in
      match direct s with
      | None => refuse
      | Some d =>
          if bool_decide (routeState d = Committed) || runtimeStreamMovedBytes s then refuse
          else
            let cancel := OutCancel id (connectionId d) in
            startRuntimeRelay id (sends (destinationWorkerId s) cancel (sends_to (sourceWorkerId s) cancel h))
      end
  end.

(** ** Opening *)

Definition getWorker (h : hub) (w : jsstring) : option Worker :=
  List.find (fun x => bool_decide (workerId x = w)) (workers h).

(** The first connected worker that runs the node. *)
Definition find_destination (h : hub) (node : jsstring) : option Worker :=
  List.find (fun x => isConnected h (workerId x)
               && match executor x with
                  | Some e => tunnelProtocol e && bool_decide (executorNode e = node)
                  | None => false
                  end) (workers h).

Definition speaks_direct (e : option Executor) : option DirectCaps :=
  match e with
  | Some e => match directTransport e with Some d => if speaksDirect d && commitAck d then Some d else None | None => None end
  | None => None
  end.

Definition openRuntimeStream (w id node : jsstring) (port : Z) (who : identity) (now : Z) (h : hub)
    : res unit * hub :=
  let refuse who text := (Ok tt, sends w (OutError id who text) h) in
  if map_has (runtimeStreams h) id then refuse (None, None) (js "runtime_stream_is_duplicate")
  else if MAX_RUNTIME_STREAMS <=? map_size (runtimeStreams h) then
    refuse (None, None) (js "runtime_stream_capacity_exceeded")
  else
    let unavailable := refuse (None, None) (js "runtime_stream_destination_unavailable:" ++ node) in
    match find_destination h node with
    | None => unavailable
    | Some destination =>
        if bool_decide (workerId destination = w) then unavailable
        else
          let source := match getWorker h w with Some x => executor x | None => None end in
          let recovers e := match e with Some e => streamRecovery e | None => false end in
          let requested := match who with (Some _, Some _) => true | _ => false end in
          if requested && negb (recovers source) then
            refuse who (js "runtime_stream_recovery_was_not_advertised")
          else
            let supported := match speaks_direct source, speaks_direct (executor destination) with
              | Some _, Some d => 0 <? candidates d
              | _, _ => false
              end in
            let rec := match who with
              | (Some g, Some token) =>
                  if recovers (executor destination) then Some (RelayRec token g 0 0 false [] false) else None
              | _ => None
              end in
            let s := RSession (Some w) (workerId destination) (executorNode <$> source) node port 0 0 false None
                       rec (if supported then Negotiating else Relay) None 0 0 in
            let h := set_streams (map_set (runtimeStreams h) id s) h in
            match supported, sourceNodeId s with
            | true, Some ((_ :: _) as sourceNode) =>
                match grantFor id sourceNode node (NInt port) (NInt (now + DIRECT_GRANT_TTL_MS)) [] with
                | Err code => (Err code, h)
                | Ok grant =>
                    let connection := grant_connectionId grant in
                    let h := on_stream id
                      (set_route Negotiating (Some (Route connection Offered NegotiationTimer))) h in
                    (Ok tt, match send (workerId destination) (OutOffer id connection) h with
                            | (true, h) => h
                            | (false, h) => fallbackRuntimeStreamToRelay id h
                            end)
                end
            | _, _ => (Ok tt, startRuntimeRelay id h)
            end
    end.

(** ** Data and acknowledgements *)

(** The worker at the other end. *)
Definition other_end (s : RelaySession) (fromSource : bool) : option jsstring :=
  if fromSource then Some (destinationWorkerId s) else sourceWorkerId s.

Definition handleRecoverableRuntimeData (id w : jsstring) (s : RelaySession) (r : RelayRecovery)
    (seq : Z) (who : identity) (off : option Z) (text : jsstring) (now : Z) : SE hub unit :=
  let ends text := se_modify (terminateRuntimeStream id (Some text)) in
  if negb (runtimeStreamIdentityMatches s who) then ends (js "runtime_stream_data_identity_mismatch")
  else
    let fromSource := from_source s w in
    let n := byteLength (b64_decode text) in
    let expected := if fromSource then sourceForwardOffset r else destinationForwardOffset r in
    match off with
    | None => ends (colon (js "runtime_stream_offset_mismatch") [expected] ++ js ":undefined")
    | Some o =>
        if (o <? expected) && (o + n <=? expected) then se_ret tt
        else if negb (o =? expected) then ends (colon (js "runtime_stream_offset_mismatch") [expected; o])
        else
          do! se_modify (on_stream id (fun s =>
                set_relay_recovery (Some (forward fromSource n r)) (count_bytes fromSource n s))) ;;
          if suspended r then se_ret tt
          else
            let! delivered := (fun h => match other_end s fromSource with
              | Some target => let '(ok, h) := send target (OutData id seq who off text) h in (Ok ok, h)
              | None => (Ok false, h)
              end) in
            if delivered : bool then se_ret tt
            else suspendRuntimeStream id (js "runtime_stream_relay_delivery_failed") now
    end.

Definition handleRuntimeStreamAcknowledgement (id w : jsstring) (s : RelaySession) (who : identity)
    (ack now : Z) : SE hub unit :=
  let ends text := se_modify (terminateRuntimeStream id (Some text)) in
  match recovery s with
  | None => ends (js "runtime_stream_ack_identity_mismatch")
  | Some r =>
      if negb (runtimeStreamIdentityMatches s who) then ends (js "runtime_stream_ack_identity_mismatch")
      else
        let fromSource := from_source s w in
        let maximum := if fromSource then destinationForwardOffset r else sourceForwardOffset r in
        if maximum <? ack then
          ends (colon (js "runtime_stream_ack_exceeds_forwarded_offset") [maximum; ack])
        else if suspended r then se_ret tt
        else
          let! delivered := (fun h => match other_end s fromSource with
            | Some target => let '(ok, h) := send target (OutAck id who ack) h in (Ok ok, h)
            | None => (Ok false, h)
            end) in
          if delivered : bool then se_ret tt
          else suspendRuntimeStream id (js "runtime_stream_relay_ack_delivery_failed") now
  end.

(** ** Resumption *)

Definition inconsistent (source destination : Report) : bool :=
  (rReceiveOffset destination <? rBufferedFromOffset source)
  || (rSendOffset source <? rReceiveOffset destination)
  || (rReceiveOffset source <? rBufferedFromOffset destination)
  || (rSendOffset destination <? rReceiveOffset source)
  || (rReceiveOffset destination <? rAcknowledgedOffset source)
  || (rReceiveOffset source <? rAcknowledgedOffset destination).

Definition tryResumeRuntimeStream (id : jsstring) (h : hub) : hub :=
  match stream_of h id with
  | None => h
  | Some s =>
      match recovery s, sourceWorkerId s with
      | Some r, Some sourceW =>
          match map_get (reports r) sourceW, map_get (reports r) (destinationWorkerId s) with
          | Some source, Some destination =>
              if inconsistent source destination then
                terminateRuntimeStream id (Some (js "runtime_stream_resume_offsets_are_inconsistent")) h
              else if negb (isConnected h sourceW) || negb (isConnected h (destinationWorkerId s)) then h
              else
                let previous := generation r in
                let g := previous + 1 in
                if 1000000 <? g then
                  terminateRuntimeStream id (Some (js "runtime_stream_generation_exhausted")) h
                else
                  let r' := RelayRec (recoveryToken r) g (rReceiveOffset destination) (rReceiveOffset source)
                              false [] false in
                  let h := on_stream id (set_relay_recovery (Some r')) h in
                  let '(a, h) := send sourceW
                    (OutResumed id previous g (recoveryToken r) (rReceiveOffset destination)) h in
                  let '(b, h) := send (destinationWorkerId s)
                    (OutResumed id previous g (recoveryToken r) (rReceiveOffset source)) h in
                  if a && b then h
                  else terminateRuntimeStream id (Some (js "runtime_stream_resume_delivery_failed")) h
          | _, _ => h
          end
      | _, _ => h
      end
  end.

Definition handleRuntimeStreamResume (id w : jsstring) (s : RelaySession) (who : identity) (report : Report)
    (h : hub) : hub :=
  let ends text := terminateRuntimeStream id (Some text) h in
  match recovery s with
  | None => ends (js "runtime_stream_resume_identity_mismatch")
  | Some r =>
      if negb (suspended r) || negb (runtimeStreamIdentityMatches s who) then
        ends (js "runtime_stream_resume_identity_mismatch")
      else if (rSendOffset report <? rAcknowledgedOffset report)
              || (rAcknowledgedOffset report <? rBufferedFromOffset report) then
        ends (js "runtime_stream_resume_report_is_invalid")
      else if match map_get (reports r) w with
              | Some existing => negb (bool_decide (existing = report))
              | None => false
              end then ends (js "runtime_stream_resume_report_changed")
      else tryResumeRuntimeStream id (on_stream id (set_relay_recovery
             (Some (set_reports (map_set (reports r) w report) r))) h)
  end.

(** ** Streams without recovery *)

Definition local_write (b : bytes) (k : LocalSocket) : LocalSocket :=
  Local (localWritten k ++ b) (localBuffered k + byteLength b) (localPaused k) (localDestroyed k).

Definition handleLegacyRuntimeData (id w : jsstring) (s : RelaySession) (seq : Z) (who : identity)
    (off : option Z) (text : jsstring) (h : hub) : hub :=
  if negb (runtimeStreamIdentityMatches s who) then
    terminateRuntimeStream id (Some (js "runtime_stream_unnegotiated_recovery_data")) h
  else
    let fromSource := from_source s w in
    let expected := if fromSource then sourceSequence s else destinationSequence s in
    if negb (seq =? expected) then
      terminateRuntimeStream id (Some (colon (js "runtime_stream_sequence_mismatch") [expected; seq])) h
    else
      let b := b64_decode text in
      let h := on_stream id (fun s => count_bytes fromSource (byteLength b) (next_sequence fromSource s)) h in
      let m := OutData id seq who off text in
      if fromSource then
        match send (destinationWorkerId s) m h with
        | (true, h) => h
        | (false, h) => terminateRuntimeStream id (Some (js "runtime_stream_destination_backpressure")) h
        end
      else match sourceWorkerId s with
           | Some target =>
               match send target m h with
               | (true, h) => h
               | (false, h) => terminateRuntimeStream id (Some (js "runtime_stream_source_backpressure")) h
               end
           | None =>
               match localSocket s with
               | Some k =>
                   if localDestroyed k || (MAX_RUNTIME_STREAM_BUFFERED_BYTES <? localBuffered k) then
                     terminateRuntimeStream id (Some (js "runtime_stream_local_buffer_exceeded")) h
                   else on_stream id (set_local (Some (local_write b k))) h
               | None => terminateRuntimeStream id (Some (js "runtime_stream_local_buffer_exceeded")) h
               end
           end.

Definition forwardRuntimeTerminal (w : jsstring) (s : RelaySession) (m : outgoing) (h : hub) : hub :=
  if from_source s w then sends (destinationWorkerId s) m h else sends_to (sourceWorkerId s) m h.

(** ** The messages of a stream *)

Definition handleOpened (id w : jsstring) (s : RelaySession) (who : identity) (h : hub) : hub :=
  if negb (from_destination s w) || opened s then h
  else if negb (runtimeStreamIdentityMatches s who) then
    terminateRuntimeStream id (Some (js "runtime_stream_opened_identity_mismatch")) h
  else
    let h := on_stream id (set_open true) h in
    match sourceWorkerId s with
    | Some target => sends target (OutOpened id (who_of s)) h
    | None => on_stream id (fun s => set_local ((fun k => Local (localWritten k) (localBuffered k) false
                              (localDestroyed k)) <$> localSocket s) s) h
    end.

Definition handleEnd (id w : jsstring) (s : RelaySession) (who : identity) (final : option Z) (h : hub) : hub :=
  if negb (runtimeStreamIdentityMatches s who) then
    terminateRuntimeStream id (Some (js "runtime_stream_end_identity_mismatch")) h
  else
    terminateRuntimeStream id None (forwardRuntimeTerminal w s
      (match recovery s with Some _ => OutEnd id who final | None => OutEnd id (None, None) None end) h).

Definition handleError (id w : jsstring) (s : RelaySession) (who : identity) (text : jsstring) (h : hub) : hub :=
  if negb (runtimeStreamIdentityMatches s who) then
    terminateRuntimeStream id (Some (js "runtime_stream_error_identity_mismatch")) h
  else terminateRuntimeStream id None (forwardRuntimeTerminal w s (OutError id who text) h).

(** The stream a message of [handleRuntimeStreamEnvelope] is about; [None] for an
    opening and for the messages of a direct route. *)
Definition stream_id (m : incoming) : option jsstring :=
  match m with
  | InOpened id _ | InData id _ _ _ _ | InAck id _ _ | InResume id _ _ | InEnd id _ _ | InError id _ _ => Some id
  | _ => None
  end.

Definition handleStreamMessage (id w : jsstring) (s : RelaySession) (m : incoming) (now : Z) : SE hub unit :=
  match m with
  | InOpened _ who => se_modify (handleOpened id w s who)
  | InData _ seq who off text =>
      if negb (opened s) then se_modify (terminateRuntimeStream id (Some (js "runtime_stream_data_before_open")))
      else match recovery s with
           | Some r => handleRecoverableRuntimeData id w s r seq who off text now
           | None => se_modify (handleLegacyRuntimeData id w s seq who off text)
           end
  | InAck _ who ack => handleRuntimeStreamAcknowledgement id w s who ack now
  | InResume _ who report => se_modify (handleRuntimeStreamResume id w s who report)
  | InEnd _ who final => se_modify (handleEnd id w s who final)
  | InError _ who text => se_modify (handleError id w s who text)
  | _ => se_ret tt
  end.

(** ** The messages of a direct route *)

Definition set_state (st : DirectState) (tm : DirectTimer) (d : DirectRoute) (s : RelaySession) : RelaySession :=
  set_route (transportMode s) (Some (Route (connectionId d) st tm)) s.

(** The byte counts a peer reports. *)
Definition reported (fromSource : bool) (tx rx : Z) (s : RelaySession) : RelaySession :=
  if fromSource then set_bytes (Z.max (bytesSourceToDestination s) tx) (Z.max (bytesDestinationToSource s) rx) s
  else set_bytes (Z.max (bytesSourceToDestination s) rx) (Z.max (bytesDestinationToSource s) tx) s.

Definition handleReady (id w : jsstring) (s : RelaySession) (d : DirectRoute) (h : hub) : hub :=
  match sourceWorkerId s with
  | Some sourceW =>
      if negb (from_destination s w) || negb (bool_decide (routeState d = Offered)) then
        terminateRuntimeStream id (Some (js "direct_ready_identity_is_invalid")) h
      else
        let h := on_stream id (set_state Ready (timer d) d) h in
        let available := match getWorker h (destinationWorkerId s) with
          | Some x => match executor x with
                      | Some e => match directTransport e with Some c => candidates c | None => 0 end
                      | None => 0
                      end
          | None => 0
          end in
        if available =? 0 then fallbackRuntimeStreamToRelay id h
        else match send sourceW (OutConnect id (destinationNodeId s) (targetPort s) (connectionId d)) h with
             | (true, h) => h
             | (false, h) => fallbackRuntimeStreamToRelay id h
             end
  | None => terminateRuntimeStream id (Some (js "direct_ready_identity_is_invalid")) h
  end.

Definition handleEstablished (id w : jsstring) (s : RelaySession) (d : DirectRoute) (positiveRtt : bool) (h : hub) : hub :=
  if negb (from_source s w) || negb (bool_decide (routeState d = Ready)) || negb positiveRtt then
    terminateRuntimeStream id (Some (js "direct_established_identity_is_invalid")) h
  else
    let h := on_stream id (set_state Established NoTimer d) h in
    match send (destinationWorkerId s) (OutCommit id (connectionId d)) h with
    | (true, h) => on_stream id (set_state DestinationCommitting CommitTimer d) h
    | (false, h) => terminateRuntimeStream id (Some (js "direct_commit_delivery_failed")) h
    end.

Definition handleCommitted (id w : jsstring) (s : RelaySession) (d : DirectRoute) (h : hub) : hub :=
  if negb (from_destination s w) || negb (bool_decide (routeState d = DestinationCommitting)) then
    terminateRuntimeStream id (Some (js "direct_commit_ack_identity_is_invalid")) h
  else
    let '(ok, h) := match sourceWorkerId s with
      | Some target => send target (OutCommit id (connectionId d)) h
      | None => (false, h)
      end in
    if ok then
      on_stream id (fun s => set_open true (set_route Direct (Some (Route (connectionId d) Committed LifetimeTimer)) s)) h
    else terminateRuntimeStream id (Some (js "direct_commit_delivery_failed")) h.

Definition handleDirectMessage (id connection w : jsstring) (s : RelaySession) (d : DirectRoute) (m : incoming)
  : SE hub unit :=
  let ends code := se_modify (terminateRuntimeStream id (Some code)) in
  match m with
  | InReady _ _ => se_modify (handleReady id w s d)
  | InFallback _ _ _ =>
      if bool_decide (routeState d = Committed) || opened s || runtimeStreamMovedBytes s
      then ends (js "direct_downgrade_after_commit_is_forbidden")
      else se_modify (fallbackRuntimeStreamToRelay id)
  | InEstablished _ _ positiveRtt => se_modify (handleEstablished id w s d positiveRtt)
  | InCommitted _ _ => se_modify (handleCommitted id w s d)
  | InTelemetry _ _ tx rx =>
      if negb (bool_decide (routeState d = Committed)) then ends (js "direct_telemetry_before_commit")
      else se_modify (on_stream id (reported (from_source s w) tx rx))
  | InClosed _ _ tx rx reason =>
      if negb (bool_decide (routeState d = Committed)) then ends (js "direct_close_before_commit")
      else
        do! se_modify (on_stream id (reported (from_source s w) tx rx)) ;;
        do! match reason with
            | Some text => recordRuntimeLinkFailure id (reported (from_source s w) tx rx s) true text
            | None => se_ret tt
            end ;;
        se_modify (terminateRuntimeStream id None)
  | _ => se_ret tt
  end.

Definition direct_id (m : incoming) : option (jsstring * jsstring) :=
  match m with
  | InReady id c | InFallback id c _ | InEstablished id c _ | InCommitted id c | InTelemetry id c _ _
  | InClosed id c _ _ _ => Some (id, c)
  | _ => None
  end.

(** ** Dispatch *)

Definition party (s : RelaySession) (w : jsstring) : bool := from_source s w || from_destination s w.

Definition handleRuntimeStreamEnvelope (w : jsstring) (m : incoming) (now : Z) : SE hub unit :=
  match m with
  | InOpen id node port who => openRuntimeStream w id node port who now
  | _ =>
      match stream_id m with
      | None => se_ret tt
      | Some id =>
          let! h := se_get in
          match stream_of h id with
          | None =>
              match m with
              | InResume _ (Some g, Some token) _ =>
                  se_modify (sends w (OutError id (Some g, Some token) (js "runtime_stream_recovery_session_expired")))
              | _ => se_ret tt
              end
          | Some s => if party s w then handleStreamMessage id w s m now else se_ret tt
          end
      end
  end.

Definition handleRuntimeDirectEnvelope (w : jsstring) (m : incoming) : SE hub unit :=
  match direct_id m with
  | None => se_ret tt
  | Some (id, connection) =>
      let! h := se_get in
      match stream_of h id with
      | None => se_ret tt
      | Some s =>
          match direct s with
          | None => se_ret tt
          | Some d =>
              if negb (bool_decide (connectionId d = connection)) || negb (party s w) then se_ret tt
              else handleDirectMessage id connection w s d m
          end
      end
  end.

(** ** Connections *)

(** [closeInvalid] and [socket.close]: the socket stops being open. *)
Definition close_socket (w : jsstring) (n : Z) (h : hub) : hub :=
  match map_get (connections h) w with
  | Some c => if serial c =? n then set_connections (map_set (connections h) w (Conn n (ready c) false)) h else h
  | None => h
  end.

(** [worker.hello] on a new socket: an established connection keeps its place
    unless the new session supersedes it. *)
Definition hello (w : jsstring) (n : Z) (supersedes : bool) (h : hub) : hub :=
  match getWorker h w with
  | None => h
  | Some _ =>
      match map_get (connections h) w with
      | Some c =>
          if ready c && isOpen c && negb supersedes then h
          else set_connections (map_set (connections h) w (Conn n false true)) h
      | None => set_connections (map_set (connections h) w (Conn n false true)) h
      end
  end.

Definition heartbeat (w : jsstring) (n : Z) (h : hub) : hub :=
  match map_get (connections h) w with
  | Some c => if serial c =? n then set_connections (map_set (connections h) w (Conn n true (isOpen c))) h else h
  | None => h
  end.

Definition goodbye (w : jsstring) (n : Z) (h : hub) : hub :=
  let h := set_workers (List.filter (fun x => negb (bool_decide (workerId x = w))) (workers h)) h in
  match map_get (connections h) w with
  | Some c => if serial c =? n then set_connections (map_delete (connections h) w) h else h
  | None => h
  end.

(** The loop of [handleClose] over the streams it found. *)
Fixpoint close_streams (w : jsstring) (now : Z) (l : list (jsstring * RelaySession)) : SE hub unit :=
  match l with
  | [] => se_ret tt
  | (id, s) :: l' =>
      let reason := js "distributed_worker_disconnected:" ++ w in
      do! (if party s w then
             match transportMode s, recovery s with
             | Direct, _ => se_ret tt
             | Relay, Some _ => suspendRuntimeStream id reason now
             | _, _ => se_modify (terminateRuntimeStream id (Some reason))
             end
           else se_ret tt) ;;
      close_streams w now l'
  end.

Definition handleClose (w : jsstring) (n now : Z) : SE hub unit :=
  let! h := se_get in
  match map_get (connections h) w with
  | Some c =>
      if serial c =? n then
        do! se_modify (set_connections (map_delete (connections h) w)) ;;
        close_streams w now (runtimeStreams h)
      else se_ret tt
  | None => se_ret tt
  end.

(** ** Streams of the coordinator itself *)

Definition attachLocalRuntimeStream (id destination : jsstring) (port : Z) (h : hub) : hub :=
  if MAX_RUNTIME_STREAMS <=? map_size (runtimeStreams h) then h
  else
    let s := RSession None destination None destination port 0 0 false (Some (Local [] 0 true false)) None Relay None 0 0 in
    match send destination (OutOpen id port (None, None)) (set_streams (map_set (runtimeStreams h) id s) h) with
    | (true, h) => h
    | (false, h) => terminateRuntimeStream id (Some (js "runtime_stream_destination_disconnected")) h
    end.

Fixpoint local_pieces (fuel : nat) (id : jsstring) (chunk : bytes) (h : hub) : hub :=
  match fuel, chunk, stream_of h id with
  | S fuel', _ :: _, Some s =>
      let n := Z.to_nat MAX_CHUNK_BYTES in
      let piece := take n chunk in
      let seq := sourceSequence s in
      let h := on_stream id (fun s => next_sequence true (count_bytes true (byteLength piece) s)) h in
      match send (destinationWorkerId s) (OutData id seq (None, None) None (b64_encode piece)) h with
      | (true, h) => local_pieces fuel' id (drop n chunk) h
      | (false, h) => terminateRuntimeStream id (Some (js "runtime_stream_destination_backpressure")) h
      end
  | _, _, _ => h
  end.

Definition localData (id : jsstring) (chunk : bytes) (h : hub) : hub :=
  match stream_of h id with
  | Some s =>
      match localSocket s with
      | Some k => if negb (opened s) || localPaused k then h else local_pieces (length chunk) id chunk h
      | None => h
      end
  | None => h
  end.

(** The socket's "end" and "error"; "close" only ends the stream. *)
Definition localEnd (id : jsstring) (error : option jsstring) (h : hub) : hub :=
  match stream_of h id with
  | Some s =>
      match localSocket s with
      | Some _ =>
          terminateRuntimeStream id None (sends (destinationWorkerId s) (match error with
            | Some text => OutError id (None, None) (slice 1024 text)
            | None => OutEnd id (None, None) None
            end) h)
      | None => h
      end
  | None => h
  end.

Definition localClose (id : jsstring) (h : hub) : hub :=
  match stream_of h id with
  | Some s => match localSocket s with Some _ => terminateRuntimeStream id None h | None => h end
  | None => h
  end.

(** ** Timers *)

Definition recoveryTimeout (id : jsstring) (h : hub) : hub :=
  match stream_of h id with
  | Some s =>
      match recovery s with
      | Some r => if timeout r then terminateRuntimeStream id (Some (js "runtime_stream_recovery_timeout")) h else h
      | None => h
      end
  | None => h
  end.

Definition directTimeout (id : jsstring) (h : hub) : hub :=
  match stream_of h id with
  | Some s =>
      match direct s with
      | Some d =>
          match timer d with
          | NegotiationTimer => fallbackRuntimeStreamToRelay id h
          | CommitTimer => terminateRuntimeStream id (Some (js "direct_destination_commit_ack_timeout")) h
          | LifetimeTimer => terminateRuntimeStream id (Some (js "direct_route_lifetime_exceeded")) h
          | NoTimer => h
          end
      | None => h
      end
  | None => h
  end.

(** ** Runs *)

Inductive hub_event :=
| Workers (ws : list Worker)
| Hello (w : jsstring) (n : Z) (supersedes : bool)
| Heartbeat (w : jsstring) (n : Z)
| Goodbye (w : jsstring) (n : Z)
| Closing (w : jsstring) (n : Z)
| Closed (w : jsstring) (n now : Z)
| Received (w : jsstring) (n : Z) (m : incoming) (now : Z)
| RecoveryTimeout (id : jsstring)
| DirectTimeout (id : jsstring)
| LocalOpen (id destination : jsstring) (port : Z)
| LocalData (id : jsstring) (chunk : bytes)
| LocalEnd (id : jsstring) (error : option jsstring)
| LocalClose (id : jsstring)
| LocalDrained (id : jsstring) (n : Z)
| Sockets (l : list bool).

(** A message on the connection [n] of a worker.  What it throws is caught and
    closes the socket, as does a message the worker may not send. *)
Definition receive (w : jsstring) (n : Z) (m : incoming) (now : Z) (h : hub) : hub :=
  let may := match getWorker h w with
    | Some x => match executor x with
                | Some e => match direct_id m with
                            | Some _ => match directTransport e with Some d => speaksDirect d | None => false end
                            | None => tunnelProtocol e
                            end
                | None => false
                end
    | None => false
    end in
  if negb may then close_socket w n h
  else match (match direct_id m with
              | Some _ => handleRuntimeDirectEnvelope w m
              | None => handleRuntimeStreamEnvelope w m now
              end) h with
       | (Ok _, h) => h
       | (Err _, h) => close_socket w n h
       end.

Definition drain_local (n : Z) (s : RelaySession) : RelaySession :=
  set_local ((fun k => Local (localWritten k) (Z.max 0 (localBuffered k - n)) (localPaused k) (localDestroyed k))
               <$> localSocket s) s.

(** [Err] is an exception that nothing catches. *)
Definition hub_step (e : hub_event) : SE hub unit :=
  match e with
  | Workers ws => se_modify (set_workers ws)
  | Hello w n supersedes => se_modify (hello w n supersedes)
  | Heartbeat w n => se_modify (heartbeat w n)
  | Goodbye w n => se_modify (goodbye w n)
  | Closing w n => se_modify (close_socket w n)
  | Closed w n now => handleClose w n now
  | Received w n m now => se_modify (receive w n m now)
  | RecoveryTimeout id => se_modify (recoveryTimeout id)
  | DirectTimeout id => se_modify (directTimeout id)
  | LocalOpen id destination port => se_modify (attachLocalRuntimeStream id destination port)
  | LocalData id chunk => se_modify (localData id chunk)
  | LocalEnd id error => se_modify (localEnd id error)
  | LocalClose id => se_modify (localClose id)
  | LocalDrained id n => se_modify (on_stream id (drain_local (Z.max 0 n)))
  | Sockets l => se_modify (set_sockets l)
  end.

Definition hub_empty : hub := Hub [] [] [] [] [] [] [].

Fixpoint hub_run (es : list hub_event) : SE hub unit :=
  match es with
  | [] => se_ret tt
  | e :: es' => do! hub_step e ;; hub_run es'
  end.
