(* ===== verification/RelayInv.v ===== *)
(** * Invariants of the stream relay

    [hmove] is how an operation may change a stream in the table, [relays] says
    that an operation only does that, ends streams and sends messages of a given
    kind.  [stream_ok] is the invariant of a stream; it is preserved by every
    step. *)

From S2P Require Import Prelude JsString JsMap JsonText Base64 RelayHub.

#[local] Open Scope Z_scope.

(** ** Moves of a stream; [log] is what has been sent *)

Inductive hmove (log : list (jsstring * outgoing)) (id : jsstring) (s : RelaySession) : RelaySession -> Prop :=
| hm_opened : hmove log id s (set_open true s)
| hm_local v : (localSocket s = None -> v = None) -> hmove log id s (set_local v s)
| hm_bytes a b : hmove log id s (set_bytes a b s)
| hm_sequence b : hmove log id s (next_sequence b s)
| hm_forward r b n :
    recovery s = Some r -> hmove log id s (set_relay_recovery (Some (forward b n r)) s)
| hm_suspend r :
    recovery s = Some r -> hmove log id s (set_relay_recovery (Some (suspend_recovery r)) s)
| hm_reports r v :
    recovery s = Some r -> suspended r = true ->
    hmove log id s (set_relay_recovery (Some (set_reports v r)) s)
| hm_resume r a b :
    recovery s = Some r -> suspended r = true -> generation r < 1000000 ->
    hmove log id s (set_relay_recovery
      (Some (RelayRec (recoveryToken r) (generation r + 1) a b false [] false)) s)
| hm_relay :
    (forall d, direct s = Some d -> routeState d <> Committed) ->
    hmove log id s (set_route Relay None s)
| hm_route d st tm :
    direct s = Some d -> routeState d <> Committed -> st <> Committed ->
    (st = DestinationCommitting -> (destinationWorkerId s, OutCommit id (connectionId d)) ∈ log) ->
    hmove log id s (set_state st tm d s)
| hm_committed d w :
    direct s = Some d -> routeState d = DestinationCommitting -> sourceWorkerId s = Some w ->
    (w, OutCommit id (connectionId d)) ∈ log ->
    hmove log id s (set_open true (set_route Direct (Some (Route (connectionId d) Committed LifetimeTimer)) s)).

(** ** The invariant of a stream *)

Record stream_ok (log : list (jsstring * outgoing)) (id : jsstring) (s : RelaySession) : Prop := {
  so_relay : transportMode s = Relay -> direct s = None;
  so_direct : transportMode s = Direct ->
    opened s = true /\ exists d, direct s = Some d /\ routeState d = Committed;
  so_negotiating : transportMode s = Negotiating ->
    forall d, direct s = Some d -> routeState d <> Committed;
  so_destination : forall d, direct s = Some d ->
    routeState d = DestinationCommitting \/ routeState d = Committed ->
    (destinationWorkerId s, OutCommit id (connectionId d)) ∈ log;
  so_source : forall d, direct s = Some d -> routeState d = Committed ->
    exists w, sourceWorkerId s = Some w /\ (w, OutCommit id (connectionId d)) ∈ log;
  so_recovery : forall r, recovery s = Some r ->
    timeout r = suspended r /\ (suspended r = false -> reports r = []) /\ is_Some (sourceWorkerId s);
  so_ends : sourceWorkerId s <> Some (destinationWorkerId s);
  so_local : is_Some (localSocket s) -> sourceWorkerId s = None;
}.

(** A move that keeps the route. *)
Lemma stream_ok_keep log id s s' :
  stream_ok log id s ->
  (transportMode s', direct s', sourceWorkerId s', destinationWorkerId s')
    = (transportMode s, direct s, sourceWorkerId s, destinationWorkerId s) ->
  (opened s = true -> opened s' = true) -> (is_Some (localSocket s') -> is_Some (localSocket s)) ->
  (forall r, recovery s' = Some r ->
     timeout r = suspended r /\ (suspended r = false -> reports r = []) /\ is_Some (sourceWorkerId s)) ->
  stream_ok log id s'.
Proof.
  intros [] [= E1 E2 E3 E4] Ho Hl Hr. constructor; rewrite ?E1, ?E2, ?E3, ?E4; auto.
  intros Hm. destruct (so_direct0 Hm). auto.
Qed.

(** A move of the route. *)
Lemma stream_ok_route log id s s' :
  stream_ok log id s ->
  (recovery s', localSocket s', sourceWorkerId s', destinationWorkerId s')
    = (recovery s, localSocket s, sourceWorkerId s, destinationWorkerId s) ->
  match transportMode s' with
  | Relay => direct s' = None
  | Negotiating => forall d, direct s' = Some d -> routeState d <> Committed
  | Direct => opened s' = true /\ exists d, direct s' = Some d /\ routeState d = Committed
  end ->
  (forall d, direct s' = Some d ->
    (routeState d = DestinationCommitting \/ routeState d = Committed ->
     (destinationWorkerId s, OutCommit id (connectionId d)) ∈ log) /\
    (routeState d = Committed ->
     exists w, sourceWorkerId s = Some w /\ (w, OutCommit id (connectionId d)) ∈ log)) ->
  stream_ok log id s'.
Proof.
  intros [] [= E1 E2 E3 E4] Hm Hd. constructor; rewrite ?E1, ?E2, ?E3, ?E4; auto.
  - intros E. by rewrite E in Hm.
  - intros E. by rewrite E in Hm.
  - intros E. by rewrite E in Hm.
  - intros d H. by apply Hd.
  - intros d H. by apply Hd.
Qed.

Lemma hmove_ok log id s s' : hmove log id s s' -> stream_ok log id s -> stream_ok log id s'.
Proof.
  intros Hm Hok. pose proof (so_recovery _ _ _ Hok) as Hrec.
  destruct Hm as [|v Hv|a b|b|r b n Hr|r Hr|r v Hr Hs|r a b Hr Hs Hg|Hd|d st tm Hd Hn Hst Hlog|d w Hd Hst Hw Hlog].
  1,3,4: by apply (stream_ok_keep _ _ _ _ Hok).
  - apply (stream_ok_keep _ _ _ _ Hok); try done. simpl. intros Hs.
    destruct (localSocket s); [by eexists|]. rewrite (Hv eq_refl) in Hs. by destruct Hs.
  - apply (stream_ok_keep _ _ _ _ Hok); try done. intros r0 [= <-]. exact (Hrec r Hr).
  - apply (stream_ok_keep _ _ _ _ Hok); try done. intros r0 [= <-].
    destruct (Hrec r Hr) as (_ & _ & ?). done.
  - apply (stream_ok_keep _ _ _ _ Hok); try done. intros r0 [= <-].
    destruct (Hrec r Hr) as (? & _ & ?). simpl. split_and!; [done|congruence|done].
  - apply (stream_ok_keep _ _ _ _ Hok); try done. intros r0 [= <-].
    destruct (Hrec r Hr) as (_ & _ & ?). done.
  - apply (stream_ok_route _ _ _ _ Hok); done.
  - apply (stream_ok_route _ _ _ _ Hok); [done| |].
    + simpl. destruct (transportMode s) eqn:E; [by intros d0 [= <-]| |].
      * destruct (so_direct _ _ _ Hok E) as (_ & d0 & Hd0 & Hc). congruence.
      * rewrite (so_relay _ _ _ Hok E) in Hd. done.
    + simpl. intros d0 [= <-]. simpl. split; [|done]. intros [?|?]; [auto|done].
  - apply (stream_ok_route _ _ _ _ Hok); [done| |].
    + simpl. split; [done|]. by eexists.
    + simpl. intros d0 [= <-]. simpl. split; intros _; [|by exists w].
      apply (so_destination _ _ _ Hok d Hd). auto.
Qed.

Lemma hmove_log log log' id s s' :
  (forall x, x ∈ log -> x ∈ log') -> hmove log id s s' -> hmove log' id s s'.
Proof. intros Hsub. destruct 1; econstructor; eauto. Qed.

Lemma stream_ok_log log log' id s :
  (forall x, x ∈ log -> x ∈ log') -> stream_ok log id s -> stream_ok log' id s.
Proof. intros Hsub []. constructor; eauto. intros. edestruct so_source0 as (w & ? & ?); eauto. Qed.

(** ** Operations that relay *)

Definition hub_bounds (h : hub) : Prop :=
  map_size (runtimeStreams h) <= MAX_RUNTIME_STREAMS /\ (length (runtimeLinkFailures h) <= 512)%nat
  /\ (length (completedRuntimeTransports h) <= 512)%nat.

Record relay_step (P : jsstring * outgoing -> Prop) (h h' : hub) : Prop := {
  rs_wf : map_wf (runtimeStreams h');
  rs_bounds : hub_bounds h -> hub_bounds h';
  rs_sent : exists ms, sent h' = sent h ++ ms /\ Forall P ms;
  rs_streams : forall id s', stream_of h' id = Some s' ->
    exists s, stream_of h id = Some s /\ rtc (hmove (sent h') id) s s';
}.

Definition relays (P : jsstring * outgoing -> Prop) (h h' : hub) : Prop :=
  map_wf (runtimeStreams h) -> relay_step P h h'.

Lemma hmoves_log log log' id s s' :
  (forall x, x ∈ log -> x ∈ log') -> rtc (hmove log id) s s' -> rtc (hmove log' id) s s'.
Proof. intros Hsub. apply rtc_subrel. intros ??. by apply hmove_log. Qed.

Lemma sent_sub h h' (P : jsstring * outgoing -> Prop) :
  (exists ms, sent h' = sent h ++ ms /\ Forall P ms) -> forall x, x ∈ sent h -> x ∈ sent h'.
Proof. intros (ms & -> & _) x Hx. set_solver. Qed.

#[export] Instance relays_refl P : Reflexive (relays P).
Proof.
  intros h Hwf. constructor; try done.
  - exists []. by rewrite app_nil_r.
  - intros. eexists. split; [done|reflexivity].
Qed.

#[export] Instance relays_trans P : Transitive (relays P).
Proof.
  intros h1 h2 h3 H12 H23 Hwf. destruct (H12 Hwf) as [W2 B2 (ms1 & S1 & F1) M2].
  destruct (H23 W2) as [W3 B3 (ms2 & S2 & F2) M3]. constructor; auto.
  - exists (ms1 ++ ms2). rewrite S2, S1, app_assoc. split; [done|]. by apply Forall_app.
  - intros id s3 E3. destruct (M3 _ _ E3) as (s2 & E2 & R2). destruct (M2 _ _ E2) as (s1 & E1 & R1).
    exists s1. split; [done|]. etrans; [|exact R2]. eapply hmoves_log; [|exact R1].
    apply (sent_sub h2 h3 P). eauto.
Qed.

Lemma relays_weaken (P Q : jsstring * outgoing -> Prop) h h' :
  (forall x, P x -> Q x) -> relays P h h' -> relays Q h h'.
Proof.
  intros HPQ H Hwf. destruct (H Hwf) as [? ? (ms & ? & ?) ?]. constructor; auto.
  exists ms. split; [done|]. by eapply Forall_impl.
Qed.

(** ** Primitives *)

Lemma stream_on_stream id f h j :
  stream_of (on_stream id f h) j = if decide (j = id) then f <$> stream_of h id else stream_of h j.
Proof.
  unfold on_stream. destruct (stream_of h id) as [s|] eqn:E.
  - unfold stream_of at 1. simpl. rewrite map_get_set. done.
  - case_decide; subst; done.
Qed.

Lemma sent_on_stream id f h : sent (on_stream id f h) = sent h.
Proof. unfold on_stream. by destruct (stream_of h id). Qed.
Lemma conns_on_stream id f h : connections (on_stream id f h) = connections h.
Proof. unfold on_stream. by destruct (stream_of h id). Qed.
Lemma sockets_on_stream id f h : sockets (on_stream id f h) = sockets h.
Proof. unfold on_stream. by destruct (stream_of h id). Qed.
Lemma workers_on_stream id f h : workers (on_stream id f h) = workers h.
Proof. unfold on_stream. by destruct (stream_of h id). Qed.

Lemma bounds_on_stream id f h : hub_bounds h -> hub_bounds (on_stream id f h).
Proof.
  unfold on_stream, hub_bounds. destruct (stream_of h id) as [s|] eqn:E; [|done]. simpl.
  rewrite map_size_set. unfold map_has, stream_of in *. rewrite E. intuition lia.
Qed.

Lemma wf_on_stream id f h : map_wf (runtimeStreams h) -> map_wf (runtimeStreams (on_stream id f h)).
Proof. unfold on_stream. destruct (stream_of h id); simpl; auto with myc. Qed.

Lemma relays_on_stream P id f h :
  (forall s, stream_of h id = Some s -> rtc (hmove (sent h) id) s (f s)) -> relays P h (on_stream id f h).
Proof.
  intros Hf Hwf. constructor.
  - by apply wf_on_stream.
  - apply bounds_on_stream.
  - exists []. by rewrite sent_on_stream, app_nil_r.
  - intros j s'. rewrite stream_on_stream, sent_on_stream. case_decide as Hj.
    + subst j. destruct (stream_of h id) as [s|]; [|done]. intros [= <-]. eauto.
    + intros. exists s'. split; [done|reflexivity].
Qed.

(** A change of what the invariant does not read. *)
Lemma relays_unseen P h h' :
  runtimeStreams h' = runtimeStreams h -> sent h' = sent h -> (hub_bounds h -> hub_bounds h') -> relays P h h'.
Proof.
  intros Hs Ho Hb Hwf. constructor; auto.
  - by rewrite Hs.
  - exists []. by rewrite Ho, app_nil_r.
  - unfold stream_of. rewrite Hs. intros id s' H. exists s'. split; [done|reflexivity].
Qed.

Lemma send_cases w m h :
  runtimeStreams (send w m h).2 = runtimeStreams h /\ runtimeLinkFailures (send w m h).2 = runtimeLinkFailures h
  /\ completedRuntimeTransports (send w m h).2 = completedRuntimeTransports h
  /\ sent (send w m h).2 = sent h ++ (if (send w m h).1 then [(w, m)] else []).
Proof.
  unfold send. destruct (map_get _ _) as [c|]; [|by rewrite app_nil_r].
  destruct (ready c && isOpen c); [|by rewrite app_nil_r].
  destruct (sockets h) as [|[] rest]; simpl; rewrite ?app_nil_r; done.
Qed.

Lemma relays_send (P : jsstring * outgoing -> Prop) w m h : P (w, m) -> relays P h (send w m h).2.
Proof.
  intros HP Hwf. destruct (send_cases w m h) as (Hs & Hf & Hc & Ho). constructor.
  - by rewrite Hs.
  - unfold hub_bounds. by rewrite Hs, Hf, Hc.
  - exists (if (send w m h).1 then [(w, m)] else []). split; [done|]. destruct (send w m h).1; auto.
  - unfold stream_of. rewrite Hs. intros id s' H. exists s'. split; [done|reflexivity].
Qed.

Lemma relays_sends_to (P : jsstring * outgoing -> Prop) w m h :
  (forall w, P (w, m)) -> relays P h (sends_to w m h).
Proof. intros HP. destruct w; simpl; [by apply relays_send|reflexivity]. Qed.

(** Messages that carry no data. *)
Definition no_data (x : jsstring * outgoing) : Prop :=
  match x.2 with OutData _ _ _ _ _ => False | _ => True end.

Lemma relays_terminate id message h : relays no_data h (terminateRuntimeStream id message h).
Proof.
  unfold terminateRuntimeStream. destruct (stream_of h id) as [s|]; [|reflexivity].
  set (h1 := set_streams _ h).
  assert (R1 : relays no_data h h1).
  { intros Hwf. constructor; simpl; auto with myc.
    - unfold hub_bounds; simpl. pose proof (map_size_delete (runtimeStreams h) id). intuition lia.
    - exists []. by rewrite app_nil_r.
    - intros j s' Hj. unfold stream_of in Hj; simpl in Hj. exists s'. split; [|reflexivity].
      destruct (decide (j = id)) as [->|]; [|by rewrite map_get_delete_ne in Hj].
      rewrite map_get_delete_eq in Hj; done. }
  set (h2 := match direct s with Some _ => _ | None => h1 end).
  assert (R2 : relays no_data h h2).
  { etrans; [exact R1|]. subst h2. destruct (direct s); [|reflexivity].
    etrans; [apply relays_sends_to|apply relays_send]; done. }
  set (h3 := set_transports _ h2).
  assert (R3 : relays no_data h h3).
  { etrans; [exact R2|]. apply relays_unseen; try done. unfold hub_bounds, h3; simpl.
    rewrite length_take. intuition lia. }
  destruct message; [|exact R3]. destruct (bool_decide _); [|exact R3].
  etrans; [exact R3|]. etrans; [apply relays_sends_to|apply relays_send]; done.
Qed.

Lemma relays_record id s isDirect reason h :
  relays no_data h (recordRuntimeLinkFailure id s isDirect reason h).2.
Proof.
  unfold recordRuntimeLinkFailure. destruct (negb _); [reflexivity|].
  apply relays_unseen; try done. unfold hub_bounds; simpl. rewrite length_take. intuition lia.
Qed.
