(* ===== verification/RelaySteps.v ===== *)
(** * Every operation of the relay preserves its invariant *)

From S2P Require Import Prelude JsString JsMap JsonText Base64 DirectGrant RelayHub RelayInv.

#[local] Open Scope Z_scope.

(** ** Ending, suspending, falling back *)

Lemma relays_suspend id reason now h : relays no_data h (suspendRuntimeStream id reason now h).2.
Proof.
  unfold suspendRuntimeStream, se_bind, se_get. simpl.
  destruct (stream_of h id) as [s|] eqn:Hs; [|reflexivity].
  destruct (recovery s) as [r|] eqn:Hr; [|reflexivity]. destruct (suspended r); [reflexivity|].
  unfold se_bind. pose proof (relays_record id s false reason h) as R1.
  assert (Hs1 : stream_of (recordRuntimeLinkFailure id s false reason h).2 id = Some s).
  { unfold recordRuntimeLinkFailure. by destruct (negb _). }
  destruct (recordRuntimeLinkFailure id s false reason h) as [[u|c] h1]; simpl in *; [|exact R1].
  etrans; [exact R1|]. set (h2 := on_stream id _ h1).
  assert (R2 : relays no_data h1 h2).
  { apply relays_on_stream. intros s0 H0. assert (s0 = s) as -> by congruence.
    apply rtc_once. by constructor. }
  etrans; [exact R2|]. set (h3 := match sourceWorkerId s with Some _ => _ | None => h2 end).
  assert (R3 : relays no_data h2 h3).
  { subst h3. destruct (sourceWorkerId s) as [w|]; [|reflexivity].
    destruct (isConnected h2 w); [by apply relays_send|reflexivity]. }
  etrans; [exact R3|]. destruct (isConnected h3 _); [by apply relays_send|reflexivity].
Qed.

(** Sending keeps the streams. *)
Lemma stream_send w m h j : stream_of (send w m h).2 j = stream_of h j.
Proof. unfold stream_of. by destruct (send_cases w m h) as (-> & _). Qed.
Lemma stream_sends w m h j : stream_of (sends w m h) j = stream_of h j.
Proof. apply stream_send. Qed.
Lemma stream_sends_to w m h j : stream_of (sends_to w m h) j = stream_of h j.
Proof. destruct w; simpl; [apply stream_send|done]. Qed.

(** A send whose failure ends in [k]. *)
Lemma relays_send_or (P : jsstring * outgoing -> Prop) w m h (ok no : hub -> hub) :
  P (w, m) -> (forall h1, h1 = (send w m h).2 -> (send w m h).1 = true -> relays P h1 (ok h1)) ->
  (forall h1, h1 = (send w m h).2 -> relays P h1 (no h1)) ->
  relays P h (match send w m h with (true, h1) => ok h1 | (false, h1) => no h1 end).
Proof.
  intros HP Hok Hno. pose proof (relays_send P w m h HP) as R.
  destruct (send w m h) as [[] h1]; simpl in *; (etrans; [exact R|]); auto.
Qed.

Lemma relays_startRelay id h :
  (forall s d, stream_of h id = Some s -> direct s = Some d -> routeState d <> Committed) ->
  relays no_data h (startRuntimeRelay id h).
Proof.
  intros Hd. unfold startRuntimeRelay. destruct (stream_of h id) as [s|] eqn:Hs; [|reflexivity].
  etrans; [apply (relays_on_stream _ id (set_route Relay None))|].
  - intros s0 H0. apply rtc_once. constructor. intros d H. eapply Hd; [|exact H]. congruence.
  - apply relays_send_or; [done|intros; reflexivity|intros; apply relays_terminate].
Qed.

Lemma relays_fallback id h : relays no_data h (fallbackRuntimeStreamToRelay id h).
Proof.
  unfold fallbackRuntimeStreamToRelay. destruct (stream_of h id) as [s|] eqn:Hs; [|reflexivity].
  destruct (direct s) as [d|] eqn:Hd; [|apply relays_terminate].
  destruct (_ || _) eqn:E; [apply relays_terminate|]. apply orb_false_iff in E as [E _]. bool_prop.
  set (h1 := sends_to _ _ h). set (h2 := sends _ _ h1).
  transitivity h2; [transitivity h1; [by apply relays_sends_to|by apply relays_send]|].
  apply relays_startRelay. intros s0 d0. subst h2 h1. rewrite stream_sends, stream_sends_to. congruence.
Qed.

(** ** Data, acknowledgements, resumption *)

(** What a message of a worker may make the relay send: data only as it came, and
    never back. *)
Definition passes (w : jsstring) (m : incoming) (x : jsstring * outgoing) : Prop :=
  no_data x \/
  match m with
  | InData id seq who off text => exists target, target <> w /\ x = (target, OutData id seq who off text)
  | _ => False
  end.

Lemma relays_passes w m h h' : relays no_data h h' -> relays (passes w m) h h'.
Proof. apply relays_weaken. by left. Qed.

#[export] Hint Resolve relays_terminate relays_suspend relays_fallback relays_passes : relay.

Lemma other_end_ne s w target :
  party s w = true -> sourceWorkerId s <> Some (destinationWorkerId s) ->
  other_end s (from_source s w) = Some target -> target <> w.
Proof.
  unfold party, other_end, from_source, from_destination. intros Hp He Ht ->.
  destruct (bool_decide (sourceWorkerId s = Some w)) eqn:E; bool_prop; [|done].
  injection Ht as Ht. congruence.
Qed.

Lemma count_bytes_move log id b n s : hmove log id s (count_bytes b n s).
Proof. unfold count_bytes. destruct b; constructor. Qed.

Lemma relays_data id w s r seq who off text now h :
  stream_of h id = Some s -> recovery s = Some r -> party s w = true ->
  sourceWorkerId s <> Some (destinationWorkerId s) ->
  relays (passes w (InData id seq who off text)) h
    (handleRecoverableRuntimeData id w s r seq who off text now h).2.
Proof.
  intros Hs Hr Hp He. unfold handleRecoverableRuntimeData.
  destruct (negb _); [apply relays_passes, relays_terminate|].
  destruct off as [o|]; [|apply relays_passes, relays_terminate]. cbv zeta.
  set (b := from_source s w). set (n := byteLength _). set (expected := if b then _ else _).
  destruct ((o <? expected) && _); [reflexivity|].
  destruct (negb _); [apply relays_passes, relays_terminate|].
  unfold se_bind at 1, se_modify at 1. set (h1 := on_stream id _ h).
  assert (R1 : relays (passes w (InData id seq who (Some o) text)) h h1).
  { apply relays_on_stream. intros s0 H0. assert (s0 = s) as -> by congruence.
    eapply rtc_l; [apply (count_bytes_move _ _ b n)|]. apply rtc_once. constructor. by destruct b. }
  etrans; [exact R1|]. destruct (suspended r); [reflexivity|]. unfold se_bind.
  destruct (other_end s b) as [target|] eqn:Ht.
  - assert (target <> w) as Hne by (by eapply other_end_ne).
    assert (R2 : relays (passes w (InData id seq who (Some o) text)) h1
                   (send target (OutData id seq who (Some o) text) h1).2).
    { apply relays_send. right. eauto. }
    destruct (send target _ h1) as [[] h2]; simpl in *; [exact R2|].
    etrans; [exact R2|]. apply relays_passes, relays_suspend.
  - apply relays_passes, relays_suspend.
Qed.

Lemma relays_ack id w s who ack now h :
  relays no_data h (handleRuntimeStreamAcknowledgement id w s who ack now h).2.
Proof.
  unfold handleRuntimeStreamAcknowledgement. destruct (recovery s) as [r|]; [|apply relays_terminate].
  destruct (negb _); [apply relays_terminate|]. cbv zeta.
  destruct (_ <? ack); [apply relays_terminate|]. destruct (suspended r); [reflexivity|].
  unfold se_bind. destruct (other_end s _) as [target|].
  - pose proof (relays_send no_data target (OutAck id who ack) h I) as R.
    destruct (send target _ h) as [[] h1]; simpl in *; [exact R|]. etrans; [exact R|apply relays_suspend].
  - apply relays_suspend.
Qed.

Lemma relays_tryResume id h :
  (forall s r, stream_of h id = Some s -> recovery s = Some r -> suspended r = true) ->
  relays no_data h (tryResumeRuntimeStream id h).
Proof.
  intros Hsus. unfold tryResumeRuntimeStream. destruct (stream_of h id) as [s|] eqn:Hs; [|reflexivity].
  destruct (recovery s) as [r|] eqn:Hr; [|reflexivity]. destruct (sourceWorkerId s) as [w|]; [|reflexivity].
  destruct (map_get (reports r) w) as [a|]; [|reflexivity].
  destruct (map_get (reports r) _) as [b|]; [|reflexivity].
  destruct (inconsistent a b); [apply relays_terminate|]. destruct (_ || _); [reflexivity|]. cbv zeta.
  destruct (_ <? _) eqn:Eg; [apply relays_terminate|]. bool_prop.
  set (h1 := on_stream id _ h).
  assert (R1 : relays no_data h h1).
  { apply relays_on_stream. intros s0 H0. assert (s0 = s) as -> by congruence.
    apply rtc_once. constructor; [done|by eapply Hsus|lia]. }
  etrans; [exact R1|]. clear R1. clearbody h1.
  set (m1 := OutResumed _ _ _ _ _). pose proof (relays_send no_data w m1 h1 I) as R2.
  destruct (send w m1 h1) as [x h2]; simpl in R2.
  set (m2 := OutResumed _ _ _ _ _). pose proof (relays_send no_data (destinationWorkerId s) m2 h2 I) as R3.
  destruct (send _ m2 h2) as [y h3]; simpl in R3.
  etrans; [exact R2|]. etrans; [exact R3|]. destruct (x && y); [reflexivity|apply relays_terminate].
Qed.

Lemma relays_resume id w s who report h :
  stream_of h id = Some s ->
  relays no_data h (handleRuntimeStreamResume id w s who report h).
Proof.
  intros Hs. unfold handleRuntimeStreamResume. destruct (recovery s) as [r|] eqn:Hr; [|apply relays_terminate].
  destruct (negb (suspended r) || _) eqn:E1; [apply relays_terminate|]. apply orb_false_iff in E1 as [E1 _]. bool_prop.
  destruct ((_ <? _) || _); [apply relays_terminate|].
  destruct (match map_get _ _ with Some _ => _ | None => _ end); [apply relays_terminate|].
  set (r' := set_reports _ r). etrans; [apply (relays_on_stream _ id (set_relay_recovery (Some r')))|].
  - intros s0 H0. assert (s0 = s) as -> by congruence. apply rtc_once. by constructor.
  - apply relays_tryResume. intros s0 r0. rewrite stream_on_stream, decide_True, Hs by done.
    intros [= <-] [= <-]. done.
Qed.

Lemma relays_legacy id w s seq who off text h :
  stream_of h id = Some s -> party s w = true -> sourceWorkerId s <> Some (destinationWorkerId s) ->
  relays (passes w (InData id seq who off text)) h (handleLegacyRuntimeData id w s seq who off text h).
Proof.
  intros Hs Hp He. unfold handleLegacyRuntimeData.
  destruct (negb _); [apply relays_passes, relays_terminate|]. cbv zeta.
  destruct (negb _); [apply relays_passes, relays_terminate|].
  set (h1 := on_stream id _ h).
  assert (R1 : relays (passes w (InData id seq who off text)) h h1).
  { apply relays_on_stream. intros s0 _. eapply rtc_l; [apply hm_sequence|].
    apply rtc_once, count_bytes_move. }
  etrans; [exact R1|].
  pose proof (fun t => other_end_ne s w t Hp He) as Hne. unfold other_end in Hne.
  destruct (from_source s w) eqn:Ef.
  - apply relays_send_or; [right; eauto|intros; reflexivity|intros; apply relays_passes, relays_terminate].
  - destruct (sourceWorkerId s) as [target|].
    + apply relays_send_or; [right; eauto|intros; reflexivity|intros; apply relays_passes, relays_terminate].
    + destruct (localSocket s) as [k|] eqn:Hk; [|apply relays_passes, relays_terminate].
      destruct (_ || _); [apply relays_passes, relays_terminate|].
      apply relays_on_stream. intros s1. subst h1. rewrite stream_on_stream, decide_True, Hs by done.
      intros [= <-]. apply rtc_once. constructor. simpl. congruence.
Qed.

(** ** The other messages *)

Lemma relays_opened id w s who h :
  stream_of h id = Some s -> relays no_data h (handleOpened id w s who h).
Proof.
  intros Hs. unfold handleOpened. destruct (_ || _); [reflexivity|].
  destruct (negb _); [apply relays_terminate|]. cbv zeta. set (h1 := on_stream id _ h).
  assert (R1 : relays no_data h h1) by (apply relays_on_stream; intros; apply rtc_once; constructor).
  etrans; [exact R1|]. destruct (sourceWorkerId s); [by apply relays_send|].
  apply relays_on_stream. intros s0 _. apply rtc_once. constructor. by intros ->.
Qed.

Lemma relays_terminal w s m h : (forall t, no_data (t, m)) -> relays no_data h (forwardRuntimeTerminal w s m h).
Proof.
  intros Hm. unfold forwardRuntimeTerminal.
  destruct (from_source s w); [by apply relays_send|by apply relays_sends_to].
Qed.

Lemma relays_end id w s who final h : relays no_data h (handleEnd id w s who final h).
Proof.
  unfold handleEnd. destruct (negb _); [apply relays_terminate|].
  etrans; [|apply relays_terminate]. apply relays_terminal. intros. by destruct (recovery s).
Qed.

Lemma relays_error id w s who text h : relays no_data h (handleError id w s who text h).
Proof.
  unfold handleError. destruct (negb _); [apply relays_terminate|].
  etrans; [|apply relays_terminate]. by apply relays_terminal.
Qed.

Lemma relays_stream_message id w s m now h :
  stream_of h id = Some s -> party s w = true -> sourceWorkerId s <> Some (destinationWorkerId s) ->
  stream_id m = Some id ->
  relays (passes w m) h (handleStreamMessage id w s m now h).2.
Proof.
  intros Hs Hp He Hm. destruct m; simpl in Hm; try done; injection Hm as ->; unfold handleStreamMessage.
  - apply relays_passes. by apply relays_opened.
  - destruct (negb _); [apply relays_passes, relays_terminate|].
    destruct (recovery s) eqn:Hr; [by apply relays_data|by apply relays_legacy].
  - apply relays_passes, relays_ack.
  - apply relays_passes. by apply relays_resume.
  - apply relays_passes, relays_end.
  - apply relays_passes, relays_error.
Qed.

(** ** The direct route *)

Lemma relays_ready id w s d h :
  stream_of h id = Some s -> direct s = Some d -> relays no_data h (handleReady id w s d h).
Proof.
  intros Hs Hd. unfold handleReady. destruct (sourceWorkerId s) as [sw|]; [|apply relays_terminate].
  destruct (_ || _) eqn:E; [apply relays_terminate|]. apply orb_false_iff in E as [_ E]. bool_prop. cbv zeta.
  set (h1 := on_stream id _ h).
  assert (R1 : relays no_data h h1).
  { apply relays_on_stream. intros s0 H0. assert (s0 = s) as -> by congruence.
    apply rtc_once. constructor; congruence. }
  etrans; [exact R1|]. destruct (_ =? 0); [apply relays_fallback|].
  apply relays_send_or; [done|intros; reflexivity|intros; apply relays_fallback].
Qed.

Lemma relays_established id w s d h positive :
  stream_of h id = Some s -> direct s = Some d -> relays no_data h (handleEstablished id w s d positive h).
Proof.
  intros Hs Hd. unfold handleEstablished.
  destruct (_ || _) eqn:E; [apply relays_terminate|]. apply orb_false_iff in E as [E _]. apply orb_false_iff in E as [_ E]. bool_prop. cbv zeta.
  set (h1 := on_stream id _ h).
  assert (Hs1 : stream_of h1 id = Some (set_state Established NoTimer d s)).
  { subst h1. by rewrite stream_on_stream, decide_True, Hs. }
  assert (R1 : relays no_data h h1).
  { apply relays_on_stream. intros s0 H0. assert (s0 = s) as -> by congruence.
    apply rtc_once. constructor; congruence. }
  etrans; [exact R1|]. clear R1.
  apply (relays_send_or no_data (destinationWorkerId s) (OutCommit id (connectionId d)) h1
           (on_stream id (set_state DestinationCommitting CommitTimer d))); [done| |].
  - intros h2 -> Hok. apply relays_on_stream. intros s0. rewrite stream_send, Hs1. intros [= <-].
    destruct (send_cases (destinationWorkerId s) (OutCommit id (connectionId d)) h1) as (_ & _ & _ & Hsent).
    rewrite Hok in Hsent. apply rtc_once.
    change (set_state DestinationCommitting CommitTimer d (set_state Established NoTimer d s)) with
      (set_state DestinationCommitting CommitTimer (Route (connectionId d) Established NoTimer)
         (set_state Established NoTimer d s)).
    apply hm_route; try done. intros _. rewrite Hsent. simpl. set_solver.
  - intros. apply relays_terminate.
Qed.

Lemma relays_committed id w s d h :
  stream_of h id = Some s -> direct s = Some d -> relays no_data h (handleCommitted id w s d h).
Proof.
  intros Hs Hd. unfold handleCommitted.
  destruct (_ || _) eqn:E; [apply relays_terminate|]. apply orb_false_iff in E as [_ E]. bool_prop. cbv zeta.
  destruct (sourceWorkerId s) as [sw|] eqn:Hw; [|apply relays_terminate].
  set (m := OutCommit id (connectionId d)).
  pose proof (relays_send no_data sw m h I) as R. pose proof (stream_send sw m h id) as Hst.
  destruct (send_cases sw m h) as (_ & _ & _ & Hsent).
  destruct (send sw m h) as [[] h1]; simpl in *; (etrans; [exact R|]); [|apply relays_terminate].
  apply relays_on_stream. intros s0. rewrite Hst, Hs. intros [= <-].
  apply rtc_once. eapply hm_committed; eauto. rewrite Hsent. set_solver.
Qed.

Lemma reported_move log id b tx rx s : hmove log id s (reported b tx rx s).
Proof. unfold reported. destruct b; constructor. Qed.

Lemma relays_direct_message id connection w s d m h :
  stream_of h id = Some s -> direct s = Some d ->
  relays no_data h (handleDirectMessage id connection w s d m h).2.
Proof.
  intros Hs Hd. destruct m; simpl; try reflexivity.
  - by apply relays_ready.
  - destruct (_ || _); [apply relays_terminate|apply relays_fallback].
  - by apply relays_established.
  - by apply relays_committed.
  - destruct (negb _); [apply relays_terminate|]. apply relays_on_stream. intros. apply rtc_once, reported_move.
  - destruct (negb _); [apply relays_terminate|]. unfold se_bind, se_modify. set (h1 := on_stream id _ h).
    assert (R1 : relays no_data h h1).
    { apply relays_on_stream. intros. apply rtc_once, reported_move. }
    etrans; [exact R1|]. destruct reason as [text|]; [|apply relays_terminate].
    pose proof (relays_record id (reported (from_source s w) tx rx s) true text h1) as R2.
    destruct (recordRuntimeLinkFailure _ _ _ _ _) as [[]  h2]; simpl in *; [|exact R2].
    etrans; [exact R2|apply relays_terminate].
Qed.

Lemma relays_direct_envelope w m h : relays no_data h (handleRuntimeDirectEnvelope w m h).2.
Proof.
  unfold handleRuntimeDirectEnvelope. destruct (direct_id m) as [[id c]|]; [|reflexivity].
  unfold se_bind, se_get. destruct (stream_of h id) as [s|] eqn:Hs; [|reflexivity].
  destruct (direct s) as [d|] eqn:Hd; [|reflexivity]. destruct (_ || _); [reflexivity|].
  by apply relays_direct_message.
Qed.

(** ** Disconnection, local streams and timers *)

Lemma relays_connections P v h : relays P h (set_connections v h).
Proof. by apply relays_unseen. Qed.

Lemma relays_close_socket P w n h : relays P h (close_socket w n h).
Proof.
  unfold close_socket. destruct (map_get _ _) as [c|]; [|reflexivity].
  destruct (_ =? _); [apply relays_connections|reflexivity].
Qed.

Lemma relays_close_streams w now l h : relays no_data h (close_streams w now l h).2.
Proof.
  revert h; induction l as [|[id s] l IH]; intros h; simpl; [reflexivity|]. unfold se_bind.
  set (act := if party s w then _ else _).
  assert (R : relays no_data h (act h).2).
  { subst act. destruct (party s w); [|reflexivity].
    destruct (transportMode s), (recovery s); try reflexivity;
      first [apply relays_suspend | apply relays_terminate]. }
  destruct (act h) as [[] h1]; simpl in *; [|exact R]. etrans; [exact R|apply IH].
Qed.

Lemma relays_handleClose w n now h : relays no_data h (handleClose w n now h).2.
Proof.
  unfold handleClose, se_bind, se_get. destruct (map_get _ _) as [c|]; [|reflexivity].
  destruct (_ =? _); [|reflexivity]. simpl.
  etrans; [apply relays_connections|apply relays_close_streams].
Qed.

(** Data the coordinator itself sends on a local stream. *)
Definition local_data (id : jsstring) (x : jsstring * outgoing) : Prop :=
  match x.2 with OutData i _ who off _ => i = id /\ who = (None, None) /\ off = None | _ => True end.

Lemma no_data_local id x : no_data x -> local_data id x.
Proof. unfold no_data, local_data. by destruct x.2. Qed.

Lemma relays_local_pieces fuel id chunk h : relays (local_data id) h (local_pieces fuel id chunk h).
Proof.
  revert chunk h; induction fuel as [|fuel IH]; intros chunk h; cbn [local_pieces]; [reflexivity|].
  destruct chunk as [|x chunk0]; [reflexivity|]. destruct (stream_of h id) as [s|]; [|reflexivity].
  cbv zeta. set (h1 := on_stream id _ h).
  assert (R1 : relays (local_data id) h h1).
  { apply relays_on_stream. intros s0 _. eapply rtc_l; [apply (count_bytes_move _ _ true)|].
    apply rtc_once, hm_sequence. }
  etrans; [exact R1|].
  apply relays_send_or; [done|intros; apply IH|intros; eapply relays_weaken; [apply no_data_local|apply relays_terminate]].
Qed.

Lemma relays_localData id chunk h : relays (local_data id) h (localData id chunk h).
Proof.
  unfold localData. destruct (stream_of h id) as [s|]; [|reflexivity].
  destruct (localSocket s); [|reflexivity]. destruct (_ || _); [reflexivity|apply relays_local_pieces].
Qed.

Lemma relays_localEnd id error h : relays no_data h (localEnd id error h).
Proof.
  unfold localEnd. destruct (stream_of h id) as [s|]; [|reflexivity].
  destruct (localSocket s); [|reflexivity]. etrans; [|apply relays_terminate].
  apply relays_send. by destruct error.
Qed.

Lemma relays_localClose id h : relays no_data h (localClose id h).
Proof.
  unfold localClose. destruct (stream_of h id) as [s|]; [|reflexivity].
  destruct (localSocket s); [apply relays_terminate|reflexivity].
Qed.

Lemma relays_recoveryTimeout id h : relays no_data h (recoveryTimeout id h).
Proof.
  unfold recoveryTimeout. destruct (stream_of h id) as [s|]; [|reflexivity].
  destruct (recovery s) as [r|]; [|reflexivity]. destruct (timeout r); [apply relays_terminate|reflexivity].
Qed.

Lemma relays_directTimeout id h : relays no_data h (directTimeout id h).
Proof.
  unfold directTimeout. destruct (stream_of h id) as [s|]; [|reflexivity].
  destruct (direct s) as [d|]; [|reflexivity].
  destruct (timer d); [apply relays_fallback|apply relays_terminate|apply relays_terminate|reflexivity].
Qed.

(** ** Opening *)

(** Either the operation relays, or it has put a new stream in the table and then
    relays. *)
Definition opens (id : jsstring) (h h' : hub) : Prop :=
  relays no_data h h' \/
  exists s, map_size (runtimeStreams h) < MAX_RUNTIME_STREAMS /\ stream_ok [] id s /\
    relays no_data (set_streams (map_set (runtimeStreams h) id s) h) h'.

Lemma opens_then id h h' h'' : opens id h h' -> relays no_data h' h'' -> opens id h h''.
Proof.
  intros [R|(s & Hs & Ho & R)] R'; [left; by etrans|]. right. exists s. split_and!; [done|done|by etrans].
Qed.

Lemma find_destination_spec h node x :
  find_destination h node = Some x -> isConnected h (workerId x) = true.
Proof.
  unfold find_destination. intros [_ H]%find_some. by apply andb_true_iff in H as [? _].
Qed.

(** Replacing the stream that was just put in the table. *)
Lemma on_new_stream id s f h :
  on_stream id f (set_streams (map_set (runtimeStreams h) id s) h)
  = set_streams (map_set (runtimeStreams h) id (f s)) h.
Proof.
  unfold on_stream, stream_of. simpl. rewrite map_get_set_eq. unfold set_streams. simpl. f_equal.
  by rewrite map_set_set.
Qed.

Lemma opens_open w id node port who now h :
  opens id h (openRuntimeStream w id node port who now h).2 /\
  (stream_of h id = None \/ relays no_data h (openRuntimeStream w id node port who now h).2).
Proof.
  unfold openRuntimeStream. cbv zeta. unfold map_has. fold (stream_of h id).
  destruct (stream_of h id) as [s0|] eqn:Hid; [split; [left|right]; by apply relays_send|].
  split; [|by left].
  destruct (_ <=? _) eqn:Esize; [left; by apply relays_send|]. bool_prop.
  destruct (find_destination h node) as [x|] eqn:Ex; [|left; by apply relays_send].
  destruct (bool_decide (workerId x = w)) eqn:Ew; [left; by apply relays_send|]. bool_prop.
  set (source := match getWorker h w with Some _ => _ | None => None end).
  destruct (_ && negb _); [left; by apply relays_send|].
  set (supported := match speaks_direct source with Some _ => _ | None => false end).
  set (rec := match who with (Some _, Some _) => _ | _ => None end). set (s := RSession _ _ _ _ _ _ _ _ _ _ _ _ _ _).
  assert (Hrec : forall r, rec = Some r -> timeout r = suspended r /\ (suspended r = false -> reports r = [])).
  { subst rec. destruct who as [[g|] [token|]]; try done. destruct (match executor x with Some _ => _ | None => _ end); [|done].
    intros r [= <-]. done. }
  assert (Hok : forall mode route, (mode = Relay -> route = None) -> mode <> Direct ->
            (forall d, route = Some d -> routeState d = Offered) -> stream_ok [] id (set_route mode route s)).
  { intros mode route Hm Hd Hr. constructor; simpl; try done; try congruence.
    - intros _ d E. by rewrite (Hr d E).
    - intros d E. rewrite (Hr d E). by intros [?|?].
    - intros d E. by rewrite (Hr d E).
    - intros r E. destruct (Hrec r E). split_and!; [done|done|by eexists]. }
  right. fold s. cbn [sourceNodeId s].
  assert (Hrelay : exists s', map_size (runtimeStreams h) < MAX_RUNTIME_STREAMS /\ stream_ok [] id s' /\
    relays no_data (set_streams (map_set (runtimeStreams h) id s') h)
      (startRuntimeRelay id (set_streams (map_set (runtimeStreams h) id s) h))).
  { exists (set_route Relay None s). split; [done|]. split; [by apply Hok|].
    set (h0 := set_streams (map_set (runtimeStreams h) id s) h).
    unfold startRuntimeRelay. assert (stream_of h0 id = Some s) as -> by (unfold h0, stream_of; apply map_get_set_eq).
    unfold h0. rewrite on_new_stream.
    apply relays_send_or; [done|intros; reflexivity|intros; apply relays_terminate]. }
  assert (Hs : s = set_route (if supported then Negotiating else Relay) None s) by done.
  clearbody supported rec. destruct supported; [|exact Hrelay].
  destruct (executorNode <$> source) as [[|c0 n0]|]; [exact Hrelay| |exact Hrelay].
  destruct (grantFor _ _ _ _ _ _) as [g|code].
  - exists (set_route Negotiating (Some (Route (grant_connectionId g) Offered NegotiationTimer)) s).
    split; [done|]. split; [apply Hok; [done|done|by intros d [= <-]]|]. cbn [snd]. rewrite on_new_stream.
    apply relays_send_or; [done|intros; reflexivity|intros; apply relays_fallback].
  - exists s. split; [done|]. split; [rewrite Hs; by apply Hok|]. cbn [snd]. reflexivity.
Qed.

Lemma opens_local id destination port h : opens id h (attachLocalRuntimeStream id destination port h).
Proof.
  unfold attachLocalRuntimeStream. destruct (_ <=? _) eqn:E; [left; reflexivity|]. bool_prop. right.
  eexists. split; [done|]. split; [|apply relays_send_or; [done|intros; reflexivity|intros; apply relays_terminate]].
  by constructor; simpl.
Qed.
