(* ===== verification/RelayProps.v ===== *)
(** * What the stream relay guarantees *)

From S2P Require Import Prelude JsString JsMap JsonText Base64 RelayHub RelayInv RelaySteps.

#[local] Open Scope Z_scope.

(** ** The invariant of the relay *)

Record hub_ok (h : hub) : Prop := {
  ho_wf : map_wf (runtimeStreams h);
  ho_bounds : hub_bounds h;
  ho_streams : forall id s, stream_of h id = Some s -> stream_ok (sent h) id s;
}.

Lemma hmoves_ok log id s s' : rtc (hmove log id) s s' -> stream_ok log id s -> stream_ok log id s'.
Proof. induction 1 as [|x y z Hm _ IH]; [done|]. intros Hx. apply IH. eapply hmove_ok; [exact Hm|exact Hx]. Qed.

Lemma relays_ok P h h' : relays P h h' -> hub_ok h -> hub_ok h'.
Proof.
  intros R [Hw Hb Hs]. destruct (R Hw) as [W B S M]. constructor; auto.
  intros id s' H'. destruct (M _ _ H') as (s & H & Hm). eapply hmoves_ok; [exact Hm|].
  eapply stream_ok_log; [|by apply Hs]. by eapply sent_sub.
Qed.

Lemma opens_ok id h h' : opens id h h' -> hub_ok h -> hub_ok h'.
Proof.
  intros [R|(s & Hsize & Hok & R)] H; [by eapply relays_ok|]. eapply relays_ok; [exact R|].
  destruct H as [Hw Hb Hs]. constructor; simpl.
  - by apply map_wf_set.
  - destruct Hb as (? & ? & ?). split_and!; [|done..]. simpl. rewrite map_size_set. destruct (map_has _ _); lia.
  - intros j s'. unfold stream_of. simpl. rewrite map_get_set. case_decide; [intros [= <-]; subst|by apply Hs].
    eapply stream_ok_log; [|exact Hok]. intros ? ?%elem_of_nil. done.
Qed.

Lemma hub_empty_ok : hub_ok hub_empty.
Proof.
  constructor; [apply NoDup_nil_2| |done]. unfold hub_bounds; simpl.
  unfold map_size, MAX_RUNTIME_STREAMS; simpl; lia.
Qed.

(** The state after a run. *)
Definition reached (es : list hub_event) : hub := (hub_run es hub_empty).2.

(** A message about the stream. *)
Definition concerns (m : incoming) (id : jsstring) : Prop :=
  stream_id m = Some id \/ exists c, direct_id m = Some (id, c).

(** What an event may make the relay send. *)
Definition answers_to (e : hub_event) (x : jsstring * outgoing) : Prop :=
  match e with
  | Received w _ m _ => passes w m x
  | LocalData id _ => local_data id x
  | _ => no_data x
  end.

Lemma relays_envelope w m now h :
  hub_ok h -> (forall id node port who, m <> InOpen id node port who) ->
  relays (passes w m) h (handleRuntimeStreamEnvelope w m now h).2.
Proof.
  intros Hok Hopen. unfold handleRuntimeStreamEnvelope.
  destruct (stream_id m) as [id|] eqn:Hid.
  2: { destruct m; try done; try reflexivity. by edestruct Hopen. }
  assert (Hgo : relays (passes w m) h
    ((let! h := se_get in
      match stream_of h id with
      | None => match m with
                | InResume _ (Some g, Some token) _ =>
                    se_modify (sends w (OutError id (Some g, Some token) (js "runtime_stream_recovery_session_expired")))
                | _ => se_ret tt
                end
      | Some s => if party s w then handleStreamMessage id w s m now else se_ret tt
      end) h).2).
  { unfold se_bind, se_get. destruct (stream_of h id) as [s|] eqn:Hs.
    - destruct (party s w) eqn:Hp; [|reflexivity]. apply relays_stream_message; try done.
      apply (so_ends _ _ _ (ho_streams _ Hok _ _ Hs)).
    - destruct m; try reflexivity. destruct who as [[g|] [token|]]; try reflexivity.
      apply relays_passes. by apply relays_send. }
  destruct m; simpl in Hid; try done; exact Hgo.
Qed.

(** What a step does: the invariant, what is sent, and how a stream that is still
    there has moved. *)
Definition advances (e : hub_event) (h h' : hub) : Prop :=
  hub_ok h' /\ (exists ms, sent h' = sent h ++ ms /\ Forall (answers_to e) ms) /\
  forall id s s', stream_of h id = Some s -> stream_of h' id = Some s' ->
    (forall destination port, e <> LocalOpen id destination port) -> rtc (hmove (sent h') id) s s'.

Lemma relays_advances e h h' : hub_ok h -> relays (answers_to e) h h' -> advances e h h'.
Proof.
  intros Hok R. destruct (R (ho_wf _ Hok)) as [_ _ S M]. split_and!; [by eapply relays_ok|done|].
  intros id s s' H H' _. destruct (M _ _ H') as (s0 & H0 & Hm). by assert (s0 = s) as -> by congruence.
Qed.

Lemma opens_advances id e h h' :
  hub_ok h -> opens id h h' -> (forall x, no_data x -> answers_to e x) ->
  stream_of h id = None \/ (exists destination port, e = LocalOpen id destination port) -> advances e h h'.
Proof.
  intros Hok Ho Hw Hid. pose proof (opens_ok _ _ _ Ho Hok) as Hok'.
  destruct Ho as [R|(s & Hsz & _ & R)].
  { apply relays_advances; [done|]. by eapply relays_weaken. }
  assert (Hwf : map_wf (map_set (runtimeStreams h) id s)) by apply map_wf_set, Hok.
  destruct (R Hwf) as [_ _ (ms & E & F) M]. split_and!; [done| |].
  - exists ms. split; [done|]. eapply Forall_impl; [exact F|done].
  - intros j s0 s' H H' Hne. destruct (M _ _ H') as (s1 & H1 & Hm).
    unfold stream_of in H1. simpl in H1. rewrite map_get_set in H1. case_decide as Hj.
    + subst j. destruct Hid as [?|(d & p & ->)]; [congruence|]. by edestruct Hne.
    + assert (s1 = s0) as -> by (unfold stream_of in H; congruence). done.
Qed.

Lemma receive_step w n m now h : hub_ok h -> advances (Received w n m now) h (receive w n m now h).
Proof.
  intros Hok. pose proof (fun h' => relays_advances (Received w n m now) h h' Hok) as Hrelay.
  unfold receive. cbv zeta. destruct (negb _); [apply Hrelay, relays_close_socket|].
  destruct (direct_id m) as [x|] eqn:Hd.
  - pose proof (relays_direct_envelope w m h) as R.
    destruct (handleRuntimeDirectEnvelope w m h) as [[] h1]; simpl in R; apply Hrelay.
    + by apply relays_passes.
    + etrans; [by apply relays_passes|apply relays_close_socket].
  - destruct (match m with InOpen _ _ _ _ => true | _ => false end) eqn:Em.
    + destruct m as [id node port who| | | | | | | | | | | |]; try done. simpl.
      pose proof (opens_open w id node port who now h) as [Ho Hor].
      destruct (openRuntimeStream w id node port who now h) as [r h1]. cbn [snd] in *.
      set (h2 := match r with Ok _ => h1 | Err _ => close_socket w n h1 end).
      assert (R2 : relays no_data h1 h2) by (destruct r; [reflexivity|apply relays_close_socket]).
      replace (match (r, h1) with (Ok _, h0) => h0 | (Err _, h0) => close_socket w n h0 end) with h2
        by (by destruct r).
      destruct Hor as [Hn|R].
      * apply (opens_advances id); auto; [by eapply opens_then|by left].
      * apply Hrelay, relays_passes. by etrans.
    + assert (R : relays (passes w m) h (handleRuntimeStreamEnvelope w m now h).2).
      { apply relays_envelope; [done|]. by intros id node port who ->. }
      destruct (handleRuntimeStreamEnvelope w m now h) as [[] h1]; simpl in R; apply Hrelay; [done|].
      etrans; [exact R|apply relays_close_socket].
Qed.

Lemma hub_step_ok e h : hub_ok h -> advances e h (hub_step e h).2.
Proof.
  intros Hok. pose proof (fun h' => relays_advances e h h' Hok) as Hrelay.
  destruct e; cbn [hub_step se_modify snd].
  - apply Hrelay. by apply relays_unseen.
  - apply Hrelay. unfold hello. destruct (getWorker h w); [|reflexivity].
    destruct (map_get _ _); [destruct (_ && _)|]; first [reflexivity|apply relays_connections].
  - apply Hrelay. unfold heartbeat. destruct (map_get _ _); [destruct (_ =? _)|]; first [reflexivity|apply relays_connections].
  - apply Hrelay. unfold goodbye. simpl. set (h0 := set_workers _ h).
    assert (relays (answers_to (Goodbye w n)) h h0) as R by (by apply relays_unseen).
    destruct (map_get _ _); [destruct (_ =? _)|]; try exact R. etrans; [exact R|apply relays_connections].
  - apply Hrelay, relays_close_socket.
  - apply Hrelay, relays_handleClose.
  - by apply receive_step.
  - apply Hrelay, relays_recoveryTimeout.
  - apply Hrelay, relays_directTimeout.
  - apply (opens_advances id); [done|apply opens_local|done|right; eauto].
  - apply Hrelay, relays_localData.
  - apply Hrelay, relays_localEnd.
  - apply Hrelay, relays_localClose.
  - apply Hrelay, relays_on_stream. intros. apply rtc_once. constructor. by intros ->.
  - apply Hrelay. by apply relays_unseen.
Qed.

Lemma hub_run_ok es h :
  hub_ok h -> hub_ok (hub_run es h).2 /\
    exists ms, sent (hub_run es h).2 = sent h ++ ms /\ Forall (fun x => exists e, e ∈ es /\ answers_to e x) ms.
Proof.
  revert h; induction es as [|e es IH]; intros h Hok; simpl.
  - split; [done|]. exists []. by rewrite app_nil_r.
  - unfold se_bind. destruct (hub_step_ok e h Hok) as (Hok1 & (ms1 & E1 & F1) & _).
    assert (F1' : Forall (fun x => exists e0, e0 ∈ e :: es /\ answers_to e0 x) ms1).
    { eapply Forall_impl; [exact F1|]. intros x Hx. exists e. split; [apply list_elem_of_here|done]. }
    destruct (hub_step e h) as [[u|c] h1]; simpl in *.
    + destruct (IH h1 Hok1) as (Hok2 & ms2 & E2 & F2). split; [done|]. exists (ms1 ++ ms2).
      rewrite E2, E1, app_assoc. split; [done|]. apply Forall_app. split; [done|].
      eapply Forall_impl; [exact F2|]. intros x (e0 & Hin & Hx). exists e0. split; [by apply list_elem_of_further|done].
    + split; [done|]. by exists ms1.
Qed.

Lemma direct_moves log id s s' :
  rtc (hmove log id) s s' -> stream_ok log id s -> transportMode s = Direct -> transportMode s' = Direct.
Proof.
  induction 1 as [|x y z Hm _ IH]; [done|]. intros Hok Hd. pose proof (hmove_ok _ _ _ _ Hm Hok) as Hok'.
  apply IH; [done|]. destruct (so_direct _ _ _ Hok Hd) as (_ & d0 & Hd0 & Hc).
  destruct Hm; simpl; try done. by destruct (H d0).
Qed.

(** ** Theorems *)

(** In every state the relay reaches, whatever the workers send:
    the tables are bounded; the two ends of a stream are different workers; a
    relayed stream has no direct route, and a stream is direct exactly when its
    route is committed, which it is only after both ends were sent the commit; a
    suspended stream has a pending recovery timer and a running one has neither
    timer nor reports. *)
Theorem hub_streams_invariant es :
  let h := reached es in
  map_size (runtimeStreams h) <= 1024
  /\ (length (runtimeLinkFailures h) <= 512)%nat /\ (length (completedRuntimeTransports h) <= 512)%nat
  /\ forall id s, stream_of h id = Some s ->
       sourceWorkerId s <> Some (destinationWorkerId s)
       /\ (transportMode s = Relay -> direct s = None)
       /\ (transportMode s = Direct <-> exists d, direct s = Some d /\ routeState d = Committed)
       /\ (forall d, direct s = Some d -> routeState d = Committed ->
             opened s = true /\ (destinationWorkerId s, OutCommit id (connectionId d)) ∈ sent h
             /\ exists w, sourceWorkerId s = Some w /\ (w, OutCommit id (connectionId d)) ∈ sent h)
       /\ (forall r, recovery s = Some r ->
             timeout r = suspended r /\ (suspended r = false -> reports r = [])).
Proof.
  intros h. destruct (hub_run_ok es hub_empty hub_empty_ok) as [[_ (H1 & H2 & H3) Hs] _].
  fold (reached es) in *.
  split_and!; try done. intros id s H. destruct (Hs _ _ H).
  assert (Hiff : transportMode s = Direct <-> exists d, direct s = Some d /\ routeState d = Committed).
  { split; [intros Hm; by apply so_direct|]. intros (d & Hd & Hc). destruct (transportMode s) eqn:E; [|done|].
    - by destruct (so_negotiating eq_refl d Hd).
    - rewrite so_relay in Hd by done. done. }
  split_and!; try done.
  - intros d Hd Hc. split; [apply so_direct; apply Hiff; eauto|]. split; [by apply so_destination; auto|by eapply so_source].
  - intros r Hr. destruct (so_recovery r Hr) as (? & ? & _). done.
Qed.

(** C6 (safety). The relay makes up no data: every data message it has sent is
    one that a worker sent to it, unchanged, and goes to another worker; or it is
    data of a stream the coordinator itself opened. *)
Theorem hub_data_genuine es w id seq who off text :
  (w, OutData id seq who off text) ∈ sent (reached es) ->
  (exists w' n now, Received w' n (InData id seq who off text) now ∈ es /\ w' <> w)
  \/ (who = (None, None) /\ off = None /\ exists chunk, LocalData id chunk ∈ es).
Proof.
  destruct (hub_run_ok es hub_empty hub_empty_ok) as (_ & ms & E & F).
  unfold reached. rewrite E. simpl. intros Hin.
  rewrite Forall_forall in F. destruct (F _ Hin) as (e & He & Ha).
  destruct e; try (by destruct Ha).
  - destruct Ha as [[]|Ha]. destruct m; try done. destruct Ha as (target & Hne & [= -> -> -> -> -> ->]).
    left. eauto 10.
  - destruct Ha as (<- & -> & ->). right. eauto.
Qed.

(** A worker that is not an end of a stream cannot touch it: its
    messages about the stream change nothing and are answered with nothing. *)
Theorem hub_stranger_ignored h w id s m now :
  stream_of h id = Some s ->
  sourceWorkerId s <> Some w -> destinationWorkerId s <> w ->
  concerns m id ->
  handleRuntimeStreamEnvelope w m now h = (Ok tt, h) /\ handleRuntimeDirectEnvelope w m h = (Ok tt, h).
Proof.
  unfold concerns. intros Hs H1 H2 Hm.
  assert (party s w = false) as Hp.
  { unfold party, from_source, from_destination. by rewrite !bool_decide_false. }
  destruct m; simpl in Hm; destruct Hm as [Hm|(c & Hm)]; simplify_eq;
    unfold handleRuntimeStreamEnvelope, handleRuntimeDirectEnvelope, se_bind, se_get; simpl;
    rewrite ?Hs, ?Hp; try done.
  all: destruct (direct s); [|done]; by rewrite orb_true_r.
Qed.

(** A committed direct route is final: after any step the stream is
    gone or still direct; it is never taken back to the relay. *)
Theorem hub_direct_final es e id s s' :
  let h := reached es in
  stream_of h id = Some s -> transportMode s = Direct ->
  (forall destination port, e <> LocalOpen id destination port) ->
  stream_of (hub_step e h).2 id = Some s' ->
  transportMode s' = Direct.
Proof.
  intros h Hs Hm Hne Hs'. destruct (hub_run_ok es hub_empty hub_empty_ok) as [Hok _]. fold h in Hok.
  destruct (hub_step_ok e h Hok) as (_ & (ms & E & _) & Hmv).
  eapply direct_moves; [by eapply Hmv| |exact Hm].
  eapply stream_ok_log; [|by apply (ho_streams _ Hok)]. rewrite E. set_solver.
Qed.

(** ** Data on a recoverable stream *)

(** The forward offset of the direction of [w]. *)
Definition forwarded (s : RelaySession) (r : RelayRecovery) (w : jsstring) : Z :=
  if from_source s w then sourceForwardOffset r else destinationForwardOffset r.

(** What the relay does with a data message of an end of an open
    recoverable stream, on every branch: data it has forwarded already is dropped;
    data with a gap or an overlap ends the stream; data at the forward offset is
    counted, moves the offset by its length, and is sent on unchanged, unless the
    stream is suspended; when it cannot be delivered, the stream is suspended. *)
Theorem relay_data_spec h id w s r seq o text now :
  stream_of h id = Some s -> recovery s = Some r -> opened s = true -> party s w = true ->
  let n := byteLength (b64_decode text) in
  let m := OutData id seq (who_of s) (Some o) text in
  let h1 := on_stream id (fun s => set_relay_recovery (Some (forward (from_source s w) n r))
                                     (count_bytes (from_source s w) n s)) h in
  let result := handleRuntimeStreamEnvelope w (InData id seq (who_of s) (Some o) text) now h in
  (o < forwarded s r w -> o + n <= forwarded s r w -> result = (Ok tt, h))
  /\ (o <> forwarded s r w -> forwarded s r w < o + n \/ forwarded s r w < o ->
      result = (Ok tt, terminateRuntimeStream id
        (Some (colon (js "runtime_stream_offset_mismatch") [forwarded s r w; o])) h))
  /\ (o = forwarded s r w -> suspended r = true -> result = (Ok tt, h1))
  /\ (o = forwarded s r w -> suspended r = false -> forall target,
      other_end s (from_source s w) = Some target ->
      result = if (send target m h1).1 then (Ok tt, (send target m h1).2)
               else suspendRuntimeStream id (js "runtime_stream_relay_delivery_failed") now (send target m h1).2).
Proof.
  intros Hs Hr Ho Hp n m h1 result.
  assert (E : result = handleRecoverableRuntimeData id w s r seq (who_of s) (Some o) text now h).
  { subst result. cbn [handleRuntimeStreamEnvelope stream_id]. unfold se_bind, se_get.
    rewrite Hs, Hp. cbn [handleStreamMessage]. by rewrite Ho, Hr. }
  rewrite E. unfold handleRecoverableRuntimeData, runtimeStreamIdentityMatches.
  rewrite bool_decide_true by done. cbn [negb]. cbv zeta. fold (forwarded s r w). fold n.
  assert (Hh1 : on_stream id (fun s0 => set_relay_recovery (Some (forward (from_source s w) n r))
                  (count_bytes (from_source s w) n s0)) h = h1).
  { subst h1. unfold on_stream. rewrite Hs. done. }
  split_and!.
  - intros H1 H2. replace (o <? _) with true by lia. replace (o + n <=? _) with true by lia. done.
  - intros Hne Hx. replace ((o <? _) && _) with false; [|symmetry; apply andb_false_iff; lia].
    replace (o =? _) with false by lia. done.
  - intros -> Hsus. rewrite Z.ltb_irrefl, Z.eqb_refl. cbn [andb negb]. unfold se_bind, se_modify.
    by rewrite Hsus, Hh1.
  - intros -> Hsus target Ht. rewrite Z.ltb_irrefl, Z.eqb_refl. cbn [andb negb]. unfold se_bind, se_modify.
    rewrite Hsus, Ht, Hh1. fold m. by destruct (send target m h1) as [[] h2].
Qed.

(** ** A stream id the failure evidence does not admit *)

Lemma other_terminate id j message h :
  j <> id -> stream_of (terminateRuntimeStream id message h) j = stream_of h j.
Proof.
  intros Hj. unfold terminateRuntimeStream. destruct (stream_of h id) as [s|]; [|done].
  assert (Hdel : stream_of (set_streams (map_delete (runtimeStreams h) id) h) j = stream_of h j)
    by (by apply map_get_delete_ne).
  set (h2 := match direct s with Some _ => _ | None => _ end).
  assert (H2 : stream_of h2 j = stream_of h j).
  { subst h2. destruct (direct s); [|done]. by rewrite stream_sends, stream_sends_to. }
  destruct message; [destruct (bool_decide _)|]; rewrite ?stream_sends, ?stream_sends_to; exact H2.
Qed.

Lemma other_suspend id j reason now h :
  j <> id -> stream_of (suspendRuntimeStream id reason now h).2 j = stream_of h j.
Proof.
  intros Hj. unfold suspendRuntimeStream, se_bind, se_get. destruct (stream_of h id) as [s|]; [|done].
  destruct (recovery s) as [r|]; [|done]. destruct (suspended r); [done|].
  unfold recordRuntimeLinkFailure. destruct (negb _); [done|]. simpl.
  set (h1 := set_hub_failures _ h). set (h2 := on_stream id _ h1).
  assert (H2 : stream_of h2 j = stream_of h j).
  { subst h2. by rewrite stream_on_stream, decide_False by done. }
  destruct (sourceWorkerId s) as [w|]; [destruct (isConnected h2 w)|];
    destruct (isConnected _ (destinationWorkerId s)); rewrite ?stream_sends; exact H2.
Qed.

Lemma suspend_error id reason now h c h' :
  suspendRuntimeStream id reason now h = (Err c, h') -> c = "ZodError"%string.
Proof.
  unfold suspendRuntimeStream, se_bind, se_get. destruct (stream_of h id) as [s|]; [|done].
  destruct (recovery s) as [r|]; [|done]. destruct (suspended r); [done|].
  unfold recordRuntimeLinkFailure. destruct (negb _); [|done]. by intros [= <- _].
Qed.

Lemma suspend_long_id id reason now h s r :
  stream_of h id = Some s -> recovery s = Some r -> suspended r = false -> 128 < utf16_length id ->
  suspendRuntimeStream id reason now h = (Err "ZodError", h).
Proof.
  intros Hs Hr Hsus Hlen. unfold suspendRuntimeStream, se_bind, se_get. rewrite Hs, Hr, Hsus.
  unfold recordRuntimeLinkFailure, within.
  replace (utf16_length id <=? 128) with false by lia. rewrite andb_false_r. done.
Qed.

Lemma close_streams_throws w now l id s r :
  NoDup l.*1 -> (id, s) ∈ l -> party s w = true -> transportMode s = Relay -> recovery s = Some r ->
  suspended r = false -> 128 < utf16_length id ->
  forall h, stream_of h id = Some s -> exists h', close_streams w now l h = (Err "ZodError", h').
Proof.
  intros Hnd Hin Hp Hm Hr Hsus Hlen. induction l as [|[j sj] l IH]; [by apply elem_of_nil in Hin|].
  simpl in Hnd. apply NoDup_cons in Hnd as [Hj Hnd]. intros h Hs. cbn [close_streams]. unfold se_bind.
  apply elem_of_cons in Hin as [[= <- <-]|Hin].
  - rewrite Hp, Hm, Hr. rewrite (suspend_long_id id _ now h s r) by done. by exists h.
  - assert (id <> j) as Hne by (intros ->; apply Hj, list_elem_of_fmap; by exists (j, s)).
    assert (Hact : forall act : SE hub unit,
      (forall c h1, act h = (Err c, h1) -> c = "ZodError"%string) -> stream_of (act h).2 id = stream_of h id ->
      exists h', match act h with (Ok _, h1) => close_streams w now l h1 | (Err e, h1) => (Err e, h1) end
                 = (Err "ZodError", h')).
    { intros act He Hst. destruct (act h) as [[u|c] h1] eqn:E; simpl in Hst.
      - apply IH; [done|done|]. by rewrite Hst.
      - rewrite (He _ _ eq_refl). by exists h1. }
    apply Hact.
    + destruct (party sj w); [|done]. destruct (transportMode sj), (recovery sj); try done. apply suspend_error.
    + destruct (party sj w); [|done].
      destruct (transportMode sj), (recovery sj); try done; first [by apply other_suspend | by apply other_terminate].
Qed.

(** The coordinator accepts a stream id of up to 256 characters but
    the evidence it records when a stream is suspended admits 128.  So when an end
    of a recoverable relayed stream with a longer id disconnects, the handler of
    the socket's close event throws, and nothing catches it. *)
Theorem hub_long_stream_id_throws es w n now id s r :
  let h := reached es in
  (exists c, map_get (connections h) w = Some c /\ serial c = n) ->
  stream_of h id = Some s -> party s w = true -> transportMode s = Relay ->
  recovery s = Some r -> suspended r = false -> 128 < utf16_length id ->
  exists h', hub_step (Closed w n now) h = (Err "ZodError", h').
Proof.
  intros h (c & Hc & Hn) Hs Hp Hm Hr Hsus Hlen.
  destruct (hub_run_ok es hub_empty hub_empty_ok) as [Hok _]. fold h in Hok.
  cbn [hub_step]. unfold handleClose, se_bind, se_get. rewrite Hc, <- Hn, Z.eqb_refl. cbn [se_modify].
  eapply close_streams_throws; eauto.
  - apply (ho_wf _ Hok).
  - by apply map_get_Some_In.
Qed.
