(* ===== verification/RelayTunnel.v ===== *)
(** * The relay between two tunnels

    The coordinator's relay and the tunnels of two workers together: what a
    tunnel sends is what the relay receives, and the other way round.  After the
    connection of a worker was lost, the reports of the two tunnels, the relay's
    decision and the data sent again bring the far end to exactly the bytes the
    near end has taken from its socket. *)

From S2P Require Import Prelude JsString JsMap JsonText Base64.
From S2P Require Import Tunnel TunnelInv TunnelSteps TunnelProps TunnelResume.
From S2P Require Import RelayHub RelayInv.

#[local] Open Scope Z_scope.

(** ** Messages on the wire *)

(** What a tunnel sends, as the relay receives it. *)
Definition wire_in (e : envelope) : incoming :=
  match e with
  | StreamOpen id destination port g token => InOpen id destination port (Some g, Some token)
  | StreamOpened id who => InOpened id who
  | StreamData id seq who off text => InData id seq who off text
  | StreamAck id g token ack => InAck id (Some g, Some token) ack
  | StreamResume id g token a b c d => InResume id (Some g, Some token) (Rep a b c d)
  | StreamEnd id who final => InEnd id who final
  | StreamError id who text => InError id who text
  | DirectFallback id connection reason => InFallback id connection reason
  | DirectCommitted id connection => InCommitted id connection
  end.

(** What the relay sends, as a tunnel receives it at time [now]; [far] says that
    it is the stream's destination. *)
Definition wire_out (far : bool) (now : Z) (m : outgoing) : message :=
  match m with
  | OutOpen id port who => MOpen id port who
  | OutOpened id who => MOpened id who
  | OutData id seq who off text => MData id seq who off text
  | OutAck id (g, token) ack => MAck id (default (-1) g) (default [] token) ack
  | OutSuspend id g token deadline => MSuspend id g token deadline now
  | OutResumed id previous g token from => MResumed id previous g token from
  | OutEnd id who final => MEnd id who final
  | OutError id who text => MError id who text
  | OutOffer id connection => MDirectOffer id connection
  | OutConnect id node port connection => MDirectConnect id node connection port
  | OutCommit id connection => MDirectCommit id connection far
  | OutCancel id connection => MDirectCancel id connection
  end.

(** Messages of worker [w] through the relay. *)
Definition relay_all (w : jsstring) (now : Z) (ms : list incoming) (h : hub) : hub :=
  foldl (fun h m => (handleRuntimeStreamEnvelope w m now h).2) h ms.

(** ** The relay with healthy connections *)

Definition healthy (h : hub) (w : jsstring) : Prop :=
  exists n, map_get (connections h) w = Some (Conn n true true).

Lemma send_healthy h w m : healthy h w -> sockets h = [] -> send w m h = (true, push_sent w m h).
Proof. unfold send. intros (n & ->) ->. done. Qed.

Lemma healthy_connected h w : healthy h w -> isConnected h w = true.
Proof. unfold isConnected. by intros (n & ->). Qed.

(** A stream between [wa] and [wb] that runs, with its forward offset. *)
Record running (h : hub) (id wa wb : jsstring) (g : Z) (token : jsstring) (off : Z) : Prop := {
  rn_stream : exists s r, stream_of h id = Some s /\ RelayHub.recovery s = Some r
    /\ sourceWorkerId s = Some wa /\ destinationWorkerId s = wb /\ RelayHub.opened s = true
    /\ RelayHub.generation r = g /\ RelayHub.recoveryToken r = token /\ RelayHub.suspended r = false
    /\ sourceForwardOffset r = off;
  rn_target : healthy h wb;
  rn_sockets : sockets h = [];
}.

Lemma hub_forwards_chunk h id wa wb g token c p now :
  running h id wa wb g token (offset c) -> data c = b64_encode p -> Forall is_byte p ->
  let h' := (handleRuntimeStreamEnvelope wa (InData id (sequence c) (Some g, Some token) (Some (offset c)) (data c)) now h).2 in
  running h' id wa wb g token (offset c + byteLength p)
  /\ sent h' = sent h ++ [(wb, OutData id (sequence c) (Some g, Some token) (Some (offset c)) (data c))].
Proof.
  intros [(s & r & Hs & Hr & Ha & Hb & Ho & Hg & Ht & Hsus & Hoff) Hw Hk] Hd Hp.
  set (m := OutData id (sequence c) (Some g, Some token) (Some (offset c)) (data c)).
  set (h1 := on_stream id (fun s => set_relay_recovery (Some (forward true (byteLength p) r))
                                      (count_bytes true (byteLength p) s)) h).
  assert (E : handleRuntimeStreamEnvelope wa (InData id (sequence c) (Some g, Some token) (Some (offset c)) (data c)) now h
              = (Ok tt, push_sent wb m h1)).
  { cbn [handleRuntimeStreamEnvelope stream_id]. unfold se_bind at 1, se_get at 1. rewrite Hs.
    assert (from_source s wa = true) as Hf by (unfold from_source; by rewrite bool_decide_true).
    unfold party. rewrite Hf. cbn [orb handleStreamMessage]. rewrite Ho, Hr. cbn [negb].
    unfold handleRecoverableRuntimeData, runtimeStreamIdentityMatches, who_of.
    rewrite Hr, Hg, Ht, bool_decide_true by done. cbn [negb]. cbv zeta. subst m.
    rewrite Hf, Hoff, Hd, b64_round_trip by done.
    rewrite Z.ltb_irrefl, Z.eqb_refl. cbn [andb negb]. unfold se_bind at 1, se_modify. rewrite Hsus.
    fold h1. unfold se_bind, other_end. rewrite Hb, send_healthy; [done| |].
    - unfold healthy, h1. by rewrite conns_on_stream.
    - unfold h1. by rewrite sockets_on_stream. }
  rewrite E. simpl. split.
  - constructor; simpl; [|unfold healthy, h1; simpl; by rewrite conns_on_stream|unfold h1; by rewrite sockets_on_stream].
    assert (stream_of h1 id = Some (set_relay_recovery (Some (forward true (byteLength p) r))
                                      (count_bytes true (byteLength p) s))) as Hs1.
    { unfold h1. by rewrite stream_on_stream, decide_True, Hs. }
    eexists _, _. split; [exact Hs1|]. split; [reflexivity|].
    simpl. split_and!; try done. congruence.
  - unfold h1. by rewrite sent_on_stream.
Qed.

Lemma hub_forwards_chunks id wa wb g token now ps : Forall piece_ok ps ->
  forall seq off h, running h id wa wb g token off ->
  let cs := chunks seq off ps in
  let h' := relay_all wa now ((fun c => InData id (sequence c) (Some g, Some token) (Some (offset c)) (data c)) <$> cs) h in
  running h' id wa wb g token (off + size ps)
  /\ sent h' = sent h ++ ((fun c => (wb, OutData id (sequence c) (Some g, Some token) (Some (offset c)) (data c))) <$> cs).
Proof.
  induction 1 as [|p ps [_ Hp] _ IH]; intros seq off h Hrun; cbn [chunks fmap list_fmap].
  - rewrite size_nil, Z.add_0_r, app_nil_r. done.
  - destruct (hub_forwards_chunk h id wa wb g token (Replay seq off (b64_encode p) (byteLength p)) p now)
      as [Hrun1 Hs1]; [done..|]. cbn [sequence offset data] in *.
    destruct (IH (seq + 1) (off + byteLength p) _ Hrun1) as [Hrun2 Hs2].
    rewrite size_cons, Z.add_assoc. split; [exact Hrun2|].
    unfold relay_all in Hs2 |- *. cbn [foldl]. rewrite Hs2, Hs1, <- app_assoc. done.
Qed.

(** ** The relay's decision to resume *)

(** A suspended stream between two workers that are both connected again. *)
Record awaiting (h : hub) (id wa wb : jsstring) (g : Z) (token : jsstring) : Prop := {
  aw_stream : exists s r, stream_of h id = Some s /\ RelayHub.recovery s = Some r
    /\ sourceWorkerId s = Some wa /\ destinationWorkerId s = wb /\ RelayHub.opened s = true
    /\ RelayHub.generation r = g /\ RelayHub.recoveryToken r = token /\ RelayHub.suspended r = true
    /\ reports r = [];
  aw_ends : wa <> wb;
  aw_source : healthy h wa;
  aw_target : healthy h wb;
  aw_sockets : sockets h = [];
  aw_generation : g < 1000000;
}.

Definition report_ok (p : Report) : Prop :=
  rBufferedFromOffset p <= rAcknowledgedOffset p <= rSendOffset p.

Lemma hub_resumes h id wa wb g token a b now :
  awaiting h id wa wb g token -> report_ok a -> report_ok b -> inconsistent a b = false ->
  let who := (Some g, Some token) in
  let h1 := (handleRuntimeStreamEnvelope wa (InResume id who a) now h).2 in
  let h2 := (handleRuntimeStreamEnvelope wb (InResume id who b) now h1).2 in
  running h2 id wa wb (g + 1) token (rReceiveOffset b)
  /\ sent h2 = sent h ++ [(wa, OutResumed id g (g + 1) token (rReceiveOffset b));
                          (wb, OutResumed id g (g + 1) token (rReceiveOffset a))].
Proof.
  intros [(s & r & Hs & Hr & Ha & Hb & Ho & Hg & Ht & Hsus & Hrep) Hne Hwa Hwb Hk Hmax] [Ra1 Ra2] [Rb1 Rb2] Hcons who.
  set (r1 := set_reports [(wa, a)] r). set (h1' := on_stream id (set_relay_recovery (Some r1)) h).
  assert (E1 : handleRuntimeStreamEnvelope wa (InResume id who a) now h = (Ok tt, h1')).
  { cbn [handleRuntimeStreamEnvelope stream_id]. unfold se_bind, se_get. rewrite Hs.
    assert (party s wa = true) as -> by (unfold party, from_source; by rewrite bool_decide_true).
    cbn [handleStreamMessage]. unfold se_modify, handleRuntimeStreamResume, runtimeStreamIdentityMatches, who_of.
    rewrite Hr, Hsus, Hg, Ht, bool_decide_true, Hrep by done. cbn [negb orb map_get map_set].
    replace (rSendOffset a <? _) with false by lia. replace (rAcknowledgedOffset a <? _) with false by lia. cbn [orb].
    fold r1. fold h1'. unfold tryResumeRuntimeStream.
    assert (stream_of h1' id = Some (set_relay_recovery (Some r1) s)) as -> by (unfold h1'; by rewrite stream_on_stream, decide_True, Hs).
    cbn. rewrite Ha, Hb. rewrite decide_True by done. rewrite decide_False by done. done. }
  assert (Hs1 : stream_of h1' id = Some (set_relay_recovery (Some r1) s))
    by (unfold h1'; by rewrite stream_on_stream, decide_True, Hs).
  set (r2 := set_reports [(wa, a); (wb, b)] r1). set (h2' := on_stream id (set_relay_recovery (Some r2)) h1').
  set (r3 := RelayRec token (g + 1) (rReceiveOffset b) (rReceiveOffset a) false [] false).
  set (h3' := on_stream id (set_relay_recovery (Some r3)) h2').
  assert (Hs2 : stream_of h2' id = Some (set_relay_recovery (Some r2) (set_relay_recovery (Some r1) s)))
    by (unfold h2'; by rewrite stream_on_stream, decide_True, Hs1).
  assert (Hc3 : connections h3' = connections h /\ sockets h3' = [] /\ sent h3' = sent h /\ connections h2' = connections h).
  { unfold h3', h2', h1'. rewrite !conns_on_stream, !sockets_on_stream, !sent_on_stream. done. }
  destruct Hc3 as (Hc3 & Hk3 & Hsent3 & Hc2).
  set (m1 := OutResumed id g (g + 1) token (rReceiveOffset b)).
  set (m2 := OutResumed id g (g + 1) token (rReceiveOffset a)).
  assert (E2 : handleRuntimeStreamEnvelope wb (InResume id who b) now h1'
               = (Ok tt, push_sent wb m2 (push_sent wa m1 h3'))).
  { cbn [handleRuntimeStreamEnvelope stream_id]. unfold se_bind, se_get. rewrite Hs1.
    assert (party (set_relay_recovery (Some r1) s) wb = true) as ->.
    { unfold party, from_destination. simpl. rewrite Hb, (bool_decide_true (wb = wb)) by done. apply orb_true_r. }
    cbn [handleStreamMessage]. unfold se_modify, handleRuntimeStreamResume, runtimeStreamIdentityMatches, who_of.
    cbn [RelayHub.recovery set_relay_recovery RelayHub.suspended r1 set_reports RelayHub.generation RelayHub.recoveryToken reports].
    rewrite Hsus, Hg, Ht, bool_decide_true by done. cbn [negb orb map_get map_set].
    replace (rSendOffset b <? _) with false by lia. replace (rAcknowledgedOffset b <? _) with false by lia. cbn [orb].
    rewrite !decide_False by done.
    match goal with |- context [tryResumeRuntimeStream id ?x] => change x with h2' end.
    unfold tryResumeRuntimeStream. rewrite Hs2.
    cbn [RelayHub.recovery set_relay_recovery sourceWorkerId destinationWorkerId r2 set_reports reports
         RelayHub.generation RelayHub.recoveryToken r1].
    assert (map_get [(wa, a); (wb, b)] wa = Some a) as G1 by (simpl; by rewrite decide_True).
    assert (map_get [(wa, a); (wb, b)] wb = Some b) as G2 by (simpl; by rewrite decide_False, decide_True).
    rewrite Ha, Hb, G1, G2, Hcons.
    rewrite (healthy_connected h2' wa), (healthy_connected h2' wb) by (unfold healthy; by rewrite Hc2).
    cbn [negb orb]. rewrite Hg, Ht. replace (1000000 <? g + 1) with false by lia. fold r3. fold h3'.
    rewrite send_healthy; [|unfold healthy; by rewrite Hc3|done].
    rewrite send_healthy; [done|unfold healthy; simpl; by rewrite Hc3|done]. }
  cbv zeta. rewrite !E1. cbn [snd]. rewrite !E2. cbn [snd]. split.
  - constructor; simpl; [|unfold healthy; simpl; by rewrite Hc3|done].
    exists (set_relay_recovery (Some r3) (set_relay_recovery (Some r2) (set_relay_recovery (Some r1) s))), r3.
    split; [|done]. change (stream_of h3' id = Some (set_relay_recovery (Some r3)
      (set_relay_recovery (Some r2) (set_relay_recovery (Some r1) s)))).
    unfold h3'. by rewrite stream_on_stream, decide_True, Hs2.
  - simpl. rewrite Hsent3, <- app_assoc. done.
Qed.

(** ** Recovery end to end *)

Definition reachable (t : tunnel) : Prop :=
  exists node requested available t0 es,
    tunnel_new node requested available = Ok t0 /\ Forall event_ok es /\ t = tunnel_run es t0.

Lemma reachable_ok t : reachable t -> tunnel_ok t.
Proof. intros (node & req & av & t0 & es & Hn & He & ->). apply tunnel_run_ok; [done|by eapply tunnel_new_ok]. Qed.

(** A tunnel that is connected again, with a recoverable stream. *)
Record stream_end (t : tunnel) (id : jsstring) (g : Z) (token : jsstring) (s : StreamSession) (r : RecoveryState)
  : Prop := {
  se_reachable : reachable t;
  se_session : session_of t id = Some s;
  se_recovery : Tunnel.recovery s = Some r;
  se_mode : Tunnel.transportMode s <> Tunnel.Direct;
  se_generation : Tunnel.generation r = g;
  se_token : Tunnel.recoveryToken r = token;
  se_available : transportAvailable t = true;
  se_answers : answers t = [];
}.

(** The report of a tunnel on a stream. *)
Definition resume_report (id : jsstring) (r : RecoveryState) : envelope :=
  StreamResume id (Tunnel.generation r) (Tunnel.recoveryToken r) (sendOffset r) (acknowledgedOffset r)
    (receiveOffset r) (bufferedFromOffset r).

Lemma stream_end_ok t id g token s r :
  stream_end t id g token s r -> exists ps n,
    sess_ok (maxReplayBytes t) (replayHighWaterBytes t) ps s
    /\ recovery_ok (maxReplayBytes t) (replayHighWaterBytes t) ps s r n.
Proof.
  intros []. destruct (to_sessions _ (reachable_ok _ se_reachable0) _ _ se_session0) as [ps Hps].
  destruct (TunnelInv.so_recovery _ _ _ _ Hps r se_recovery0) as [n Hn]. eauto.
Qed.

Lemma ack_le_send maxB high ps s r n :
  recovery_ok maxB high ps s r n -> acknowledgedOffset r <= sendOffset r.
Proof.
  intros []. pose proof (size_take_drop n ps). pose proof (size_nonneg (drop n ps)). lia.
Qed.

(** That report is what [sendResumeState] sends. *)
Lemma sendResumeState_report t id g token s r :
  stream_end t id g token s r -> sendResumeState id t = push_out (resume_report id r) t.
Proof.
  intros He. destruct (stream_end_ok _ _ _ _ _ _ He) as (ps & n & _ & Hn). destruct He.
  unfold sendResumeState. rewrite se_session0, se_recovery0, se_available0. cbn [negb].
  pose proof (ack_le_send _ _ _ _ _ _ Hn). rewrite (bufferedFrom_ok _ _ _ _ _ _ Hn).
  replace (_ <? _) with false by lia. replace (sendOffset r <? _) with false by lia. cbn [orb].
  rewrite send_open by done. unfold resume_report. by rewrite (bufferedFrom_ok _ _ _ _ _ _ Hn).
Qed.

(** The data among what a tunnel sent, as the relay receives it. *)
Definition data_in (e : envelope) : option incoming :=
  match e with StreamData _ _ _ _ _ => Some (wire_in e) | _ => None end.

Lemma data_in_chunks id r (l : list ReplayChunk) :
  omap data_in (chunk_envelope id r <$> l) =
  (fun c => InData id (sequence c) (Some (Tunnel.generation r), Some (Tunnel.recoveryToken r)) (Some (offset c)) (data c)) <$> l.
Proof. induction l as [|c l IH]; [done|]. simpl. f_equal. exact IH. Qed.

(** C5 (refinement). A stream survives the loss of a connection: two running
    tunnels are connected to the relay again, their reports arrive, and the relay
    answers both; what the near tunnel then sends again passes the relay
    unchanged, and the far tunnel, once it has received that, has written exactly
    the bytes the near tunnel has taken from its socket. *)
Theorem relay_recovers_stream tA tB h id wa wb g token sa ra sb rb now :
  stream_end tA id g token sa ra -> stream_end tB id g token sb rb ->
  awaiting h id wa wb g token ->
  boundary ra (receiveOffset rb) -> boundary rb (receiveOffset ra) ->
  Tunnel.opened sb = true -> destroyed (socket sb) = false ->
  written (socket sb) = take (Z.to_nat (receiveOffset rb)) (taken sa) ->
  writableLength (socket sb) + (sendOffset ra - receiveOffset rb) <= MAX_SOCKET_BUFFERED_BYTES ->
  let h1 := (handleRuntimeStreamEnvelope wa (wire_in (resume_report id ra)) now h).2 in
  let h2 := (handleRuntimeStreamEnvelope wb (wire_in (resume_report id rb)) now h1).2 in
  exists forA forB again out sb',
    sent h2 = sent h ++ [(wa, forA); (wb, forB)]
    /\ outbox (handle (wire_out false now forA) tA) = outbox tA ++ again
    /\ sent (relay_all wa now (omap data_in again) h2) = sent h2 ++ (pair wb <$> out)
    /\ session_of (receive_all (wire_out true now <$> out) (handle (wire_out true now forB) tB)) id = Some sb'
    /\ written (socket sb') = taken sa.
Proof.
  intros HA HB Haw HbA HbB Hop Hde Hw Hroom h1 h2.
  destruct (stream_end_ok _ _ _ _ _ _ HA) as (ps & n & Hps & Hn).
  destruct (stream_end_ok _ _ _ _ _ _ HB) as (qs & k & Hqs & Hk).
  pose proof (boundary_range _ _ _ _ _ _ _ Hn HbA). pose proof (boundary_range _ _ _ _ _ _ _ Hk HbB).
  pose proof (ack_le_send _ _ _ _ _ _ Hn). pose proof (ack_le_send _ _ _ _ _ _ Hk).
  pose proof (bufferedFrom_ok _ _ _ _ _ _ Hn) as HfA. pose proof (bufferedFrom_ok _ _ _ _ _ _ Hk) as HfB.
  destruct HA as [_ HsA HrA HmA HgA HtA HavA HanA], HB as [_ HsB HrB HmB HgB HtB HavB HanB].
  destruct (hub_resumes h id wa wb g token
    (Rep (sendOffset ra) (acknowledgedOffset ra) (receiveOffset ra) (bufferedFromOffset ra))
    (Rep (sendOffset rb) (acknowledgedOffset rb) (receiveOffset rb) (bufferedFromOffset rb)) now Haw) as [Hrun Hsent].
  { unfold report_ok; simpl. lia. }
  { unfold report_ok; simpl. lia. }
  { unfold inconsistent; simpl. repeat (apply orb_false_iff; split); lia. }
  assert (Eh : h2 = (handleRuntimeStreamEnvelope wb (InResume id (Some g, Some token)
      (Rep (sendOffset rb) (acknowledgedOffset rb) (receiveOffset rb) (bufferedFromOffset rb))) now
      (handleRuntimeStreamEnvelope wa (InResume id (Some g, Some token)
      (Rep (sendOffset ra) (acknowledgedOffset ra) (receiveOffset ra) (bufferedFromOffset ra))) now h).2).2).
  { subst h2 h1. cbn [wire_in resume_report]. by rewrite HgA, HtA, HgB, HtB. }
  cbv zeta in Hrun, Hsent. rewrite <- Eh in Hrun, Hsent. cbn [rReceiveOffset] in Hrun, Hsent.
  destruct (resume_accepted id (g + 1) (receiveOffset rb) tA sa ra ps n Hps Hn HmA HsA HrA HavA HanA)
    as (m & sa' & ra' & Hlen & Hfrom & Hout & _ & _ & Hg' & Ht' & _); [lia|done|].
  destruct (resume_accepted id (g + 1) (receiveOffset ra) tB sb rb qs k Hqs Hk HmB HsB HrB HavB HanB)
    as (m' & sb1 & rb1 & _ & _ & _ & Hs1 & Hr1 & Hg1 & Ht1 & _ & _ & _ & Hsame); [lia|done|].
  injection Hsame as Ho1 Hrecv1 Hw1 Hwl1 Hd1. rewrite HgA, HtA in Hout. rewrite HgB, HtB in Hs1.
  pose proof (ro_sent _ _ _ _ _ _ Hn) as Hsz. pose proof (size_take_drop m ps) as Hsplit.
  assert (Hpieces : Forall piece_ok (drop m ps)) by (apply Forall_drop, Hps).
  destruct (hub_forwards_chunks id wa wb (g + 1) token now (drop m ps) Hpieces (Z.of_nat m) (receiveOffset rb) h2 Hrun)
    as [_ Hfwd].
  set (cs := chunks (Z.of_nat m) (receiveOffset rb) (drop m ps)) in *.
  destruct (receive_chunks id (g + 1) token (drop m ps) Hpieces (Z.of_nat m) (receiveOffset rb)
    (handle (MResumed id g (g + 1) token (receiveOffset ra)) tB) sb1 rb1) as (sb' & rb' & Hex & Hwr).
  { constructor; try done; congruence. }
  { rewrite Hwl1. lia. }
  eexists _, _, _, ((fun c => OutData id (sequence c) (Some (g + 1), Some token) (Some (offset c)) (data c)) <$> cs), sb'.
  split; [exact Hsent|]. split; [exact Hout|]. split.
  - rewrite omap_app, data_in_chunks, Hg', Ht', HtA. cbn [omap list_omap data_in]. rewrite app_nil_r.
    rewrite Hfwd. f_equal. by rewrite <- list_fmap_compose.
  - split; [|rewrite Hwr, Hw1, Hw, (TunnelInv.so_taken _ _ _ _ Hps HmA), Hfrom, <- drop_join; apply take_drop].
    rewrite <- list_fmap_compose. exact (ex_session _ _ _ _ _ _ _ Hex).
Qed.
