(* ===== verification/RelayExamples.v ===== *)
(** * Runs of the stream relay

    The inputs on which the theorems of the relay are applied, and two runs in
    which a reconnection goes wrong. *)

From S2P Require Import Prelude JsString JsMap JsonText Base64.
From S2P Require Import Tunnel TunnelInv TunnelSteps TunnelProps TunnelResume TunnelExamples.
From S2P Require Import RelayHub RelayInv RelaySteps RelayProps RelayTunnel.

#[local] Open Scope Z_scope.

Definition wa : jsstring := js "worker-a".
Definition wb : jsstring := js "worker-b".
Definition first : identity := (Some 0, Some tok).

Definition fleet (direct : option DirectCaps) : list Worker :=
  [Wkr wa (Some (Exec true node_a true direct)); Wkr wb (Some (Exec true node_b true direct))].

(** Both workers connect, and [wa] opens a stream to the node of [wb]. *)
Definition connecting (direct : option DirectCaps) (id : jsstring) : list hub_event :=
  [Workers (fleet direct); Hello wa 1 false; Heartbeat wa 1; Hello wb 2 false; Heartbeat wb 2;
   Received wa 1 (InOpen id node_b 5000 first) 0].
Definition opened_stream (id : jsstring) : list hub_event :=
  connecting None id ++ [Received wb 2 (InOpened id first) 0].

(** ** Witnesses *)

Definition one_chunk : hub_event := Received wa 1 (InData sid 0 first (Some 0) (b64_encode [7])) 0.

Lemma hub_data_genuine_witness :
  exists w' n now, Received w' n (InData sid 0 first (Some 0) (b64_encode [7])) now ∈ opened_stream sid ++ [one_chunk]
    /\ w' <> wb.
Proof.
  destruct (hub_data_genuine (opened_stream sid ++ [one_chunk]) wb sid 0 first (Some 0) (b64_encode [7])) as [H|H].
  - vm_compute. repeat (first [apply list_elem_of_here | apply list_elem_of_further]).
  - exact H.
  - destruct H as (H & _). discriminate H.
Defined.

Definition opened_hub : hub := (hub_run (opened_stream sid) hub_empty).2.
Definition opened_recovery : RelayRecovery := RelayRec tok 0 0 0 false [] false.
Definition opened_session : RelaySession :=
  RSession (Some wa) wb (Some node_a) node_b 5000 0 0 true None (Some opened_recovery) RelayHub.Relay None 0 0.
Lemma opened_has : stream_of opened_hub sid = Some opened_session.
Proof. vm_compute. reflexivity. Qed.

Lemma hub_stranger_ignored_witness :
  handleRuntimeStreamEnvelope (js "worker-c") (InError sid first (js "x")) 0 opened_hub = (Ok tt, opened_hub).
Proof.
  destruct (hub_stranger_ignored opened_hub (js "worker-c") sid opened_session (InError sid first (js "x")) 0) as [H _].
  - exact opened_has.
  - vm_compute. discriminate.
  - vm_compute. discriminate.
  - left. reflexivity.
  - exact H.
Defined.

Lemma relay_data_spec_witness :
  handleRuntimeStreamEnvelope wa (InData sid 0 first (Some 5) (b64_encode [7])) 0 opened_hub
  = (Ok tt, terminateRuntimeStream sid (Some (colon (js "runtime_stream_offset_mismatch") [0; 5])) opened_hub).
Proof.
  destruct (relay_data_spec opened_hub sid wa opened_session opened_recovery 0 5 (b64_encode [7]) 0) as (_ & H & _).
  - exact opened_has.
  - reflexivity.
  - reflexivity.
  - vm_compute. reflexivity.
  - apply H; vm_compute; [discriminate|right; reflexivity].
Defined.

(** A direct route, negotiated and committed. *)
Definition negotiating : list hub_event :=
  connecting (Some (DirectCap true true 1)) sid ++
  [Received wb 2 (InReady sid sid) 0; Received wa 1 (InEstablished sid sid true) 0;
   Received wb 2 (InCommitted sid sid) 0].
Definition direct_session (tx rx : Z) : RelaySession :=
  RSession (Some wa) wb (Some node_a) node_b 5000 0 0 true None (Some opened_recovery) RelayHub.Direct
    (Some (Route sid Committed LifetimeTimer)) tx rx.

Lemma hub_direct_final_witness : RelayHub.transportMode (direct_session 8 9) = RelayHub.Direct.
Proof.
  apply (hub_direct_final negotiating (Received wa 1 (InTelemetry sid sid 8 9) 0) sid (direct_session 0 0)).
  - vm_compute. reflexivity.
  - reflexivity.
  - intros destination port. discriminate.
  - vm_compute. reflexivity.
Defined.

(** A stream id of 129 characters. *)
Definition long_id : jsstring := repeat 65 129.
Definition long_session : RelaySession := opened_session.

Lemma hub_long_stream_id_throws_witness :
  exists h', hub_step (Closed wb 2 0) (hub_run (opened_stream long_id) hub_empty).2 = (Err "ZodError", h').
Proof.
  apply (hub_long_stream_id_throws (opened_stream long_id) wb 2 0 long_id long_session opened_recovery).
  - exists (Conn 2 true true). vm_compute. split; reflexivity.
  - vm_compute. reflexivity.
  - vm_compute. reflexivity.
  - reflexivity.
  - reflexivity.
  - reflexivity.
  - vm_compute. reflexivity.
Defined.

(** ** Recovery of a stream *)

(** The relay after the source was lost and has come back. *)
Definition back : list hub_event :=
  opened_stream sid ++ [Closed wa 1 0; Hello wa 3 false; Heartbeat wa 3].
Definition far_side : tunnel :=
  tunnel_run [Authorize [5000]; Message (MOpen sid 5000 (Some 0, Some tok)); SocketConnected sid;
              Message (MData sid 0 (Some 0, Some tok) (Some 0) (b64_encode [1; 2; 3]))] (tunnel_of node_b).
Definition far_side_recovery : RecoveryState := Recovery tok 0 0 0 3 0 [] false.
Definition far_side_session : StreamSession :=
  Session (Sock [1; 2; 3] 3 false false) true 0 0 (Some far_side_recovery) None 5000 Tunnel.Relay 0 3 [].

Lemma far_side_has : session_of far_side sid = Some far_side_session.
Proof. vm_compute. reflexivity. Qed.

Lemma relay_recovers_stream_witness :
  exists forA forB again out sb',
    sent (relay_all wb 0 [wire_in (resume_report sid far_side_recovery)]
            (relay_all wa 0 [wire_in (resume_report sid near_recovery)] (hub_run back hub_empty).2))
      = sent (hub_run back hub_empty).2 ++ [(wa, forA); (wb, forB)]
    /\ outbox (handle (wire_out false 0 forA) (tunnel_run carrying (tunnel_of node_a)))
       = outbox (tunnel_run carrying (tunnel_of node_a)) ++ again
    /\ session_of (receive_all (wire_out true 0 <$> out) (handle (wire_out true 0 forB) far_side)) sid = Some sb'
    /\ written (socket sb') = [1; 2; 3; 4; 5].
Proof.
  destruct (relay_recovers_stream (tunnel_run carrying (tunnel_of node_a)) far_side (hub_run back hub_empty).2
    sid wa wb 0 tok near_session near_recovery far_side_session far_side_recovery 0)
    as (forA & forB & again & out & sb' & H1 & H2 & _ & H3 & H4).
  - constructor; [|exact near_has|reflexivity|discriminate|reflexivity|reflexivity|vm_compute; reflexivity|vm_compute; reflexivity].
    exists node_a, None, None, (tunnel_of node_a), carrying. split; [apply tunnel_of_ok|]. split; [apply carrying_ok|reflexivity].
  - constructor; [|exact far_side_has|reflexivity|discriminate|reflexivity|reflexivity|vm_compute; reflexivity|vm_compute; reflexivity].
    eexists node_b, None, None, (tunnel_of node_b), _. split; [apply tunnel_of_ok|]. split; [|reflexivity]. repeat constructor.
  - constructor; [|vm_compute; discriminate|exists 3; vm_compute; reflexivity|exists 2; vm_compute; reflexivity|vm_compute; reflexivity|lia].
    eexists _, _. split; [vm_compute; reflexivity|]. split; [reflexivity|]. repeat (split; [vm_compute; reflexivity|]). vm_compute. reflexivity.
  - right. eexists. split; [apply list_elem_of_here|reflexivity].
  - left. reflexivity.
  - reflexivity.
  - reflexivity.
  - reflexivity.
  - vm_compute. discriminate.
  - exists forA, forB, again, out, sb'. split; [exact H1|]. split; [exact H2|]. split; [exact H3|exact H4].
Defined.

(** ** Reconnections that go wrong *)

(** A worker whose new connection supersedes its old one loses its
    streams: the old connection's close is ignored because it is no longer the
    current one, so the stream is not suspended; when the worker then reports its
    recoverable stream, as it does after every reconnection, the relay takes the
    report for an error and ends the stream at both ends. *)
Theorem hub_superseding_connection_ends_streams :
  let h := (hub_run (opened_stream sid ++ [Hello wa 3 true; Closed wa 1 0; Heartbeat wa 3]) hub_empty).2 in
  let h' := (hub_step (Received wa 3 (InResume sid first (Rep 0 0 0 0)) 0) h).2 in
  stream_of h sid = Some opened_session
  /\ stream_of h' sid = None
  /\ sent h' = sent h ++
       [(wa, OutError sid first (js "runtime_stream_resume_identity_mismatch"));
        (wb, OutError sid first (js "runtime_stream_resume_identity_mismatch"))].
Proof. split; [vm_compute; reflexivity|]. split; vm_compute; reflexivity. Qed.

(** When the destination opens its end while the source is
    disconnected, the source is never told: the message is lost, the relay takes
    the stream for open, and a resumption does not send it again.  The source's
    tunnel is then in the state in which it drops what its socket delivers. *)
Theorem hub_opened_is_lost :
  let h := (hub_run (connecting None sid ++
              [Closed wa 1 0; Received wb 2 (InOpened sid first) 0; Hello wa 3 false; Heartbeat wa 3;
               Received wb 2 (InResume sid first (Rep 0 0 0 0)) 0;
               Received wa 3 (InResume sid first (Rep 0 0 0 0)) 0;
               Received wb 2 (InOpened sid (Some 1, Some tok)) 0]) hub_empty).2 in
  (exists s, stream_of h sid = Some s /\ RelayHub.opened s = true
     /\ RelayHub.recovery s = Some (RelayRec tok 1 0 0 false [] false))
  /\ Forall (fun x => match x.2 with OutOpened _ _ => False | _ => True end) (sent h)
  /\ (exists t, t = tunnel_run [Outgoing sid tok node_b 5000; Disconnected; Connected;
                               Message (wire_out false 0 (OutResumed sid 0 1 tok 0))] (tunnel_of node_a)
      /\ tunnel_step (SocketData sid [1; 2; 3] true) t = t).
Proof.
  split; [eexists; split; [vm_compute; reflexivity|split; reflexivity]|].
  split; [vm_compute; repeat constructor|]. eexists. split; [reflexivity|]. vm_compute. reflexivity.
Qed.

(** A stream id of 200 characters is a valid one, but no grant is made for it: the
    connection of the worker that asked for the stream is closed, and the stream
    stays in the table, negotiating a route that has neither offer nor timer. *)
Example hub_grant_is_refused :
  let id := repeat 65 200 in
  let h := (hub_run (connecting (Some (DirectCap true true 1)) id) hub_empty).2 in
  map_get (connections h) wa = Some (Conn 1 true false)
  /\ (exists s, stream_of h id = Some s /\ RelayHub.transportMode s = RelayHub.Negotiating
        /\ RelayHub.direct s = None)
  /\ sent h = [].
Proof.
  vm_compute. split; [reflexivity|]. split; [|reflexivity]. eexists. split; [reflexivity|]. split; reflexivity.
Qed.
