(* ===== verification/JsDate.v ===== *)
(** * Dates

    [new Date(ms).toISOString()] and [Date.parse] on the texts that
    [z.string().datetime()] lets through: a date of the proleptic Gregorian
    calendar, "T", hours and minutes with optional seconds and fraction, and "Z" or an
    offset.  A time value is an integral number of milliseconds since the epoch;
    [None] is NaN. *)

From S2P Require Import Prelude JsString JsonText JsonParse.

#[local] Open Scope Z_scope.

(** ** The calendar *)

Definition MS_PER_DAY : Z := 86400000.
Definition MAX_TIME : Z := 8640000000000000.

(** Days before 1 March of the year [y], the year beginning in March. *)
Definition days_before_year (y : Z) : Z := 365 * y + y / 4 - y / 100 + y / 400.

(** Days since 1970-01-01 of a date; [719468] days lie between 0000-03-01 and it. *)
Definition days_from_civil (y m d : Z) : Z :=
  let y' := if m <=? 2 then y - 1 else y in
  let mp := (m + 9) mod 12 in
  days_before_year y' + (153 * mp + 2) / 5 + (d - 1) - 719468.

(** The date of a day: the cycle of 400 years, the year in it, the month. *)
Definition civil_from_days (days : Z) : Z * Z * Z :=
  let z := days + 719468 in
  let era := z / 146097 in
  let doe := z mod 146097 in
  let yoe := (doe - doe / 1460 + doe / 36524 - doe / 146096) / 365 in
  let doy := doe - (365 * yoe + yoe / 4 - yoe / 100) in
  let mp := (5 * doy + 2) / 153 in
  let d := doy - (153 * mp + 2) / 5 + 1 in
  let m := if mp <? 10 then mp + 3 else mp - 9 in
  let y := yoe + era * 400 + (if m <=? 2 then 1 else 0) in
  (y, m, d).

(** ** Writing *)

(** [n] as [w] decimal digits, with leading zeros. *)
Fixpoint padded (w : nat) (n : Z) : jsstring :=
  match w with O => [] | S w' => padded w' (n / 10) ++ [48 + n mod 10] end.

Definition year_text (y : Z) : jsstring :=
  if (0 <=? y) && (y <=? 9999) then padded 4 y
  else (if y <? 0 then 45 else 43) :: padded 6 (Z.abs y).

(** [Date.prototype.toISOString]. *)
Definition toISOString (t : Z) : res jsstring :=
  throw_if (MAX_TIME <? Z.abs t) with "RangeError" ;;
  let '(y, m, d) := civil_from_days (t / MS_PER_DAY) in
  let r := t mod MS_PER_DAY in
  Ok (year_text y ++ 45 :: padded 2 m ++ 45 :: padded 2 d ++ 84 :: padded 2 (r / 3600000)
      ++ 58 :: padded 2 (r / 60000 mod 60) ++ 58 :: padded 2 (r / 1000 mod 60)
      ++ 46 :: padded 3 (r mod 1000) ++ [90]).

(** ** Reading *)

(** [w] digits at the head of the text. *)
Fixpoint read_digits (w : nat) (acc : Z) (s : jsstring) : option (Z * jsstring) :=
  match w, s with
  | O, _ => Some (acc, s)
  | S w', c :: s' => if is_digitb c then read_digits w' (10 * acc + (c - 48)) s' else None
  | S _, [] => None
  end.

Definition read_char (c : Z) (s : jsstring) : option jsstring :=
  match s with c' :: s' => if c' =? c then Some s' else None | [] => None end.

(** The milliseconds of a fraction: three digits, further ones dropped. *)
Definition fraction_ms (ds : jsstring) : Z := digits_value (take 3 (ds ++ [48; 48; 48])).

(** [":SS"] and [".s..."], both optional. *)
Definition read_seconds (s : jsstring) : option (Z * Z * jsstring) :=
  match read_char 58 s with
  | None => Some (0, 0, s)
  | Some s =>
      '(sec, s) ← read_digits 2 0 s;
      match read_char 46 s with
      | None => Some (sec, 0, s)
      | Some s => match take_digits s with
                  | ([], _) => None
                  | (ds, s') => Some (sec, fraction_ms ds, s')
                  end
      end
  end.

(** "Z" or the minutes of an offset. *)
Definition read_offset (s : jsstring) : option Z :=
  match s with
  | [90] => Some 0
  | c :: s =>
      if (c =? 43) || (c =? 45) then
        '(h, s) ← read_digits 2 0 s; s ← read_char 58 s; '(m, s) ← read_digits 2 0 s;
        match s with
        | [] => if (h <=? 23) && (m <=? 59) then Some ((if c =? 45 then -1 else 1) * (60 * h + m)) else None
        | _ => None
        end
      else None
  | [] => None
  end.

Definition Date_parse (s : jsstring) : option Z :=
  '(y, s) ← read_digits 4 0 s; s ← read_char 45 s;
  '(mo, s) ← read_digits 2 0 s; s ← read_char 45 s;
  '(d, s) ← read_digits 2 0 s; s ← read_char 84 s;
  '(h, s) ← read_digits 2 0 s; s ← read_char 58 s; '(mi, s) ← read_digits 2 0 s;
  '(sec, ms, s) ← read_seconds s; off ← read_offset s;
  if (1 <=? mo) && (mo <=? 12) && (1 <=? d) && (d <=? 31) && (mi <=? 59) && (sec <=? 59)
     && ((h <=? 23) || ((h =? 24) && (mi =? 0) && (sec =? 0) && (ms =? 0)))
  then Some (days_from_civil y mo d * MS_PER_DAY + h * 3600000 + mi * 60000 + sec * 1000 + ms - off * 60000)
  else None.

(** ** The calendar counts every day once *)

(** The year of a cycle of 400 years that a day of the cycle lies in. *)
Lemma year_of_cycle doe :
  0 <= doe < 146097 ->
  let yoe := (doe - doe / 1460 + doe / 36524 - doe / 146096) / 365 in
  0 <= yoe < 400 /\ 0 <= doe - (365 * yoe + yoe / 4 - yoe / 100) <= 365.
Proof. intros H yoe. subst yoe. zdiv_lia. Qed.

(** The month and the day of a day of the year. *)
Lemma month_of_year doy :
  0 <= doy <= 365 ->
  let mp := (5 * doy + 2) / 153 in
  0 <= mp <= 11 /\ 1 <= doy - (153 * mp + 2) / 5 + 1 <= 31.
Proof. intros H mp. subst mp. zdiv_lia. Qed.

Lemma days_before_year_cycle yoe era :
  0 <= yoe < 400 -> days_before_year (yoe + era * 400) = 365 * yoe + yoe / 4 - yoe / 100 + 146097 * era.
Proof. intros H. unfold days_before_year. zdiv_lia. Qed.

(** The date of a day gives back the day. *)
Lemma civil_from_days_spec days y m d :
  civil_from_days days = (y, m, d) ->
  days_from_civil y m d = days /\ 1 <= m <= 12 /\ 1 <= d <= 31.
Proof.
  unfold civil_from_days. set (z := days + 719468).
  pose proof (Z.mod_pos_bound z 146097 ltac:(lia)) as Hdoe.
  pose proof (Z.div_mod z 146097 ltac:(lia)) as Hz.
  set (doe := z mod 146097) in *. set (era := z / 146097) in *.
  pose proof (year_of_cycle doe Hdoe) as Hy. cbv zeta in Hy.
  set (yoe := (doe - doe / 1460 + doe / 36524 - doe / 146096) / 365) in *.
  set (doy := doe - (365 * yoe + yoe / 4 - yoe / 100)) in *.
  pose proof (month_of_year doy (proj2 Hy)) as Hm. cbv zeta in Hm.
  set (mp := (5 * doy + 2) / 153) in *.
  intros [= Ey Em Ed]. unfold days_from_civil.
  assert (Hmm : 1 <= m <= 12 /\ (m + 9) mod 12 = mp
                /\ (if m <=? 2 then y - 1 else y) = yoe + era * 400).
  { destruct (Z.ltb_spec mp 10); subst m; (split; [lia|split]).
    - replace (mp + 3 + 9) with (mp + 1 * 12) by lia. rewrite Z.mod_add by lia. apply Z.mod_small; lia.
    - rewrite (proj2 (Z.leb_gt _ _)) in Ey |- * by lia. lia.
    - replace (mp - 9 + 9) with mp by lia. apply Z.mod_small; lia.
    - rewrite (proj2 (Z.leb_le _ _)) in Ey |- * by lia. lia. }
  destruct Hmm as (Hm1 & Hm2 & Hm3). split; [|lia].
  cbv zeta. rewrite Hm2, Hm3, days_before_year_cycle by lia. lia.
Qed.

(** The first and the last millisecond of the years 0 to 9999. *)
Definition FIRST_TIME : Z := -62167219200000.
Definition LAST_TIME : Z := 253402300799999.

Lemma civil_year_bounds days y m d :
  civil_from_days days = (y, m, d) -> FIRST_TIME / MS_PER_DAY <= days <= LAST_TIME / MS_PER_DAY ->
  0 <= y <= 9999.
Proof.
  intros H Hd. apply civil_from_days_spec in H as (H & Hm & Hday).
  change (FIRST_TIME / MS_PER_DAY) with (-719528) in Hd. change (LAST_TIME / MS_PER_DAY) with 2932896 in Hd.
  unfold days_from_civil, days_before_year in H. cbv zeta in H.
  destruct (Z.leb_spec m 2); zdiv_lia.
Qed.

(** ** Reading what was written *)

Lemma read_digits_add w1 w2 acc s :
  read_digits (w1 + w2) acc s = '(x, r) ← read_digits w1 acc s; read_digits w2 x r.
Proof.
  revert acc s; induction w1 as [|w1 IH]; intros acc s; [by destruct s|].
  destruct s as [|c s]; [done|]. simpl. destruct (is_digitb c); [apply IH|done].
Qed.

Lemma read_digits_padded w acc n r :
  0 <= n < 10 ^ Z.of_nat w -> read_digits w acc (padded w n ++ r) = Some (10 ^ Z.of_nat w * acc + n, r).
Proof.
  revert acc n r; induction w as [|w IH]; intros acc n r Hn.
  { simpl in *. repeat f_equal. lia. }
  rewrite <- Nat.add_1_r, read_digits_add. rewrite Nat.add_1_r. cbn [padded]. rewrite <- app_assoc.
  assert (Hp : 10 ^ Z.of_nat (S w) = 10 * 10 ^ Z.of_nat w) by (rewrite Nat2Z.inj_succ, Z.pow_succ_r; lia).
  rewrite IH by zdiv_lia. simpl.
  pose proof (Z.mod_pos_bound n 10 ltac:(lia)).
  rewrite (proj2 (is_digitb_spec _)) by (unfold is_digit; lia).
  rewrite Hp. f_equal. f_equal. pose proof (Z.div_mod n 10 ltac:(lia)). lia.
Qed.

Lemma read_digits_field w n r :
  0 <= n < 10 ^ Z.of_nat w -> read_digits w 0 (padded w n ++ r) = Some (n, r).
Proof. intros H. rewrite read_digits_padded by done. repeat f_equal. lia. Qed.

Lemma read_char_cons c r : read_char c (c :: r) = Some r.
Proof. simpl. by rewrite Z.eqb_refl. Qed.

Lemma padded_digits w n : Forall is_digit (padded w n).
Proof.
  revert n; induction w as [|w IH]; intros n; simpl; [constructor|].
  apply Forall_app. split; [apply IH|]. pose proof (Z.mod_pos_bound n 10 ltac:(lia)).
  constructor; [unfold is_digit; lia|constructor].
Qed.

Lemma length_padded w n : length (padded w n) = w.
Proof. revert n; induction w as [|w IH]; intros n; simpl; [done|]. rewrite length_app, IH. simpl. lia. Qed.

Lemma digits_value_padded w n : 0 <= n < 10 ^ Z.of_nat w -> digits_value (padded w n) = n.
Proof.
  revert n; induction w as [|w IH]; intros n Hn; [simpl in *; unfold digits_value; simpl; lia|].
  assert (Hp : 10 ^ Z.of_nat (S w) = 10 * 10 ^ Z.of_nat w) by (rewrite Nat2Z.inj_succ, Z.pow_succ_r; lia).
  cbn [padded]. unfold digits_value in *. rewrite foldl_app, IH by zdiv_lia. simpl.
  pose proof (Z.div_mod n 10). lia.
Qed.

Lemma read_seconds_written sec ms :
  0 <= sec < 100 -> 0 <= ms < 1000 ->
  read_seconds (58 :: padded 2 sec ++ 46 :: padded 3 ms ++ [90]) = Some (sec, ms, [90]).
Proof.
  intros Hs Hm. unfold read_seconds. rewrite read_char_cons, read_digits_field by done. cbn [mbind option_bind].
  rewrite read_char_cons, take_digits_app by (apply padded_digits || (simpl; unfold is_digit; lia)).
  destruct (padded 3 ms) as [|c l] eqn:E; [by apply (f_equal length) in E; rewrite length_padded in E|].
  rewrite <- E. unfold fraction_ms. rewrite take_app_le by (rewrite length_padded; lia).
  rewrite take_ge by (rewrite length_padded; lia). by rewrite digits_value_padded.
Qed.

(** [Date.parse] of an ISO text is the time it was made of. *)
Lemma Date_parse_toISOString t s :
  FIRST_TIME <= t <= LAST_TIME -> toISOString t = Ok s -> Date_parse s = Some t.
Proof.
  intros Ht. unfold toISOString. destruct (MAX_TIME <? Z.abs t); [done|].
  destruct (civil_from_days (t / MS_PER_DAY)) as [[y m] d] eqn:E.
  assert (Hy : 0 <= y <= 9999).
  { eapply civil_year_bounds; [exact E|]. split; apply Z.div_le_mono; unfold MS_PER_DAY; lia. }
  apply civil_from_days_spec in E as (E & Hm & Hd).
  pose proof (Z.mod_pos_bound t MS_PER_DAY ltac:(unfold MS_PER_DAY; lia)) as Hr.
  pose proof (Z.div_mod t MS_PER_DAY ltac:(unfold MS_PER_DAY; lia)) as Ediv.
  set (r := t mod MS_PER_DAY) in *. unfold MS_PER_DAY in *.
  assert (Hh : 0 <= r / 3600000 <= 23) by zdiv_lia.
  assert (Hmi : 0 <= r / 60000 mod 60 <= 59) by zdiv_lia.
  assert (Hs : 0 <= r / 1000 mod 60 <= 59) by zdiv_lia.
  assert (Hms : 0 <= r mod 1000 <= 999) by zdiv_lia.
  assert (Hsum : r / 3600000 * 3600000 + r / 60000 mod 60 * 60000 + r / 1000 mod 60 * 1000 + r mod 1000 = r)
    by zdiv_lia.
  cbv zeta. unfold year_text. rewrite (proj2 (Z.leb_le 0 y)), (proj2 (Z.leb_le y 9999)) by lia.
  cbn [andb]. intros Es. assert (Hinj : forall a : jsstring, Ok a = Ok s -> s = a) by congruence.
  apply Hinj in Es as ->. clear Hinj.
  remember (r / 3600000) as h. remember (r / 60000 mod 60) as mi.
  remember (r / 1000 mod 60) as sec. remember (r mod 1000) as ms.
  unfold Date_parse. rewrite read_digits_field by lia. cbn [mbind option_bind].
  do 4 (rewrite read_char_cons; cbn [mbind option_bind]; rewrite read_digits_field by lia; cbn [mbind option_bind]).
  rewrite read_seconds_written by lia. cbn [mbind option_bind read_offset].
  rewrite !(proj2 (Z.leb_le _ _)) by lia. cbn [andb orb]. f_equal. unfold MS_PER_DAY. lia.
Qed.
