(* ===== verification/Zod.v ===== *)
(** * Schemas as data

    The Zod schemas of the program that are used in both directions: what a parsed
    document is, and that a document that was parsed, written as text and read back
    parses to itself.  A schema is data in the form the source writes it; [parse] is
    what Zod documents of it: objects are strict (an unknown key is an issue), their
    output has the keys of the shape in its order, an optional key may be absent, and
    a refinement runs on the parsed value.  [None] is a [ZodError]. *)

From S2P Require Import Prelude JsString JsMap JsSort JsonText JsonParse Schema.

#[local] Open Scope Z_scope.

Inductive zod :=
| ZStr (p : jsstring -> bool)                       (* z.string() with its checks *)
| ZLit (s : jsstring)                               (* z.literal(s) *)
| ZOne (n : Z)                                      (* z.literal(n) *)
| ZEnum (l : list jsstring)                         (* z.enum([...]) *)
| ZInt (lo hi : Z)                                  (* z.number().int().min(lo).max(hi) *)
| ZBool
| ZNullable (s : zod)
| ZArr (lo hi : Z) (s : zod)                        (* z.array(s).min(lo).max(hi) *)
| ZObj (shape : list (jsstring * (bool * zod)))     (* z.object({...}).strict(); [true] is optional *)
| ZRefine (s : zod) (check : json -> bool)          (* s.superRefine(...) *)
| ZUnion (key : jsstring) (options : list (jsstring * zod)).   (* z.discriminatedUnion *)

(** The value at a key. *)
Abbreviation field k l := (map_get l k) (only parsing).

(** The entries of an object. *)
Definition entries (j : json) : list (jsstring * json) :=
  match j with JObj l => l | _ => [] end.

Definition required (k : string) (s : zod) : jsstring * (bool * zod) := (js k, (false, s)).
Definition optional (k : string) (s : zod) : jsstring * (bool * zod) := (js k, (true, s)).

Section ParseLists.
Context {A : Type} (parse : A -> value -> option json).

(** The keys of the shape, in its order. *)
Fixpoint parse_shape (shape : list (jsstring * (bool * A))) (l : list (jsstring * value))
  : option (list (jsstring * json)) :=
  match shape with
  | [] => Some []
  | (k, (opt, s)) :: shape' =>
      match field k l with
      | None => if opt then parse_shape shape' l else None
      | Some v => j ← parse s v; rest ← parse_shape shape' l; Some ((k, j) :: rest)
      end
  end.

Fixpoint parse_option (d : jsstring) (options : list (jsstring * A)) (v : value) : option json :=
  match options with
  | [] => None
  | (d', s) :: options' => if decide (d = d') then parse s v else parse_option d options' v
  end.
End ParseLists.

Fixpoint parse_all (parse : value -> option json) (l : list value) : option (list json) :=
  match l with
  | [] => Some []
  | v :: l' => j ← parse v; rest ← parse_all parse l'; Some (j :: rest)
  end.

Definition known {A B} (shape : list (jsstring * A)) (l : list (jsstring * B)) : bool :=
  forallb (fun e => bool_decide (e.1 ∈ shape.*1)) l.

Fixpoint parse (s : zod) (v : value) : option json :=
  match s, v with
  | ZStr p, VStr x => if p x then Some (JStr x) else None
  | ZLit x, VStr y => if decide (x = y) then Some (JStr x) else None
  | ZOne n, VNum (NInt m) => if m =? n then Some (JNum n) else None
  | ZEnum l, VStr x => if decide (x ∈ l) then Some (JStr x) else None
  | ZInt lo hi, VNum (NInt n) =>
      if is_safe n && (lo <=? n) && (n <=? hi) then Some (JNum n) else None
  | ZBool, VBool b => Some (JBool b)
  | ZNullable _, VNull => Some JNull
  | ZNullable s, _ => parse s v
  | ZArr lo hi s, VArr l =>
      if in_range lo hi (Z.of_nat (length l)) then JArr <$> parse_all (parse s) l else None
  | ZObj shape, VObj l =>
      if known shape l then JObj <$> parse_shape parse shape l else None
  | ZRefine s check, _ => j ← parse s v; if check j then Some j else None
  | ZUnion key options, VObj l =>
      match field key l with
      | Some (VStr d) => parse_option parse d options v
      | _ => None
      end
  | _, _ => None
  end.

(** ** Well-formed schemas

    Literal numbers are safe, the keys of a shape are distinct, and an option of a union requires its
    discriminator. *)

Definition has_discriminator (key d : jsstring) (s : zod) : bool :=
  match s with
  | ZObj shape => match field key shape with Some (false, ZLit d') => bool_decide (d = d') | _ => false end
  | _ => false
  end.

Fixpoint zod_ok (s : zod) : bool :=
  match s with
  | ZOne n => is_safe n
  | ZNullable s | ZArr _ _ s | ZRefine s _ => zod_ok s
  | ZObj shape => bool_decide (NoDup shape.*1) && forallb (fun e => zod_ok e.2.2) shape
  | ZUnion key options =>
      forallb (fun e => has_discriminator key e.1 e.2 && zod_ok e.2) options
  | _ => true
  end.

(** The strings a schema lets through are text of Unicode scalar values. *)
Fixpoint zod_texts (s : zod) : Prop :=
  match s with
  | ZStr p => forall x, p x = true -> scalars x
  | ZLit x => scalars x
  | ZEnum l => Forall scalars l
  | ZNullable s | ZArr _ _ s | ZRefine s _ => zod_texts s
  | ZObj shape => foldr (fun e P => (scalars e.1 /\ zod_texts e.2.2) /\ P) True shape
  | ZUnion _ options => foldr (fun e P => zod_texts e.2 /\ P) True options
  | ZOne _ | ZInt _ _ | ZBool => True
  end.

(** The strings of a value are. *)
Fixpoint value_texts (v : value) : Prop :=
  match v with
  | VStr s => scalars s
  | VArr l => foldr (fun v P => value_texts v /\ P) True l
  | VObj l => foldr (fun e P => (scalars e.1 /\ value_texts e.2) /\ P) True l
  | VNull | VBool _ | VNum _ => True
  end.

Section ZodInd.
Context (P : zod -> Prop)
  (Hstr : forall p, P (ZStr p)) (Hlit : forall x, P (ZLit x)) (Hone : forall n, P (ZOne n))
  (Henum : forall l, P (ZEnum l)) (Hint : forall lo hi, P (ZInt lo hi)) (Hbool : P ZBool)
  (Hnull : forall s, P s -> P (ZNullable s)) (Harr : forall lo hi s, P s -> P (ZArr lo hi s))
  (Hobj : forall shape, Forall (fun e => P e.2.2) shape -> P (ZObj shape))
  (Href : forall s c, P s -> P (ZRefine s c))
  (Hunion : forall key options, Forall (fun e => P e.2) options -> P (ZUnion key options)).

Fixpoint zod_ind' (s : zod) : P s :=
  match s with
  | ZStr p => Hstr p
  | ZLit x => Hlit x
  | ZOne n => Hone n
  | ZEnum l => Henum l
  | ZInt lo hi => Hint lo hi
  | ZBool => Hbool
  | ZNullable s => Hnull s (zod_ind' s)
  | ZArr lo hi s => Harr lo hi s (zod_ind' s)
  | ZObj shape => Hobj shape ((fix go l : Forall (fun e => P e.2.2) l :=
      match l with
      | [] => List.Forall_nil _
      | x :: l' => List.Forall_cons _ _ _ (zod_ind' x.2.2) (go l')
      end) shape)
  | ZRefine s c => Href s c (zod_ind' s)
  | ZUnion key options => Hunion key options ((fix go l : Forall (fun e => P e.2) l :=
      match l with
      | [] => List.Forall_nil _
      | x :: l' => List.Forall_cons _ _ _ (zod_ind' x.2) (go l')
      end) options)
  end.
End ZodInd.

(** ** Fields *)

Lemma field_fmap {A B} (f : A -> B) k (l : list (jsstring * A)) :
  field k (map (fun e => (e.1, f e.2)) l) = f <$> field k l.
Proof. induction l as [|[k' a] l IH]; simpl; [done|]. by case_decide. Qed.

Lemma field_perm {A} k (l l' : list (jsstring * A)) : NoDup l.*1 -> l ≡ₚ l' -> field k l = field k l'.
Proof.
  intros Hn Hp. assert (Hn' : NoDup l'.*1) by (by rewrite <- Hp).
  destruct (field k l') as [a|] eqn:E.
  - apply map_get_In; [done|]. rewrite Hp. by apply map_get_Some_In.
  - apply map_get_None. apply map_get_None in E. unfold map_keys in *. by rewrite Hp.
Qed.

(** ** Documents read back *)

(** [v] is the document [j], with the entries of its objects in any order. *)
Inductive same : json -> value -> Prop :=
| same_null : same JNull VNull
| same_bool b : same (JBool b) (VBool b)
| same_num z : same (JNum z) (VNum (NInt z))
| same_str x : same (JStr x) (VStr x)
| same_arr l l' : Forall2 same l l' -> same (JArr l) (VArr l')
| same_obj l l1 l' :
    Forall2 (fun e e' => e.1 = e'.1 /\ same e.2 e'.2) l l1 -> l1 ≡ₚ l' -> NoDup l.*1 ->
    same (JObj l) (VObj l').

Lemma same_entries_keys (R : json -> value -> Prop) (l : list (jsstring * json)) l1 :
  Forall2 (fun e e' => e.1 = e'.1 /\ R e.2 e'.2) l l1 -> l.*1 = l1.*1.
Proof. induction 1 as [|e e' l l1 [He _] _ IH]; csimpl; [done|]. by rewrite He, IH. Qed.

Lemma same_entries_field (R : json -> value -> Prop) (l : list (jsstring * json)) l1 k :
  Forall2 (fun e e' => e.1 = e'.1 /\ R e.2 e'.2) l l1 ->
  match field k l with
  | Some j => exists v, field k l1 = Some v /\ R j v
  | None => field k l1 = None
  end.
Proof.
  induction 1 as [|[k1 j] [k2 v] l l1 [He Hr] _ IH]; simpl in *; [done|]. subst k2.
  case_decide; [by exists v|done].
Qed.

(** A field of an object is the same in the document read back. *)
Lemma same_field l l' k :
  same (JObj l) (VObj l') ->
  match field k l with
  | Some j => exists v, field k l' = Some v /\ same j v
  | None => field k l' = None
  end.
Proof.
  inversion 1 as [| | | | |? l1 ? Hf Hp Hn]; subst.
  rewrite <- (field_perm k l1) by (rewrite ?(same_entries_keys _ _ _ Hf) in Hn; done).
  by apply same_entries_field.
Qed.

Lemma same_keys l l' k : same (JObj l) (VObj l') -> k ∈ l'.*1 -> k ∈ l.*1.
Proof.
  inversion 1 as [| | | | |? l1 ? Hf Hp Hn]; subst.
  rewrite (same_entries_keys _ _ _ Hf). by rewrite Hp.
Qed.

(** *** The output of a shape *)

Section Shape.
Context (parse : zod -> value -> option json).

Lemma parse_shape_keys shape l out k : parse_shape parse shape l = Some out -> k ∈ out.*1 -> k ∈ shape.*1.
Proof.
  revert out; induction shape as [|[k' [opt s]] shape IH]; intros out H Hk; simpl in H.
  { simplify_eq. by apply elem_of_nil in Hk. }
  csimpl. apply elem_of_cons.
  destruct (field k' l) as [v|]; [|destruct opt; [right; eauto|done]].
  destruct (parse s v); simplify_eq/=. destruct (parse_shape parse shape l) eqn:E; simplify_eq/=.
  apply elem_of_cons in Hk as [->|Hk]; [by left|right; eauto].
Qed.

Lemma parse_shape_NoDup shape l out :
  NoDup shape.*1 -> parse_shape parse shape l = Some out -> NoDup out.*1.
Proof.
  revert out; induction shape as [|[k [opt s]] shape IH]; csimpl; intros out Hn H.
  { simplify_eq. constructor. }
  apply NoDup_cons in Hn as [Hk Hn].
  destruct (field k l) as [v|]; [|destruct opt; [eauto|done]].
  destruct (parse s v); simplify_eq/=. destruct (parse_shape parse shape l) eqn:E; simplify_eq/=.
  constructor; [|eauto]. intros H. eapply Hk, parse_shape_keys; eauto.
Qed.

(** Each key of the shape: its value was parsed, or it is optional and absent. *)
Lemma parse_shape_field shape l out k opt s :
  NoDup shape.*1 -> parse_shape parse shape l = Some out -> field k shape = Some (opt, s) ->
  match field k out with
  | Some j => exists v, field k l = Some v /\ parse s v = Some j
  | None => opt = true /\ field k l = None
  end.
Proof.
  revert out; induction shape as [|[k' [opt' s']] shape IH]; csimpl; intros out Hn H Hf; [done|].
  apply NoDup_cons in Hn as [Hk Hn]. case_decide as Hd.
  - injection Hf as -> ->. subst k'. destruct (field k l) as [v|] eqn:Ev.
    + destruct (parse s v) eqn:Ep; simplify_eq/=. destruct (parse_shape parse shape l); simplify_eq/=.
      rewrite decide_True by done. eauto.
    + destruct opt; [|done]. destruct (field k out) eqn:E; [|done]. destruct Hk.
      eapply parse_shape_keys; [exact H|]. apply map_get_Some_In in E. by apply (list_elem_of_fmap_2 fst) in E.
  - destruct (field k' l) as [v|] eqn:Ev.
    + destruct (parse s' v) eqn:Ep; simplify_eq/=.
      destruct (parse_shape parse shape l) eqn:E; simplify_eq/=. rewrite decide_False by done.
      by apply IH.
    + destruct opt'; [by apply IH|done].
Qed.
End Shape.

(** Reading the shape again, from an object with the same fields. *)
Lemma parse_shape_again (sub : zod -> value -> option json) shape l l' out :
  Forall (fun e => forall v j v', sub e.2.2 v = Some j -> same j v' -> sub e.2.2 v' = Some j) shape ->
  NoDup shape.*1 -> parse_shape sub shape l = Some out ->
  (forall k, k ∈ shape.*1 -> match field k out with
             | Some j => exists v, field k l' = Some v /\ same j v
             | None => field k l' = None end) ->
  parse_shape sub shape l' = Some out.
Proof.
  intros Hs. revert out; induction Hs as [|[k [opt s]] shape Hs _ IH]; csimpl; intros out Hn H Hl; [done|].
  apply NoDup_cons in Hn as [Hk Hn]. simpl in Hs.
  destruct (field k l) as [v|] eqn:Ev.
  - destruct (sub s v) as [j|] eqn:Ep; simplify_eq/=.
    destruct (parse_shape sub shape l) as [rest|] eqn:E; simplify_eq/=.
    pose proof (Hl k ltac:(left)) as Hh. rewrite decide_True in Hh by done.
    destruct Hh as (v' & Ev' & Hsame). rewrite Ev', (Hs v j v') by done. cbn [mbind option_bind].
    rewrite (IH rest) by (done || (intros k' Hk'; pose proof (Hl k' ltac:(by right)) as Hh;
      rewrite decide_False in Hh by (intros ->; done); done)). done.
  - destruct opt; [|done].
    assert (Hout : field k out = None).
    { apply map_get_None. intros Hi. eapply Hk, parse_shape_keys; eauto. }
    pose proof (Hl k ltac:(left)) as Hl'. rewrite Hout in Hl'. rewrite Hl'.
    apply IH; [done|done|]. intros k' Hk'. apply Hl. by right.
Qed.

Lemma parse_all_again (sub : value -> option json) l l' out :
  (forall v j v', sub v = Some j -> same j v' -> sub v' = Some j) ->
  parse_all sub l = Some out -> Forall2 same out l' -> parse_all sub l' = Some out.
Proof.
  intros Hs. revert l' out; induction l as [|v l IH]; intros l' out H Hf; simpl in H.
  { simplify_eq. by inversion Hf. }
  destruct (sub v) as [j|] eqn:Ej; simplify_eq/=. destruct (parse_all sub l) as [rest|] eqn:E; simplify_eq/=.
  inversion Hf as [|? v' ? l'' Hj Hrest]; subst. simpl.
  by rewrite (Hs v j v'), (IH l'' rest).
Qed.

Lemma parse_all_length sub l out : parse_all sub l = Some out -> length out = length l.
Proof.
  revert out; induction l as [|v l IH]; intros out H; simpl in H; [by simplify_eq|].
  destruct (sub v); simplify_eq/=. destruct (parse_all sub l); simplify_eq/=. by rewrite (IH _ eq_refl).
Qed.

Lemma parse_option_elem (sub : zod -> value -> option json) d options v j :
  parse_option sub d options v = Some j ->
  exists s, (d, s) ∈ options /\ sub s v = Some j
    /\ forall v', parse_option sub d options v' = sub s v'.
Proof.
  induction options as [|[d' s] options IH]; simpl; [done|]. case_decide as Hd.
  - intros H. subst d'. exists s. split_and!; [left|done|done].
  - intros H. destruct (IH H) as (s' & Hs & ? & ?). exists s'. split_and!; [by right|done|done].
Qed.

Lemma known_same shape l out l' :
  parse_shape parse shape l = Some out -> same (JObj out) (VObj l') -> known shape l' = true.
Proof.
  intros E Hs. apply forallb_forall. intros e He. apply bool_decide_eq_true.
  eapply parse_shape_keys; [exact E|]. eapply same_keys; [exact Hs|].
  apply list_elem_of_In in He. by apply (list_elem_of_fmap_2 fst) in He.
Qed.

(** The output of an option of a union holds its discriminator. *)
Lemma discriminator_parsed key d s l j :
  has_discriminator key d s = true -> zod_ok s = true -> parse s (VObj l) = Some j ->
  exists out, j = JObj out /\ field key out = Some (JStr d).
Proof.
  unfold has_discriminator. destruct s as [| | | | | | | |shape| |]; try done.
  destruct (field key shape) as [[[] [|d'| | | | | | | | |]]|] eqn:Ek; try done.
  intros Hd Hok H. apply bool_decide_eq_true in Hd. subst d'.
  cbn [zod_ok] in Hok. apply andb_true_iff in Hok as [Hn _]. apply bool_decide_eq_true in Hn.
  simpl in H. destruct (known shape l); [|done].
  destruct (parse_shape parse shape l) as [out|] eqn:E; simplify_eq/=.
  exists out. split; [done|].
  pose proof (parse_shape_field parse shape l out key false (ZLit d) Hn E Ek) as Hk.
  destruct (field key out) as [jd|]; [|by destruct Hk].
  destruct Hk as (vd & Hvd & Hpd). destruct vd; try done. simpl in Hpd. by case_decide; simplify_eq.
Qed.

(** A document that a schema produced, read back with its entries in any order,
    parses to itself. *)
Lemma parse_again s v j v' : zod_ok s = true -> parse s v = Some j -> same j v' -> parse s v' = Some j.
Proof.
  revert v j v'.
  induction s as [p|x|n|l|lo hi| |s IH|lo hi s IH|shape IH|s c IH|key options IH] using zod_ind';
    intros v j v' Hok H Hs; cbn [zod_ok] in Hok.
  - destruct v; try done. simpl in H. destruct (p s) eqn:E; simplify_eq. inversion Hs; subst. simpl. by rewrite E.
  - destruct v; try done. simpl in H. case_decide; simplify_eq. inversion Hs; subst. simpl. by rewrite decide_True.
  - destruct v as [| |[m|]| | |]; try done. simpl in H. destruct (Z.eqb_spec m n); simplify_eq.
    inversion Hs; subst. simpl. by rewrite Z.eqb_refl.
  - destruct v; try done. simpl in H. case_decide; simplify_eq. inversion Hs; subst. simpl. by rewrite decide_True.
  - destruct v as [| |[m|]| | |]; try done. simpl in H.
    destruct (is_safe m && (lo <=? m) && (m <=? hi)) eqn:E; simplify_eq. inversion Hs; subst. simpl. by rewrite E.
  - destruct v; try done. simpl in H. simplify_eq. by inversion Hs; subst.
  - assert (Hj : (v = VNull /\ j = JNull) \/ parse s v = Some j) by (destruct v; simpl in H; simplify_eq; auto).
    destruct Hj as [[-> ->]|Hj]; [by inversion Hs; subst|].
    pose proof (IH v j v' Hok Hj Hs) as Hp. destruct v'; try exact Hp. by inversion Hs; subst.
  - destruct v as [| | | |l|]; try done. simpl in H. destruct (in_range lo hi (Z.of_nat (length l))) eqn:Er; [|done].
    destruct (parse_all (parse s) l) as [out|] eqn:E; simplify_eq/=.
    inversion Hs as [| | | |? l' Hf|]; subst. simpl.
    pose proof (parse_all_length _ _ _ E) as Hlen. pose proof (Forall2_length _ _ _ Hf) as Hlen'.
    rewrite <- Hlen', Hlen, Er, (parse_all_again _ l l' out); [done| |done|done].
    intros v0 j0 v0' ? ?. by eapply IH.
  - apply andb_true_iff in Hok as [Hn Hsub]. apply bool_decide_eq_true in Hn.
    destruct v as [| | | | |l]; try done. simpl in H. destruct (known shape l); [|done].
    destruct (parse_shape parse shape l) as [out|] eqn:E; simplify_eq/=.
    inversion Hs as [| | | | |? l1 l' Hf Hp Hd]; subst. cbn [parse].
    rewrite (known_same shape l out l'), (parse_shape_again parse shape l l' out); [done| |done|done| |done|done].
    + rewrite forallb_forall in Hsub. rewrite Forall_forall in IH |- *. intros e He v0 j0 v0' ? ?.
      eapply IH; [done| |done|done]. apply Hsub. by apply list_elem_of_In.
    + intros k _. by apply same_field.
  - simpl in H |- *. destruct (parse s v) as [j'|] eqn:E; simplify_eq/=.
    destruct (c j') eqn:Ec; simplify_eq. rewrite (IH v j v') by done. simpl. by rewrite Ec.
  - destruct v as [| | | | |l]; try done. cbn [parse] in H.
    destruct (field key l) as [[| | |d| |]|] eqn:Ed; try done.
    apply parse_option_elem in H as (s & Hel & Hps & Hopt).
    rewrite forallb_forall in Hok. rewrite Forall_forall in IH.
    assert (Hoks : has_discriminator key d s && zod_ok s = true).
    { apply (Hok (d, s)). by apply list_elem_of_In. }
    apply andb_true_iff in Hoks as [Hdis Hoks].
    pose proof (IH (d, s) Hel (VObj l) j v' Hoks Hps Hs) as Hp. simpl in Hp.
    destruct (discriminator_parsed key d s l j Hdis Hoks Hps) as (out & -> & Hout).
    inversion Hs as [| | | | |? l1 l' Hf Hpm Hd]; subst.
    pose proof (same_field out l' key Hs) as Hk'. rewrite Hout in Hk'.
    destruct Hk' as (v'' & Hv'' & Hsd). inversion Hsd; subst. cbn [parse]. rewrite Hv'', Hopt. exact Hp.
Qed.

(** ** What a parsed document holds *)

Lemma parse_obj_field shape v j k opt s :
  bool_decide (NoDup shape.*1) = true -> parse (ZObj shape) v = Some j -> map_get shape k = Some (opt, s) ->
  exists out, j = JObj out /\
    match map_get out k with Some x => exists v', parse s v' = Some x | None => opt = true end.
Proof.
  intros Hn H Hk. apply bool_decide_eq_true in Hn. destruct v as [| | | | |l]; try done. cbn [parse] in H.
  destruct (known shape l); [|done]. destruct (parse_shape parse shape l) as [out|] eqn:E; simplify_eq/=.
  exists out. split; [done|]. pose proof (parse_shape_field parse shape l out k opt s Hn E Hk) as Hf.
  destruct (map_get out k); [destruct Hf as (v' & _ & ?); by exists v'|by destruct Hf].
Qed.

Lemma parse_union key options v j :
  parse (ZUnion key options) v = Some j -> exists d s, (d, s) ∈ options /\ parse s v = Some j.
Proof.
  destruct v as [| | | | |l]; try done. cbn [parse].
  destruct (map_get l key) as [[| | |d| |]|]; try done.
  intros H. apply parse_option_elem in H as (s & ? & ? & _). eauto.
Qed.

Lemma parse_str p v x : parse (ZStr p) v = Some x -> exists s, x = JStr s /\ p s = true.
Proof. destruct v; try done. cbn [parse]. destruct (p s) eqn:E; [|done]. intros [= <-]. eauto. Qed.

Lemma parse_enum l v x : parse (ZEnum l) v = Some x -> exists s, x = JStr s /\ s ∈ l.
Proof. destruct v; try done. cbn [parse]. case_decide; [|done]. intros [= <-]. eauto. Qed.

Lemma parse_int lo hi v x : parse (ZInt lo hi) v = Some x -> exists n, x = JNum n /\ is_safe n = true /\ lo <= n <= hi.
Proof.
  destruct v as [| |[n|]| | |]; try done. cbn [parse].
  destruct (is_safe n && (lo <=? n) && (n <=? hi)) eqn:E; [|done]. intros [= <-]. bool_prop. exists n. auto.
Qed.

Lemma parse_all_plain (sub : value -> option json) l out :
  (forall v j, v ∈ l -> sub v = Some j -> plain j) -> parse_all sub l = Some out -> Forall plain out.
Proof.
  revert out; induction l as [|v l IH]; intros out Hs E; simpl in E; simplify_eq; [constructor|].
  destruct (sub v) as [j|] eqn:Ev; simplify_eq/=. destruct (parse_all sub l) eqn:El; simplify_eq/=.
  constructor; [eapply Hs; [left|done]|apply IH; [|done]]. intros v' j' ?. apply Hs. by right.
Qed.

Lemma parse_shape_plain (sub : zod -> value -> option json) shape l out :
  (forall k opt s v j, (k, (opt, s)) ∈ shape -> (k, v) ∈ l -> sub s v = Some j -> scalars k /\ plain j) ->
  parse_shape sub shape l = Some out -> Forall (fun e => scalars e.1 /\ plain e.2) out.
Proof.
  revert out; induction shape as [|[k [opt s]] shape IH]; intros out Hs E; simpl in E; simplify_eq; [constructor|].
  assert (Hrest : forall out, parse_shape sub shape l = Some out -> Forall (fun e => scalars e.1 /\ plain e.2) out)
    by (intros o Ho; apply IH; [intros ????? ?; eapply Hs; by right|done]).
  destruct (map_get l k) as [v|] eqn:Ev; [|destruct opt; [auto|done]].
  destruct (sub s v) as [j|] eqn:Ep; simplify_eq/=.
  destruct (parse_shape sub shape l) as [rest|]; simplify_eq/=. constructor; [|auto].
  eapply (Hs k opt s v j); [left|by apply map_get_Some_In|done].
Qed.

(** The documents of a schema are plain, if the schema or the input sees to the strings. *)
Lemma parse_plain s v j :
  zod_ok s = true -> zod_texts s \/ value_texts v -> parse s v = Some j -> plain j.
Proof.
  revert v j.
  induction s as [p|x|n|l|lo hi| |s IH|lo hi s IH|shape IH|s c IH|key options IH] using zod_ind';
    intros v j Hok Ht H; cbn [zod_ok] in Hok.
  - destruct v; try done. simpl in H, Ht. destruct (p s) eqn:E; simplify_eq. destruct Ht; simpl; auto.
  - destruct v; try done. simpl in H, Ht. case_decide; simplify_eq. by destruct Ht.
  - destruct v as [| |[m|]| | |]; try done. simpl in H. by destruct (m =? n); simplify_eq.
  - destruct v; try done. simpl in H, Ht. case_decide; simplify_eq. destruct Ht as [Ht|Ht]; [|done].
    rewrite Forall_forall in Ht. by apply Ht.
  - apply parse_int in H as (m & -> & ? & _). done.
  - destruct v; try done. simpl in H. by simplify_eq.
  - assert (Hj : j = JNull \/ parse s v = Some j) by (destruct v; simpl in H; simplify_eq; auto).
    destruct Hj as [->|Hj]; [done|]. eapply IH; [done| |exact Hj]. done.
  - destruct v as [| | | |l|]; try done. simpl in H. destruct (in_range lo hi _); [|done].
    destruct (parse_all (parse s) l) as [out|] eqn:E; simplify_eq/=. apply foldr_Forall.
    simpl in Ht. rewrite foldr_Forall in Ht.
    eapply parse_all_plain; [|exact E]. intros v j Hv Hp. eapply IH; [done| |exact Hp].
    destruct Ht as [Ht|Ht]; [by left|right]. rewrite Forall_forall in Ht. by apply Ht.
  - destruct v as [| | | | |l]; try done. simpl in H. destruct (known shape l); [|done].
    apply andb_true_iff in Hok as [Hn Hsub]. apply bool_decide_eq_true in Hn.
    destruct (parse_shape parse shape l) as [out|] eqn:E; simplify_eq/=.
    split; [by eapply parse_shape_NoDup|]. clear Hn.
    rewrite (foldr_Forall (fun e => scalars e.1 /\ plain e.2)).
    rewrite (foldr_Forall (fun e => scalars e.1 /\ zod_texts e.2.2)) in Ht.
    rewrite (foldr_Forall (fun e => scalars e.1 /\ value_texts e.2)) in Ht.
    rewrite forallb_forall in Hsub.
    eapply parse_shape_plain; [|exact E]. intros k opt s v j Hs Hv Hp.
    rewrite !Forall_forall in Ht. rewrite Forall_forall in IH.
    assert (Hkv : scalars k /\ (zod_texts s \/ value_texts v)).
    { destruct Ht as [Ht|Ht]; [destruct (Ht _ Hs)|destruct (Ht _ Hv)]; auto. }
    split; [tauto|]. eapply (IH _ Hs v j); [|tauto|done]. apply (Hsub (k, (opt, s))). by apply list_elem_of_In.
  - simpl in H. destruct (parse s v) as [j'|] eqn:E; simplify_eq/=. destruct (c j'); simplify_eq. eauto.
  - destruct v as [| | | | |l]; try done. cbn [parse] in H.
    destruct (map_get l key) as [[| | |d| |]|]; try done.
    apply parse_option_elem in H as (s & Hel & Hps & _). rewrite forallb_forall in Hok. rewrite Forall_forall in IH.
    eapply (IH (d, s) Hel (VObj l) j); [| |exact Hps].
    + assert (Ho := Hok (d, s) (proj1 (list_elem_of_In _ _) Hel)). by apply andb_true_iff in Ho as [_ ?].
    + destruct Ht as [Ht|Ht]; [left|by right]. cbn [zod_texts] in Ht. rewrite foldr_Forall, Forall_forall in Ht.
      by apply (Ht (d, s)).
Qed.
