(* ===== verification/NodeJson.v ===== *)
(** * The canonical JSON of the node commands

    [canonicalJson] and [digest], which [src/src/coordinator/node-command-store.ts],
    [src/src/coordinator/node-reconciliation-store.ts] and
    [src/src/node/command-executor.ts] each declare with the same body: the entries of
    an object are sorted with [localeCompare], whose order is the host's.  A document
    that a schema produced is read back from its text as it was. *)

From S2P Require Import Prelude JsString JsMap JsSort JsonText JsonParse Zod.

#[local] Open Scope Z_scope.

Section Text.
Context (localeCompare : jsstring -> jsstring -> Z).

Definition by_key {A} (x y : jsstring * A) : bool := localeCompare x.1 y.1 <=? 0.

Fixpoint canonicalJson (j : json) : jsstring :=
  match j with
  | JArr l => brackets (map canonicalJson l)
  | JObj l => braces (sort_by by_key (map (fun e => (e.1, canonicalJson e.2)) l))
  | _ => stringify j
  end.

Context (sha256_hex : bytes -> jsstring).

Definition digest (value : jsstring) : jsstring := js "sha256:" ++ sha256_hex (utf8_encode value).

(** ** Reading back *)

(** The document whose text it is. *)
Fixpoint canon (j : json) : json :=
  match j with
  | JArr l => JArr (map canon l)
  | JObj l => JObj (sort_by by_key (map (fun e => (e.1, canon e.2)) l))
  | _ => j
  end.

Lemma canonicalJson_stringify j : canonicalJson j = stringify (canon j).
Proof.
  induction j as [| | | |l IH|l IH] using json_ind'; try done.
  - simpl. rewrite map_map. f_equal. apply map_ext_Forall. exact IH.
  - simpl. f_equal. rewrite (map_ext_Forall _ (fun e => (e.1, stringify (canon e.2)))).
    2: { eapply Forall_impl; [exact IH|]. simpl. by intros e ->. }
    rewrite <- (map_map (fun e : jsstring * json => (e.1, canon e.2)) (fun e => (e.1, stringify e.2))).
    exact (sort_by_fmap (fun e : jsstring * json => (e.1, stringify e.2)) by_key by_key _ (fun _ _ => eq_refl)).
Qed.

Lemma canon_entries_keys l : (sort_by by_key (map (fun e => (e.1, canon e.2)) l)).*1 ≡ₚ l.*1.
Proof. rewrite sort_by_perm. rewrite <- list_fmap_compose. done. Qed.

Lemma plain_canon j : plain j -> plain (canon j).
Proof.
  induction j as [| | | |l IH|l IH] using json_ind'; try done.
  - simpl. rewrite !foldr_Forall. intros Hl. apply Forall_map. rewrite Forall_forall in *. auto.
  - cbn [canon plain]. rewrite !(foldr_Forall (fun e => scalars e.1 /\ plain e.2)). intros [Hn Hl].
    rewrite canon_entries_keys, sort_by_perm. split; [done|].
    apply Forall_map. rewrite Forall_forall in *. simpl. intros e He. destruct (Hl e He). auto.
Qed.

Lemma same_canon j : plain j -> same j (embed (canon j)).
Proof.
  induction j as [| | | |l IH|l IH] using json_ind'; try (constructor; fail).
  - simpl. rewrite foldr_Forall. intros Hl. constructor. rewrite map_map.
    induction l as [|j l IHl]; simpl; [constructor|]. apply Forall_cons in Hl as [Hj Hl], IH as [IHj IH].
    constructor; auto.
  - cbn [canon plain embed]. rewrite (foldr_Forall (fun e => scalars e.1 /\ plain e.2)). intros [Hn Hl].
    apply (same_obj _ (map (fun e => (e.1, embed (canon e.2))) l)).
    + clear Hn. induction l as [|[k j] l IHl]; simpl; [constructor|].
      apply Forall_cons in Hl as [[_ Hj] Hl], IH as [IHj IH]. constructor; [split; [done|auto]|auto].
    + rewrite <- (map_map (fun e : jsstring * json => (e.1, canon e.2)) (fun e => (e.1, embed e.2))).
      apply Permutation_map. symmetry. apply sort_by_perm.
    + done.
Qed.

Lemma same_embed j : plain j -> same j (embed j).
Proof.
  induction j as [| | | |l IH|l IH] using json_ind'; try (constructor; fail).
  - simpl. rewrite foldr_Forall. intros Hl. constructor.
    induction l as [|j l IHl]; simpl; [constructor|]. apply Forall_cons in Hl as [Hj Hl], IH as [IHj IH].
    constructor; auto.
  - cbn [plain embed]. rewrite (foldr_Forall (fun e => scalars e.1 /\ plain e.2)). intros [Hn Hl].
    eapply same_obj; [|reflexivity|done]. clear Hn.
    induction l as [|[k j] l IHl]; simpl; [constructor|].
    apply Forall_cons in Hl as [[_ Hj] Hl], IH as [IHj IH]. constructor; [split; [done|auto]|auto].
Qed.

Lemma JSON_parse_canonical j : plain j -> JSON_parse (canonicalJson j) = Some (embed (canon j)).
Proof. intros H. rewrite canonicalJson_stringify. by apply JSON_parse_stringify, plain_canon. Qed.

(** A document of a schema is read back as it was. *)
Lemma parse_canonical s v j :
  zod_ok s = true -> parse s v = Some j -> plain j ->
  JSON_parse (canonicalJson j) ≫= parse s = Some j.
Proof.
  intros Hs Hp Hj. rewrite JSON_parse_canonical by done. simpl.
  eapply parse_again; [done|exact Hp|by apply same_canon].
Qed.

(** So its text tells it from every other document of the schema. *)
Lemma canonicalJson_inj s v1 j1 v2 j2 :
  zod_ok s = true -> parse s v1 = Some j1 -> parse s v2 = Some j2 -> plain j1 -> plain j2 ->
  canonicalJson j1 = canonicalJson j2 -> j1 = j2.
Proof.
  intros Hs H1 H2 P1 P2 E. pose proof (parse_canonical s v1 j1 Hs H1 P1) as E1.
  rewrite E, (parse_canonical s v2 j2 Hs H2 P2) in E1. congruence.
Qed.

Lemma texts_canon j : texts j -> texts (canon j).
Proof.
  induction j as [| | | |l IH|l IH] using json_ind'; try done.
  - simpl. rewrite !foldr_Forall. intros Hl. apply Forall_map. rewrite Forall_forall in *. auto.
  - cbn [canon texts]. rewrite !(foldr_Forall (fun e => scalars e.1 /\ texts e.2)). intros Hl.
    rewrite sort_by_perm. apply Forall_map. rewrite Forall_forall in *. simpl.
    intros e He. destruct (Hl e He). auto.
Qed.

(** A field of a document can be read off its canonical form. *)
Lemma canon_field k l :
  NoDup l.*1 -> map_get (entries (canon (JObj l))) k = canon <$> map_get l k.
Proof.
  intros Hn. cbn [canon entries]. rewrite <- (field_fmap canon k l). apply field_perm; [|apply sort_by_perm].
  by rewrite canon_entries_keys.
Qed.

(** Two documents with the same text have the same canonical form. *)
Lemma canonicalJson_canon j1 j2 :
  texts j1 -> texts j2 -> canonicalJson j1 = canonicalJson j2 -> canon j1 = canon j2.
Proof.
  intros H1 H2 E. rewrite !canonicalJson_stringify in E. apply texts_canon in H1, H2.
  apply stringify_inj; [by apply texts_wf..|done].
Qed.
End Text.
