(* ===== verification/NodeControl.v ===== *)
(** * The node control contract

    [src/src/contracts/node-control.ts] and [src/src/contracts/node-work-policy.ts]:
    the schemas of commands, results, desired states and events, the authorisation of
    a command, and the work policy of a node.  The tests of Zod for UUIDs and
    date-times are parameters. *)

From S2P Require Import Prelude JsString JsMap JsonText JsonParse Schema Zod JsDate.

#[local] Open Scope Z_scope.

Definition NODE_CONTROL_MAX_CLOCK_SKEW_MS : Z := 30000.
Definition NODE_EVENT_ORIGIN_CURSOR : jsstring := js "evt_0_0000000000000000".

(** ** Reading a parsed document *)

Definition jfield (k : string) (j : json) : option json :=
  match j with JObj l => map_get l (js k) | _ => None end.
Definition jstr (k : string) (j : json) : jsstring :=
  match jfield k j with Some (JStr s) => s | _ => [] end.
Definition jnum (k : string) (j : json) : Z :=
  match jfield k j with Some (JNum n) => n | _ => 0 end.
Definition jobj (k : string) (j : json) : json :=
  match jfield k j with Some v => v | None => JNull end.
Definition jarr (k : string) (j : json) : list json :=
  match jfield k j with Some (JArr l) => l | _ => [] end.

(** [{ ...l, ...patch }] and [const { [k]: _, ...rest } = l]. *)
Definition spread (l patch : list (jsstring * json)) : list (jsstring * json) :=
  foldl (fun acc e => map_set acc e.1 e.2) l patch.
Definition without (k : string) (j : json) : json := JObj (map_delete (entries j) (js k)).

(** ** Strings *)

Definition is_identifier_char (c : Z) : bool :=
  is_alnum c || (c =? 46) || (c =? 95) || (c =? 58) || (c =? 45).

Definition is_identifier (s : jsstring) : bool :=
  match s with
  | c :: s' => is_alnum c && (Z.of_nat (length s') <=? 127) && forallb is_identifier_char s'
  | [] => false
  end.

Definition is_nonce_char (c : Z) : bool := is_alnum c || (c =? 95) || (c =? 45).
Definition is_nonce (s : jsstring) : bool :=
  in_range 22 128 (utf16_length s) && forallb is_nonce_char s.

Definition is_runtime_identifier_char (c : Z) : bool := is_identifier_char c || (c =? 47).
Definition is_runtime_identifier (s : jsstring) : bool :=
  match s with
  | c :: s' => is_alnum c && (Z.of_nat (length s') <=? 127) && forallb is_runtime_identifier_char s'
  | [] => false
  end.

(** [/^[a-f0-9]{40}$/] and [/^[a-zA-Z0-9_.:-]{1,120}$/]. *)
Definition is_revision (s : jsstring) : bool := (Z.of_nat (length s) =? 40) && forallb is_hex s.
Definition is_incident_code (s : jsstring) : bool :=
  in_range 1 120 (Z.of_nat (length s)) && forallb is_identifier_char s.

Definition min_max (lo hi : Z) (s : jsstring) : bool := in_range lo hi (utf16_length s).

(** [/^evt_([0-9]{1,20})_[a-f0-9]{16}$/]: the digits of the sequence. *)
Definition match_cursor (s : jsstring) : option jsstring :=
  if decide (take 4 s = js "evt_") then
    let '(ds, r) := take_digits (drop 4 s) in
    match r with
    | c :: h =>
        if (c =? 95) && in_range 1 20 (Z.of_nat (length ds)) && (Z.of_nat (length h) =? 16) && forallb is_hex h
        then Some ds else None
    | [] => None
    end
  else None.

Definition is_cursor (s : jsstring) : bool := match match_cursor s with Some _ => true | None => false end.

(** [===] on the elements of the arrays below, strings and numbers. *)
Definition same_primitive (x y : json) : bool :=
  match x, y with
  | JStr a, JStr b => bool_decide (a = b)
  | JNum a, JNum b => a =? b
  | _, _ => false
  end.

(** [new Set(l).size === l.length]. *)
Fixpoint all_distinct (l : list json) : bool :=
  match l with
  | [] => true
  | x :: l' => negb (existsb (same_primitive x) l') && all_distinct l'
  end.

(** ** Schemas *)

Definition generation : zod := ZInt 1 MAX_SAFE_INTEGER.
Definition sha256 : zod := ZStr is_sha256.
Definition identifier : zod := ZStr is_identifier.
Definition nonce : zod := ZStr is_nonce.
Definition cursor : zod := ZStr is_cursor.

Definition nodeControlActorSchema : zod :=
  ZRefine
    (ZObj [required "kind" (ZEnum [js "account"; js "operator"; js "node"]);
           required "id" identifier;
           required "scopes" (ZArr 1 5 (ZEnum
             [js "node:read"; js "node:control"; js "node:limits"; js "node:update"; js "node:identity"]))])
    (fun actor => all_distinct (jarr "scopes" actor)).

Definition scheduleWindowSchema : zod :=
  ZRefine
    (ZObj [required "days" (ZArr 1 7 (ZInt 0 6));
           required "startMinuteUtc" (ZInt 0 1439);
           required "endMinuteUtc" (ZInt 1 1440)])
    (fun window => all_distinct (jarr "days" window)
       && (jnum "startMinuteUtc" window <? jnum "endMinuteUtc" window)).

Definition nodeWorkPolicySchema : zod :=
  ZRefine
    (ZObj [required "schedule" (ZArr 0 32 scheduleWindowSchema);
           required "modelAllowlist" (ZArr 0 128 (ZStr (min_max 1 256)))])
    (fun policy => all_distinct (jarr "modelAllowlist" policy)).

Definition DEFAULT_NODE_WORK_POLICY : json :=
  JObj [(js "schedule", JArr [JObj [(js "days", JArr (map JNum [0; 1; 2; 3; 4; 5; 6]));
                                    (js "startMinuteUtc", JNum 0); (js "endMinuteUtc", JNum 1440)]]);
        (js "modelAllowlist", JArr [])].

Definition limits_shape : list (jsstring * (bool * zod)) :=
  [required "maxConcurrency" (ZInt 1 64);
   required "maxCpuPercent" (ZInt 1 100);
   required "maxRamMiB" (ZInt 256 MAX_SAFE_INTEGER);
   required "maxVramMiB" (ZInt 0 MAX_SAFE_INTEGER);
   required "maxDiskMiB" (ZInt 512 MAX_SAFE_INTEGER);
   required "maxTemperatureC" (ZInt 40 110)].

Definition version : jsstring * (bool * zod) := required "version" (ZOne 1).
Definition emptyPayload : zod := ZObj [version].
Definition limitsPayload : zod := ZObj (version :: limits_shape).
Definition updateChannel : zod := ZEnum [js "dev"; js "stable"].

Section Schemas.
(** [z.string().uuid()] and [z.string().datetime({ offset: true })]. *)
Context (is_uuid is_datetime : jsstring -> bool).

Definition uuid : zod := ZStr is_uuid.
Definition timestamp : zod := ZStr is_datetime.

Definition commandBase : list (jsstring * (bool * zod)) :=
  [required "schema" (ZLit (js "mycellios-node-command/1"));
   required "id" uuid;
   required "nodeId" identifier;
   required "actor" nodeControlActorSchema;
   required "generation" generation;
   required "issuedAt" timestamp;
   required "expiresAt" timestamp;
   required "nonce" nonce].

Definition command_option (type : string) (payload : zod) : jsstring * zod :=
  (js type, ZObj (commandBase ++ [required "type" (ZLit (js type)); required "payload" payload])).

Definition nodeCommandSchema : zod :=
  ZUnion (js "type")
    [command_option "pause" emptyPayload;
     command_option "resume" emptyPayload;
     command_option "drain" (ZObj [version; required "deadlineMs" (ZInt 1000 3600000)]);
     command_option "set-limits" limitsPayload;
     command_option "set-policy" (ZObj [version; required "policy" nodeWorkPolicySchema]);
     command_option "update" (ZObj [version; required "channel" updateChannel; optional "manifestId" sha256]);
     command_option "rollback" (ZObj [version; required "componentIds" (ZArr 1 16 identifier)]);
     command_option "revoke" (ZObj [version; required "reason" (ZStr (min_max 1 256))]);
     command_option "uninstall" (ZObj [version; required "retain"
       (ZObj [required "cache" ZBool; required "logs" ZBool; required "configuration" ZBool;
              required "identity" ZBool])])].

Definition nodeCommandResultSchema : zod :=
  ZObj [required "schema" (ZLit (js "mycellios-node-command-result/1"));
        required "id" uuid;
        required "commandId" uuid;
        required "nodeId" identifier;
        required "generation" generation;
        required "state" (ZEnum [js "accepted"; js "applied"; js "rejected"; js "expired"]);
        required "observedAt" timestamp;
        required "resultDigest" sha256;
        required "error" (ZNullable (ZObj [required "code" identifier; required "message" (ZStr (min_max 1 512))]))].

Definition nodeDesiredStateSchema : zod :=
  ZObj [required "schema" (ZLit (js "mycellios-node-desired-state/1"));
        required "nodeId" identifier;
        required "generation" generation;
        required "contributionEnabled" ZBool;
        required "drain" ZBool;
        required "updateChannel" updateChannel;
        required "limits" (ZObj limits_shape);
        optional "policy" nodeWorkPolicySchema;
        required "updatedAt" timestamp;
        required "updatedBy" nodeControlActorSchema].

Definition nodeEventSchema : zod :=
  ZObj [required "schema" (ZLit (js "mycellios-node-event/1"));
        required "cursor" cursor;
        required "nodeId" identifier;
        required "generation" generation;
        required "actor" nodeControlActorSchema;
        required "type" identifier;
        required "occurredAt" timestamp;
        required "payloadDigest" sha256;
        required "previousEventDigest" (ZNullable sha256)].

(** The numbers of the diagnostics are the integral ones, as everywhere in a [json]. *)
Definition diagnosticsSchema : zod :=
  ZObj [required "capturedAt" timestamp;
        required "configRevision" (ZInt 1 MAX_SAFE_INTEGER);
        required "capacity" (ZObj
          [required "acceleratorCount" (ZInt 0 MAX_SAFE_INTEGER);
           required "primaryAccelerator" (ZNullable (ZObj
             [required "name" (ZStr (min_max 1 200)); required "totalMemoryMiB" (ZInt 0 MAX_SAFE_INTEGER);
              required "offeredMemoryMiB" (ZInt 0 MAX_SAFE_INTEGER)]))]);
        required "resources" (ZNullable (ZObj
          [required "cpuPercent" (ZInt 0 100);
           required "ramMiB" (ZInt 0 MAX_SAFE_INTEGER);
           required "diskMiB" (ZInt 0 MAX_SAFE_INTEGER);
           required "temperatureC" (ZNullable (ZInt (- MAX_SAFE_INTEGER) MAX_SAFE_INTEGER));
           required "healthy" ZBool;
           required "violation" (ZNullable (ZStr is_incident_code))]));
        required "incident" (ZNullable (ZObj
          [required "code" (ZStr is_incident_code); required "occurredAt" timestamp]))].

Definition nodeSnapshotSchema : zod :=
  ZObj [required "schema" (ZLit (js "mycellios-node-snapshot/1"));
        required "nodeId" identifier;
        required "generation" generation;
        required "cursor" cursor;
        required "observedAt" timestamp;
        required "state" (ZEnum [js "loading"; js "pairing"; js "canary"; js "ready"; js "reconnecting";
          js "degraded"; js "failed"; js "revoked"]);
        required "contributionEnabled" ZBool;
        required "draining" ZBool;
        required "updateChannel" updateChannel;
        required "limits" (ZObj limits_shape);
        optional "policy" nodeWorkPolicySchema;
        required "activeCommandIds" (ZArr 0 256 uuid);
        required "build" (ZObj [required "version" (ZStr (min_max 1 128));
                                required "sourceRevision" (ZStr is_revision)]);
        required "runtime" (ZObj [required "ready" ZBool;
                                  required "abi" (ZNullable (ZStr is_runtime_identifier));
                                  required "backend" (ZNullable (ZStr is_runtime_identifier));
                                  optional "uninstallAvailable" ZBool]);
        optional "diagnostics" diagnosticsSchema].

(** ** Authorisation *)

Definition commandScopes : list (jsstring * jsstring) :=
  [(js "pause", js "node:control"); (js "resume", js "node:control"); (js "drain", js "node:control");
   (js "set-limits", js "node:limits"); (js "set-policy", js "node:limits");
   (js "update", js "node:update"); (js "rollback", js "node:update");
   (js "revoke", js "node:identity"); (js "uninstall", js "node:identity")].

(** [schema.parse(input)]. *)
Definition zparse (s : zod) (input : value) : res json :=
  match parse s input with Some j => Ok j | None => Err ZodError end.

(** [a > b] and [a <= b] on the results of [Date.parse], false for NaN. *)
Definition time_gt (a : option Z) (b : Z) : bool := match a with Some a => b <? a | None => false end.
Definition time_le (a : option Z) (b : Z) : bool := match a with Some a => a <=? b | None => false end.
Definition times_le (a b : option Z) : bool := match b with Some b => time_le a b | None => false end.

Definition scopes (actor : json) : list json := jarr "scopes" actor.

Definition in_scope (command : json) : bool :=
  match map_get commandScopes (jstr "type" command) with
  | Some scope => existsb (same_primitive (JStr scope)) (scopes (jobj "actor" command))
  | None => false
  end.

Record NodeCommandValidationContext := ValidationContext {
  ctx_now : Z;
  ctx_minimumGeneration : Z;
  ctx_consumedNonces : list jsstring;
  ctx_expectedNodeId : jsstring
}.

Definition parseAuthorizedNodeCommand (input : value) (context : NodeCommandValidationContext) : res json :=
  let? command := zparse nodeCommandSchema input in
  let now := ctx_now context in
  let issuedAt := Date_parse (jstr "issuedAt" command) in
  let expiresAt := Date_parse (jstr "expiresAt" command) in
  throw_if negb (bool_decide (jstr "nodeId" command = ctx_expectedNodeId context)) with "node_command_wrong_node" ;;
  throw_if jnum "generation" command <? ctx_minimumGeneration context with "node_command_generation_downgrade" ;;
  throw_if bool_decide (jstr "nonce" command ∈ ctx_consumedNonces context) with "node_command_replay" ;;
  throw_if time_gt issuedAt (now + NODE_CONTROL_MAX_CLOCK_SKEW_MS) with "node_command_issued_in_future" ;;
  throw_if time_le expiresAt now with "node_command_expired" ;;
  throw_if times_le expiresAt issuedAt with "node_command_invalid_ttl" ;;
  throw_if negb (in_scope command) with "node_command_scope_denied" ;;
  throw_if bool_decide (jstr "kind" (jobj "actor" command) = js "node")
           && negb (bool_decide (jstr "type" command = js "rollback")) with "node_command_actor_denied" ;;
  Ok command.
End Schemas.

(** ** Work policy *)

Definition getUTCDay (t : Z) : Z := (t / MS_PER_DAY + 4) mod 7.
Definition utc_minute (t : Z) : Z := t mod MS_PER_DAY / 3600000 * 60 + t mod MS_PER_DAY / 60000 mod 60.

Definition window_open (day minute : Z) (window : json) : bool :=
  existsb (same_primitive (JNum day)) (jarr "days" window)
  && (jnum "startMinuteUtc" window <=? minute) && (minute <? jnum "endMinuteUtc" window).

(** [at] is [None] for an invalid date, [model] is [None] for null. *)
Definition evaluateNodeWorkPolicy (input : value) (model : option jsstring) (at_ : option Z)
  : res (option jsstring) :=
  let? policy := zparse nodeWorkPolicySchema input in
  match at_ with
  | None => Err "node_work_policy_time_is_invalid"
  | Some t =>
      if negb (existsb (window_open (getUTCDay t) (utc_minute t)) (jarr "schedule" policy))
      then Ok (Some (js "node_schedule_closed"))
      else match model, jarr "modelAllowlist" policy with
           | Some m, _ :: _ =>
               if existsb (same_primitive (JStr m)) (jarr "modelAllowlist" policy) then Ok None
               else Ok (Some (js "node_model_not_allowed"))
           | _, _ => Ok None
           end
  end.
