(* ===== verification/NodeControlProps.v ===== *)
(** * The node control contract: what a parsed document holds *)

From S2P Require Import Prelude JsString JsMap JsonText JsonParse Schema Zod JsDate NodeControl.

#[local] Open Scope Z_scope.

Lemma zparse_ok s v j : zparse s v = Ok j <-> parse s v = Some j.
Proof. unfold zparse. destruct (parse s v); split; congruence. Qed.

(** A closed ASCII text. *)
Lemma text_scalars s : forallb is_scalar s = true -> scalars s.
Proof. intros H. apply Forall_forall. intros c Hc. rewrite forallb_forall in H. apply H. by apply list_elem_of_In. Qed.

Lemma is_alnum_scalar c : is_alnum c = true -> is_scalar c = true.
Proof. unfold is_alnum, in_range, is_scalar, is_surrogate. intros H. bool_prop. lia. Qed.

Lemma is_identifier_scalars s : is_identifier s = true -> scalars s.
Proof.
  unfold is_identifier. destruct s as [|c s]; [done|]. intros H. bool_prop.
  constructor; [by apply is_alnum_scalar|]. apply Forall_forall. intros x Hx.
  rewrite forallb_forall in H0. specialize (H0 x (proj1 (list_elem_of_In _ _) Hx)).
  unfold is_identifier_char, is_alnum, in_range in H0. unfold is_scalar, is_surrogate. lia.
Qed.

(** An actor is made of text. *)
Lemma actor_plain v actor : parse nodeControlActorSchema v = Some actor -> plain actor.
Proof.
  apply parse_plain; [vm_compute; reflexivity|left]. cbn.
  repeat split; try (by apply text_scalars); [|apply is_identifier_scalars|];
    repeat (constructor; [by apply text_scalars|]); constructor.
Qed.

Lemma actor_texts v actor : parse nodeControlActorSchema v = Some actor -> texts actor.
Proof. intros H. by eapply plain_texts, actor_plain. Qed.

Section Contract.
Context (is_uuid is_datetime : jsstring -> bool).

Abbreviation commandSchema := (nodeCommandSchema is_uuid is_datetime).
Abbreviation resultSchema := (nodeCommandResultSchema is_uuid is_datetime).

Lemma command_schema_ok : zod_ok commandSchema = true.
Proof. vm_compute. reflexivity. Qed.
Lemma result_schema_ok : zod_ok resultSchema = true.
Proof. vm_compute. reflexivity. Qed.
Lemma desired_schema_ok : zod_ok (nodeDesiredStateSchema is_datetime) = true.
Proof. vm_compute. reflexivity. Qed.
Lemma event_schema_ok : zod_ok (nodeEventSchema is_datetime) = true.
Proof. vm_compute. reflexivity. Qed.
Lemma actor_schema_ok : zod_ok nodeControlActorSchema = true.
Proof. vm_compute. reflexivity. Qed.
Lemma snapshot_schema_ok : zod_ok (nodeSnapshotSchema is_uuid is_datetime) = true.
Proof. vm_compute. reflexivity. Qed.

(** *** Fields that every command has *)

Lemma command_shape d s :
  match commandSchema with ZUnion _ options => (d, s) ∈ options | _ => False end ->
  exists type payload, s = ZObj (commandBase is_uuid is_datetime
    ++ [required "type" (ZLit (js type)); required "payload" payload]).
Proof.
  cbn [nodeCommandSchema]. unfold command_option. intros H.
  repeat (apply elem_of_cons in H as [[= -> ->]|H]; [by eexists _, _|]). by apply elem_of_nil in H.
Qed.

Lemma command_field v c k s :
  parse commandSchema v = Some c -> map_get (commandBase is_uuid is_datetime) (js k) = Some (false, s) ->
  exists x v', jfield k c = Some x /\ parse s v' = Some x.
Proof.
  intros H Hk. apply parse_union in H as (d & z & Hel & Hp).
  destruct (command_shape d z Hel) as (type & payload & ->).
  apply (parse_obj_field _ v c (js k) false s) in Hp as (out & -> & Hf).
  - simpl. destruct (map_get out (js k)) as [x|]; [|done]. destruct Hf as (v' & ?). eauto.
  - vm_compute. reflexivity.
  - revert Hk. generalize (commandBase is_uuid is_datetime). intros l Hl.
    induction l as [|[k' e] l IH]; simpl in *; [done|]. case_decide; auto.
Qed.

Lemma result_field v r k s :
  parse resultSchema v = Some r ->
  match resultSchema with ZObj shape => map_get shape (js k) | _ => None end = Some (false, s) ->
  exists x v', jfield k r = Some x /\ parse s v' = Some x.
Proof.
  intros H Hk. apply (parse_obj_field _ v r (js k) false s) in H as (out & -> & Hf);
    [|vm_compute; reflexivity|exact Hk].
  simpl. destruct (map_get out (js k)) as [x|]; [|done]. destruct Hf as (v' & ?). eauto.
Qed.

(** [tac] is a field lemma applied to a document; its string or number. *)
Lemma jstr_field k j p x v : jfield k j = Some x -> parse (ZStr p) v = Some x -> p (jstr k j) = true.
Proof. intros Hf Hp. apply parse_str in Hp as (s & -> & ?). unfold jstr. by rewrite Hf. Qed.

Lemma jstr_enum k j l x v : jfield k j = Some x -> parse (ZEnum l) v = Some x -> jstr k j ∈ l.
Proof. intros Hf Hp. apply parse_enum in Hp as (s & -> & ?). unfold jstr. by rewrite Hf. Qed.

Lemma jnum_field k j lo hi x v :
  jfield k j = Some x -> parse (ZInt lo hi) v = Some x -> is_safe (jnum k j) = true /\ lo <= jnum k j <= hi.
Proof. intros Hf Hp. apply parse_int in Hp as (n & -> & ? & ?). unfold jnum. by rewrite Hf. Qed.

Lemma command_generation v c : parse commandSchema v = Some c -> 1 <= jnum "generation" c <= MAX_SAFE_INTEGER.
Proof.
  intros H. destruct (command_field v c "generation" generation H eq_refl) as (x & v' & Hf & Hp).
  by eapply jnum_field in Hp as [_ ?].
Qed.

Lemma command_nodeId v c : parse commandSchema v = Some c -> is_identifier (jstr "nodeId" c) = true.
Proof.
  intros H. destruct (command_field v c "nodeId" identifier H eq_refl) as (x & v' & Hf & Hp).
  by eapply jstr_field in Hp.
Qed.

Lemma result_nodeId v r : parse resultSchema v = Some r -> is_identifier (jstr "nodeId" r) = true.
Proof.
  intros H. destruct (result_field v r "nodeId" identifier H eq_refl) as (x & v' & Hf & Hp).
  by eapply jstr_field in Hp.
Qed.

Lemma result_state v r :
  parse resultSchema v = Some r ->
  jstr "state" r ∈ [js "accepted"; js "applied"; js "rejected"; js "expired"].
Proof.
  intros H. destruct (result_field v r "state" _ H eq_refl) as (x & v' & Hf & Hp).
  by eapply jstr_enum in Hp.
Qed.

(** The actor of a command is one the actor schema produced, and passes it again. *)
Lemma command_actor v c :
  parse commandSchema v = Some c ->
  exists v', jfield "actor" c = Some (jobj "actor" c) /\ parse nodeControlActorSchema v' = Some (jobj "actor" c).
Proof.
  intros H. destruct (command_field v c "actor" nodeControlActorSchema H eq_refl) as (x & v' & Hf & Hp).
  exists v'. unfold jobj. rewrite Hf. done.
Qed.
End Contract.
