(* ===== verification/NodeCommands.v ===== *)
(** * The command store

    [NodeCommandStore] of [src/src/coordinator/node-command-store.ts] over the tables
    [node_commands], [node_command_results], [node_control_events] and
    [node_desired_states] of [src/src/storage/database.ts]; the tables of snapshots belong
    to [NodeReconciliation].  Documents are kept as
    text, as the code keeps them, and are parsed when they are read.  An operation
    reads the clock as [now]; a limit is the truncated one. *)

From S2P Require Import Prelude JsString JsMap JsSort JsonText JsonParse Schema Sql Zod JsDate NodeJson NodeControl.

#[local] Open Scope Z_scope.

(** ** Tables *)

Inductive CommandState := Queued | Delivered | Applied | Rejected | Expired.

#[export] Instance CommandState_eq : EqDecision CommandState.
Proof. solve_decision. Defined.

Definition state_text (s : CommandState) : jsstring :=
  match s with
  | Queued => js "queued" | Delivered => js "delivered" | Applied => js "applied"
  | Rejected => js "rejected" | Expired => js "expired"
  end.

(** [commandStateSchema.parse]. *)
Definition commandStateSchema (s : jsstring) : res CommandState :=
  match List.find (fun x => bool_decide (state_text x = s)) [Queued; Delivered; Applied; Rejected; Expired] with
  | Some x => Ok x
  | None => Err ZodError
  end.

Record CommandRow := CommandRow_ {
  cr_id : jsstring;
  cr_node_id : jsstring;
  cr_generation : Z;
  cr_nonce : jsstring;
  cr_command_json : jsstring;
  cr_state : CommandState;
  cr_issued_at : Z;
  cr_expires_at : Z;
  cr_created_at : Z;
  cr_delivered_at : option Z;
  cr_completed_at : option Z
}.

Record ResultRow := ResultRow_ {
  rr_id : jsstring;
  rr_command_id : jsstring;
  rr_node_id : jsstring;
  rr_generation : Z;
  rr_result_digest : jsstring;
  rr_result_json : jsstring;
  rr_observed_at : Z
}.

Record EventRow := EventRow_ {
  ev_sequence : Z;
  ev_node_id : jsstring;
  ev_generation : Z;
  ev_actor_json : jsstring;
  ev_event_type : jsstring;
  ev_payload_digest : jsstring;
  ev_previous_event_digest : option jsstring;
  ev_event_digest : jsstring;
  ev_occurred_at : Z
}.

Record DesiredRow := DesiredRow_ {
  ds_node_id : jsstring;
  ds_generation : Z;
  ds_desired_json : jsstring;
  ds_updated_at : Z
}.

Record SnapshotRow := SnapshotRow_ {
  sn_node_id : jsstring;
  sn_generation : Z;
  sn_cursor_sequence : Z;
  sn_snapshot_json : jsstring;
  sn_observed_at : Z;
  sn_received_at : Z
}.

Record SnapshotHistoryRow := SnapshotHistoryRow_ {
  sh_node_id : jsstring;
  sh_generation : Z;
  sh_cursor_sequence : Z;
  sh_snapshot_digest : jsstring;
  sh_snapshot_json : jsstring;
  sh_received_at : Z
}.

(** [event_sequence] is the AUTOINCREMENT counter of [node_control_events]. *)
Record Db := Db_ {
  node_commands : list CommandRow;
  node_command_results : list ResultRow;
  node_control_events : list EventRow;
  event_sequence : Z;
  node_desired_states : list DesiredRow;
  node_snapshots : list SnapshotRow;
  node_snapshot_history : list SnapshotHistoryRow
}.

Definition with_commands (t : list CommandRow) (d : Db) : Db :=
  Db_ t (node_command_results d) (node_control_events d) (event_sequence d) (node_desired_states d)
    (node_snapshots d) (node_snapshot_history d).
Definition with_results (t : list ResultRow) (d : Db) : Db :=
  Db_ (node_commands d) t (node_control_events d) (event_sequence d) (node_desired_states d)
    (node_snapshots d) (node_snapshot_history d).
Definition with_events (t : list EventRow) (seq : Z) (d : Db) : Db :=
  Db_ (node_commands d) (node_command_results d) t seq (node_desired_states d)
    (node_snapshots d) (node_snapshot_history d).
Definition with_desired (t : list DesiredRow) (d : Db) : Db :=
  Db_ (node_commands d) (node_command_results d) (node_control_events d) (event_sequence d) t
    (node_snapshots d) (node_snapshot_history d).
Definition with_snapshots (t : list SnapshotRow) (h : list SnapshotHistoryRow) (d : Db) : Db :=
  Db_ (node_commands d) (node_command_results d) (node_control_events d) (event_sequence d)
    (node_desired_states d) t h.

Definition empty_db : Db := Db_ [] [] [] 0 [] [] [].

(** [MeshDatabase.transaction]: a throw rolls back. *)
Definition transaction {S A} (c : SE S A) : SE S A :=
  fun d => match c d with (Ok a, d') => (Ok a, d') | (Err e, _) => (Err e, d) end.

(** The order of TEXT columns. *)
Fixpoint text_le (x y : jsstring) : bool :=
  match x, y with
  | [], _ => true
  | _ :: _, [] => false
  | a :: x', b :: y' => if a <? b then true else if b <? a then false else text_le x' y'
  end.

(** [ORDER BY created_at, id]. *)
Definition oldest_first (x y : CommandRow) : bool :=
  if cr_created_at x <? cr_created_at y then true
  else if cr_created_at y <? cr_created_at x then false
  else text_le (cr_id x) (cr_id y).

(** [ORDER BY completed_at DESC, id DESC], NULL being the least. *)
Definition latest_completed_first (x y : CommandRow) : bool :=
  let key r := match cr_completed_at r with Some t => (1, t) | None => (0, 0) end in
  let '(nx, tx) := key x in let '(ny, ty) := key y in
  if ny <? nx then true else if nx <? ny then false
  else if ty <? tx then true else if tx <? ty then false
  else text_le (cr_id y) (cr_id x).

Definition clamp (lo hi n : Z) : Z := Z.max lo (Z.min hi n).
Definition limited {A} (n : Z) (l : list A) : list A := take (Z.to_nat n) l.

Definition is_pending (s : CommandState) : bool :=
  match s with Queued | Delivered => true | _ => false end.

(** [ORDER BY sequence DESC LIMIT 1] among the events of a node. *)
Definition latest_event (nodeId : jsstring) (t : list EventRow) : option EventRow :=
  foldl (fun acc r =>
    if bool_decide (ev_node_id r = nodeId)
    then match acc with
         | Some a => if ev_sequence a <? ev_sequence r then Some r else acc
         | None => Some r
         end
    else acc) None t.

(** ** Cursors *)

Definition formatCursor (sequence : Z) (eventDigest : jsstring) : jsstring :=
  js "evt_" ++ decimal sequence ++ 95 :: take 16 (drop 7 eventDigest).

(** A number of more than 53 bits is not safe after rounding either. *)
Definition parseCursorSequence (cursor : jsstring) : res Z :=
  match match_cursor cursor with
  | None => Err "node_event_cursor_invalid"
  | Some ds =>
      throw_if negb (is_safe (digits_value ds)) with "node_event_cursor_invalid" ;;
      Ok (digits_value ds)
  end.

Definition DurableNodeCommand : Type := json * CommandState.

(** ** Operations *)

Section Store.
Context (is_uuid is_datetime : jsstring -> bool) (localeCompare : jsstring -> jsstring -> Z)
  (sha256_hex : bytes -> jsstring).

Abbreviation canonical := (canonicalJson localeCompare).
Abbreviation hash := (digest sha256_hex).
Abbreviation commandSchema := (nodeCommandSchema is_uuid is_datetime).
Abbreviation resultSchema := (nodeCommandResultSchema is_uuid is_datetime).
Abbreviation desiredSchema := (nodeDesiredStateSchema is_datetime).
Abbreviation eventSchema := (nodeEventSchema is_datetime).

(** [schema.parse(JSON.parse(text))]. *)
Definition read_document (s : zod) (text : jsstring) : res json :=
  match JSON_parse text with Some v => zparse s v | None => Err "SyntaxError" end.

Definition readCommand (id : jsstring) (d : Db) : option CommandRow :=
  select_one (fun r => bool_decide (cr_id r = id)) (node_commands d).

Definition toDurable (row : CommandRow) : res DurableNodeCommand :=
  let? command := read_document commandSchema (cr_command_json row) in
  Ok (command, cr_state row).

(** The document whose digest names an event. *)
Definition event_document (nodeId : jsstring) (generation : Z) (actor : json) (eventType payloadDigest : jsstring)
  (previous : option jsstring) (occurredAt : Z) : json :=
  JObj [(js "nodeId", JStr nodeId); (js "generation", JNum generation); (js "actor", actor);
        (js "eventType", JStr eventType); (js "payloadDigest", JStr payloadDigest);
        (js "previousEventDigest", match previous with Some p => JStr p | None => JNull end);
        (js "occurredAt", JNum occurredAt)].

Definition appendEvent (now : Z) (nodeId : jsstring) (generation : Z) (actorInput : json) (eventType : jsstring)
  (payload : json) : SE Db unit :=
  let! actor := se_lift (zparse nodeControlActorSchema (embed actorInput)) in
  let! previous := se_gets (fun d => ev_event_digest <$> latest_event nodeId (node_control_events d)) in
  let payloadDigest := hash (canonical payload) in
  let eventDigest := hash (canonical (event_document nodeId generation actor eventType payloadDigest previous now)) in
  let! d := se_get in
  let row := EventRow_ (event_sequence d + 1) nodeId generation (canonical actor) eventType payloadDigest
               previous eventDigest now in
  let! t := se_lift (insert_row (fun x y => bool_decide (ev_event_digest x = ev_event_digest y)) true row
                       (node_control_events d)) in
  se_modify (with_events t (event_sequence d + 1)).

(** What a command changes of the desired state. *)
Definition desired_patch (command : json) : list (jsstring * json) :=
  let type := jstr "type" command in
  let payload := jobj "payload" command in
  if bool_decide (type = js "pause") then [(js "contributionEnabled", JBool false)]
  else if bool_decide (type = js "resume") then
    [(js "contributionEnabled", JBool true); (js "drain", JBool false)]
  else if bool_decide (type = js "drain") then [(js "drain", JBool true)]
  else if bool_decide (type = js "set-limits") then [(js "limits", without "version" payload)]
  else if bool_decide (type = js "set-policy") then [(js "policy", jobj "policy" payload)]
  else if bool_decide (type = js "update") then [(js "updateChannel", jobj "channel" payload)]
  else if bool_decide (type = js "revoke") || bool_decide (type = js "uninstall") then
    [(js "contributionEnabled", JBool false); (js "drain", JBool true)]
  else [].

Definition updateDesiredState (now : Z) (command : json) : SE Db unit :=
  let nodeId := jstr "nodeId" command in
  let generation := jnum "generation" command in
  let! d := se_get in
  match select_one (fun r => bool_decide (ds_node_id r = nodeId)) (node_desired_states d) with
  | None => se_ret tt
  | Some row =>
      let! current := se_lift (read_document desiredSchema (ds_desired_json row)) in
      fail_if negb (jnum "generation" current =? generation) with "node_desired_state_generation_mismatch" ;;
      let! updatedAt := se_lift (toISOString now) in
      let! next := se_lift (zparse desiredSchema (embed (JObj (spread (entries current)
        (desired_patch command ++ [(js "updatedAt", JStr updatedAt); (js "updatedBy", jobj "actor" command)]))))) in
      se_modify (with_desired (map (fun r =>
        if bool_decide (ds_node_id r = nodeId) && (ds_generation r =? generation)
        then DesiredRow_ nodeId generation (canonical next) now else r) (node_desired_states d)))
  end.

Definition command_conflict (x y : CommandRow) : bool :=
  bool_decide (cr_id x = cr_id y)
  || (bool_decide (cr_node_id x = cr_node_id y) && bool_decide (cr_nonce x = cr_nonce y)).

(** [INSERT INTO node_commands ... 'queued']; a NaN is NULL, which the columns reject. *)
Definition insert_command (now : Z) (command : json) : SE Db unit :=
  match Date_parse (jstr "issuedAt" command), Date_parse (jstr "expiresAt" command) with
  | Some issuedAt, Some expiresAt =>
      let! d := se_get in
      let row := CommandRow_ (jstr "id" command) (jstr "nodeId" command) (jnum "generation" command)
                   (jstr "nonce" command) (canonical command) Queued issuedAt expiresAt now None None in
      let! t := se_lift (insert_row command_conflict (0 <? cr_generation row) row (node_commands d)) in
      se_modify (with_commands t)
  | _, _ => se_throw SQLITE_CONSTRAINT
  end.

Definition enqueue (now : Z) (input : value) (minimumGeneration : Z) : SE Db DurableNodeCommand :=
  let! parsed := se_lift (zparse commandSchema input) in
  transaction
    (let! d := se_get in
     match readCommand (jstr "id" parsed) d with
     | Some existing =>
         fail_if negb (bool_decide (cr_command_json existing = canonical parsed)) with "node_command_id_conflict" ;;
         se_lift (toDurable existing)
     | None =>
         let nodeId := jstr "nodeId" parsed in
         let consumedNonces := map cr_nonce (filter (fun r => cr_node_id r = nodeId) (node_commands d)) in
         let! command := se_lift (parseAuthorizedNodeCommand is_uuid is_datetime (embed parsed)
                           (ValidationContext now minimumGeneration consumedNonces nodeId)) in
         do! insert_command now command ;;
         do! updateDesiredState now command ;;
         do! appendEvent now (jstr "nodeId" command) (jnum "generation" command) (jobj "actor" command)
               (js "command.queued") command ;;
         se_ret (command, Queued)
     end).

(** [UPDATE node_commands SET state = s, ... WHERE id = id AND (from state)]. *)
Definition set_state (from : CommandState -> bool) (set : CommandRow -> CommandRow) (id : jsstring) (d : Db) : Db :=
  with_commands (map (fun r => if bool_decide (cr_id r = id) && from (cr_state r) then set r else r)
    (node_commands d)) d.

Definition deliver (now : Z) (r : CommandRow) : CommandRow :=
  CommandRow_ (cr_id r) (cr_node_id r) (cr_generation r) (cr_nonce r) (cr_command_json r) Delivered
    (cr_issued_at r) (cr_expires_at r) (cr_created_at r) (Some now) (cr_completed_at r).

Definition complete (now : Z) (s : CommandState) (r : CommandRow) : CommandRow :=
  CommandRow_ (cr_id r) (cr_node_id r) (cr_generation r) (cr_nonce r) (cr_command_json r) s
    (cr_issued_at r) (cr_expires_at r) (cr_created_at r) (cr_delivered_at r) (Some now).

Definition command_id_payload (id : jsstring) : json := JObj [(js "commandId", JStr id)].

Fixpoint expire_rows (now : Z) (nodeId : jsstring) (rows : list CommandRow) : SE Db unit :=
  match rows with
  | [] => se_ret tt
  | row :: rows' =>
      do! se_modify (set_state is_pending (complete now Expired) (cr_id row)) ;;
      let! command := se_lift (read_document commandSchema (cr_command_json row)) in
      do! appendEvent now nodeId (cr_generation row) (jobj "actor" command) (js "command.expired")
            (command_id_payload (cr_id row)) ;;
      expire_rows now nodeId rows'
  end.

Definition expired_rows (now : Z) (nodeId : jsstring) (generation : Z) (t : list CommandRow) : list CommandRow :=
  List.filter (fun r => bool_decide (cr_node_id r = nodeId) && is_pending (cr_state r)
    && ((cr_expires_at r <=? now) || (cr_generation r <? generation))) t.

Definition expirePending (now : Z) (nodeId : jsstring) (generation : Z) : SE Db unit :=
  let! d := se_get in
  expire_rows now nodeId (expired_rows now nodeId generation (node_commands d)).

(** The loop of [pull]; the rows come back with their new state. *)
Fixpoint deliver_rows (now : Z) (nodeId : jsstring) (generation : Z) (rows : list CommandRow)
  : SE Db (list CommandRow) :=
  match rows with
  | [] => se_ret []
  | row :: rows' =>
      if bool_decide (cr_state row = Queued) then
        do! se_modify (set_state (fun s => bool_decide (s = Queued)) (deliver now) (cr_id row)) ;;
        let! command := se_lift (read_document commandSchema (cr_command_json row)) in
        do! appendEvent now nodeId generation (jobj "actor" command) (js "command.delivered")
              (command_id_payload (cr_id row)) ;;
        let! rest := deliver_rows now nodeId generation rows' in
        se_ret (deliver now row :: rest)
      else
        let! rest := deliver_rows now nodeId generation rows' in
        se_ret (row :: rest)
  end.

Definition pending_rows (nodeId : jsstring) (generation limit : Z) (t : list CommandRow) : list CommandRow :=
  limited (clamp 1 256 limit) (sort_by oldest_first
    (List.filter (fun r => bool_decide (cr_node_id r = nodeId) && (cr_generation r =? generation)
      && is_pending (cr_state r)) t)).

Fixpoint all_durable (rows : list CommandRow) : res (list DurableNodeCommand) :=
  match rows with
  | [] => Ok []
  | row :: rows' => let? c := toDurable row in let? rest := all_durable rows' in Ok (c :: rest)
  end.

Definition pull (now : Z) (nodeId : jsstring) (generation limit : Z) : SE Db (list DurableNodeCommand) :=
  fail_if negb (is_safe generation) || (generation <? 1) with "node_command_generation_invalid" ;;
  transaction
    (do! expirePending now nodeId generation ;;
     let! d := se_get in
     let! rows := deliver_rows now nodeId generation (pending_rows nodeId generation limit (node_commands d)) in
     se_lift (all_durable rows)).

Definition result_conflict (x y : ResultRow) : bool :=
  bool_decide (rr_id x = rr_id y) || bool_decide (rr_command_id x = rr_command_id y).

Definition insert_result (result : json) (d : Db) : res (list ResultRow) :=
  match Date_parse (jstr "observedAt" result) with
  | Some observedAt =>
      insert_row result_conflict
        (existsb (fun r => bool_decide (cr_id r = jstr "commandId" result)) (node_commands d))
        (ResultRow_ (jstr "id" result) (jstr "commandId" result) (jstr "nodeId" result) (jnum "generation" result)
           (jstr "resultDigest" result) (canonical result) observedAt)
        (node_command_results d)
  | None => Err SQLITE_CONSTRAINT
  end.

Definition node_actor (nodeId : jsstring) : json :=
  JObj [(js "kind", JStr (js "node")); (js "id", JStr nodeId); (js "scopes", JArr [JStr (js "node:read")])].

Definition recordResult (now : Z) (input : value) : SE Db json :=
  let! result := se_lift (zparse resultSchema input) in
  fail_if bool_decide (jstr "state" result = js "accepted") with "node_command_result_not_terminal" ;;
  transaction
    (let! d := se_get in
     match readCommand (jstr "commandId" result) d with
     | None => se_throw "node_command_unknown"
     | Some commandRow =>
         fail_if negb (bool_decide (cr_node_id commandRow = jstr "nodeId" result)) with "node_command_result_wrong_node" ;;
         fail_if negb (cr_generation commandRow =? jnum "generation" result)
           with "node_command_result_wrong_generation" ;;
         let text := canonical result in
         match select_one (fun r => bool_decide (rr_command_id r = jstr "commandId" result)) (node_command_results d) with
         | Some existing =>
             fail_if negb (bool_decide (rr_result_json existing = text)) with "node_command_result_conflict" ;;
             se_lift (read_document resultSchema (rr_result_json existing))
         | None =>
             let! finalState := se_lift (commandStateSchema (jstr "state" result)) in
             let! t := se_lift (insert_result result d) in
             do! se_modify (with_results t) ;;
             do! se_modify (set_state is_pending (complete now finalState) (jstr "commandId" result)) ;;
             do! appendEvent now (jstr "nodeId" result) (jnum "generation" result)
                   (node_actor (jstr "nodeId" result)) (js "command." ++ state_text finalState) result ;;
             se_ret result
         end
     end).

(** ** Reading events *)

Definition validateCursor (nodeId cursor : jsstring) (d : Db) : res Z :=
  let? sequence := parseCursorSequence cursor in
  match select_one (fun r => bool_decide (ev_node_id r = nodeId) && (ev_sequence r =? sequence))
          (node_control_events d) with
  | Some row =>
      throw_if negb (bool_decide (formatCursor sequence (ev_event_digest row) = cursor))
        with "node_event_cursor_unknown" ;;
      Ok sequence
  | None => Err "node_event_cursor_unknown"
  end.

Definition cursorSequence (nodeId cursor : jsstring) (d : Db) : res Z :=
  if decide (cursor = NODE_EVENT_ORIGIN_CURSOR) then Ok 0 else validateCursor nodeId cursor d.

Definition event_input (row : EventRow) : res value :=
  let? occurredAt := toISOString (ev_occurred_at row) in
  match JSON_parse (ev_actor_json row) with
  | None => Err "SyntaxError"
  | Some actor => Ok (VObj
      [(js "schema", VStr (js "mycellios-node-event/1"));
       (js "cursor", VStr (formatCursor (ev_sequence row) (ev_event_digest row)));
       (js "nodeId", VStr (ev_node_id row));
       (js "generation", VNum (NInt (ev_generation row)));
       (js "actor", actor);
       (js "type", VStr (ev_event_type row));
       (js "occurredAt", VStr occurredAt);
       (js "payloadDigest", VStr (ev_payload_digest row));
       (js "previousEventDigest", match ev_previous_event_digest row with Some p => VStr p | None => VNull end)])
  end.

Definition to_event (row : EventRow) : res json :=
  let? v := event_input row in zparse eventSchema v.

Fixpoint all_events (rows : list EventRow) : res (list json) :=
  match rows with
  | [] => Ok []
  | row :: rows' => let? e := to_event row in let? rest := all_events rows' in Ok (e :: rest)
  end.

(** [WHERE node_id = ? AND sequence > ? ORDER BY sequence LIMIT ?]. *)
Definition events_page (nodeId : jsstring) (after limit : Z) (t : list EventRow) : list EventRow :=
  limited (clamp 1 1000 limit) (sort_by (fun x y => ev_sequence x <=? ev_sequence y)
    (List.filter (fun r => bool_decide (ev_node_id r = nodeId) && (after <? ev_sequence r)) t)).

Definition eventsAfter (nodeId : jsstring) (cursor : option jsstring) (limit : Z) (d : Db) : res (list json) :=
  let? after := match cursor with None => Ok 0 | Some c => cursorSequence nodeId c d end in
  all_events (events_page nodeId after limit (node_control_events d)).

Definition latestCursor (nodeId : jsstring) (d : Db) : jsstring :=
  match latest_event nodeId (node_control_events d) with
  | Some row => formatCursor (ev_sequence row) (ev_event_digest row)
  | None => NODE_EVENT_ORIGIN_CURSOR
  end.

Definition acknowledgedCommandIds (nodeId : jsstring) (generation limit : Z) (d : Db) : list jsstring :=
  map cr_id (limited (clamp 1 1000 limit) (sort_by latest_completed_first
    (List.filter (fun r => bool_decide (cr_node_id r = nodeId) && (cr_generation r =? generation)
      && bool_decide (cr_state r = Applied)) (node_commands d)))).

(** ** The desired state, rebuilt *)

Fixpoint replay_rows (now : Z) (rows : list CommandRow) : SE Db unit :=
  match rows with
  | [] => se_ret tt
  | row :: rows' =>
      let! command := se_lift (read_document commandSchema (cr_command_json row)) in
      do! updateDesiredState now command ;;
      replay_rows now rows'
  end.

Definition replayDesiredCommands (now : Z) (nodeId : jsstring) (generation : Z) : SE Db unit :=
  let! d := se_get in
  replay_rows now (sort_by oldest_first
    (List.filter (fun r => bool_decide (cr_node_id r = nodeId) && (cr_generation r =? generation)
      && negb (bool_decide (cr_state r = Expired))) (node_commands d))).
End Store.
