(* ===== verification/NodeReconciliation.v ===== *)
(** * Reconciliation

    [NodeReconciliationStore] of [src/src/coordinator/node-reconciliation-store.ts]: a
    node sends a snapshot of its state with the cursor of the last event it knows and
    gets the desired state and the events after the cursor. *)

From S2P Require Import Prelude JsString JsMap JsSort JsonText JsonParse Schema Sql Zod JsDate NodeJson NodeControl NodeCommands.

#[local] Open Scope Z_scope.

Record NodeReconciliationResult := ReconciliationResult {
  rec_snapshot : json;
  rec_desiredState : json;
  rec_events : list json;
  rec_latestCursor : jsstring
}.

(** [INSERT ... ON CONFLICT(key) DO UPDATE]: the row is replaced in place. *)
Fixpoint upsert {R} (same_key : R -> R -> bool) (row : R) (t : list R) : list R :=
  match t with
  | [] => [row]
  | r :: t' => if same_key row r then row :: t' else r :: upsert same_key row t'
  end.

Section Reconciliation.
Context (is_uuid is_datetime : jsstring -> bool) (localeCompare : jsstring -> jsstring -> Z)
  (sha256_hex : bytes -> jsstring).

Abbreviation canonical := (canonicalJson localeCompare).
Abbreviation hash := (digest sha256_hex).
Abbreviation desiredSchema := (nodeDesiredStateSchema is_datetime).
Abbreviation snapshotSchema := (nodeSnapshotSchema is_uuid is_datetime).

Definition desiredState (nodeId : jsstring) (d : Db) : res (option json) :=
  match select_one (fun r => bool_decide (ds_node_id r = nodeId)) (node_desired_states d) with
  | Some row => let? j := read_document desiredSchema (ds_desired_json row) in Ok (Some j)
  | None => Ok None
  end.

Definition latestSnapshot (nodeId : jsstring) (d : Db) : res (option json) :=
  match select_one (fun r => bool_decide (sn_node_id r = nodeId)) (node_snapshots d) with
  | Some row => let? j := read_document snapshotSchema (sn_snapshot_json row) in Ok (Some j)
  | None => Ok None
  end.

(** The desired state a snapshot starts with. *)
Definition seeded_desired (snapshot : json) : json :=
  JObj [(js "schema", JStr (js "mycellios-node-desired-state/1"));
        (js "nodeId", jobj "nodeId" snapshot);
        (js "generation", jobj "generation" snapshot);
        (js "contributionEnabled", jobj "contributionEnabled" snapshot);
        (js "drain", jobj "draining" snapshot);
        (js "updateChannel", jobj "updateChannel" snapshot);
        (js "limits", jobj "limits" snapshot);
        (js "policy", match jfield "policy" snapshot with Some p => p | None => DEFAULT_NODE_WORK_POLICY end);
        (js "updatedAt", jobj "observedAt" snapshot);
        (js "updatedBy", node_actor (jstr "nodeId" snapshot))].

Definition readOrSeedDesired (now : Z) (snapshot : json) : SE Db json :=
  let nodeId := jstr "nodeId" snapshot in
  let generation := jnum "generation" snapshot in
  let! d := se_get in
  let! existing := se_lift (desiredState nodeId d) in
  let seed :=
    let! desired := se_lift (zparse desiredSchema (embed (seeded_desired snapshot))) in
    do! se_modify (fun d => with_desired (upsert (fun x y => bool_decide (ds_node_id x = ds_node_id y))
          (DesiredRow_ nodeId generation (canonical desired) now) (node_desired_states d)) d) ;;
    do! replayDesiredCommands is_uuid is_datetime localeCompare now nodeId generation ;;
    let! d := se_get in
    let! rebuilt := se_lift (desiredState nodeId d) in
    match rebuilt with Some j => se_ret j | None => se_throw "TypeError" end in
  match existing with
  | Some e =>
      if jnum "generation" e =? generation then se_ret e
      else fail_if generation <? jnum "generation" e with "node_desired_state_generation_downgrade" ;; seed
  | None => seed
  end.

(** [SELECT ... WHERE id IN (...)] of the active commands, the valid ones counted as a set. *)
Definition valid_active (snapshot : json) (ids : list jsstring) (t : list CommandRow) : list jsstring :=
  remove_dups (map cr_id (List.filter (fun r =>
    bool_decide (cr_node_id r = jstr "nodeId" snapshot) && (cr_generation r =? jnum "generation" snapshot)
    && is_pending (cr_state r))
    (List.filter (fun r => bool_decide (cr_id r ∈ ids)) t))).

Definition active_ids (snapshot : json) : list jsstring :=
  map (fun j => match j with JStr s => s | _ => [] end) (jarr "activeCommandIds" snapshot).

Definition assertActiveCommands (snapshot : json) (d : Db) : res unit :=
  match active_ids snapshot with
  | [] => Ok tt
  | ids =>
      throw_if negb (Nat.eqb (length (valid_active snapshot ids (node_commands d))) (length ids))
        with "node_snapshot_active_commands_invalid" ;;
      Ok tt
  end.

Definition check_previous (snapshot : json) (cursorSeq : Z) (observedAt : option Z) (d : Db) : res unit :=
  match select_one (fun r => bool_decide (sn_node_id r = jstr "nodeId" snapshot)) (node_snapshots d) with
  | None => Ok tt
  | Some previous =>
      let generation := jnum "generation" snapshot in
      throw_if generation <? sn_generation previous with "node_snapshot_generation_downgrade" ;;
      throw_if (generation =? sn_generation previous) && (cursorSeq <? sn_cursor_sequence previous)
        with "node_snapshot_cursor_regression" ;;
      throw_if (generation =? sn_generation previous) && match observedAt with Some t => t <? sn_observed_at previous | None => false end
        with "node_snapshot_time_regression" ;;
      Ok tt
  end.

Definition store_snapshot (now : Z) (snapshot : json) (cursorSeq observedAt : Z) (d : Db) : Db :=
  let nodeId := jstr "nodeId" snapshot in
  let generation := jnum "generation" snapshot in
  let serialized := canonical snapshot in
  with_snapshots
    (upsert (fun x y => bool_decide (sn_node_id x = sn_node_id y))
       (SnapshotRow_ nodeId generation cursorSeq serialized observedAt now) (node_snapshots d))
    (insert_or_ignore
       (fun x y => bool_decide (sh_node_id x = sh_node_id y) && bool_decide (sh_snapshot_digest x = sh_snapshot_digest y))
       (SnapshotHistoryRow_ nodeId generation cursorSeq (hash serialized) serialized now) (node_snapshot_history d))
    d.

(** A time that is NaN passes the comparisons and fails the NOT NULL column. *)
Definition reconcile (now : Z) (input : value) : SE Db NodeReconciliationResult :=
  let! snapshot := se_lift (zparse snapshotSchema input) in
  let nodeId := jstr "nodeId" snapshot in
  let cursor := jstr "cursor" snapshot in
  fail_if time_gt (Date_parse (jstr "observedAt" snapshot)) (now + NODE_CONTROL_MAX_CLOCK_SKEW_MS)
    with "node_snapshot_observed_in_future" ;;
  transaction
    (let! d := se_get in
     let! cursorSeq := se_lift (cursorSequence nodeId cursor d) in
     let observedAt := Date_parse (jstr "observedAt" snapshot) in
     do! se_lift (check_previous snapshot cursorSeq observedAt d) ;;
     do! se_lift (assertActiveCommands snapshot d) ;;
     let! desired := readOrSeedDesired now snapshot in
     do! match observedAt with
         | Some t => se_modify (store_snapshot now snapshot cursorSeq t)
         | None => se_throw SQLITE_CONSTRAINT
         end ;;
     let! d := se_get in
     let! events := se_lift (eventsAfter is_datetime nodeId (Some cursor) 100 d) in
     se_ret (ReconciliationResult snapshot desired events (latestCursor nodeId d))).
End Reconciliation.
