(* ===== verification/NodeCommandsInv.v ===== *)
(** * The command store: what its operations do to the tables

    Every operation of [NodeCommands] is a sequence of writes, whether it completes or
    throws; a transaction that throws makes none.  What holds of the tables over every
    history is proved once per write. *)

From S2P Require Import Prelude JsString JsMap JsSort JsonText JsonParse Schema Sql Zod JsDate NodeJson NodeControl NodeControlProps NodeCommands NodeReconciliation.

#[local] Open Scope Z_scope.

(** ** Stateful code as a sequence of writes *)

Section Stays.
Context {S : Type} (W : S -> S -> Prop).

Definition stays {A} (c : SE S A) (s : S) : Prop := rtc W s (c s).2.

Lemma stays_ret {A} (a : A) s : stays (se_ret a) s.
Proof. unfold stays. simpl. reflexivity. Qed.

Lemma stays_throw {A} e s : stays (A := A) (se_throw e) s.
Proof. unfold stays. simpl. reflexivity. Qed.

Lemma stays_bind {A B} (c : SE S A) (k : A -> SE S B) s :
  stays c s -> (forall a s', c s = (Ok a, s') -> stays (k a) s') -> stays (se_bind c k) s.
Proof.
  unfold stays, se_bind. intros Hc Hk. destruct (c s) as [[a|e] s'] eqn:E; simpl in *; [|done].
  etransitivity; [exact Hc|]. by apply Hk.
Qed.

Lemma stays_lift {A B} (r : res A) (k : A -> SE S B) s :
  (forall a, r = Ok a -> stays (k a) s) -> stays (se_bind (se_lift r) k) s.
Proof. intros Hk. unfold stays, se_bind, se_lift. destruct r as [a|e]; [by apply Hk|simpl; reflexivity]. Qed.

Lemma stays_get {B} (k : S -> SE S B) s : stays (k s) s -> stays (se_bind se_get k) s.
Proof. done. Qed.

Lemma stays_gets {A B} (f : S -> A) (k : A -> SE S B) s : stays (k (f s)) s -> stays (se_bind (se_gets f) k) s.
Proof. done. Qed.

Lemma stays_modify f s : rtc W s (f s) -> stays (se_modify f) s.
Proof. done. Qed.

Lemma stays_transaction {A} (c : SE S A) s : stays c s -> stays (transaction c) s.
Proof. unfold stays, transaction. destruct (c s) as [[a|e] s'] eqn:E; simpl; [done|reflexivity]. Qed.

Lemma stays_if {A} (b : bool) (c1 c2 : SE S A) s :
  (b = true -> stays c1 s) -> (b = false -> stays c2 s) -> stays (if b then c1 else c2) s.
Proof. destruct b; auto. Qed.
End Stays.

Lemma transaction_err {S A} (c : SE S A) s e s' : transaction c s = (Err e, s') -> s' = s.
Proof. unfold transaction. destruct (c s) as [[a|] ?]; congruence. Qed.

Lemma transaction_ok {S A} (c : SE S A) s a s' : transaction c s = (Ok a, s') -> c s = (Ok a, s').
Proof. unfold transaction. destruct (c s) as [[?|] ?]; congruence. Qed.

Lemma bind_ok {S A B} (c : SE S A) (k : A -> SE S B) s b s' :
  se_bind c k s = (Ok b, s') -> exists a s1, c s = (Ok a, s1) /\ k a s1 = (Ok b, s').
Proof. unfold se_bind. destruct (c s) as [[a|e] s1]; [eauto|done]. Qed.

Lemma lift_ok {S A B} (r : res A) (k : A -> SE S B) s b s' :
  se_bind (se_lift r) k s = (Ok b, s') -> exists a, r = Ok a /\ k a s = (Ok b, s').
Proof. unfold se_bind, se_lift. destruct r as [a|e]; [eauto|done]. Qed.

(** ** Writes *)

Section Writes.
Context (is_uuid is_datetime : jsstring -> bool) (localeCompare : jsstring -> jsstring -> Z)
  (sha256_hex : bytes -> jsstring).

Abbreviation canonical := (canonicalJson localeCompare).
Abbreviation hash := (digest sha256_hex).
Abbreviation append := (appendEvent localeCompare sha256_hex).

(** [command] was admitted at [now] into a table [t]. *)
Definition admitted (now minimumGeneration : Z) (t : list CommandRow) (command : json) : Prop :=
  exists input, parseAuthorizedNodeCommand is_uuid is_datetime input
    (ValidationContext now minimumGeneration
       (map cr_nonce (filter (fun r => cr_node_id r = jstr "nodeId" command) t)) (jstr "nodeId" command)) = Ok command.

(** One write, made at [now]. *)
Inductive writes (now : Z) (d : Db) : Db -> Prop :=
| write_command minimumGeneration command d' :
    plain command -> admitted now minimumGeneration (node_commands d) command ->
    insert_command localeCompare now command d = (Ok tt, d') -> writes now d d'
| write_delivered id : writes now d (set_state (fun s => bool_decide (s = Queued)) (deliver now) id d)
| write_complete s id :
    is_pending s = false -> writes now d (set_state is_pending (complete now s) id d)
| write_result input result t :
    parse (nodeCommandResultSchema is_uuid is_datetime) input = Some result ->
    insert_result localeCompare result d = Ok t ->
    select_one (fun r => bool_decide (rr_command_id r = jstr "commandId" result)) (node_command_results d) = None ->
    writes now d (with_results t d)
| write_event nodeId generation actor eventType payload d' :
    scalars nodeId -> scalars eventType ->
    append now nodeId generation actor eventType payload d = (Ok tt, d') -> writes now d d'
| write_desired t : writes now d (with_desired t d)
| write_snapshot t h : writes now d (with_snapshots t h d).

Lemma append_stays now nodeId generation actor eventType payload d :
  scalars nodeId -> scalars eventType ->
  stays (writes now) (append now nodeId generation actor eventType payload) d.
Proof.
  intros Hn Ht. unfold stays. destruct (append now nodeId generation actor eventType payload d) as [[[]|e] d'] eqn:E.
  - apply rtc_once. by apply (write_event now d nodeId generation actor eventType payload).
  - simpl. revert E. unfold appendEvent, se_bind, se_lift, se_gets, se_get, se_modify.
    destruct (zparse _ _); [|by intros [= _ <-]]. cbv zeta.
    destruct (insert_row _ _ _ _); [done|by intros [= _ <-]].
Qed.

Lemma desired_stays now command d : stays (writes now) (updateDesiredState is_datetime localeCompare now command) d.
Proof.
  unfold updateDesiredState. apply stays_get. destruct (select_one _ _); [|apply stays_ret].
  apply stays_lift; intros current _. apply stays_if; [intros _; apply stays_throw|intros _].
  apply stays_lift; intros updatedAt _. apply stays_lift; intros next _.
  apply stays_modify, rtc_once, write_desired.
Qed.

Lemma insert_command_err now command d e d' :
  insert_command localeCompare now command d = (Err e, d') -> d' = d.
Proof.
  unfold insert_command. destruct (Date_parse _); [|by intros [= _ <-]]. destruct (Date_parse _); [|by intros [= _ <-]].
  unfold se_bind, se_get, se_lift, se_modify. destruct (insert_row _ _ _ _); [done|by intros [= _ <-]].
Qed.

Lemma insert_command_stays now minimumGeneration command d :
  plain command -> admitted now minimumGeneration (node_commands d) command ->
  stays (writes now) (insert_command localeCompare now command) d.
Proof.
  intros Hpl H. unfold stays. destruct (insert_command localeCompare now command d) as [[[]|e] d'] eqn:E.
  - apply rtc_once. by eapply write_command.
  - apply insert_command_err in E as ->. simpl. reflexivity.
Qed.

Lemma expire_rows_stays now nodeId rows d :
  scalars nodeId ->
  stays (writes now) (expire_rows is_uuid is_datetime localeCompare sha256_hex now nodeId rows) d.
Proof.
  intros Hn. revert d; induction rows as [|row rows IH]; intros d; cbn [expire_rows]; [apply stays_ret|].
  apply stays_bind; [apply stays_modify, rtc_once; by apply write_complete|intros _ d1 _].
  apply stays_lift; intros command _. apply stays_bind; [apply append_stays; [done|apply text_scalars; reflexivity]|intros _ d2 _]. apply IH.
Qed.

Lemma deliver_rows_stays now nodeId generation rows d :
  scalars nodeId ->
  stays (writes now) (deliver_rows is_uuid is_datetime localeCompare sha256_hex now nodeId generation rows) d.
Proof.
  intros Hn. revert d; induction rows as [|row rows IH]; intros d; cbn [deliver_rows]; [apply stays_ret|].
  apply stays_if; intros _.
  - apply stays_bind; [apply stays_modify, rtc_once, write_delivered|intros _ d1 _].
    apply stays_lift; intros command _. apply stays_bind; [apply append_stays; [done|apply text_scalars; reflexivity]|intros _ d2 _].
    apply stays_bind; [apply IH|intros rest d3 _]. apply stays_ret.
  - apply stays_bind; [apply IH|intros rest d1 _]. apply stays_ret.
Qed.

Lemma replay_rows_stays now rows d : stays (writes now) (replay_rows is_uuid is_datetime localeCompare now rows) d.
Proof.
  revert d; induction rows as [|row rows IH]; intros d; cbn [replay_rows]; [apply stays_ret|].
  apply stays_lift; intros command _. apply stays_bind; [apply desired_stays|intros _ d1 _]. apply IH.
Qed.

Lemma parseAuthorized_context input ctx command :
  parseAuthorizedNodeCommand is_uuid is_datetime input ctx = Ok command ->
  jstr "nodeId" command = ctx_expectedNodeId ctx.
Proof.
  unfold parseAuthorizedNodeCommand. destruct (zparse _ _); [|done]. cbv zeta.
  destruct (bool_decide (jstr "nodeId" a = ctx_expectedNodeId ctx)) eqn:E; [|done].
  apply bool_decide_eq_true in E. cbn [negb].
  repeat match goal with |- (if ?b then _ else _) = _ -> _ => destruct b; [done|] end. congruence.
Qed.

Lemma parseAuthorized_parsed input ctx command :
  parseAuthorizedNodeCommand is_uuid is_datetime input ctx = Ok command ->
  parse (nodeCommandSchema is_uuid is_datetime) input = Some command.
Proof.
  unfold parseAuthorizedNodeCommand. destruct (zparse _ _) eqn:E; [|done]. apply zparse_ok in E. cbv zeta.
  repeat match goal with |- (if ?b then _ else _) = _ -> _ => destruct b; [done|] end. congruence.
Qed.

Lemma enqueue_stays now input minimumGeneration d :
  value_texts input ->
  stays (writes now) (enqueue is_uuid is_datetime localeCompare sha256_hex now input minimumGeneration) d.
Proof.
  intros Hv. unfold enqueue. apply stays_lift; intros parsed Hp. apply zparse_ok in Hp.
  pose proof (parse_plain _ _ _ (command_schema_ok is_uuid is_datetime) (or_intror Hv) Hp) as Hpl.
  apply stays_transaction, stays_get.
  destruct (readCommand _ _) as [row|].
  - apply stays_if; intros _; [apply stays_throw|]. unfold stays, se_lift. simpl. reflexivity.
  - apply stays_lift; intros command Hc. pose proof (parseAuthorized_context _ _ _ Hc) as Hn. simpl in Hn.
    apply stays_bind.
    { apply (insert_command_stays now minimumGeneration).
      - apply parseAuthorized_parsed in Hc.
        rewrite (parse_again _ _ _ _ (command_schema_ok is_uuid is_datetime) Hp (same_embed _ Hpl)) in Hc.
        by injection Hc as <-.
      - exists (embed parsed). by rewrite Hn. }
    intros _ d1 _. apply stays_bind; [apply desired_stays|intros _ d2 _].
    apply parseAuthorized_parsed, command_nodeId, is_identifier_scalars in Hc.
    apply stays_bind; [apply append_stays; [done|apply text_scalars; reflexivity]|intros _ d3 _]. apply stays_ret.
Qed.

Lemma pull_stays now nodeId generation limit d :
  scalars nodeId ->
  stays (writes now) (pull is_uuid is_datetime localeCompare sha256_hex now nodeId generation limit) d.
Proof.
  intros Hn. unfold pull. apply stays_if; intros _; [apply stays_throw|]. apply stays_transaction.
  apply stays_bind; [by apply stays_get, expire_rows_stays|intros _ d1 _]. apply stays_get.
  apply stays_bind; [by apply deliver_rows_stays|intros rows d2 _]. unfold stays, se_lift. simpl. reflexivity.
Qed.

Lemma commandStateSchema_text s x : commandStateSchema s = Ok x -> s = state_text x.
Proof.
  unfold commandStateSchema. destruct (List.find _ _) as [y|] eqn:E; [|done]. intros [= ->].
  apply List.find_some in E as [_ E]. by apply bool_decide_eq_true in E.
Qed.

Lemma record_stays now input d :
  stays (writes now) (recordResult is_uuid is_datetime localeCompare sha256_hex now input) d.
Proof.
  unfold recordResult. apply stays_lift; intros result Hr. apply zparse_ok in Hr.
  pose proof (result_nodeId is_uuid is_datetime _ _ Hr) as Hid. apply is_identifier_scalars in Hid.
  pose proof (result_state is_uuid is_datetime _ _ Hr) as Hst.
  destruct (bool_decide (jstr "state" result = js "accepted")) eqn:Ea; [apply stays_throw|].
  apply bool_decide_eq_false in Ea. apply stays_transaction, stays_get.
  destruct (readCommand _ _) as [row|]; [|apply stays_throw].
  apply stays_if; intros _; [apply stays_throw|]. apply stays_if; intros _; [apply stays_throw|].
  cbv zeta. destruct (select_one _ (node_command_results d)) as [existing|] eqn:Es.
  { apply stays_if; intros _; [apply stays_throw|]. unfold stays, se_lift. simpl. reflexivity. }
  apply stays_lift; intros s Hs. apply commandStateSchema_text in Hs. apply stays_lift; intros t Ht.
  apply stays_bind; [apply stays_modify, rtc_once; by eapply write_result|intros _ d1 _].
  apply stays_bind; [apply stays_modify, rtc_once, write_complete|intros _ d2 _].
  { rewrite Hs in Hst, Ea. destruct s; [exfalso|exfalso|done|done|done];
      revert Hst; match goal with |- ?P => apply (bool_decide_unpack P) end; vm_compute; exact I. }
  apply stays_bind; [apply append_stays; [done|destruct s; apply text_scalars; reflexivity]|intros _ d3 _].
  apply stays_ret.
Qed.

Lemma seed_stays now snapshot d :
  stays (writes now) (readOrSeedDesired is_uuid is_datetime localeCompare now snapshot) d.
Proof.
  unfold readOrSeedDesired. cbv zeta. apply stays_get. apply stays_lift; intros existing _.
  assert (Hseed : stays (writes now)
    (let! desired := se_lift (zparse (nodeDesiredStateSchema is_datetime) (embed (seeded_desired snapshot))) in
     do! se_modify (fun d => with_desired (upsert (fun x y => bool_decide (ds_node_id x = ds_node_id y))
           (DesiredRow_ (jstr "nodeId" snapshot) (jnum "generation" snapshot) (canonical desired) now)
           (node_desired_states d)) d) ;;
     do! replayDesiredCommands is_uuid is_datetime localeCompare now (jstr "nodeId" snapshot)
           (jnum "generation" snapshot) ;;
     let! d := se_get in
     let! rebuilt := se_lift (desiredState is_datetime (jstr "nodeId" snapshot) d) in
     match rebuilt with Some j => se_ret j | None => se_throw "TypeError" end) d).
  { apply stays_lift; intros desired _.
    apply stays_bind; [apply stays_modify, rtc_once, write_desired|intros _ d1 _].
    apply stays_bind; [apply stays_get, replay_rows_stays|intros _ d2 _]. apply stays_get.
    apply stays_lift; intros [j|] _; [apply stays_ret|apply stays_throw]. }
  destruct existing as [e|]; [|exact Hseed].
  apply stays_if; intros _; [apply stays_ret|]. apply stays_if; intros _; [apply stays_throw|exact Hseed].
Qed.

Lemma reconcile_stays now input d :
  stays (writes now) (reconcile is_uuid is_datetime localeCompare sha256_hex now input) d.
Proof.
  unfold reconcile. apply stays_lift; intros snapshot _. cbv zeta.
  apply stays_if; intros _; [apply stays_throw|]. apply stays_transaction, stays_get.
  apply stays_lift; intros cursorSeq _. apply stays_lift; intros _ _. apply stays_lift; intros _ _.
  apply stays_bind; [apply seed_stays|intros desired d1 _].
  apply stays_bind; [destruct (Date_parse _); [apply stays_modify, rtc_once, write_snapshot|apply stays_throw]|].
  intros _ d2 _. apply stays_get, stays_lift; intros events _. apply stays_ret.
Qed.

(** ** Histories *)

Inductive operation :=
| OpEnqueue (input : value) (minimumGeneration : Z)
| OpPull (nodeId : jsstring) (generation limit : Z)
| OpRecordResult (input : value)
| OpReconcile (input : value).

(** The tables after an operation at [now], whether it completes or throws. *)
Definition run (now : Z) (o : operation) (d : Db) : Db :=
  match o with
  | OpEnqueue input g => (enqueue is_uuid is_datetime localeCompare sha256_hex now input g d).2
  | OpPull nodeId g limit => (pull is_uuid is_datetime localeCompare sha256_hex now nodeId g limit d).2
  | OpRecordResult input => (recordResult is_uuid is_datetime localeCompare sha256_hex now input d).2
  | OpReconcile input => (reconcile is_uuid is_datetime localeCompare sha256_hex now input d).2
  end.

(** The strings of a request are text, without lone surrogates. *)
Definition operation_wf (o : operation) : Prop :=
  match o with
  | OpPull nodeId _ _ => scalars nodeId
  | OpEnqueue input _ | OpRecordResult input | OpReconcile input => value_texts input
  end.

Lemma run_writes now o d : operation_wf o -> rtc (writes now) d (run now o d).
Proof.
  destruct o; intros Ho; [by apply enqueue_stays|by apply pull_stays|apply record_stays|apply reconcile_stays].
Qed.

(** The clock reads a time between 1970 and 9999. *)
Definition valid_now (now : Z) : Prop := 0 <= now <= LAST_TIME.

Definition step (d d' : Db) : Prop := exists now o, valid_now now /\ operation_wf o /\ d' = run now o d.

(** What a write preserves and relates, a history does. *)
Lemma history_invariant (P : Db -> Prop) d d' :
  (forall now d d', valid_now now -> writes now d d' -> P d -> P d') -> rtc step d d' -> P d -> P d'.
Proof.
  intros HP. induction 1 as [|d d1 d' (now & o & Hnow & Ho & ->) _ IH]; [done|]. intros Hd. apply IH. clear IH.
  pose proof (run_writes now o d Ho) as Hw.
  induction Hw as [|x y z Hxy _ IHw]; [done|]. apply IHw. by eapply HP.
Qed.
End Writes.
