(* ===== verification/NodeCommandsLog.v ===== *)
(** * The event log of the command store

    Over every history the log is numbered without gaps, each node's events are linked
    by digests, and the digest of its last event determines a node's whole log. *)

From S2P Require Import Prelude JsString JsMap JsSort JsonText JsonParse Schema Sql Zod JsDate NodeJson NodeControl NodeControlProps NodeCommands NodeReconciliation NodeCommandsInv.

#[local] Open Scope Z_scope.

Definition node_events (nodeId : jsstring) (t : list EventRow) : list EventRow :=
  List.filter (fun r => bool_decide (ev_node_id r = nodeId)) t.

(** What an event says; its sequence number is the database's. *)
Definition content (r : EventRow) :=
  (ev_node_id r, ev_generation r, ev_actor_json r, ev_event_type r, ev_payload_digest r,
   ev_previous_event_digest r, ev_event_digest r, ev_occurred_at r).

(** Each event names the digest of the one before it. *)
Fixpoint linked (previous : option jsstring) (l : list EventRow) : Prop :=
  match l with
  | [] => True
  | r :: l' => ev_previous_event_digest r = previous /\ linked (Some (ev_event_digest r)) l'
  end.

(** Numbered from 1 without gaps. *)
Definition numbered (t : list EventRow) : Prop :=
  forall i r, t !! i = Some r -> ev_sequence r = Z.of_nat i + 1.

Definition last_digest (l : list EventRow) : option jsstring := ev_event_digest <$> last l.

Lemma linked_snoc previous l r :
  linked previous (l ++ [r]) <->
  linked previous l /\ ev_previous_event_digest r = match last_digest l with Some p => Some p | None => previous end.
Proof.
  revert previous; induction l as [|x l IH]; intros previous; simpl; [tauto|].
  rewrite IH. unfold last_digest. destruct l as [|y l]; simpl; [tauto|]. destruct (last (y :: l)) eqn:E; simpl; [tauto|].
  by apply last_None in E.
Qed.

Lemma node_events_snoc n t r :
  node_events n (t ++ [r]) = node_events n t ++ (if bool_decide (ev_node_id r = n) then [r] else []).
Proof. unfold node_events. rewrite List.filter_app. simpl. by destruct (bool_decide _). Qed.

Lemma node_events_elem n t r : r ∈ node_events n t <-> r ∈ t /\ ev_node_id r = n.
Proof.
  unfold node_events. rewrite !list_elem_of_In, List.filter_In, bool_decide_eq_true. done.
Qed.

Lemma numbered_snoc t r : numbered (t ++ [r]) <-> numbered t /\ ev_sequence r = Z.of_nat (length t) + 1.
Proof.
  unfold numbered. split.
  - intros H. split.
    + intros i x Hx. apply H. by apply lookup_app_l_Some.
    + apply H. rewrite lookup_app_r by lia. by rewrite Nat.sub_diag.
  - intros [H Hr] i x Hx. apply lookup_app_Some in Hx as [Hx|[Hi Hx]]; [auto|].
    destruct (i - length t)%nat eqn:E; simplify_eq/=. rewrite Hr. lia.
Qed.

Lemma numbered_bound t r : numbered t -> r ∈ t -> 1 <= ev_sequence r <= Z.of_nat (length t).
Proof. intros H Hr. apply list_elem_of_lookup in Hr as [i Hi]. rewrite (H i r Hi). apply lookup_lt_Some in Hi. lia. Qed.

(** The event with the largest number is the last one. *)
Lemma latest_event_last n t : numbered t -> latest_event n t = last (node_events n t).
Proof.
  induction t as [|r t IH] using rev_ind; intros Ht; [done|].
  apply numbered_snoc in Ht as [Ht Hr]. unfold latest_event. rewrite foldl_app. simpl.
  fold (latest_event n t). rewrite IH by done. rewrite node_events_snoc.
  destruct (bool_decide (ev_node_id r = n)); [|by rewrite app_nil_r]. rewrite last_snoc.
  destruct (last (node_events n t)) as [a|] eqn:E; [|done].
  apply last_Some_elem_of, node_events_elem in E as [E _]. apply (numbered_bound t a Ht) in E.
  destruct (Z.ltb_spec (ev_sequence a) (ev_sequence r)); [done|lia].
Qed.

Section Log.
Context (is_uuid is_datetime : jsstring -> bool) (localeCompare : jsstring -> jsstring -> Z)
  (sha256_hex : bytes -> jsstring).

Abbreviation canonical := (canonicalJson localeCompare).
Abbreviation hash := (digest sha256_hex).
Abbreviation append := (appendEvent localeCompare sha256_hex).
Abbreviation writes := (writes is_uuid is_datetime localeCompare sha256_hex).
Abbreviation step := (step is_uuid is_datetime localeCompare sha256_hex).

(** An event is named by the digest of what it says. *)
Definition event_ok (r : EventRow) : Prop :=
  exists v actor payload,
    parse nodeControlActorSchema v = Some actor /\ ev_actor_json r = canonical actor
    /\ ev_payload_digest r = hash (canonical payload)
    /\ scalars (ev_node_id r) /\ scalars (ev_event_type r)
    /\ ev_event_digest r = hash (canonical (event_document (ev_node_id r) (ev_generation r) actor
         (ev_event_type r) (ev_payload_digest r) (ev_previous_event_digest r) (ev_occurred_at r))).

Record log_ok (d : Db) : Prop := {
  log_counter : event_sequence d = Z.of_nat (length (node_control_events d));
  log_numbered : numbered (node_control_events d);
  log_unique : NoDup (map ev_event_digest (node_control_events d));
  log_events : Forall event_ok (node_control_events d);
  log_linked : forall n, linked None (node_events n (node_control_events d))
}.

(** What [appendEvent] does when it completes. *)
Lemma append_ok now nodeId generation actorInput eventType payload d d' :
  append now nodeId generation actorInput eventType payload d = (Ok tt, d') ->
  exists actor row,
    parse nodeControlActorSchema (embed actorInput) = Some actor
    /\ row = EventRow_ (event_sequence d + 1) nodeId generation (canonical actor) eventType
         (hash (canonical payload)) (ev_event_digest <$> latest_event nodeId (node_control_events d))
         (hash (canonical (event_document nodeId generation actor eventType (hash (canonical payload))
            (ev_event_digest <$> latest_event nodeId (node_control_events d)) now))) now
    /\ Forall (fun r => ev_event_digest r <> ev_event_digest row) (node_control_events d)
    /\ d' = with_events (node_control_events d ++ [row]) (event_sequence d + 1) d.
Proof.
  unfold appendEvent. intros H. apply lift_ok in H as (actor & Ha & H). apply zparse_ok in Ha.
  unfold se_bind at 1, se_gets in H. cbv zeta in H. unfold se_bind at 1, se_get in H.
  apply lift_ok in H as (t & Ht & H). unfold se_modify in H. injection H as <-.
  apply insert_row_inv in Ht as (-> & Hu & _). eexists actor, _. split_and!; [done|reflexivity| |done].
  apply existsb_false in Hu. eapply Forall_impl; [exact Hu|]. simpl. intros r Hr Heq.
  apply bool_decide_eq_false in Hr. by apply Hr.
Qed.

Lemma append_log_ok now nodeId generation actor eventType payload d d' :
  scalars nodeId -> scalars eventType ->
  append now nodeId generation actor eventType payload d = (Ok tt, d') -> log_ok d -> log_ok d'.
Proof.
  intros Hn Ht H [Hc Hnum Hu He Hl]. apply append_ok in H as (a & row & Hp & Hrow & Hf & ->).
  constructor; cbn [node_control_events event_sequence with_events].
  - rewrite length_app, Hc. simpl. lia.
  - apply numbered_snoc. split; [done|]. subst row. simpl. lia.
  - rewrite map_app. apply NoDup_app. split_and!; [done| |by apply NoDup_singleton].
    intros x Hx Hx'. apply list_elem_of_singleton in Hx'. subst x. apply list_elem_of_fmap in Hx as (r & Heq & Hr).
    rewrite Forall_forall in Hf. by apply (Hf r Hr).
  - apply Forall_app. split; [done|]. constructor; [|constructor].
    subst row. exists (embed actor), a, payload. done.
  - intros n. rewrite node_events_snoc. case_bool_decide as E; [|by rewrite app_nil_r].
    apply linked_snoc. split; [done|]. subst row. cbn [ev_previous_event_digest ev_node_id] in *. subst n.
    rewrite latest_event_last by done. unfold last_digest. by destruct (last _).
Qed.

Lemma write_log_ok now d d' : writes now d d' -> log_ok d -> log_ok d'.
Proof.
  intros [mg c d1 _ _ H|id|s id _|i r t _ _ _|n g a ty p d1 Hn Ht H|t|t h] [Hc Hnum Hu He Hl];
    try (by constructor).
  - unfold insert_command in H. destruct (Date_parse _); [|done]. destruct (Date_parse _); [|done].
    unfold se_bind, se_get, se_lift, se_modify in H. destruct (insert_row _ _ _ _); [|done].
    injection H as <-. by constructor.
  - eapply append_log_ok; [| |exact H|by constructor]; done.
Qed.

Lemma log_ok_empty : log_ok empty_db.
Proof. constructor; simpl; try constructor; done. Qed.

Lemma reachable_log_ok d : rtc step empty_db d -> log_ok d.
Proof.
  intros H. eapply history_invariant; [|exact H|apply log_ok_empty].
  intros now x y _. apply write_log_ok.
Qed.

(** *** The digest of an event determines what it says *)

Lemma document_fields n1 g1 a1 t1 p1 v1 o1 n2 g2 a2 t2 p2 v2 o2 :
  canon localeCompare (event_document n1 g1 a1 t1 p1 v1 o1) = canon localeCompare (event_document n2 g2 a2 t2 p2 v2 o2) ->
  n1 = n2 /\ g1 = g2 /\ canon localeCompare a1 = canon localeCompare a2 /\ t1 = t2 /\ p1 = p2 /\ v1 = v2 /\ o1 = o2.
Proof.
  intros E.
  assert (Hf : forall k, canon localeCompare <$> map_get (entries (event_document n1 g1 a1 t1 p1 v1 o1)) k
                       = canon localeCompare <$> map_get (entries (event_document n2 g2 a2 t2 p2 v2 o2)) k).
  { intros k. unfold event_document, entries. rewrite <- !(canon_field localeCompare);
      [unfold event_document in E; by rewrite E|apply (bool_decide_unpack _); vm_compute; exact I..]. }
  pose proof (Hf (js "nodeId")) as H1. pose proof (Hf (js "generation")) as H2. pose proof (Hf (js "actor")) as H3.
  pose proof (Hf (js "eventType")) as H4. pose proof (Hf (js "payloadDigest")) as H5.
  pose proof (Hf (js "previousEventDigest")) as H6. pose proof (Hf (js "occurredAt")) as H7. clear E Hf.
  vm_compute in H1, H2, H4, H5, H7.
  change (Some (canon localeCompare a1) = Some (canon localeCompare a2)) in H3.
  change (Some (canon localeCompare (match v1 with Some p => JStr p | None => JNull end))
        = Some (canon localeCompare (match v2 with Some p => JStr p | None => JNull end))) in H6.
  simplify_eq. split_and!; try congruence. by destruct v1, v2; simplify_eq/=.
Qed.

(** *** Digests that do not collide *)

(** The text that the digest of an event is computed from, by its columns. *)
Definition event_text (r : EventRow) : option jsstring :=
  actor ← (JSON_parse (ev_actor_json r) ≫= parse nodeControlActorSchema);
  Some (canonical (event_document (ev_node_id r) (ev_generation r) actor (ev_event_type r)
    (ev_payload_digest r) (ev_previous_event_digest r) (ev_occurred_at r))).

(** SHA-256 tells the texts of these events apart. *)
Definition digests_apart (l : list EventRow) : Prop :=
  Forall (fun x => Forall (fun y => hash x = hash y -> x = y) (omap event_text l)) (omap event_text l).

#[global] Instance digests_apart_dec l : Decision (digests_apart l).
Proof. unfold digests_apart. apply _. Defined.

Lemma digests_apart_spec l r1 r2 x y :
  digests_apart l -> r1 ∈ l -> r2 ∈ l -> event_text r1 = Some x -> event_text r2 = Some y -> hash x = hash y -> x = y.
Proof.
  unfold digests_apart. intros H H1 H2 E1 E2. rewrite Forall_forall in H.
  assert (Hx : Forall (fun y => hash x = hash y -> x = y) (omap event_text l)) by (apply H, list_elem_of_omap; eauto).
  rewrite Forall_forall in Hx. apply Hx, list_elem_of_omap. eauto.
Qed.

Lemma digests_apart_mono l l' : (forall r, r ∈ l -> r ∈ l') -> digests_apart l' -> digests_apart l.
Proof.
  intros Hs H. apply Forall_forall. intros x Hx. apply Forall_forall. intros y Hy E.
  apply list_elem_of_omap in Hx as (r1 & H1 & E1), Hy as (r2 & H2 & E2).
  apply (digests_apart_spec l' r1 r2 x y); auto.
Qed.

(** The digits of a digest are text. *)
Context (Hhex : forall b, scalars (sha256_hex b)).

Lemma hash_scalars s : scalars (hash s).
Proof. apply Forall_app. split; [by apply text_scalars|apply Hhex]. Qed.

Lemma document_texts n g a t p v o :
  scalars n -> texts a -> scalars t -> scalars p -> match v with Some x => scalars x | None => True end ->
  texts (event_document n g a t p v o).
Proof.
  intros. cbn. split_and!; try done; try (by apply text_scalars); by destruct v.
Qed.

(** The digests a log holds are text. *)
Lemma event_ok_digest r : event_ok r -> scalars (ev_event_digest r).
Proof. intros (v & a & y & _ & _ & _ & _ & _ & ->). apply hash_scalars. Qed.

Definition previous_text (r : EventRow) : Prop :=
  match ev_previous_event_digest r with Some p => scalars p | None => True end.

Lemma event_content l r1 r2 :
  digests_apart l -> r1 ∈ l -> r2 ∈ l ->
  event_ok r1 -> event_ok r2 -> previous_text r1 -> previous_text r2 ->
  ev_event_digest r1 = ev_event_digest r2 -> content r1 = content r2.
Proof.
  intros Hap Hin1 Hin2 (v1 & a1 & y1 & Ha1 & Hj1 & Hy1 & Hn1 & Ht1 & Hd1) (v2 & a2 & y2 & Ha2 & Hj2 & Hy2 & Hn2 & Ht2 & Hd2) Hp1 Hp2 E.
  pose proof E as E0. rewrite Hd1, Hd2 in E. apply (digests_apart_spec l r1 r2) in E; [|done..| |].
  - apply canonicalJson_canon in E.
    + apply document_fields in E as (En & Eg & Ea & Et & Ep & Ev & Eo). unfold content.
      rewrite Hj1, Hj2, !canonicalJson_stringify, Ea, E0. congruence.
    + apply document_texts; [done|by eapply actor_texts|done|rewrite Hy1; apply hash_scalars|done].
    + apply document_texts; [done|by eapply actor_texts|done|rewrite Hy2; apply hash_scalars|done].
  - unfold event_text. by rewrite Hj1, (parse_canonical localeCompare _ v1 a1 actor_schema_ok Ha1 (actor_plain _ _ Ha1)).
  - unfold event_text. by rewrite Hj2, (parse_canonical localeCompare _ v2 a2 actor_schema_ok Ha2 (actor_plain _ _ Ha2)).
Qed.

Lemma linked_texts l : Forall event_ok l -> linked None l -> Forall previous_text l.
Proof.
  induction l as [|r l IH] using rev_ind; intros He Hl; [constructor|].
  apply Forall_app in He as [He Hr]. apply linked_snoc in Hl as [Hl Hp].
  apply Forall_app. split; [auto|]. constructor; [|constructor]. unfold previous_text. rewrite Hp.
  unfold last_digest. destruct (last l) as [x|] eqn:E; [|done]. simpl.
  apply event_ok_digest. rewrite Forall_forall in He. apply He. by apply last_Some_elem_of.
Qed.

(** Linked logs that end in the same digest say the same. *)
Lemma linked_determined l1 l2 :
  digests_apart (l1 ++ l2) ->
  Forall event_ok l1 -> Forall event_ok l2 -> linked None l1 -> linked None l2 ->
  last_digest l1 = last_digest l2 -> map content l1 = map content l2.
Proof.
  revert l2; induction l1 as [|r1 l1 IH] using rev_ind; intros l2 Hap He1 He2 Hl1 Hl2 E.
  { destruct l2 as [|r2 l2 _] using rev_ind; [done|]. unfold last_digest in E. by rewrite last_snoc in E. }
  destruct l2 as [|r2 l2 _] using rev_ind; [unfold last_digest in E; by rewrite last_snoc in E|].
  pose proof (linked_texts _ He1 Hl1) as Hx1. pose proof (linked_texts _ He2 Hl2) as Hx2.
  apply Forall_app in He1 as [He1 Hr1], He2 as [He2 Hr2], Hx1 as [_ Hx1], Hx2 as [_ Hx2].
  apply Forall_cons in Hr1 as [Hr1 _], Hr2 as [Hr2 _], Hx1 as [Hx1 _], Hx2 as [Hx2 _].
  apply linked_snoc in Hl1 as [Hl1 Hp1], Hl2 as [Hl2 Hp2].
  unfold last_digest in E. rewrite !last_snoc in E. simpl in E. injection E as E.
  assert (Hc : content r1 = content r2).
  { apply (event_content _ r1 r2 Hap); try done; rewrite !elem_of_app, !list_elem_of_singleton; auto. }
  assert (Hlast : last_digest l1 = last_digest l2).
  { assert (Hpp : ev_previous_event_digest r1 = ev_previous_event_digest r2) by (unfold content in Hc; congruence).
    rewrite Hp1, Hp2 in Hpp. by destruct (last_digest l1), (last_digest l2). }
  rewrite !map_app, (IH l2); [simpl; by rewrite Hc| |done..].
  eapply digests_apart_mono; [|exact Hap]. intros r. rewrite !elem_of_app. tauto.
Qed.

(** ** Appending succeeds *)

Lemma node_events_unique n t : NoDup (map ev_event_digest t) -> NoDup (map ev_event_digest (node_events n t)).
Proof.
  induction t as [|r t IH]; simpl; intros H; [done|]. apply NoDup_cons in H as [Hr H].
  destruct (bool_decide _); simpl; [|auto]. constructor; [|auto].
  intros Hx. apply Hr. apply list_elem_of_fmap in Hx as (x & -> & Hx). apply list_elem_of_fmap.
  exists x. split; [done|]. by apply node_events_elem in Hx as [? _].
Qed.

Lemma linked_split previous l1 r l2 :
  linked previous (l1 ++ r :: l2) ->
  ev_previous_event_digest r = match last_digest l1 with Some p => Some p | None => previous end.
Proof.
  intros H. replace (l1 ++ r :: l2) with ((l1 ++ [r]) ++ l2) in H by (by rewrite <- app_assoc).
  assert (Hl : forall k1 k2 pr, linked pr (k1 ++ k2) -> linked pr k1).
  { induction k1 as [|x k1 IH]; intros k2 pr Hk; [done|]. destruct Hk as [Hx Hk]. split; [done|]. by eapply IH. }
  apply Hl, linked_snoc in H as [_ ?]. done.
Qed.

(** No event of a log has the last event as its predecessor. *)
Lemma last_is_last n t r :
  NoDup (map ev_event_digest t) -> linked None (node_events n t) -> r ∈ node_events n t ->
  ev_previous_event_digest r <> last_digest (node_events n t).
Proof.
  intros Hu Hl Hr E. apply (node_events_unique n) in Hu. apply list_elem_of_split in Hr as (l1 & l2 & Hs).
  rewrite Hs in Hl, Hu, E. apply linked_split in Hl. rewrite E in Hl. unfold last_digest in Hl.
  rewrite last_app in Hl. destruct (last (r :: l2)) as [y|] eqn:Ey; [|by apply last_None in Ey].
  simpl in Hl. destruct (last l1) as [x|] eqn:Ex; simpl in Hl; [|done]. injection Hl as Hxy.
  apply last_Some_elem_of in Ex, Ey. rewrite map_app in Hu. apply NoDup_app in Hu as (_ & Hu & _).
  apply (Hu (ev_event_digest x)).
  - apply list_elem_of_fmap. eauto.
  - rewrite <- Hxy. apply list_elem_of_fmap. eauto.
Qed.

(** What an event is made of, but its node and its time. *)
Record log_entry := LogEntry {
  le_generation : Z;
  le_actor : json;
  le_type : jsstring;
  le_payload : json;
}.

(** The event that comes after those of [t]. *)
Definition event_row (now : Z) (nodeId : jsstring) (t : list EventRow) (e : log_entry) : EventRow :=
  let previous := last_digest (node_events nodeId t) in
  let payloadDigest := hash (canonical (le_payload e)) in
  EventRow_ (Z.of_nat (length t) + 1) nodeId (le_generation e) (canonical (le_actor e)) (le_type e) payloadDigest previous
    (hash (canonical (event_document nodeId (le_generation e) (le_actor e) (le_type e) payloadDigest previous now))) now.

Definition extend_log (now : Z) (nodeId : jsstring) (t : list EventRow) (es : list log_entry) : list EventRow :=
  foldl (fun t e => t ++ [event_row now nodeId t e]) t es.

Lemma extend_log_app now nodeId t es es' :
  extend_log now nodeId t (es ++ es') = extend_log now nodeId (extend_log now nodeId t es) es'.
Proof. unfold extend_log. by rewrite foldl_app. Qed.

Lemma extend_log_prefix now nodeId t es r : r ∈ t -> r ∈ extend_log now nodeId t es.
Proof.
  revert t. induction es as [|e es IH]; intros t Hr; [done|]. simpl. apply IH, elem_of_app. by left.
Qed.

(** Once the events before it and the new one are told apart, it is appended. *)
Lemma append_succeeds now nodeId e d :
  scalars nodeId -> scalars (le_type e) -> log_ok d -> parse nodeControlActorSchema (embed (le_actor e)) = Some (le_actor e) ->
  digests_apart (extend_log now nodeId (node_control_events d) [e]) ->
  append now nodeId (le_generation e) (le_actor e) (le_type e) (le_payload e) d
  = (Ok tt, with_events (extend_log now nodeId (node_control_events d) [e]) (event_sequence d + 1) d).
Proof.
  clear is_uuid is_datetime.
  intros Hn Ht [Hc Hnum Hu He Hl] Ha Hap. unfold appendEvent, se_bind at 1, se_lift at 1. rewrite (proj2 (zparse_ok _ _ _) Ha).
  unfold se_bind at 1, se_gets. cbv zeta. unfold se_bind at 1, se_get.
  rewrite latest_event_last by done. fold (last_digest (node_events nodeId (node_control_events d))). rewrite Hc.
  cbn [extend_log foldl] in Hap |- *. fold (event_row now nodeId (node_control_events d) e).
  set (row := event_row now nodeId (node_control_events d) e) in *. unfold se_bind, se_lift, insert_row.
  destruct (existsb _ (node_control_events d)) eqn:Ex; cbn [orb negb]; [exfalso|done].
  apply existsb_exists in Ex as (r & Hr & Eq). apply bool_decide_eq_true in Eq. apply list_elem_of_In in Hr.
  assert (Hrow : event_ok row) by (exists (embed (le_actor e)), (le_actor e), (le_payload e); done).
  rewrite Forall_forall in He. pose proof (He r Hr) as Hrok.
  assert (Hpt : previous_text row).
  { unfold previous_text. cbn. unfold last_digest. destruct (last _) as [x|] eqn:El; [|done].
    apply event_ok_digest, He. apply last_Some_elem_of, node_events_elem in El. tauto. }
  assert (Hpr : previous_text r).
  { assert (Hf : Forall previous_text (node_events (ev_node_id r) (node_control_events d))).
    { apply linked_texts; [|done]. apply Forall_forall. intros x Hx. apply He. by apply node_events_elem in Hx as [? _]. }
    rewrite Forall_forall in Hf. apply Hf. by apply node_events_elem. }
  assert (Hcon : content row = content r).
  { apply (event_content _ row r Hap); try done; rewrite elem_of_app, ?list_elem_of_singleton; auto. }
  assert (Hnode : ev_node_id r = nodeId) by (unfold content, row in Hcon; simpl in Hcon; congruence).
  assert (Hpe : ev_previous_event_digest r = last_digest (node_events nodeId (node_control_events d)))
    by (unfold content, row in Hcon; simpl in Hcon; congruence).
  by apply (last_is_last nodeId (node_control_events d) r); [..|apply node_events_elem|].
Qed.

Lemma append_run now nodeId e d :
  scalars nodeId -> scalars (le_type e) -> log_ok d -> parse nodeControlActorSchema (embed (le_actor e)) = Some (le_actor e) ->
  digests_apart (extend_log now nodeId (node_control_events d) [e]) ->
  exists d', append now nodeId (le_generation e) (le_actor e) (le_type e) (le_payload e) d = (Ok tt, d')
    /\ d' = with_events (extend_log now nodeId (node_control_events d) [e]) (event_sequence d + 1) d /\ log_ok d'.
Proof.
  intros Hn Ht Hl Ha Hap. pose proof (append_succeeds now nodeId e d Hn Ht Hl Ha Hap) as H.
  eexists. split_and!; [exact H|done|]. by eapply append_log_ok; [..|exact H|].
Qed.
End Log.

(** C30 (invariant). Over every history of commands, deliveries, results and snapshots
    the control events are numbered 1, 2, 3, ... without gaps or repeated digests, and the events of each
    node form a hash chain: the first one has no predecessor, each other one carries the
    digest of the event before it, and the digest of every event is that of the
    canonical JSON of its columns. *)
Theorem event_log_linked (is_uuid is_datetime : jsstring -> bool) (localeCompare : jsstring -> jsstring -> Z)
    (sha256_hex : bytes -> jsstring) d :
  rtc (step is_uuid is_datetime localeCompare sha256_hex) empty_db d ->
  numbered (node_control_events d)
  /\ NoDup (map ev_event_digest (node_control_events d))
  /\ Forall (event_ok localeCompare sha256_hex) (node_control_events d)
  /\ forall n, linked None (node_events n (node_control_events d)).
Proof. intros H. apply reachable_log_ok in H as [_ ? ? ? ?]. done. Qed.

(** C29 (safety). The log is tamper-evident: if two histories, of this coordinator or of
    two, leave the same digest on the last event of a node, and SHA-256 tells apart the
    texts of the events the two logs have for that node, then they logged the same
    events for it (every column but the number in the database, in the same order). *)
Theorem event_log_tamper_evident (is_uuid is_datetime : jsstring -> bool) (localeCompare : jsstring -> jsstring -> Z)
    (sha256_hex : bytes -> jsstring) d1 d2 n :
  (forall b, scalars (sha256_hex b)) ->
  rtc (step is_uuid is_datetime localeCompare sha256_hex) empty_db d1 ->
  rtc (step is_uuid is_datetime localeCompare sha256_hex) empty_db d2 ->
  digests_apart localeCompare sha256_hex (node_events n (node_control_events d1) ++ node_events n (node_control_events d2)) ->
  ev_event_digest <$> latest_event n (node_control_events d1) = ev_event_digest <$> latest_event n (node_control_events d2) ->
  map content (node_events n (node_control_events d1)) = map content (node_events n (node_control_events d2)).
Proof.
  intros Hhex H1 H2 Hap E. apply reachable_log_ok in H1 as [_ Hn1 _ He1 Hl1], H2 as [_ Hn2 _ He2 Hl2].
  rewrite !latest_event_last in E by done. apply (linked_determined localeCompare sha256_hex Hhex); auto.
  - rewrite Forall_forall in *. intros r Hr. apply He1. by apply node_events_elem in Hr as [? _].
  - rewrite Forall_forall in *. intros r Hr. apply He2. by apply node_events_elem in Hr as [? _].
Qed.
