(* ===== verification/NodeCommandsProps.v ===== *)
(** * The command store: what it promises *)

From S2P Require Import Prelude JsString JsMap JsSort JsonText JsonParse Schema Sql Zod JsDate NodeJson NodeControl NodeControlProps NodeCommands NodeReconciliation NodeCommandsInv NodeCommandsLog.

#[local] Open Scope Z_scope.

(** ** The life of a command *)

Inductive advances : CommandState -> CommandState -> Prop :=
| adv_refl s : advances s s
| adv_delivered : advances Queued Delivered
| adv_complete s s' : is_pending s = true -> is_pending s' = false -> advances s s'.

(** What identifies a command and what it says. *)
Definition same_command (r r' : CommandRow) : Prop :=
  cr_id r' = cr_id r /\ cr_node_id r' = cr_node_id r /\ cr_generation r' = cr_generation r
  /\ cr_nonce r' = cr_nonce r /\ cr_command_json r' = cr_command_json r
  /\ cr_issued_at r' = cr_issued_at r /\ cr_expires_at r' = cr_expires_at r /\ cr_created_at r' = cr_created_at r.

Definition row_evolves (r r' : CommandRow) : Prop :=
  same_command r r' /\ advances (cr_state r) (cr_state r') /\ (is_pending (cr_state r) = false -> r' = r).

(** Rows stay in place and evolve; new ones come after them. *)
Definition rows_evolve (t t' : list CommandRow) : Prop :=
  exists l1 l2, t' = l1 ++ l2 /\ Forall2 row_evolves t l1.

Lemma advances_trans a b c : advances a b -> advances b c -> (is_pending b = false -> c = b) -> advances a c.
Proof.
  intros [s| |s s' Hs Hs'] H2 Hc; [done| |rewrite (Hc Hs'); by constructor].
  inversion H2; subst; [constructor|]. by constructor.
Qed.

#[export] Instance row_evolves_po : PreOrder row_evolves.
Proof.
  split.
  - intros r. unfold row_evolves, same_command. split_and!; try done. constructor.
  - intros r1 r2 r3 (H1 & A1 & F1) (H2 & A2 & F2). unfold row_evolves, same_command in *.
    split.
    { destruct H1 as (? & ? & ? & ? & ? & ? & ? & ?), H2 as (? & ? & ? & ? & ? & ? & ? & ?).
      repeat split; congruence. }
    split.
    + eapply advances_trans; [exact A1|exact A2|]. intros Hp. by rewrite (F2 Hp).
    + intros Hp. specialize (F1 Hp). subst r2. by apply F2.
Qed.

#[export] Instance rows_evolve_po : PreOrder rows_evolve.
Proof.
  split.
  - intros t. exists t, []. rewrite app_nil_r. split; [done|]. reflexivity.
  - intros t1 t2 t3 (l1 & k1 & -> & H1) (l2 & k2 & -> & H2).
    apply Forall2_app_inv_l in H2 as (m1 & m2 & Hm1 & Hm2 & ->). exists m1, (m2 ++ k2).
    rewrite app_assoc. split; [done|]. clear Hm2.
    revert m1 Hm1. induction H1 as [|r x t l Hr _ IH]; intros m1 Hm1; inversion Hm1; subst; constructor; [|auto].
    by etransitivity.
Qed.

Lemma set_state_evolves from set id t :
  (forall r, from (cr_state r) = true -> row_evolves r (set r)) ->
  rows_evolve t (map (fun r => if bool_decide (cr_id r = id) && from (cr_state r) then set r else r) t).
Proof.
  intros Hs. eexists _, []. rewrite app_nil_r. split; [reflexivity|].
  induction t as [|r t IH]; simpl; constructor; [|done].
  destruct (bool_decide (cr_id r = id)); simpl; [|reflexivity]. destruct (from (cr_state r)) eqn:E; [auto|reflexivity].
Qed.

Lemma deliver_evolves now r : bool_decide (cr_state r = Queued) = true -> row_evolves r (deliver now r).
Proof.
  intros H. apply bool_decide_eq_true in H. unfold row_evolves, same_command, deliver. simpl. rewrite H.
  split_and!; try done. constructor.
Qed.

Lemma complete_evolves now s r :
  is_pending s = false -> is_pending (cr_state r) = true -> row_evolves r (complete now s r).
Proof.
  intros Hs H. unfold row_evolves, same_command, complete. simpl. split_and!; try done; [by constructor|congruence].
Qed.

Lemma rows_evolve_elem t t' r : rows_evolve t t' -> r ∈ t -> exists r', r' ∈ t' /\ row_evolves r r'.
Proof.
  intros (l1 & l2 & -> & H) Hr. apply list_elem_of_lookup in Hr as [i Hi].
  apply (Forall2_lookup_l _ _ _ _ _ H) in Hi as (r' & Hr' & He). exists r'. split; [|done].
  apply elem_of_app. left. by eapply list_elem_of_lookup_2.
Qed.

Section Props.
Context (is_uuid is_datetime : jsstring -> bool) (localeCompare : jsstring -> jsstring -> Z)
  (sha256_hex : bytes -> jsstring).

Abbreviation canonical := (canonicalJson localeCompare).
Abbreviation writes := (writes is_uuid is_datetime localeCompare sha256_hex).
Abbreviation step := (step is_uuid is_datetime localeCompare sha256_hex).
Abbreviation commandSchema := (nodeCommandSchema is_uuid is_datetime).
Abbreviation resultSchema := (nodeCommandResultSchema is_uuid is_datetime).

Lemma insert_command_ok now command d d' :
  insert_command localeCompare now command d = (Ok tt, d') ->
  exists issuedAt expiresAt row,
    Date_parse (jstr "issuedAt" command) = Some issuedAt /\ Date_parse (jstr "expiresAt" command) = Some expiresAt
    /\ row = CommandRow_ (jstr "id" command) (jstr "nodeId" command) (jnum "generation" command)
         (jstr "nonce" command) (canonical command) Queued issuedAt expiresAt now None None
    /\ Forall (fun r => command_conflict row r = false) (node_commands d)
    /\ d' = with_commands (node_commands d ++ [row]) d.
Proof.
  unfold insert_command. destruct (Date_parse (jstr "issuedAt" command)) as [i|]; [|done].
  destruct (Date_parse (jstr "expiresAt" command)) as [e|]; [|done].
  unfold se_bind at 1, se_get. cbv zeta. intros H. apply lift_ok in H as (t & Ht & H).
  unfold se_modify in H. injection H as <-. apply insert_row_inv in Ht as (-> & Hu & _).
  eexists i, e, _. split_and!; [done|done|reflexivity| |done]. by apply existsb_false.
Qed.

Lemma append_keeps now nodeId generation actor eventType payload d d' :
  appendEvent localeCompare sha256_hex now nodeId generation actor eventType payload d = (Ok tt, d') ->
  node_commands d' = node_commands d /\ node_command_results d' = node_command_results d.
Proof. intros H. apply append_ok in H as (a & row & _ & _ & _ & ->). done. Qed.

Lemma write_evolves now d d' : writes now d d' -> rows_evolve (node_commands d) (node_commands d').
Proof.
  intros [mg c d1 _ _ H|id|s id Hs|i r t _ _ _|n g a ty p d1 _ _ H|t|t h]; cbn [node_commands with_results with_desired with_snapshots];
    try reflexivity.
  - apply insert_command_ok in H as (i & e & row & _ & _ & _ & _ & ->). eexists _, [row]. split; [reflexivity|].
    reflexivity.
  - apply set_state_evolves, deliver_evolves.
  - apply set_state_evolves. intros r. by apply complete_evolves.
  - apply append_keeps in H as [-> _]. reflexivity.
Qed.

Lemma history_evolves d d' : rtc step d d' -> rows_evolve (node_commands d) (node_commands d').
Proof.
  intros H. apply (history_invariant is_uuid is_datetime localeCompare sha256_hex
    (fun x => rows_evolve (node_commands d) (node_commands x)) d d'); [|done|done].
  intros now x y _ Hw Hx. etransitivity; [exact Hx|]. by eapply write_evolves.
Qed.

(** ** What the tables hold *)

(** A row holds a command that was authorised when the row was created. *)
Definition command_row_ok (r : CommandRow) : Prop :=
  exists v command,
    parse commandSchema v = Some command /\ plain command /\ cr_command_json r = canonical command
    /\ cr_id r = jstr "id" command /\ cr_node_id r = jstr "nodeId" command
    /\ cr_generation r = jnum "generation" command /\ cr_nonce r = jstr "nonce" command
    /\ Date_parse (jstr "issuedAt" command) = Some (cr_issued_at r)
    /\ Date_parse (jstr "expiresAt" command) = Some (cr_expires_at r)
    /\ cr_issued_at r <= cr_created_at r + NODE_CONTROL_MAX_CLOCK_SKEW_MS
    /\ cr_created_at r < cr_expires_at r /\ cr_issued_at r < cr_expires_at r
    /\ in_scope command = true
    /\ (jstr "kind" (jobj "actor" command) = js "node" -> jstr "type" command = js "rollback").

(** A result belongs to a command and was parsed. *)
Definition result_row_ok (d : Db) (r : ResultRow) : Prop :=
  exists v result,
    parse resultSchema v = Some result /\ rr_result_json r = canonical result
    /\ rr_command_id r = jstr "commandId" result /\ rr_command_id r ∈ map cr_id (node_commands d).

Record tables_ok (d : Db) : Prop := {
  ok_commands : Forall command_row_ok (node_commands d);
  ok_ids : NoDup (map cr_id (node_commands d));
  ok_nonces : NoDup (map (fun r => (cr_node_id r, cr_nonce r)) (node_commands d));
  ok_results : Forall (result_row_ok d) (node_command_results d);
  ok_result_ids : NoDup (map rr_command_id (node_command_results d))
}.

Lemma parseAuthorized_spec input ctx command :
  parseAuthorizedNodeCommand is_uuid is_datetime input ctx = Ok command ->
  parse commandSchema input = Some command
  /\ jstr "nodeId" command = ctx_expectedNodeId ctx
  /\ ctx_minimumGeneration ctx <= jnum "generation" command
  /\ jstr "nonce" command ∉ ctx_consumedNonces ctx
  /\ time_gt (Date_parse (jstr "issuedAt" command)) (ctx_now ctx + NODE_CONTROL_MAX_CLOCK_SKEW_MS) = false
  /\ time_le (Date_parse (jstr "expiresAt" command)) (ctx_now ctx) = false
  /\ times_le (Date_parse (jstr "expiresAt" command)) (Date_parse (jstr "issuedAt" command)) = false
  /\ in_scope command = true
  /\ (jstr "kind" (jobj "actor" command) = js "node" -> jstr "type" command = js "rollback").
Proof.
  unfold parseAuthorizedNodeCommand. destruct (zparse _ _) as [c|] eqn:E; [|done]. apply zparse_ok in E. cbv zeta.
  destruct (negb (bool_decide (jstr "nodeId" c = ctx_expectedNodeId ctx))) eqn:E1; [done|].
  destruct (jnum "generation" c <? ctx_minimumGeneration ctx) eqn:E2; [done|].
  destruct (bool_decide (jstr "nonce" c ∈ ctx_consumedNonces ctx)) eqn:E3; [done|].
  destruct (time_gt _ _) eqn:E4; [done|]. destruct (time_le _ _) eqn:E5; [done|].
  destruct (times_le _ _) eqn:E6; [done|]. destruct (negb (in_scope c)) eqn:E7; [done|].
  destruct (bool_decide (jstr "kind" (jobj "actor" c) = js "node")
            && negb (bool_decide (jstr "type" c = js "rollback"))) eqn:E8; [done|].
  intros [= <-]. apply negb_false_iff in E1, E7. apply bool_decide_eq_true in E1. apply bool_decide_eq_false in E3.
  apply Z.ltb_ge in E2. split_and!; try done. intros Hk.
  rewrite bool_decide_eq_true_2 in E8 by done. cbn [andb] in E8. by apply negb_false_iff, bool_decide_eq_true in E8.
Qed.

Lemma admitted_row_ok now mg command d d' :
  plain command -> admitted is_uuid is_datetime now mg (node_commands d) command ->
  insert_command localeCompare now command d = (Ok tt, d') ->
  exists row, d' = with_commands (node_commands d ++ [row]) d /\ command_row_ok row
    /\ Forall (fun r => command_conflict row r = false) (node_commands d).
Proof.
  intros Hpl (input & Ha) H. apply insert_command_ok in H as (i & e & row & Hi & He & Hrow & Hf & ->).
  exists row. split_and!; [done| |done].
  apply parseAuthorized_spec in Ha as (Hp & _ & _ & _ & H1 & H2 & H3 & H4 & H5). cbn [ctx_now] in H1, H2.
  rewrite Hi in H1, H3. rewrite He in H2, H3. simpl in H1, H2, H3. bool_prop.
  exists input, command. subst row. cbn. split_and!; try done; lia.
Qed.

Lemma same_command_ok r r' : same_command r r' -> command_row_ok r -> command_row_ok r'.
Proof.
  intros (E1 & E2 & E3 & E4 & E5 & E6 & E7 & E8) (v & c & H). exists v, c.
  by rewrite E1, E2, E3, E4, E5, E6, E7, E8.
Qed.

(** Rows that evolve in place keep their keys. *)
Lemma evolved_keys {A} (f : CommandRow -> A) t l :
  (forall r r', same_command r r' -> f r' = f r) -> Forall2 row_evolves t l -> map f l = map f t.
Proof. intros Hf. induction 1 as [|r r' t l (H & _) _ IH]; simpl; [done|]. by rewrite IH, (Hf r r' H). Qed.

Lemma evolved_ok t l : Forall2 row_evolves t l -> Forall command_row_ok t -> Forall command_row_ok l.
Proof.
  induction 1 as [|r r' t l (H & _) _ IH]; [done|]. rewrite !Forall_cons. intros [Hr Ht].
  split; [by eapply same_command_ok|auto].
Qed.

Lemma set_state_ok from set id d :
  (forall r, from (cr_state r) = true -> row_evolves r (set r)) -> tables_ok d -> tables_ok (set_state from set id d).
Proof.
  intros Hs [Hc Hi Hn Hr Hri]. pose proof (set_state_evolves from set id (node_commands d) Hs) as (l & k & El & Hl).
  assert (k = []) as ->.
  { apply (f_equal length) in El. rewrite length_map, length_app, <- (Forall2_length _ _ _ Hl) in El.
    destruct k; [done|simpl in El; lia]. }
  rewrite app_nil_r in El. unfold set_state. rewrite El.
  assert (Hids : map cr_id l = map cr_id (node_commands d)) by (eapply evolved_keys; [|exact Hl]; by intros ?? (? & _)).
  constructor; cbn [node_commands node_command_results with_commands].
  - by eapply evolved_ok.
  - by rewrite Hids.
  - rewrite (evolved_keys (fun r => (cr_node_id r, cr_nonce r)) (node_commands d) l); [done| |done].
    intros r r' (_ & E1 & _ & E2 & _). by rewrite E1, E2.
  - eapply Forall_impl; [exact Hr|]. intros r (v & j & ? & ? & ? & ?). exists v, j.
    cbn [node_commands with_commands]. by rewrite Hids.
  - done.
Qed.

Lemma insert_command_tables now mg command d d' :
  plain command -> admitted is_uuid is_datetime now mg (node_commands d) command ->
  insert_command localeCompare now command d = (Ok tt, d') -> tables_ok d -> tables_ok d'.
Proof.
  intros Hpl Ha H [Hc Hi Hn Hr Hri]. destruct (admitted_row_ok _ _ _ _ _ Hpl Ha H) as (row & -> & Hrow & Hf).
  rewrite Forall_forall in Hf.
  constructor; cbn [node_commands node_command_results with_commands]; rewrite ?map_app.
  - apply Forall_app. split; [done|]. by constructor.
  - apply NoDup_app. split_and!; [done| |by apply NoDup_singleton].
    intros x Hx Hx'. apply list_elem_of_singleton in Hx' as ->. apply list_elem_of_fmap in Hx as (r & Heq & Hr').
    apply Hf in Hr'. unfold command_conflict in Hr'. by rewrite (bool_decide_eq_true_2 _ Heq) in Hr'.
  - apply NoDup_app. split_and!; [done| |by apply NoDup_singleton].
    intros x Hx Hx'. apply list_elem_of_singleton in Hx' as ->. apply list_elem_of_fmap in Hx as (r & Heq & Hr').
    injection Heq as E1 E2. apply Hf in Hr'. unfold command_conflict in Hr'.
    rewrite (bool_decide_eq_true_2 _ E1), (bool_decide_eq_true_2 _ E2), orb_true_r in Hr'. done.
  - eapply Forall_impl; [exact Hr|]. intros r (v & j & ? & ? & ? & ?). exists v, j.
    cbn [node_commands with_commands]. rewrite map_app, elem_of_app. auto.
  - done.
Qed.

Lemma insert_result_tables input result t d :
  parse resultSchema input = Some result -> insert_result localeCompare result d = Ok t ->
  tables_ok d -> tables_ok (with_results t d).
Proof.
  intros Hp H [Hc Hi Hn Hr Hri]. unfold insert_result in H. destruct (Date_parse _) as [o|]; [|done].
  apply insert_row_inv in H as (-> & Hu & Hex). apply existsb_false in Hu. rewrite Forall_forall in Hu.
  apply existsb_exists in Hex as (x & Hx & Ex). apply bool_decide_eq_true in Ex. apply list_elem_of_In in Hx.
  constructor; cbn [node_commands node_command_results with_results]; try done.
  - apply Forall_app. split; [exact Hr|]. constructor; [|constructor]. exists input, result.
    cbn. split_and!; [done|done|done|]. rewrite <- Ex. apply list_elem_of_fmap. eauto.
  - rewrite map_app. apply NoDup_app. split_and!; [done| |by apply NoDup_singleton].
    intros y Hy Hy'. apply list_elem_of_singleton in Hy' as ->. apply list_elem_of_fmap in Hy as (r & Heq & Hr').
    apply Hu in Hr'. unfold result_conflict in Hr'. rewrite (bool_decide_eq_true_2 _ Heq), orb_true_r in Hr'. done.
Qed.

Lemma write_tables_ok now d d' : writes now d d' -> tables_ok d -> tables_ok d'.
Proof.
  intros [mg c d1 Hpl Ha H|id|s id Hs|i r t Hp H _|n g a ty p d1 _ _ H|t|t h] Hok.
  - by eapply insert_command_tables.
  - apply set_state_ok; [apply deliver_evolves|done].
  - apply set_state_ok; [|done]. intros r. by apply complete_evolves.
  - by eapply insert_result_tables.
  - apply append_ok in H as (a' & row & _ & _ & _ & ->). by destruct Hok.
  - by destruct Hok.
  - by destruct Hok.
Qed.

Lemma reachable_tables_ok d : rtc step empty_db d -> tables_ok d.
Proof.
  intros H. eapply (history_invariant is_uuid is_datetime localeCompare sha256_hex); [|exact H|].
  - intros now x y _. apply write_tables_ok.
  - constructor; constructor.
Qed.

(** ** Reading rows back *)

Lemma readCommand_elem d r : tables_ok d -> r ∈ node_commands d -> readCommand (cr_id r) d = Some r.
Proof.
  intros [_ Hi _ _ _] Hr. unfold readCommand. induction (node_commands d) as [|x t IH]; [by apply elem_of_nil in Hr|].
  simpl. apply NoDup_cons in Hi as [Hx Hi]. case_bool_decide as E.
  - apply elem_of_cons in Hr as [->|Hr]; [done|]. destruct Hx. rewrite E. apply list_elem_of_fmap. eauto.
  - apply elem_of_cons in Hr as [->|Hr]; [done|]. auto.
Qed.

Lemma readCommand_Some d id r : readCommand id d = Some r -> r ∈ node_commands d /\ cr_id r = id.
Proof. unfold readCommand. intros H. apply select_one_Some in H as [H E]. by apply bool_decide_eq_true in E. Qed.

Lemma read_canonical s v j :
  zod_ok s = true -> parse s v = Some j -> plain j -> read_document s (canonical j) = Ok j.
Proof.
  intros Hs Hp Hj. unfold read_document. pose proof (parse_canonical localeCompare s v j Hs Hp Hj) as H.
  destruct (JSON_parse (canonical j)) as [w|]; [|done]. simpl in H. by apply zparse_ok.
Qed.

Lemma command_plain v c : value_texts v -> parse commandSchema v = Some c -> plain c.
Proof. intros Hv. apply parse_plain; [apply command_schema_ok|by right]. Qed.

Lemma result_plain v r : value_texts v -> parse resultSchema v = Some r -> plain r.
Proof. intros Hv. apply parse_plain; [apply result_schema_ok|by right]. Qed.

Lemma desired_keeps now command d a d' :
  updateDesiredState is_datetime localeCompare now command d = (Ok a, d') ->
  node_commands d' = node_commands d /\ node_control_events d' = node_control_events d
  /\ event_sequence d' = event_sequence d.
Proof.
  unfold updateDesiredState. unfold se_bind at 1, se_get. cbv zeta. destruct (select_one _ _); [|by intros [= _ <-]].
  intros H. apply lift_ok in H as (cur & _ & H). destruct (negb _); [done|].
  apply lift_ok in H as (at_ & _ & H). apply lift_ok in H as (nx & _ & H). by injection H as _ <-.
Qed.

Abbreviation enqueue := (enqueue is_uuid is_datetime localeCompare sha256_hex).

(** A command that was accepted has a row with its text. *)
Lemma enqueue_row now input g d c s d' :
  value_texts input -> enqueue now input g d = (Ok (c, s), d') ->
  parse commandSchema input = Some c
  /\ exists row, row ∈ node_commands d' /\ cr_id row = jstr "id" c /\ cr_command_json row = canonical c /\ cr_state row = s.
Proof.
  intros Hv H. unfold NodeCommands.enqueue in H. apply lift_ok in H as (p & Hp & H). apply zparse_ok in Hp.
  pose proof (command_plain input p Hv Hp) as Hpl. apply transaction_ok in H. unfold se_bind at 1, se_get in H.
  destruct (readCommand (jstr "id" p) d) as [row|] eqn:Er.
  - destruct (bool_decide (cr_command_json row = canonical p)) eqn:Ej; [|done]. cbn [negb] in H.
    apply bool_decide_eq_true in Ej. unfold se_lift, toDurable in H.
    rewrite Ej, (read_canonical commandSchema input p) in H by (apply command_schema_ok || done).
    injection H as <- <- <-. apply readCommand_Some in Er as [Hr Hid]. split; [done|]. by exists row.
  - cbv zeta in H. apply lift_ok in H as (command & Hc & H).
    apply parseAuthorized_parsed in Hc.
    rewrite (parse_again commandSchema input p (embed p) (command_schema_ok _ _) Hp (same_embed p Hpl)) in Hc.
    injection Hc as <-.
    apply bind_ok in H as ([] & d1 & Hins & H). apply bind_ok in H as (u & d2 & Hdes & H).
    apply bind_ok in H as (w & d3 & Hev & H). injection H as <- <- <-. split; [done|].
    apply insert_command_ok in Hins as (i & e & row & _ & _ & Hrow & _ & ->).
    exists row. apply desired_keeps in Hdes as (Hdes & _ & _). destruct w. apply append_keeps in Hev as [Hev _].
    rewrite Hev, Hdes. cbn [node_commands with_commands]. rewrite elem_of_app, list_elem_of_singleton.
    subst row. cbn. split_and!; auto.
Qed.

(** ** Results *)

Lemma history_results d d' : rtc step d d' -> exists k, node_command_results d' = node_command_results d ++ k.
Proof.
  intros H. apply (history_invariant is_uuid is_datetime localeCompare sha256_hex
    (fun x => exists k, node_command_results x = node_command_results d ++ k) d d'); [|done|exists []; by rewrite app_nil_r].
  intros now x y _ Hw (k & Hk).
  destruct Hw as [mg c d1 _ _ H'|id|s id Hs|i r t _ H' _|n g a ty p d1 _ _ H'|t|t h]; simpl; try (by exists k).
  - apply insert_command_ok in H' as (? & ? & row & _ & _ & _ & _ & ->). by exists k.
  - unfold insert_result in H'. destruct (Date_parse _); [|done]. apply insert_row_inv in H' as (-> & _ & _).
    eexists. rewrite Hk, <- app_assoc. reflexivity.
  - apply append_keeps in H' as [_ ->]. by exists k.
Qed.

(** The result row of a command. *)
Definition result_row (id : jsstring) (d : Db) : option ResultRow :=
  select_one (fun r => bool_decide (rr_command_id r = id)) (node_command_results d).

Lemma result_row_kept id row d d' : rtc step d d' -> result_row id d = Some row -> result_row id d' = Some row.
Proof.
  intros H Hr. apply history_results in H as (k & Hk). unfold result_row. rewrite Hk, select_one_app.
  unfold result_row in Hr. by rewrite Hr.
Qed.

Abbreviation recordResult := (recordResult is_uuid is_datetime localeCompare sha256_hex).

(** A result that was recorded has a row with its text, and its command agrees with it. *)
Lemma record_row now input d r d' :
  value_texts input -> recordResult now input d = (Ok r, d') ->
  parse resultSchema input = Some r /\ jstr "state" r <> js "accepted"
  /\ (exists row, result_row (jstr "commandId" r) d' = Some row /\ rr_result_json row = canonical r)
  /\ exists c, readCommand (jstr "commandId" r) d = Some c /\ cr_node_id c = jstr "nodeId" r
      /\ cr_generation c = jnum "generation" r.
Proof.
  intros Hv H. unfold NodeCommands.recordResult in H. apply lift_ok in H as (p & Hp & H). apply zparse_ok in Hp.
  pose proof (result_plain input p Hv Hp) as Hpl.
  destruct (bool_decide (jstr "state" p = js "accepted")) eqn:Ea; [done|]. apply bool_decide_eq_false in Ea.
  apply transaction_ok in H. unfold se_bind at 1, se_get in H.
  destruct (readCommand (jstr "commandId" p) d) as [c|] eqn:Ec; [|done].
  destruct (bool_decide (cr_node_id c = jstr "nodeId" p)) eqn:En; [|done]. cbn [negb] in H.
  destruct (cr_generation c =? jnum "generation" p) eqn:Eg; [|done]. cbn [negb] in H. cbv zeta in H.
  apply bool_decide_eq_true in En. apply Z.eqb_eq in Eg.
  fold (result_row (jstr "commandId" p) d) in H.
  destruct (result_row (jstr "commandId" p) d) as [row|] eqn:Er.
  - destruct (bool_decide (rr_result_json row = canonical p)) eqn:Ej; [|done]. cbn [negb] in H.
    apply bool_decide_eq_true in Ej. unfold se_lift in H.
    rewrite Ej, (read_canonical resultSchema input p) in H by (apply result_schema_ok || done).
    injection H as <- <-. split_and!; eauto.
  - apply lift_ok in H as (s & _ & H). apply lift_ok in H as (t & Ht & H).
    unfold se_bind at 1, se_modify in H. unfold se_bind at 1 in H. apply bind_ok in H as ([] & d3 & Hev & H).
    injection H as <- <-. split_and!; [done|done| |eauto]. apply append_keeps in Hev as [_ Hev].
    unfold result_row. rewrite Hev. cbn [node_command_results set_state with_commands with_results].
    unfold insert_result in Ht. destruct (Date_parse _) as [o|]; [|done]. apply insert_row_inv in Ht as (-> & _ & _).
    eexists. split.
    + apply select_one_snoc_hit; [by apply select_one_None|simpl; by apply bool_decide_eq_true].
    + reflexivity.
Qed.

(** A result that is there already is accepted again and changes nothing. *)
Lemma record_again now input v r d row c :
  parse resultSchema input = Some r -> parse resultSchema v = Some r -> plain r ->
  jstr "state" r <> js "accepted" ->
  result_row (jstr "commandId" r) d = Some row -> rr_result_json row = canonical r ->
  readCommand (jstr "commandId" r) d = Some c -> cr_node_id c = jstr "nodeId" r -> cr_generation c = jnum "generation" r ->
  recordResult now input d = (Ok r, d).
Proof.
  intros Hp Hpv Hpl Ha Hrow Hj Hread Hn Hg. unfold NodeCommands.recordResult, se_bind at 1, se_lift at 1.
  rewrite (proj2 (zparse_ok _ _ _) Hp), bool_decide_eq_false_2 by done. unfold transaction, se_bind at 1, se_get.
  rewrite Hread, Hn, Hg, bool_decide_eq_true_2, Z.eqb_refl by done. cbn [negb]. cbv zeta.
  fold (result_row (jstr "commandId" r) d). rewrite Hrow, Hj, bool_decide_eq_true_2 by done. cbn [negb].
  unfold se_lift. by rewrite (read_canonical _ v r (result_schema_ok _ _) Hpv Hpl).
Qed.
End Props.

(** C33 (safety). The life of a command: whatever happens later, a row of [node_commands]
    stays where it is with the same identifier, node, generation, nonce, text and times;
    its state only moves from queued to delivered to one of applied, rejected and
    expired; and once it is in one of those three the row never changes again. *)
Theorem command_lifecycle (is_uuid is_datetime : jsstring -> bool) (localeCompare : jsstring -> jsstring -> Z)
    (sha256_hex : bytes -> jsstring) d d' i r :
  rtc (step is_uuid is_datetime localeCompare sha256_hex) d d' ->
  node_commands d !! i = Some r ->
  exists r', node_commands d' !! i = Some r' /\ row_evolves r r'.
Proof.
  intros H Hi. apply history_evolves in H as (l1 & l2 & E & Hf). rewrite E.
  apply (Forall2_lookup_l _ _ _ _ _ Hf) in Hi as (r' & Hr' & He). exists r'. split; [|done].
  by apply lookup_app_l_Some.
Qed.

(** The queue holds only commands that were authorised when they came
    in: parsed, with the actor's scope for their type, not expired and not from the
    future at the moment of their creation; only a rollback comes from a node; no two
    have the same identifier, and no nonce is used twice for a node. *)
Theorem queued_commands_authorised (is_uuid is_datetime : jsstring -> bool) (localeCompare : jsstring -> jsstring -> Z)
    (sha256_hex : bytes -> jsstring) d :
  rtc (step is_uuid is_datetime localeCompare sha256_hex) empty_db d ->
  Forall (command_row_ok is_uuid is_datetime localeCompare) (node_commands d)
  /\ NoDup (map cr_id (node_commands d))
  /\ NoDup (map (fun r => (cr_node_id r, cr_nonce r)) (node_commands d)).
Proof. intros H. apply reachable_tables_ok in H as [? ? ? _ _]. done. Qed.

(** Enqueuing is idempotent for ever: once a command was accepted, the
    same request at any later time (after any history, past its expiry, with any minimal
    generation) returns the same command with its current state and changes nothing. *)
Theorem enqueue_idempotent (is_uuid is_datetime : jsstring -> bool) (localeCompare : jsstring -> jsstring -> Z)
    (sha256_hex : bytes -> jsstring) now input g d c s d1 d2 now' g' :
  value_texts input ->
  rtc (step is_uuid is_datetime localeCompare sha256_hex) empty_db d -> valid_now now ->
  enqueue is_uuid is_datetime localeCompare sha256_hex now input g d = (Ok (c, s), d1) ->
  rtc (step is_uuid is_datetime localeCompare sha256_hex) d1 d2 ->
  exists s', enqueue is_uuid is_datetime localeCompare sha256_hex now' input g' d2 = (Ok (c, s'), d2) /\ advances s s'.
Proof.
  intros Hv Hd Hnow H H2.
  assert (Hd1 : rtc (step is_uuid is_datetime localeCompare sha256_hex) empty_db d1).
  { eapply rtc_r; [exact Hd|]. exists now, (OpEnqueue input g). split_and!; [done|done|]. simpl. by rewrite H. }
  destruct (enqueue_row _ _ _ _ _ _ _ _ _ _ _ Hv H) as (Hp & row & Hrow & Hid & Hj & Hs).
  pose proof (history_evolves _ _ _ _ _ _ H2) as He.
  destruct (rows_evolve_elem _ _ _ He Hrow) as (row' & Hrow' & (Eid & _ & _ & _ & Ej & _) & Hadv & _).
  pose proof (reachable_tables_ok _ _ _ _ _ (rtc_trans _ _ _ Hd1 H2)) as Hok.
  pose proof (readCommand_elem _ _ _ _ _ Hok Hrow') as Hread. rewrite Eid, Hid in Hread.
  exists (cr_state row'). split; [|by rewrite <- Hs]. unfold enqueue.
  unfold se_bind at 1, se_lift at 1. rewrite (proj2 (zparse_ok _ _ _) Hp).
  unfold transaction, se_bind at 1, se_get. rewrite Hread, Ej, Hj.
  rewrite bool_decide_eq_true_2 by done. cbn [negb]. unfold se_lift, toDurable. rewrite Ej, Hj.
  by rewrite (read_canonical localeCompare _ input c (command_schema_ok _ _) Hp (command_plain _ _ _ _ Hv Hp)).
Qed.

(** Results of one command. *)
Definition of_same_command (r r' : json) : Prop := jstr "commandId" r' = jstr "commandId" r.

(** The first result of a command is final: once a result was recorded, at
    any later time and after any history the same result is accepted again without any
    change, and every other result for the command is refused without any change. *)
Theorem first_result_final (is_uuid is_datetime : jsstring -> bool) (localeCompare : jsstring -> jsstring -> Z)
    (sha256_hex : bytes -> jsstring) now input d r d1 d2 now' input' r' :
  value_texts input -> value_texts input' ->
  rtc (step is_uuid is_datetime localeCompare sha256_hex) empty_db d -> valid_now now ->
  recordResult is_uuid is_datetime localeCompare sha256_hex now input d = (Ok r, d1) ->
  rtc (step is_uuid is_datetime localeCompare sha256_hex) d1 d2 ->
  parse (nodeCommandResultSchema is_uuid is_datetime) input' = Some r' -> of_same_command r r' ->
  (r' = r -> recordResult is_uuid is_datetime localeCompare sha256_hex now' input' d2 = (Ok r, d2))
  /\ (r' <> r -> exists e, recordResult is_uuid is_datetime localeCompare sha256_hex now' input' d2 = (Err e, d2)).
Proof.
  intros Hv Hv' Hd Hnow H H2 Hp' Hid.
  assert (Hd1 : rtc (step is_uuid is_datetime localeCompare sha256_hex) empty_db d1).
  { eapply rtc_r; [exact Hd|]. exists now, (OpRecordResult input). split_and!; [done|done|]. simpl. by rewrite H. }
  destruct (record_row _ _ _ _ _ _ _ _ _ Hv H) as (Hp & Ha & (row & Hrow & Hj) & c & Hc & Hn & Hg).
  apply (result_row_kept _ _ _ _ _ _ _ _ H2) in Hrow.
  assert (Hdd2 : rtc (step is_uuid is_datetime localeCompare sha256_hex) d d2).
  { eapply rtc_l; [|exact H2]. exists now, (OpRecordResult input). split_and!; [done|done|]. simpl. by rewrite H. }
  pose proof (history_evolves _ _ _ _ _ _ Hdd2) as He. apply readCommand_Some in Hc as [Hc Ec].
  destruct (rows_evolve_elem _ _ _ He Hc) as (c' & Hc' & (Eid & En & Eg & _) & _ & _).
  pose proof (reachable_tables_ok _ _ _ _ _ (rtc_trans _ _ _ Hd1 H2)) as Hok.
  pose proof (readCommand_elem _ _ _ _ _ Hok Hc') as Hread. rewrite Eid, Ec in Hread.
  split; intros Hr.
  - subst r'. eapply (record_again is_uuid is_datetime localeCompare sha256_hex now' input' input r d2 row c');
      [done..|exact (result_plain _ _ _ _ Hv Hp)|done|done|done|done|congruence|congruence].
  - unfold recordResult, se_bind at 1, se_lift at 1. rewrite (proj2 (zparse_ok _ _ _) Hp').
    destruct (bool_decide (jstr "state" r' = js "accepted")); [by eexists|].
    unfold transaction, se_bind at 1, se_get. rewrite Hid, Hread.
    destruct (negb _); [by eexists|]. destruct (negb _); [by eexists|]. cbv zeta.
    fold (result_row (jstr "commandId" r) d2). rewrite Hrow, Hj, bool_decide_eq_false_2; [by eexists|].
    intros E. apply Hr. symmetry.
    apply (canonicalJson_inj localeCompare _ input r input' r' (result_schema_ok is_uuid is_datetime) Hp Hp'); [| |done].
    + exact (result_plain is_uuid is_datetime _ _ Hv Hp).
    + exact (result_plain is_uuid is_datetime _ _ Hv' Hp').
Qed.
