(* ===== verification/NodeCommandsPull.v ===== *)
(** * Delivering commands

    What [pull] returns and leaves behind, and that it never gets stuck as long as
    SHA-256 tells the events in the log and those it adds apart. *)

From S2P Require Import Prelude JsString JsMap JsSort JsonText JsonParse Schema Sql Zod JsDate NodeJson NodeControl NodeControlProps NodeCommands NodeReconciliation NodeCommandsInv NodeCommandsLog NodeCommandsProps.

#[local] Open Scope Z_scope.

(** ** Several rows at once *)

Definition mark (from : CommandState -> bool) (set : CommandRow -> CommandRow) (ids : list jsstring)
  (t : list CommandRow) : list CommandRow :=
  map (fun r => if bool_decide (cr_id r ∈ ids) && from (cr_state r) then set r else r) t.

Lemma mark_nil from set t : mark from set [] t = t.
Proof. unfold mark. rewrite <- (map_id t) at 2. apply map_ext. intros r. by rewrite bool_decide_eq_false_2 by apply not_elem_of_nil. Qed.

(** Marking one row, then others. *)
Lemma mark_cons from set id ids t :
  (forall r, cr_id (set r) = cr_id r /\ from (cr_state (set r)) = false) ->
  mark from set ids (map (fun r => if bool_decide (cr_id r = id) && from (cr_state r) then set r else r) t)
  = mark from set (id :: ids) t.
Proof.
  intros Hs. unfold mark. rewrite map_map. apply map_ext. intros r. destruct (Hs r) as [Hid Hf].
  destruct (decide (cr_id r = id)) as [E|E].
  - rewrite (bool_decide_eq_true_2 _ E), (bool_decide_eq_true_2 (cr_id r ∈ id :: ids)) by (rewrite E; left).
    cbn [andb]. destruct (from (cr_state r)) eqn:Ef.
    + by rewrite Hf, andb_false_r.
    + by rewrite Ef, andb_false_r.
  - rewrite (bool_decide_eq_false_2 _ E). cbn [andb].
    by rewrite (bool_decide_ext (cr_id r ∈ id :: ids) (cr_id r ∈ ids)) by (rewrite elem_of_cons; tauto).
Qed.

Lemma complete_marks now s r : is_pending s = false ->
  cr_id (complete now s r) = cr_id r /\ is_pending (cr_state (complete now s r)) = false.
Proof. done. Qed.

Lemma deliver_marks now r :
  cr_id (deliver now r) = cr_id r /\ bool_decide (cr_state (deliver now r) = Queued) = false.
Proof. done. Qed.

Section Pull.
Context (is_uuid is_datetime : jsstring -> bool) (localeCompare : jsstring -> jsstring -> Z)
  (sha256_hex : bytes -> jsstring) (Hhex : forall b, scalars (sha256_hex b)).

Abbreviation canonical := (canonicalJson localeCompare).
Abbreviation commandSchema := (nodeCommandSchema is_uuid is_datetime).
Abbreviation row_ok := (command_row_ok is_uuid is_datetime localeCompare).
Abbreviation log_ok := (log_ok localeCompare sha256_hex).
Abbreviation append := (appendEvent localeCompare sha256_hex).
Abbreviation apart := (digests_apart localeCompare sha256_hex).
Abbreviation extend := (extend_log localeCompare sha256_hex).

(** The actor of the command of a row, and the events of rows that expire or are
    delivered. *)
Definition row_actor (r : CommandRow) : json :=
  match read_document commandSchema (cr_command_json r) with Ok c => jobj "actor" c | Err _ => JNull end.

Definition expired_entry (r : CommandRow) : log_entry :=
  LogEntry (cr_generation r) (row_actor r) (js "command.expired") (command_id_payload (cr_id r)).
Definition delivered_entry (generation : Z) (r : CommandRow) : log_entry :=
  LogEntry generation (row_actor r) (js "command.delivered") (command_id_payload (cr_id r)).

Definition is_queued (r : CommandRow) : bool := bool_decide (cr_state r = Queued).

(** The command of a row, and its actor, which an event accepts. *)
Lemma row_command r :
  row_ok r ->
  exists command, read_document commandSchema (cr_command_json r) = Ok command
    /\ cr_command_json r = canonical command /\ row_actor r = jobj "actor" command
    /\ parse nodeControlActorSchema (embed (row_actor r)) = Some (row_actor r).
Proof.
  intros (v & c & Hp & Hpl & Hj & _). exists c.
  assert (Hread : read_document commandSchema (cr_command_json r) = Ok c)
    by (rewrite Hj; apply (read_canonical localeCompare _ v c (command_schema_ok _ _) Hp Hpl)).
  assert (Ea : row_actor r = jobj "actor" c) by (unfold row_actor; by rewrite Hread).
  split_and!; [done|done|done|]. rewrite Ea.
  destruct (command_actor is_uuid is_datetime v c Hp) as (v' & _ & Ha).
  apply (parse_again _ v' _ _ actor_schema_ok Ha), same_embed. by eapply actor_plain.
Qed.

Lemma log_ok_set_state from set id d : log_ok d -> log_ok (set_state from set id d).
Proof. by intros [? ? ? ? ?]. Qed.

(** The first of the events that an operation adds. *)
Lemma apart_first now nodeId t e es : apart (extend now nodeId t (e :: es)) -> apart (extend now nodeId t [e]).
Proof. apply digests_apart_mono. intros r Hr. by apply (extend_log_prefix localeCompare sha256_hex now nodeId _ es). Qed.

Lemma expire_rows_run now nodeId rows d :
  scalars nodeId -> log_ok d -> Forall row_ok rows ->
  apart (extend now nodeId (node_control_events d) (map expired_entry rows)) ->
  exists d', expire_rows is_uuid is_datetime localeCompare sha256_hex now nodeId rows d = (Ok tt, d')
    /\ node_commands d' = mark is_pending (complete now Expired) (map cr_id rows) (node_commands d)
    /\ node_control_events d' = extend now nodeId (node_control_events d) (map expired_entry rows) /\ log_ok d'.
Proof.
  intros Hn. revert d; induction rows as [|row rows IH]; intros d Hl Hr Hap.
  { exists d. by rewrite mark_nil. }
  apply Forall_cons in Hr as [Hrow Hr]. destruct (row_command row Hrow) as (c & Hread & _ & Eact & Ha).
  cbn [expire_rows map]. unfold se_bind at 1, se_modify. unfold se_bind at 1, se_lift. rewrite Hread.
  pose proof (log_ok_set_state is_pending (complete now Expired) (cr_id row) d Hl) as Hl1.
  destruct (append_run localeCompare sha256_hex Hhex now nodeId (expired_entry row) (set_state is_pending (complete now Expired) (cr_id row) d)
    Hn ltac:(apply text_scalars; reflexivity) Hl1 Ha (apart_first _ _ _ _ _ Hap)) as (d1 & Hrun1 & Hd1 & Hl').
  cbn [expired_entry le_generation le_actor le_type le_payload] in Hrun1. rewrite Eact in Hrun1.
  unfold se_bind at 1. rewrite Hrun1.
  assert (Hev : node_control_events d1 = extend now nodeId (node_control_events d) [expired_entry row]) by (by rewrite Hd1).
  destruct (IH d1 Hl' Hr) as (d2 & Hrun & Hc2 & He2 & Hl2); [by rewrite Hev|].
  exists d2. split_and!; [done| |by rewrite He2, Hev|done]. rewrite Hc2, Hd1. apply mark_cons. intros r. by apply complete_marks.
Qed.

Definition delivered (now : Z) (r : CommandRow) : CommandRow :=
  if bool_decide (cr_state r = Queued) then deliver now r else r.

Lemma deliver_rows_run now nodeId generation rows d :
  scalars nodeId -> log_ok d -> Forall row_ok rows ->
  apart (extend now nodeId (node_control_events d) (map (delivered_entry generation) (List.filter is_queued rows))) ->
  exists d', deliver_rows is_uuid is_datetime localeCompare sha256_hex now nodeId generation rows d
      = (Ok (map (delivered now) rows), d')
    /\ node_commands d' = mark (fun s => bool_decide (s = Queued)) (deliver now)
         (map cr_id (List.filter is_queued rows)) (node_commands d)
    /\ node_control_events d'
       = extend now nodeId (node_control_events d) (map (delivered_entry generation) (List.filter is_queued rows)).
Proof.
  intros Hn. revert d; induction rows as [|row rows IH]; intros d Hl Hr Hap.
  { exists d. simpl. by rewrite mark_nil. }
  apply Forall_cons in Hr as [Hrow Hr]. destruct (row_command row Hrow) as (c & Hread & _ & Eact & Ha).
  cbn [deliver_rows map List.filter] in Hap |- *. unfold delivered at 1. fold (is_queued row).
  destruct (is_queued row) eqn:Eq; cbn [map] in *.
  - unfold se_bind at 1, se_modify. unfold se_bind at 1, se_lift. rewrite Hread.
    set (d0 := set_state (fun s => bool_decide (s = Queued)) (deliver now) (cr_id row) d).
    pose proof (log_ok_set_state (fun s => bool_decide (s = Queued)) (deliver now) (cr_id row) d Hl) as Hl1.
    destruct (append_run localeCompare sha256_hex Hhex now nodeId (delivered_entry generation row) d0
      Hn ltac:(apply text_scalars; reflexivity) Hl1 Ha (apart_first _ _ _ _ _ Hap)) as (d1 & Hrun1 & Hd1 & Hl').
    cbn [delivered_entry le_generation le_actor le_type le_payload] in Hrun1. rewrite Eact in Hrun1.
    unfold se_bind at 1. rewrite Hrun1.
    assert (Hev : node_control_events d1 = extend now nodeId (node_control_events d) [delivered_entry generation row])
      by (by rewrite Hd1).
    destruct (IH d1 Hl' Hr) as (d2 & Hrun & Hc2 & He2); [by rewrite Hev|].
    exists d2. unfold se_bind. rewrite Hrun. split_and!; [done| |by rewrite He2, Hev]. rewrite Hc2, Hd1.
    apply mark_cons. intros r. apply deliver_marks.
  - destruct (IH d Hl Hr Hap) as (d2 & Hrun & Hc2 & He2). exists d2. unfold se_bind. by rewrite Hrun.
Qed.

(** ** The whole operation *)

(** A command that is still to be done at [now]. *)
Definition live (now : Z) (nodeId : jsstring) (generation : Z) (r : CommandRow) : bool :=
  bool_decide (cr_node_id r = nodeId) && (cr_generation r =? generation) && is_pending (cr_state r)
  && (now <? cr_expires_at r).

(** The rows a pull hands out: the oldest live ones, up to the limit. *)
Definition handed_out (now : Z) (nodeId : jsstring) (generation limit : Z) (t : list CommandRow) : list CommandRow :=
  limited (clamp 1 256 limit) (sort_by oldest_first (List.filter (live now nodeId generation) t)).

Lemma filter_map_agree {A} (p q : A -> bool) (f : A -> A) (t : list A) :
  (forall r, r ∈ t -> if q r then f r = r /\ p r = true else p (f r) = false) ->
  List.filter p (map f t) = List.filter q t.
Proof.
  induction t as [|r t IH]; intros H; [done|]. simpl. pose proof (H r ltac:(left)) as Hr.
  rewrite IH by (intros x Hx; apply H; by right).
  destruct (q r); [destruct Hr as [-> ->]; done|by rewrite Hr].
Qed.

(** Once the overdue rows are expired, what is pending is what was live. *)
Lemma pending_after_expiry now nodeId generation limit t :
  NoDup (map cr_id t) ->
  pending_rows nodeId generation limit
    (mark is_pending (complete now Expired) (map cr_id (expired_rows now nodeId generation t)) t)
  = handed_out now nodeId generation limit t.
Proof.
  intros Hu. unfold pending_rows, handed_out. do 2 f_equal. apply filter_map_agree. intros r Hr.
  assert (Hin : cr_id r ∈ map cr_id (expired_rows now nodeId generation t) <->
    bool_decide (cr_node_id r = nodeId) && is_pending (cr_state r)
    && ((cr_expires_at r <=? now) || (cr_generation r <? generation)) = true).
  { unfold expired_rows. split.
    - intros H. apply list_elem_of_fmap in H as (x & Eq & Hx). apply list_elem_of_In, List.filter_In in Hx as [Hx Hp].
      apply list_elem_of_In in Hx. assert (x = r) as ->; [|done].
      apply list_elem_of_lookup in Hx as [i Hi], Hr as [j Hj].
      assert (i = j) as ->; [|congruence].
      apply (NoDup_lookup (map cr_id t) i j (cr_id r)); [done| |];
        rewrite list_lookup_fmap; [rewrite Hi|rewrite Hj]; simpl; congruence.
    - intros H. apply list_elem_of_fmap. exists r. split; [done|]. apply list_elem_of_In, List.filter_In.
      split; [by apply list_elem_of_In|done]. }
  set (ids := map cr_id (expired_rows now nodeId generation t)) in *.
  unfold live. destruct (bool_decide (cr_node_id r = nodeId)) eqn:En; cbn [andb] in *.
  2: { rewrite (bool_decide_eq_false_2 (cr_id r ∈ ids)) by (intros H%Hin; done). cbn [andb]. by rewrite En. }
  destruct (is_pending (cr_state r)) eqn:Ep; cbn [andb] in *.
  2: { rewrite andb_false_r. cbn [andb]. rewrite andb_false_r, Ep. by rewrite andb_false_r. }
  rewrite andb_true_r. destruct (cr_generation r =? generation) eqn:Eg; cbn [andb].
  - apply Z.eqb_eq in Eg. rewrite Eg, Z.ltb_irrefl, orb_false_r in Hin.
    destruct (Z.ltb_spec now (cr_expires_at r)).
    + rewrite (bool_decide_eq_false_2 (cr_id r ∈ ids)) by (intros H0%Hin; apply Z.leb_le in H0; lia). cbn [andb].
      split; [done|]. by rewrite ?En, ?Eg, ?Z.eqb_refl, ?Ep.
    + rewrite (bool_decide_eq_true_2 (cr_id r ∈ ids)) by (apply Hin, Z.leb_le; lia). cbn [andb complete cr_state is_pending].
      by rewrite andb_false_r.
  - destruct (bool_decide (cr_id r ∈ ids)); cbn [andb].
    + cbn [complete cr_state is_pending]. by rewrite andb_false_r.
    + by rewrite Eg, andb_false_r.
Qed.

Abbreviation pull := (pull is_uuid is_datetime localeCompare sha256_hex).

Lemma all_durable_run rows :
  Forall row_ok rows ->
  exists l, all_durable is_uuid is_datetime rows = Ok l
    /\ Forall2 (fun r c => cr_command_json r = canonical c.1 /\ c.2 = cr_state r) rows l.
Proof.
  induction 1 as [|r rows Hr _ (l & IH & Hl)]; [by exists []|].
  destruct (row_command r Hr) as (c & Hread & Hj & _). exists ((c, cr_state r) :: l).
  simpl. unfold toDurable. rewrite Hread, IH. split; [done|]. by constructor.
Qed.

Lemma handed_out_elem now nodeId generation limit t r :
  r ∈ handed_out now nodeId generation limit t -> r ∈ t /\ live now nodeId generation r = true.
Proof.
  unfold handed_out, limited. intros H. apply list_elem_of_lookup in H as [i Hi].
  apply lookup_take_Some in Hi as [Hi _]. apply list_elem_of_lookup_2 in Hi.
  rewrite sort_by_perm in Hi. apply list_elem_of_In, List.filter_In in Hi as [H ?]. by apply list_elem_of_In in H.
Qed.

Lemma expired_rows_ok now nodeId generation t : Forall row_ok t -> Forall row_ok (expired_rows now nodeId generation t).
Proof.
  rewrite !Forall_forall. intros H r Hr. apply H. apply list_elem_of_In, List.filter_In in Hr as [? _].
  by apply list_elem_of_In.
Qed.

Lemma delivered_state now nodeId generation r :
  live now nodeId generation r = true -> cr_state (delivered now r) = Delivered.
Proof.
  unfold live. intros H. apply andb_true_iff in H as [H _]. apply andb_true_iff in H as [_ H].
  unfold delivered. case_bool_decide as E; [done|]. by destruct (cr_state r).
Qed.

Lemma delivered_evolves now r : row_evolves r (delivered now r).
Proof. unfold delivered. destruct (bool_decide _) eqn:E; [by apply deliver_evolves|reflexivity]. Qed.

(** The events that a pull adds. *)
Definition pull_entries (now : Z) (nodeId : jsstring) (generation limit : Z) (t : list CommandRow) : list log_entry :=
  map expired_entry (expired_rows now nodeId generation t)
  ++ map (delivered_entry generation) (List.filter is_queued (handed_out now nodeId generation limit t)).

Lemma pull_run now nodeId generation limit d :
  tables_ok is_uuid is_datetime localeCompare d -> log_ok d -> scalars nodeId ->
  is_safe generation = true -> 1 <= generation ->
  apart (extend now nodeId (node_control_events d) (pull_entries now nodeId generation limit (node_commands d))) ->
  exists l d', pull now nodeId generation limit d = (Ok l, d')
    /\ Forall2 (fun r c => cr_command_json r = canonical c.1 /\ c.2 = Delivered)
         (handed_out now nodeId generation limit (node_commands d)) l
    /\ node_commands d' =
         mark (fun s => bool_decide (s = Queued)) (deliver now)
           (map cr_id (List.filter is_queued (handed_out now nodeId generation limit (node_commands d))))
           (mark is_pending (complete now Expired)
              (map cr_id (expired_rows now nodeId generation (node_commands d))) (node_commands d))
    /\ node_control_events d'
       = extend now nodeId (node_control_events d) (pull_entries now nodeId generation limit (node_commands d)).
Proof.
  intros [Hc Hi _ _ _] Hl Hn Hs Hg Hap. unfold pull_entries in *. rewrite extend_log_app in *. unfold NodeCommands.pull.
  rewrite Hs, (proj2 (Z.ltb_ge generation 1)) by lia. cbn [negb orb]. unfold transaction.
  unfold se_bind at 1. unfold expirePending, se_bind at 1, se_get.
  destruct (expire_rows_run now nodeId _ d Hn Hl (expired_rows_ok now nodeId generation _ Hc))
    as (d1 & -> & Hc1 & He1 & Hl1).
  { eapply digests_apart_mono; [|exact Hap]. intros r Hr. by apply extend_log_prefix. }
  unfold se_bind at 1, se_get. rewrite Hc1, pending_after_expiry by done.
  set (rows := handed_out now nodeId generation limit (node_commands d)) in *.
  assert (Hrows : Forall row_ok rows).
  { apply Forall_forall. intros r Hr. apply handed_out_elem in Hr as [Hr _]. rewrite Forall_forall in Hc. auto. }
  destruct (deliver_rows_run now nodeId generation rows d1 Hn Hl1 Hrows) as (d2 & Hrun & Hc2 & He2); [by rewrite He1|].
  unfold se_bind. rewrite Hrun.
  assert (Hdel : Forall row_ok (map (delivered now) rows)).
  { apply Forall_map. eapply Forall_impl; [exact Hrows|]. intros r. apply same_command_ok.
    by destruct (delivered_evolves now r) as [? _]. }
  destruct (all_durable_run _ Hdel) as (l & Hall & Hf). exists l, d2. unfold se_lift. rewrite Hall. split; [done|].
  split_and!; [|by rewrite Hc2, Hc1|by rewrite He2, He1].
  assert (Hlive : Forall (fun r => live now nodeId generation r = true) rows).
  { apply Forall_forall. intros r Hr. by apply handed_out_elem in Hr as [_ ?]. }
  clear -Hf Hlive. revert l Hf. induction Hlive as [|r rows Hr _ IH]; intros l Hf; inversion Hf as [|? c ? l' [Hj Hst] Hf']; subst;
    constructor; [|auto]. rewrite (delivered_state now nodeId generation) in Hst by done. split; [|done].
  rewrite <- Hj. by destruct (delivered_evolves now r) as [(_ & _ & _ & _ & -> & _) _].
Qed.
End Pull.

