(* ===== verification/NodeDesired.v ===== *)
(** * The desired state of a node

    What a command does to the desired state, and that an authorised command is always
    accepted. *)

From S2P Require Import Prelude JsString JsMap JsSort JsonText JsonParse Schema Sql Zod JsDate NodeJson NodeControl NodeControlProps NodeCommands NodeReconciliation NodeCommandsInv NodeCommandsLog NodeCommandsProps NodeCommandsPull.

#[local] Open Scope Z_scope.

(** ** Objects with fields replaced *)

Section Shape.
Context (shape : list (jsstring * (bool * zod))).

(** The entry is one the shape takes as it is. *)
Definition entry_ok (e : jsstring * json) : Prop :=
  exists opt s, map_get shape e.1 = Some (opt, s) /\ parse s (embed e.2) = Some e.2.

Definition has_required (l : list (jsstring * json)) : Prop :=
  forall k s, map_get shape k = Some (false, s) -> map_get l k <> None.

Lemma parse_entries (l : list (jsstring * json)) :
  NoDup shape.*1 -> NoDup l.*1 -> Forall entry_ok l -> has_required l ->
  exists out, parse (ZObj shape) (embed (JObj l)) = Some (JObj out) /\ forall k, map_get out k = map_get l k.
Proof.
  intros Hn Hl He Hr. cbn [embed parse].
  assert (Hk : known shape (map (fun e => (e.1, embed e.2)) l) = true).
  { apply forallb_forall. intros e Hin. apply bool_decide_eq_true. apply List.in_map_iff in Hin as ([k j] & <- & Hin).
    rewrite Forall_forall in He. destruct (He _ (proj2 (list_elem_of_In _ _) Hin)) as (opt & s & Hs & _).
    apply map_get_Some_In in Hs. by apply (list_elem_of_fmap_2 fst) in Hs. }
  rewrite Hk. clear Hk.
  assert (Hsub : forall sh, NoDup sh.*1 -> (forall k o s, map_get sh k = Some (o, s) -> map_get shape k = Some (o, s)) ->
    exists out, parse_shape parse sh (map (fun e => (e.1, embed e.2)) l) = Some out
      /\ forall k, map_get out k = if decide (k ∈ sh.*1) then map_get l k else None).
  { induction sh as [|[k [opt s]] sh IH]; intros Hsn Hs; [by exists []|].
    apply NoDup_cons in Hsn as [Hk Hsn].
    assert (Hks : map_get shape k = Some (opt, s)) by (apply Hs; simpl; by rewrite decide_True).
    destruct IH as (out & Ho & Hg); [done| |].
    { intros k' o s' H. apply Hs. simpl. rewrite decide_False; [done|]. intros ->. apply Hk.
      apply map_get_Some_In in H. by apply (list_elem_of_fmap_2 fst) in H. }
    cbn [parse_shape]. rewrite (field_fmap embed k l). destruct (map_get l k) as [j|] eqn:Ej; cbn [fmap option_fmap option_map].
    - assert (Hej : parse s (embed j) = Some j).
      { rewrite Forall_forall in He. destruct (He (k, j)) as (o & s' & Hs' & Hp); [by apply map_get_Some_In|].
        cbn [fst snd] in *. rewrite Hks in Hs'. by injection Hs' as -> ->. }
      rewrite Hej, Ho. cbn [mbind option_bind]. eexists. split; [reflexivity|]. intros k'. csimpl.
      case_decide as Hd; [subst k'; by rewrite decide_True by left|]. rewrite Hg.
      destruct (decide (k' ∈ sh.*1)); [by rewrite decide_True by (by right)|].
      rewrite decide_False; [done|]. rewrite elem_of_cons. tauto.
    - destruct opt; [|by apply Hr in Hks]. exists out. split; [done|]. intros k'. rewrite Hg. csimpl.
      destruct (decide (k' ∈ sh.*1)); [by rewrite decide_True by (by right)|].
      destruct (decide (k' = k)) as [->|]; [by case_decide|]. rewrite decide_False; [done|]. rewrite elem_of_cons. tauto. }
  destruct (Hsub shape Hn ltac:(done)) as (out & -> & Hg). exists out. split; [done|]. intros k. rewrite Hg.
  case_decide as Hd; [done|]. symmetry. apply map_get_None. intros Hin. apply Hd.
  apply list_elem_of_fmap in Hin as ([k' j] & -> & Hin). rewrite Forall_forall in He.
  destruct (He _ Hin) as (opt & s & Hs & _). apply map_get_Some_In in Hs. by apply (list_elem_of_fmap_2 fst) in Hs.
Qed.

Lemma map_set_ok l k j : Forall entry_ok l -> entry_ok (k, j) -> Forall entry_ok (map_set l k j).
Proof.
  intros Hl Hj. induction Hl as [|[k' j'] l Hx Hl IH]; simpl; [by constructor|].
  case_decide; [subst|]; constructor; done.
Qed.

Lemma spread_ok l patch : Forall entry_ok l -> Forall entry_ok patch -> Forall entry_ok (spread l patch).
Proof.
  intros Hl Hp. unfold spread. revert l Hl. induction Hp as [|[k j] patch Hj _ IH]; intros l Hl; [done|].
  simpl. apply IH. by apply map_set_ok.
Qed.

Lemma spread_wf l patch : map_wf l -> map_wf (spread l patch).
Proof.
  unfold spread. revert l. induction patch as [|[k j] patch IH]; intros l Hl; [done|].
  simpl. by apply IH, map_wf_set.
Qed.

Lemma spread_required l patch : has_required l -> has_required (spread l patch).
Proof.
  unfold spread. revert l. induction patch as [|[k j] patch IH]; intros l Hl; [done|].
  simpl. apply IH. intros k' s Hk'. rewrite map_get_set. case_decide; [done|by eapply Hl].
Qed.
End Shape.

(** The fields of a spread: those of the patch, then the others. *)
Lemma spread_get l patch k :
  NoDup patch.*1 ->
  map_get (spread l patch) k = match map_get patch k with Some j => Some j | None => map_get l k end.
Proof.
  unfold spread. revert l. induction patch as [|[k' j] patch IH]; intros l Hn; [done|].
  csimpl. apply NoDup_cons in Hn as [Hk Hn]. rewrite IH by done. rewrite map_get_set.
  destruct (decide (k = k')) as [->|]; [|done].
  destruct (map_get patch k') eqn:E; [|done]. destruct Hk. apply map_get_Some_In in E. by apply (list_elem_of_fmap_2 fst) in E.
Qed.

(** ** The entries of a parsed document *)

Lemma field_plain l k j : plain (JObj l) -> map_get l k = Some j -> plain j.
Proof.
  cbn [plain]. rewrite (foldr_Forall (fun e => scalars e.1 /\ plain e.2)). intros [_ H] Hk.
  apply map_get_Some_In in Hk. rewrite Forall_forall in H. by destruct (H _ Hk).
Qed.

Lemma jobj_plain k c : plain c -> plain (jobj k c).
Proof.
  intros H. unfold jobj, jfield. destruct c as [| | | | |l]; try done.
  destruct (map_get l (js k)) eqn:E; [|done]. by eapply field_plain.
Qed.

Lemma reparse s v j : zod_ok s = true -> parse s v = Some j -> plain j -> parse s (embed j) = Some j.
Proof. intros Hs Hp Hj. eapply parse_again; [done|exact Hp|by apply same_embed]. Qed.

Lemma parsed_entries shape v j :
  zod_ok (ZObj shape) = true -> parse (ZObj shape) v = Some j -> plain j ->
  exists l, j = JObj l /\ Forall (entry_ok shape) l /\ has_required shape l /\ NoDup l.*1 /\ NoDup shape.*1.
Proof.
  intros Hok H Hpl. cbn [zod_ok] in Hok. apply andb_true_iff in Hok as [Hn Hs]. apply bool_decide_eq_true in Hn.
  destruct v as [| | | | |l0]; try done. cbn [parse] in H. destruct (known shape l0); [|done].
  destruct (parse_shape parse shape l0) as [l|] eqn:E; [|done]. simpl in H. injection H as <-.
  pose proof (parse_shape_NoDup _ _ _ _ Hn E) as Hl. exists l. split_and!; [done| | |done|done].
  - apply Forall_forall. intros [k x] Hx.
    assert (Hk : k ∈ shape.*1) by (eapply parse_shape_keys; [exact E|]; by apply (list_elem_of_fmap_2 fst) in Hx).
    apply list_elem_of_fmap in Hk as ([k' [opt s]] & -> & Hk).
    pose proof (map_get_In shape k' (opt, s) Hn Hk) as Hk'. exists opt, s. split; [done|].
    pose proof (map_get_In l k' x Hl Hx) as Hlx.
    pose proof (parse_shape_field _ _ _ _ _ _ _ Hn E Hk') as Hf. cbn [fst] in Hf, Hlx. rewrite Hlx in Hf.
    destruct Hf as (w & _ & Hw). eapply reparse; [|exact Hw|by eapply field_plain].
    rewrite forallb_forall in Hs. apply (Hs (k', (opt, s))). by apply list_elem_of_In.
  - intros k s Hk. pose proof (parse_shape_field _ _ _ _ _ _ _ Hn E Hk) as Hf.
    destruct (map_get l k); [done|]. by destruct Hf.
Qed.

(** *** The payload of a command *)

Definition payload_schemas : list (string * zod) :=
  [("pause", emptyPayload); ("resume", emptyPayload);
   ("drain", ZObj [version; required "deadlineMs" (ZInt 1000 3600000)]);
   ("set-limits", limitsPayload);
   ("set-policy", ZObj [version; required "policy" nodeWorkPolicySchema]);
   ("update", ZObj [version; required "channel" updateChannel; optional "manifestId" sha256]);
   ("rollback", ZObj [version; required "componentIds" (ZArr 1 16 identifier)]);
   ("revoke", ZObj [version; required "reason" (ZStr (min_max 1 256))]);
   ("uninstall", ZObj [version; required "retain"
     (ZObj [required "cache" ZBool; required "logs" ZBool; required "configuration" ZBool; required "identity" ZBool])])]%string.

Section Patch.
Context (is_uuid is_datetime : jsstring -> bool).

Abbreviation commandSchema := (nodeCommandSchema is_uuid is_datetime).

Definition desired_shape : list (jsstring * (bool * zod)) :=
  match nodeDesiredStateSchema is_datetime with ZObj shape => shape | _ => [] end.

Lemma command_payload v c :
  parse commandSchema v = Some c ->
  exists t p v', (t, p) ∈ payload_schemas /\ jstr "type" c = js t /\ parse p v' = Some (jobj "payload" c).
Proof.
  intros H. apply parse_union in H as (d & s & Hel & Hp).
  assert (Hopt : exists t p, (t, p) ∈ payload_schemas /\ s = ZObj (commandBase is_uuid is_datetime
    ++ [required "type" (ZLit (js t)); required "payload" p])).
  { unfold command_option in Hel. unfold payload_schemas.
    do 9 (apply elem_of_cons in Hel as [[= -> ->]|Hel]; [eexists _, _; split; [|reflexivity]; set_solver|]).
    by apply elem_of_nil in Hel. }
  destruct Hopt as (t & p & Ht & ->). exists t, p.
  pose proof Hp as Hp'.
  apply (parse_obj_field _ v c (js "type") false (ZLit (js t))) in Hp as (out & -> & Htype);
    [|vm_compute; reflexivity|reflexivity].
  apply (parse_obj_field _ v _ (js "payload") false p) in Hp' as (out' & [= <-] & Hpay);
    [|vm_compute; reflexivity|reflexivity].
  unfold jstr, jobj, jfield. destruct (map_get out (js "type")) as [x|]; [|done].
  destruct (map_get out (js "payload")) as [y|]; [|done]. destruct Htype as (vt & Htype), Hpay as (vp & Hpay).
  exists vp. split_and!; [done| |done]. destruct vt; try done. cbn [parse] in Htype. case_decide; [|done].
  by injection Htype as <-.
Qed.

(** Comparisons of literals. *)
Ltac decide_literals :=
  repeat match goal with |- context [bool_decide (js ?a = js ?b)] =>
    let r := eval vm_compute in (bool_decide (js a = js b)) in
    change (bool_decide (js a = js b)) with r end; cbn [orb].

Lemma bool_entry k b : map_get desired_shape (js k) = Some (false, ZBool) -> entry_ok desired_shape (js k, JBool b).
Proof. intros H. by exists false, ZBool. Qed.

(** The limits of a payload without its version are limits. *)
Lemma limits_entry payload v :
  parse limitsPayload v = Some payload -> plain payload ->
  entry_ok desired_shape (js "limits", without "version" payload).
Proof.
  intros H Hpl. exists false, (ZObj limits_shape). split; [reflexivity|]. cbn [snd].
  destruct v as [| | | | |l]; try done. unfold limitsPayload in H. cbn [parse] in H.
  destruct (known (version :: limits_shape) l); [|done].
  destruct (parse_shape parse (version :: limits_shape) l) as [out|] eqn:E; [|done]. simpl in H. injection H as <-.
  assert (Hn : NoDup (version :: limits_shape).*1) by (apply (bool_decide_unpack _); vm_compute; exact I).
  pose proof (parse_shape_NoDup _ _ _ _ Hn E) as Hno.
  change (version :: limits_shape) with ((js "version", (false, ZOne 1)) :: limits_shape) in E, Hn.
  cbn [parse_shape] in E. destruct (map_get l (js "version")) as [w|]; [|done].
  destruct (parse (ZOne 1) w) as [j|]; [|done]. cbn [mbind option_bind] in E.
  destruct (parse_shape parse limits_shape l) as [rest|] eqn:Er; [|done]. cbn [mbind option_bind] in E. injection E as <-.
  unfold without. cbn [entries map_delete]. rewrite decide_True by done.
  assert (Hpr : plain (JObj rest)).
  { cbn [plain] in Hpl |- *. csimpl in Hpl. destruct Hpl as [Hd Hf]. apply NoDup_cons in Hd as [_ Hd]. by destruct Hf. }
  pose proof (same_embed _ Hpr) as Hs. cbn [embed] in Hs |- *. apply NoDup_cons in Hn as [_ Hn].
  cbn [parse]. rewrite (known_same limits_shape l rest) by done.
  rewrite (parse_shape_again parse limits_shape l _ rest); [done| |done|done|intros k _; by apply same_field].
  apply Forall_forall. intros e He v0 j0 v0' H1 H2. eapply parse_again; [|exact H1|exact H2].
  assert (Hall : forallb (fun e => zod_ok e.2.2) limits_shape = true) by (vm_compute; reflexivity).
  rewrite forallb_forall in Hall. apply Hall. by apply list_elem_of_In.
Qed.

(** A field of a payload that the desired state takes over. *)
Lemma payload_entry payload v shape k s target opt :
  parse (ZObj shape) v = Some payload -> plain payload -> bool_decide (NoDup shape.*1) = true ->
  map_get shape (js k) = Some (false, s) -> zod_ok s = true -> map_get desired_shape (js target) = Some (opt, s) ->
  entry_ok desired_shape (js target, jobj k payload).
Proof.
  intros H Hpl Hn Hk Hs Ht. exists opt, s. split; [done|]. cbn [snd].
  apply (parse_obj_field _ _ _ (js k) false s) in H as (out & -> & Hf); [|done|done].
  unfold jobj, jfield. destruct (map_get out (js k)) as [x|] eqn:Ex; [|done].
  destruct Hf as (w & Hw). eapply reparse; [done|exact Hw|by eapply field_plain].
Qed.

Lemma desired_patch_ok v c :
  parse commandSchema v = Some c -> plain c -> Forall (entry_ok desired_shape) (desired_patch c).
Proof.
  intros H Hpl. destruct (command_payload v c H) as (t & p & w & Hel & Ht & Hp).
  pose proof (jobj_plain "payload" c Hpl) as Hpp. unfold desired_patch. rewrite Ht. cbv zeta. clear Ht H.
  unfold payload_schemas in Hel.
  repeat (apply elem_of_cons in Hel as [[= -> ->]|Hel]); [decide_literals..|by apply elem_of_nil in Hel].
  - repeat constructor; by apply bool_entry.
  - repeat constructor; by apply bool_entry.
  - repeat constructor; by apply bool_entry.
  - constructor; [|constructor]. by eapply limits_entry.
  - constructor; [|constructor]. by apply (payload_entry _ _ _ "policy" nodeWorkPolicySchema "policy" true Hp Hpp).
  - constructor; [|constructor]. by apply (payload_entry _ _ _ "channel" updateChannel "updateChannel" false Hp Hpp).
  - constructor.
  - repeat constructor; by apply bool_entry.
  - repeat constructor; by apply bool_entry.
Qed.

Lemma desired_patch_keys c : NoDup (desired_patch c).*1 /\ Forall (fun k => k <> js "updatedAt" /\ k <> js "updatedBy") (desired_patch c).*1.
Proof.
  unfold desired_patch. cbv zeta.
  repeat match goal with |- context [if ?b then _ else _] => destruct b end;
    match goal with |- ?P => apply (bool_decide_unpack P); vm_compute; exact I end.
Qed.
End Patch.

(** ** Accepting a command *)

Lemma toISOString_ok now : valid_now now -> exists s, toISOString now = Ok s.
Proof.
  intros [H0 H1]. unfold toISOString. destruct (Z.ltb_spec MAX_TIME (Z.abs now)).
  - unfold MAX_TIME, LAST_TIME in *. lia.
  - destruct (civil_from_days _) as [[y m] dd]. eauto.
Qed.

Section Accept.
Context (is_uuid is_datetime : jsstring -> bool) (localeCompare : jsstring -> jsstring -> Z)
  (sha256_hex : bytes -> jsstring).

Abbreviation canonical := (canonicalJson localeCompare).
Abbreviation commandSchema := (nodeCommandSchema is_uuid is_datetime).
Abbreviation desiredSchema := (nodeDesiredStateSchema is_datetime).

(** Zod takes the times the code writes. *)
Definition accepts_times : Prop := forall t s, valid_now t -> toISOString t = Ok s -> is_datetime s = true.

Definition desired_row (nodeId : jsstring) (d : Db) : option DesiredRow :=
  select_one (fun r => bool_decide (ds_node_id r = nodeId)) (node_desired_states d).

(** The row holds a desired state of the generation. *)
Definition desired_ok (generation : Z) (row : DesiredRow) (current : json) : Prop :=
  exists v, parse desiredSchema v = Some current /\ plain current /\ ds_desired_json row = canonical current
    /\ jnum "generation" current = generation /\ ds_generation row = generation.

(** The fields a command leaves. *)
Definition desired_field (c current : json) (updatedAt k : jsstring) : option json :=
  if decide (k = js "updatedAt") then Some (JStr updatedAt)
  else if decide (k = js "updatedBy") then Some (jobj "actor" c)
  else match map_get (desired_patch c) k with Some j => Some j | None => map_get (entries current) k end.

Lemma spread_fields c current updatedAt k :
  map_get (spread (entries current)
    (desired_patch c ++ [(js "updatedAt", JStr updatedAt); (js "updatedBy", jobj "actor" c)])) k
  = desired_field c current updatedAt k.
Proof.
  destruct (desired_patch_keys c) as [Hn Hk].
  assert (Hnk : NoDup (desired_patch c ++ [(js "updatedAt", JStr updatedAt); (js "updatedBy", jobj "actor" c)]).*1).
  { rewrite fmap_app. apply NoDup_app. rewrite Forall_forall in Hk. split_and!; [done| |].
    - intros x Hx. csimpl. rewrite !not_elem_of_cons. destruct (Hk x Hx). split_and!; [done|done|apply not_elem_of_nil].
    - apply (bool_decide_unpack _). vm_compute. exact I. }
  rewrite spread_get by done. unfold desired_field.
  assert (Happ : forall l1 l2 : list (jsstring * json), map_get (l1 ++ l2) k
    = match map_get l1 k with Some j => Some j | None => map_get l2 k end).
  { induction l1 as [|[k' j'] l1 IH]; intros l2; simpl; [done|]. by case_decide. }
  rewrite Happ. destruct (map_get (desired_patch c) k) as [j|] eqn:E.
  - apply map_get_Some_In in E. rewrite Forall_forall in Hk.
    assert (Hkk : k ∈ (desired_patch c).*1) by (by apply (list_elem_of_fmap_2 fst) in E).
    destruct (Hk k Hkk). by rewrite !decide_False.
  - simpl. case_decide; [done|]. by case_decide.
Qed.

Lemma updateDesired_run now v c d row current :
  accepts_times -> valid_now now -> parse commandSchema v = Some c -> plain c ->
  desired_row (jstr "nodeId" c) d = Some row -> desired_ok (jnum "generation" c) row current ->
  exists next updatedAt d', updateDesiredState is_datetime localeCompare now c d = (Ok tt, d')
    /\ toISOString now = Ok updatedAt /\ d' = with_desired (node_desired_states d') d
    /\ desired_row (jstr "nodeId" c) d'
       = Some (DesiredRow_ (jstr "nodeId" c) (jnum "generation" c) (canonical next) now)
    /\ forall k, map_get (entries next) k = desired_field c current updatedAt k.
Proof.
  intros Hiso Hnow Hp Hpl Hrow (w & Hcur & Hcpl & Hj & Hg & Hdg).
  destruct (toISOString_ok now Hnow) as (updatedAt & Hup).
  destruct (parsed_entries (desired_shape is_datetime) w current) as (l & -> & He & Hreq & Hnl & Hns);
    [apply (desired_schema_ok is_datetime)|done|done|].
  destruct (parse_entries (desired_shape is_datetime)
    (spread l (desired_patch c ++ [(js "updatedAt", JStr updatedAt); (js "updatedBy", jobj "actor" c)])))
    as (next & Hnext & Hget); [done|by apply spread_wf| |by apply spread_required|].
  { apply spread_ok; [done|]. apply Forall_app. split; [by eapply desired_patch_ok|].
    destruct (command_actor is_uuid is_datetime v c Hp) as (v' & _ & Ha).
    constructor; [|constructor; [|constructor]].
    - exists false, (timestamp is_datetime). split; [reflexivity|]. cbn [snd embed parse timestamp].
      by rewrite (Hiso now updatedAt).
    - exists false, nodeControlActorSchema. split; [reflexivity|]. eapply reparse; [apply actor_schema_ok|exact Ha|].
      by apply jobj_plain. }
  exists (JObj next), updatedAt. unfold updateDesiredState. cbv zeta. unfold se_bind at 1, se_get.
  fold (desired_row (jstr "nodeId" c) d). rewrite Hrow, Hj.
  unfold se_bind at 1, se_lift at 1.
  rewrite (read_canonical localeCompare desiredSchema w (JObj l) (desired_schema_ok is_datetime) Hcur Hcpl).
  rewrite Hg, Z.eqb_refl. cbn [negb]. unfold se_bind at 1, se_lift at 1. rewrite Hup.
  unfold se_bind at 1, se_lift at 1. cbn [entries].
  rewrite (proj2 (zparse_ok desiredSchema _ (JObj next)) Hnext). unfold se_modify.
  eexists. split_and!; [reflexivity|done|done| |intros k; cbn [entries]; rewrite Hget; apply (spread_fields c (JObj l))].
  unfold desired_row in Hrow |- *. cbn [node_desired_states with_desired].
  revert Hrow. generalize (node_desired_states d). intros t. induction t as [|x t IH]; simpl; [done|].
  destruct (bool_decide (ds_node_id x = jstr "nodeId" c)) eqn:Ex; cbn [andb].
  - intros [= ->]. rewrite Hdg, Z.eqb_refl. cbn [ds_node_id]. by rewrite bool_decide_eq_true_2.
  - rewrite Ex. exact IH.
Qed.

Lemma updateDesired_none now c d :
  desired_row (jstr "nodeId" c) d = None -> updateDesiredState is_datetime localeCompare now c d = (Ok tt, d).
Proof.
  intros H. unfold updateDesiredState, se_bind, se_get. fold (desired_row (jstr "nodeId" c) d). by rewrite H.
Qed.

(** An authorised command gets its row. *)
Lemma insert_command_run now mg c d :
  tables_ok is_uuid is_datetime localeCompare d ->
  readCommand (jstr "id" c) d = None -> admitted is_uuid is_datetime now mg (node_commands d) c ->
  Date_parse (jstr "issuedAt" c) <> None -> Date_parse (jstr "expiresAt" c) <> None ->
  exists row, insert_command localeCompare now c d = (Ok tt, with_commands (node_commands d ++ [row]) d)
    /\ cr_id row = jstr "id" c /\ cr_command_json row = canonical c /\ cr_state row = Queued.
Proof.
  intros Hok Hr (input & Ha) Hi He. unfold insert_command.
  destruct (Date_parse (jstr "issuedAt" c)) as [i|]; [|done]. destruct (Date_parse (jstr "expiresAt" c)) as [e|]; [|done].
  apply parseAuthorized_spec in Ha as (Hp & _ & _ & Hnonce & _). cbn [ctx_consumedNonces] in Hnonce.
  pose proof (command_generation is_uuid is_datetime _ _ Hp) as Hg.
  unfold se_bind, se_get. cbv zeta. unfold se_lift. rewrite insert_row_ok.
  - unfold se_modify. by eexists.
  - unfold readCommand in Hr. apply select_one_None in Hr. rewrite Forall_forall in Hr |- *. intros r Hin.
    specialize (Hr r Hin). apply bool_decide_eq_false in Hr. unfold command_conflict. cbn.
    rewrite (bool_decide_eq_false_2 (jstr "id" c = cr_id r)) by congruence. cbn [orb].
    destruct (bool_decide (jstr "nodeId" c = cr_node_id r)) eqn:En; [|done]. cbn [andb].
    apply bool_decide_eq_true in En. apply bool_decide_eq_false. intros E. apply Hnonce. rewrite E.
    apply list_elem_of_fmap. exists r. split; [done|]. by apply list_elem_of_filter.
  - cbn. apply Z.ltb_lt. lia.
Qed.
End Accept.

Lemma log_ok_commands localeCompare sha256_hex t d :
  log_ok localeCompare sha256_hex d -> log_ok localeCompare sha256_hex (with_commands t d).
Proof. by intros [? ? ? ? ?]. Qed.

Lemma log_ok_desired localeCompare sha256_hex t d :
  log_ok localeCompare sha256_hex d -> log_ok localeCompare sha256_hex (with_desired t d).
Proof. by intros [? ? ? ? ?]. Qed.

(** The effect on the desired state: none without a row, the patched fields with one. *)
Definition desired_follows (localeCompare : jsstring -> jsstring -> Z) (now : Z) (c : json)
    (current : option json) (d d' : Db) : Prop :=
  match current with
  | None => node_desired_states d' = node_desired_states d
  | Some current =>
      exists next updatedAt, toISOString now = Ok updatedAt
        /\ desired_row (jstr "nodeId" c) d'
           = Some (DesiredRow_ (jstr "nodeId" c) (jnum "generation" c) (canonicalJson localeCompare next) now)
        /\ forall k, map_get (entries next) k = desired_field c current updatedAt k
  end.

(** The event of a command that is queued. *)
Definition queued_entry (c : json) : log_entry :=
  LogEntry (jnum "generation" c) (jobj "actor" c) (js "command.queued") c.

