(* ===== verification/NodeEvents.v ===== *)
(** * Reading the event log

    Cursors and pages: a cursor names an event of the log, the page after it is what
    follows, and the answer to a snapshot. *)

From S2P Require Import Prelude JsString JsMap JsSort JsonText JsonParse Schema Sql Zod JsDate NodeJson NodeControl NodeControlProps NodeCommands NodeReconciliation NodeCommandsInv NodeCommandsLog NodeCommandsProps.

#[local] Open Scope Z_scope.

(** ** Cursors *)

Lemma dec_digits_bound fuel z n :
  0 <= z < 10 ^ Z.of_nat n -> (1 <= n)%nat -> (length (dec_digits fuel z) <= n)%nat.
Proof.
  revert z n; induction fuel as [|fuel IH]; intros z n Hz Hn; simpl; [lia|].
  destruct (Z.ltb_spec z 10); [simpl; lia|]. rewrite length_app. simpl.
  destruct n as [|[|n]]; [lia|simpl in Hz; lia|].
  assert (length (dec_digits fuel (z / 10)) <= S n)%nat; [|lia]. apply IH; [|lia].
  split; [apply Z.div_pos; lia|]. apply Z.div_lt_upper_bound; [lia|].
  rewrite <- Z.pow_succ_r by lia. rewrite <- Nat2Z.inj_succ. lia.
Qed.

Lemma decimal_length z : 0 <= z <= MAX_SAFE_INTEGER -> 1 <= Z.of_nat (length (decimal z)) <= 20.
Proof.
  intros Hz. unfold decimal. destruct (Z.ltb_spec z 0); [lia|].
  destruct (dec_digits_log z) as (_ & _ & Hn); [lia|].
  pose proof (dec_digits_bound (Z.to_nat (Z.log2 z)) z 16) as Hb.
  assert (Hlt : 0 <= z < 10 ^ Z.of_nat 16) by (change (10 ^ Z.of_nat 16) with 10000000000000000; unfold MAX_SAFE_INTEGER in Hz; lia).
  specialize (Hb Hlt ltac:(lia)). destruct (dec_digits _ z); [done|]. simpl in *. lia.
Qed.

Section Cursors.
Context (sha256_hex : bytes -> jsstring).

(** [createHash("sha256")...digest("hex")] is 64 lower-case hexadecimal digits. *)
Definition hex_digests : Prop := forall b, length (sha256_hex b) = 64%nat /\ forallb is_hex (sha256_hex b) = true.

Lemma is_hex_scalar c : is_hex c = true -> is_scalar c = true.
Proof. unfold is_hex, in_range, is_scalar, is_surrogate. lia. Qed.

Lemma hex_scalars : hex_digests -> forall b, scalars (sha256_hex b).
Proof.
  intros H b. destruct (H b) as [_ Hf]. apply Forall_forall. intros c Hc. apply is_hex_scalar.
  rewrite forallb_forall in Hf. apply Hf. by apply list_elem_of_In.
Qed.

(** The cursor of an event can be parsed back. *)
Lemma match_cursor_format s x :
  hex_digests -> 0 <= s <= MAX_SAFE_INTEGER ->
  match_cursor (formatCursor s (digest sha256_hex x)) = Some (decimal s).
Proof.
  intros Hh Hs. unfold match_cursor, formatCursor, digest.
  change (drop 7 (js "sha256:" ++ sha256_hex (utf8_encode x))) with (sha256_hex (utf8_encode x)).
  rewrite (take_app_length' (js "evt_")) by done. rewrite decide_True by done.
  rewrite (drop_app_length' (js "evt_")) by done.
  assert (Hd : Forall is_digit (decimal s)).
  { unfold decimal. destruct (Z.ltb_spec s 0); [lia|]. by apply dec_digits_log. }
  rewrite take_digits_app by (done || (simpl; unfold is_digit; lia)).
  destruct (Hh (utf8_encode x)) as [Hl Hf]. pose proof (decimal_length s Hs) as Hlen.
  rewrite Z.eqb_refl. unfold in_range. rewrite !(proj2 (Z.leb_le _ _)) by lia.
  rewrite length_take, Hl. cbn [andb Z.of_nat]. change (Z.of_nat (16 `min` 64) =? 16) with true. cbn [andb].
  assert (forallb is_hex (take 16 (sha256_hex (utf8_encode x))) = true) as ->; [|done].
  apply forallb_forall. intros c Hc. rewrite forallb_forall in Hf. apply Hf. apply list_elem_of_In in Hc.
  apply list_elem_of_lookup in Hc as [i Hi]. apply lookup_take_Some in Hi as [Hi _].
  apply list_elem_of_In. by eapply list_elem_of_lookup_2.
Qed.

Lemma digits_value_decimal s : 0 <= s -> digits_value (decimal s) = s.
Proof. intros Hs. unfold decimal. destruct (Z.ltb_spec s 0); [lia|]. by apply dec_digits_log. Qed.

Lemma parseCursorSequence_format s x :
  hex_digests -> 0 <= s <= MAX_SAFE_INTEGER ->
  parseCursorSequence (formatCursor s (digest sha256_hex x)) = Ok s.
Proof.
  intros Hh Hs. unfold parseCursorSequence. rewrite match_cursor_format, digits_value_decimal by (done || lia).
  rewrite (proj2 (is_safe_spec s)) by lia. done.
Qed.

(** No event has the cursor of the origin. *)
Lemma format_not_origin s x :
  hex_digests -> 1 <= s <= MAX_SAFE_INTEGER -> formatCursor s (digest sha256_hex x) <> NODE_EVENT_ORIGIN_CURSOR.
Proof.
  intros Hh Hs E. pose proof (parseCursorSequence_format s x Hh ltac:(lia)) as H. rewrite E in H.
  vm_compute in H. injection H as <-. lia.
Qed.
End Cursors.

(** ** Pages *)

Definition earlier (x y : EventRow) : bool := ev_sequence x <? ev_sequence y.

Lemma in_order_app {A} (before : A -> A -> bool) (l k : list A) :
  in_order before (l ++ k) <->
  in_order before l /\ in_order before k /\ Forall (fun x => Forall (fun y => before x y = true) k) l.
Proof.
  induction l as [|x l IH]; simpl; [split; [intros; split_and!; done|tauto]|].
  rewrite IH, Forall_app, Forall_cons. tauto.
Qed.

Lemma in_order_filter {A} (before : A -> A -> bool) p (l : list A) :
  in_order before l -> in_order before (List.filter p l).
Proof.
  induction l as [|x l IH]; simpl; [done|]. intros [Hx Hl]. destruct (p x); simpl; [|auto]. split; [|auto].
  rewrite Forall_forall in *. intros y Hy. apply Hx. apply list_elem_of_In, List.filter_In in Hy as [Hy _].
  by apply list_elem_of_In.
Qed.

Lemma sort_by_id {A} (before : A -> A -> bool) (l : list A) : in_order before l -> sort_by before l = l.
Proof.
  induction l as [|x l IH]; simpl; [done|]. intros [Hx Hl]. rewrite IH by done.
  destruct l as [|y l]; simpl; [done|]. apply Forall_cons in Hx as [-> _]. done.
Qed.

Lemma numbered_in_order t : numbered t -> in_order earlier t.
Proof.
  induction t as [|r t IH] using rev_ind; intros Ht; [done|]. apply numbered_snoc in Ht as [Ht Hr].
  apply in_order_app. split_and!; [auto|by repeat constructor|]. apply Forall_forall. intros x Hx.
  constructor; [|constructor]. apply (numbered_bound t x Ht) in Hx. unfold earlier. apply Z.ltb_lt. lia.
Qed.

Lemma in_order_impl {A} (b1 b2 : A -> A -> bool) (l : list A) :
  (forall x y, b1 x y = true -> b2 x y = true) -> in_order b1 l -> in_order b2 l.
Proof.
  intros Hb. induction l as [|x l IH]; simpl; [done|]. intros [Hx Hl]. split; [|auto].
  eapply Forall_impl; [exact Hx|]. auto.
Qed.

Lemma filter_everything {A} (p : A -> bool) b (l : list A) :
  Forall (fun x => p x = b) l -> List.filter p l = if b then l else [].
Proof. induction 1 as [|x l Hx _ IH]; simpl; [by destruct b|]. rewrite Hx, IH. by destruct b. Qed.

(** The page after an event is what follows it in the log of its node. *)
Lemma page_suffix n t after limit l1 l2 :
  numbered t -> node_events n t = l1 ++ l2 ->
  Forall (fun x => ev_sequence x <= after) l1 -> Forall (fun x => after < ev_sequence x) l2 ->
  events_page n after limit t = limited (clamp 1 1000 limit) l2.
Proof.
  intros Ht E H1 H2. unfold events_page. f_equal.
  assert (Hf : List.filter (fun r => bool_decide (ev_node_id r = n) && (after <? ev_sequence r)) t = l2).
  { transitivity (List.filter (fun r => after <? ev_sequence r) (node_events n t)).
    - unfold node_events. clear. induction t as [|r t IH]; simpl; [done|].
      destruct (bool_decide (ev_node_id r = n)); simpl; [|done]. by rewrite IH.
    - rewrite E, List.filter_app, (filter_everything _ false l1), (filter_everything _ true l2); [done| |].
      + eapply Forall_impl; [exact H2|]. intros x Hx. simpl in *. apply Z.ltb_lt. lia.
      + eapply Forall_impl; [exact H1|]. intros x Hx. simpl in *. apply Z.ltb_ge. lia. }
  rewrite Hf. apply sort_by_id. apply (in_order_impl earlier); [unfold earlier; intros x y Hxy; lia|].
  assert (Ho : in_order earlier (node_events n t)) by (by apply in_order_filter, numbered_in_order).
  rewrite E in Ho. apply in_order_app in Ho. tauto.
Qed.

Section Pages.
Context (is_uuid is_datetime : jsstring -> bool) (localeCompare : jsstring -> jsstring -> Z)
  (sha256_hex : bytes -> jsstring) (Hh : hex_digests sha256_hex).

Abbreviation log_ok := (log_ok localeCompare sha256_hex).

(** The log fits the numbers a cursor can carry. *)
Definition countable_log (d : Db) : Prop := Z.of_nat (length (node_control_events d)) <= MAX_SAFE_INTEGER.

Definition cursor_of (r : EventRow) : jsstring := formatCursor (ev_sequence r) (ev_event_digest r).

Lemma event_digest_hash r : event_ok localeCompare sha256_hex r -> exists x, ev_event_digest r = digest sha256_hex x.
Proof. intros (v & a & p & _ & _ & _ & _ & _ & ->). eauto. Qed.

Lemma cursor_valid d n r :
  log_ok d -> countable_log d -> r ∈ node_events n (node_control_events d) ->
  cursorSequence n (cursor_of r) d = Ok (ev_sequence r).
Proof.
  intros [_ Hnum _ He _] Hc Hr. apply node_events_elem in Hr as [Hr Hn].
  pose proof (numbered_bound _ _ Hnum Hr) as Hb. rewrite Forall_forall in He.
  destruct (event_digest_hash r (He r Hr)) as (x & Ex). unfold countable_log in Hc.
  unfold cursorSequence, cursor_of. rewrite Ex. rewrite decide_False by (apply format_not_origin; [done|lia]).
  unfold validateCursor. rewrite parseCursorSequence_format by (done || lia).
  assert (Hsel : select_one (fun e => bool_decide (ev_node_id e = n) && (ev_sequence e =? ev_sequence r))
    (node_control_events d) = Some r).
  { destruct (select_one _ _) as [y|] eqn:E.
    - apply select_one_Some in E as [Hy Hp]. bool_prop. f_equal.
      apply list_elem_of_lookup in Hy as [i Hi], Hr as [j Hj].
      pose proof (Hnum i y Hi). pose proof (Hnum j r Hj). assert (i = j) as -> by lia. congruence.
    - apply select_one_None in E. rewrite Forall_forall in E. specialize (E r Hr).
      rewrite (bool_decide_eq_true_2 _ Hn), Z.eqb_refl in E. done. }
  rewrite Hsel, Ex, bool_decide_eq_true_2 by done. done.
Qed.

Lemma split_sequences d n l1 r l2 :
  numbered (node_control_events d) -> node_events n (node_control_events d) = l1 ++ r :: l2 ->
  Forall (fun x => ev_sequence x <= ev_sequence r) (l1 ++ [r]) /\ Forall (fun x => ev_sequence r < ev_sequence x) l2.
Proof.
  intros Hnum E.
  assert (Ho : in_order earlier (l1 ++ r :: l2)) by (rewrite <- E; by apply in_order_filter, numbered_in_order).
  apply in_order_app in Ho as (_ & Ho & Hf). simpl in Ho. destruct Ho as [H2 _]. split.
  - apply Forall_app. split; [|constructor; [lia|constructor]]. eapply Forall_impl; [exact Hf|].
    intros x Hx. apply Forall_cons in Hx as [Hx _]. unfold earlier in Hx. simpl. lia.
  - eapply Forall_impl; [exact H2|]. intros x Hx. unfold earlier in Hx. simpl in *. lia.
Qed.

(** Nothing comes after the latest cursor. *)
Lemma latest_cursor_end d n limit :
  log_ok d -> countable_log d -> eventsAfter is_datetime n (Some (latestCursor n d)) limit d = Ok [].
Proof.
  intros Hl Hc. pose proof Hl as [_ Hnum _ _ _]. unfold eventsAfter, latestCursor. rewrite latest_event_last by done.
  destruct (last (node_events n (node_control_events d))) as [r|] eqn:E.
  - apply last_Some in E as [l1 E].
    assert (Hr : r ∈ node_events n (node_control_events d)) by (rewrite E; apply elem_of_app; right; left).
    fold (cursor_of r). rewrite (cursor_valid d n r) by done.
    destruct (split_sequences d n l1 r []) as [H1 H2]; [done|done|].
    rewrite (page_suffix n _ (ev_sequence r) limit (l1 ++ [r]) []); [|done|by rewrite app_nil_r|done|done].
    unfold limited. by rewrite take_nil.
  - apply last_None in E. unfold cursorSequence. rewrite decide_True by done.
    rewrite (page_suffix n _ 0 limit [] []); [|done|done|done|done]. unfold limited. by rewrite take_nil.
Qed.
End Pages.

(** Cursors: in every reachable state (of fewer than 2^53 events) the
    cursor of an event is accepted for its node and stands for the event's number, and
    the page after it holds exactly the following events of the node, in order, up to
    the limit, so that a reader who goes on from the cursor of the last event it got
    misses nothing and sees nothing twice. *)
Theorem cursor_resumes (is_uuid is_datetime : jsstring -> bool) (localeCompare : jsstring -> jsstring -> Z)
    (sha256_hex : bytes -> jsstring) d n l1 r l2 limit :
  hex_digests sha256_hex ->
  rtc (step is_uuid is_datetime localeCompare sha256_hex) empty_db d -> countable_log d ->
  node_events n (node_control_events d) = l1 ++ r :: l2 ->
  cursorSequence n (cursor_of r) d = Ok (ev_sequence r)
  /\ eventsAfter is_datetime n (Some (cursor_of r)) limit d
     = all_events is_datetime (take (Z.to_nat (clamp 1 1000 limit)) l2)
  /\ eventsAfter is_datetime n None limit d
     = all_events is_datetime (take (Z.to_nat (clamp 1 1000 limit)) (l1 ++ r :: l2)).
Proof.
  intros Hh Hd Hc E. apply reachable_log_ok in Hd. pose proof Hd as [_ Hnum _ _ _].
  assert (Hr : r ∈ node_events n (node_control_events d)) by (rewrite E; apply elem_of_app; right; left).
  pose proof (cursor_valid localeCompare sha256_hex Hh d n r Hd Hc Hr) as Hcur.
  destruct (split_sequences d n l1 r l2) as [H1 H2]; [done|done|].
  split; [done|]. unfold eventsAfter. rewrite Hcur. split.
  - rewrite (page_suffix n _ (ev_sequence r) limit (l1 ++ [r]) l2); [done|done|by rewrite <- app_assoc|done|done].
  - rewrite (page_suffix n _ 0 limit [] (l1 ++ r :: l2)); [done|done|done|done|].
    rewrite <- E. apply Forall_forall. intros x Hx. apply node_events_elem in Hx as [Hx _].
    apply (numbered_bound _ _ Hnum) in Hx. lia.
Qed.

Lemma all_events_length is_datetime rows l : all_events is_datetime rows = Ok l -> length l = length rows.
Proof.
  revert l; induction rows as [|r rows IH]; intros l H; simpl in H; [by injection H as <-|].
  destruct (to_event is_datetime r); [|done]. destruct (all_events is_datetime rows); [|done].
  injection H as <-. simpl. by rewrite (IH _ eq_refl).
Qed.

Lemma reconcile_answer is_uuid is_datetime localeCompare sha256_hex now input d r d' :
  reconcile is_uuid is_datetime localeCompare sha256_hex now input d = (Ok r, d') ->
  zparse (nodeSnapshotSchema is_uuid is_datetime) input = Ok (rec_snapshot r)
  /\ eventsAfter is_datetime (jstr "nodeId" (rec_snapshot r)) (Some (jstr "cursor" (rec_snapshot r))) 100 d' = Ok (rec_events r)
  /\ rec_latestCursor r = latestCursor (jstr "nodeId" (rec_snapshot r)) d'.
Proof.
  unfold reconcile. intros H. apply lift_ok in H as (snapshot & Hs & H). cbv zeta in H.
  destruct (time_gt _ _); [done|]. apply transaction_ok in H. unfold se_bind at 1, se_get at 1 in H.
  apply lift_ok in H as (cs & _ & H). apply lift_ok in H as (u1 & _ & H). apply lift_ok in H as (u2 & _ & H).
  apply bind_ok in H as (desired & d1 & _ & H). apply bind_ok in H as (u3 & d2 & _ & H).
  unfold se_bind at 1, se_get in H. apply lift_ok in H as (events & He & H). unfold se_ret in H.
  injection H as <- <-. done.
Qed.

(** C37 (error). The answer to a snapshot loses events: it carries at most the first 100
    events after the node's cursor (that of an event, not the origin cursor) but the latest cursor of the whole log, which the
    node keeps as its own; so when more than 100 events are pending, those from the
    101st on are in no answer, the next page from the new cursor being empty. *)
Theorem reconcile_skips_events (is_uuid is_datetime : jsstring -> bool) (localeCompare : jsstring -> jsstring -> Z)
    (sha256_hex : bytes -> jsstring) now input d r d' l1 x l2 limit :
  hex_digests sha256_hex -> valid_now now -> value_texts input ->
  rtc (step is_uuid is_datetime localeCompare sha256_hex) empty_db d ->
  reconcile is_uuid is_datetime localeCompare sha256_hex now input d = (Ok r, d') -> countable_log d' ->
  node_events (jstr "nodeId" (rec_snapshot r)) (node_control_events d') = l1 ++ x :: l2 ->
  jstr "cursor" (rec_snapshot r) = cursor_of x ->
  all_events is_datetime (take 100 l2) = Ok (rec_events r)
  /\ Z.of_nat (length (rec_events r)) = Z.min 100 (Z.of_nat (length l2))
  /\ eventsAfter is_datetime (jstr "nodeId" (rec_snapshot r)) (Some (rec_latestCursor r)) limit d' = Ok [].
Proof.
  intros Hh Hnow Hv Hd H Hc E Ecur.
  assert (Hlog : log_ok localeCompare sha256_hex d').
  { apply (reachable_log_ok is_uuid is_datetime). eapply rtc_r; [exact Hd|]. exists now, (OpReconcile input).
    split_and!; [done|done|]. simpl. by rewrite H. }
  apply reconcile_answer in H as (_ & He & Hl). pose proof Hlog as [_ Hnum _ _ _].
  assert (Hx : x ∈ node_events (jstr "nodeId" (rec_snapshot r)) (node_control_events d'))
    by (rewrite E; apply elem_of_app; right; left).
  destruct (split_sequences d' _ l1 x l2 Hnum E) as [H1 H2].
  unfold eventsAfter in He. rewrite Ecur, (cursor_valid localeCompare sha256_hex Hh d' _ x Hlog Hc Hx) in He.
  rewrite (page_suffix _ _ (ev_sequence x) 100 (l1 ++ [x]) l2) in He by (done || by rewrite <- app_assoc).
  change (limited (clamp 1 1000 100) l2) with (take 100 l2) in He.
  split_and!; [done| |].
  - apply all_events_length in He. rewrite He, length_take. lia.
  - rewrite Hl. by apply (latest_cursor_end is_datetime localeCompare sha256_hex).
Qed.
