(* ===== verification/NodeRoutes.v ===== *)
(** * The routes of the node commands

    The handlers of [src/src/coordinator/server.ts] through which an account sends
    commands to its node and reads its events, and through which the node pulls
    commands, posts results and sends snapshots.  The principal of a request, the row of
    [node_ownership] and whether the session has a recent second factor are arguments;
    a request carries the value of its JSON body. *)

From S2P Require Import Prelude JsString JsMap JsonText JsonParse Schema Zod JsDate NodeJson NodeControl NodeCommands NodeReconciliation.

#[local] Open Scope Z_scope.

Record response := Response { status : Z; body : json }.

Definition response_ok (r : response) : bool := in_range 200 299 (status r).

Definition error_response (code : Z) (error : string) : response :=
  Response code (JObj [(js "error", JObj [(js "code", JStr (js error))])]).

(** The error handler: a ZodError is the client's fault, the rest the server's. *)
Definition error_handler (error : string) : response :=
  if String.eqb error ZodError then error_response 400 "invalid_request" else error_response 500 "internal_error".

(** [code.endsWith(suffix)] and [code.includes(word)]. *)
Definition endsWith (suffix code : string) : bool :=
  bool_decide (drop (length (js code) - length (js suffix)) (js code) = js suffix)
  && Nat.leb (length (js suffix)) (length (js code)).

Fixpoint includes (word s : jsstring) : bool :=
  bool_decide (take (length word) s = word) || match s with [] => false | _ :: s' => includes word s' end.

(** [try { ... } catch (error) { reply.code(f(error)) }]. *)
Definition catching {S} (c : SE S response) (f : string -> Z) : SE S response :=
  fun d => match c d with (Ok r, d') => (Ok r, d') | (Err e, d') => (Ok (error_response (f e) e), d') end.

(** What the server answers. *)
Definition answer {S} (c : SE S response) (d : S) : response * S :=
  match c d with (Ok r, d') => (r, d') | (Err e, d') => (error_handler e, d') end.

Inductive principal := User (userId : jsstring) | OtherPrincipal.

Record NodeOwnership := NodeOwnership_ {
  ow_accountId : jsstring;
  ow_active : bool;                     (* status === "active" *)
  ow_generation : Z
}.

(** [z.object({ identityId: z.string().min(1).max(256) }).strict().parse(request.params)]. *)
Definition identity_valid (identityId : jsstring) : bool := min_max 1 256 identityId.

Definition durable_document (c : DurableNodeCommand) : json :=
  JObj [(js "command", c.1); (js "state", JStr (state_text c.2))].

Definition list_document (data : list json) (extra : list (jsstring * json)) : json :=
  JObj ([(js "object", JStr (js "list")); (js "data", JArr data)] ++ extra).

Section Routes.
Context (is_uuid is_datetime : jsstring -> bool) (localeCompare : jsstring -> jsstring -> Z)
  (sha256_hex : bytes -> jsstring).

(** *** For accounts *)

Definition needs_second_factor (command : json) : bool :=
  bool_decide (jstr "type" command = js "uninstall") || bool_decide (jstr "type" command = js "revoke").

Definition post_command (now : Z) (p : principal) (recentAal2 : bool) (ownership : option NodeOwnership)
  (identityId : jsstring) (input : value) : SE Db response :=
  match p with
  | OtherPrincipal => se_ret (error_response 403 "account_session_required")
  | User userId =>
      fail_if negb (identity_valid identityId) with ZodError ;;
      match ownership with
      | None => se_ret (error_response 404 "node_not_found")
      | Some o =>
          if negb (bool_decide (ow_accountId o = userId)) || negb (ow_active o)
          then se_ret (error_response 404 "node_not_found") else
          let! command := se_lift (zparse (nodeCommandSchema is_uuid is_datetime) input) in
          if needs_second_factor command && negb recentAal2
          then se_ret (error_response 403 "recent_aal2_reauthentication_required") else
          if negb (bool_decide (jstr "nodeId" command = identityId))
             || negb (bool_decide (jstr "kind" (jobj "actor" command) = js "account"))
             || negb (bool_decide (jstr "id" (jobj "actor" command) = userId))
          then se_ret (error_response 403 "node_command_actor_mismatch") else
          catching
            (let! c := enqueue is_uuid is_datetime localeCompare sha256_hex now (embed command) (ow_generation o) in
             se_ret (Response 202 (durable_document c)))
            (fun code => if endsWith "conflict" code || endsWith "replay" code then 409 else 400)
      end
  end.

(** [data.at(-1)?.cursor ?? query.cursor ?? null]. *)
Definition next_cursor (data : list json) (cursor : option jsstring) : json :=
  match last data with
  | Some e => jobj "cursor" e
  | None => match cursor with Some c => JStr c | None => JNull end
  end.

Definition get_events (p : principal) (ownership : option NodeOwnership) (identityId : jsstring)
  (cursor : option jsstring) (limit : option Z) : SE Db response :=
  match p with
  | OtherPrincipal => se_ret (error_response 403 "account_session_required")
  | User userId =>
      fail_if negb (identity_valid identityId) with ZodError ;;
      match ownership with
      | None => se_ret (error_response 404 "node_not_found")
      | Some o =>
          if negb (bool_decide (ow_accountId o = userId)) then se_ret (error_response 404 "node_not_found") else
          let limit := default 100 limit in
          fail_if negb (in_range 1 1000 limit) with ZodError ;;
          catching
            (let! d := se_get in
             let! data := se_lift (eventsAfter is_datetime identityId cursor limit d) in
             se_ret (Response 200 (list_document data [(js "nextCursor", next_cursor data cursor)])))
            (fun _ => 400)
      end
  end.

(** *** For the node *)

Definition owned_by_generation (ownership : option NodeOwnership) (generation : Z) : bool :=
  match ownership with Some o => ow_active o && (ow_generation o =? generation) | None => false end.

Definition get_commands (now : Z) (session : option jsstring) (ownership : option NodeOwnership)
  (identityId : jsstring) (generation : Z) (limit : option Z) : SE Db response :=
  fail_if negb (identity_valid identityId) with ZodError ;;
  if negb (bool_decide (session = Some identityId)) then se_ret (error_response 401 "worker_session_required") else
  let limit := default 32 limit in
  fail_if (generation <=? 0) || negb (in_range 1 256 limit) with ZodError ;;
  if negb (owned_by_generation ownership generation) then se_ret (error_response 409 "node_generation_mismatch") else
  let! data := pull is_uuid is_datetime localeCompare sha256_hex now identityId generation limit in
  se_ret (Response 200 (list_document (map durable_document data) [])).

Definition post_result (now : Z) (session : option jsstring) (identityId : jsstring) (input : value) : SE Db response :=
  fail_if negb (identity_valid identityId) with ZodError ;;
  if negb (bool_decide (session = Some identityId)) then se_ret (error_response 401 "worker_session_required") else
  let! result := se_lift (zparse (nodeCommandResultSchema is_uuid is_datetime) input) in
  if negb (bool_decide (jstr "nodeId" result = identityId))
  then se_ret (error_response 403 "node_command_result_wrong_node") else
  catching
    (let! recorded := recordResult is_uuid is_datetime localeCompare sha256_hex now (embed result) in
     se_ret (Response 200 recorded))
    (fun code => if endsWith "conflict" code then 409 else 400).

Definition reconciliation_document (r : NodeReconciliationResult) (acknowledged : list jsstring) : json :=
  JObj [(js "snapshot", rec_snapshot r); (js "desiredState", rec_desiredState r); (js "events", JArr (rec_events r));
        (js "latestCursor", JStr (rec_latestCursor r)); (js "acknowledgedCommandIds", JArr (map JStr acknowledged))].

Definition post_snapshot (now : Z) (session : option jsstring) (ownership : option NodeOwnership)
  (identityId : jsstring) (input : value) : SE Db response :=
  fail_if negb (identity_valid identityId) with ZodError ;;
  if negb (bool_decide (session = Some identityId)) then se_ret (error_response 401 "worker_session_required") else
  let! snapshot := se_lift (zparse (nodeSnapshotSchema is_uuid is_datetime) input) in
  if negb (bool_decide (jstr "nodeId" snapshot = identityId))
  then se_ret (error_response 403 "node_snapshot_wrong_node") else
  if negb (owned_by_generation ownership (jnum "generation" snapshot))
  then se_ret (error_response 409 "node_generation_mismatch") else
  catching
    (let! r := reconcile is_uuid is_datetime localeCompare sha256_hex now (embed snapshot) in
     let! d := se_get in
     se_ret (Response 200 (reconciliation_document r
       (acknowledgedCommandIds identityId (jnum "generation" snapshot) 256 d))))
    (fun code => if includes (js "regression") (js code) || includes (js "mismatch") (js code)
                    || includes (js "downgrade") (js code) then 409 else 400).
End Routes.
