(* ===== verification/NodeRoutesProps.v ===== *)
(** * The routes of the node commands: who may change what *)

From S2P Require Import Prelude JsString JsMap JsSort JsonText JsonParse Schema Sql Zod JsDate NodeJson NodeControl NodeControlProps NodeCommands NodeReconciliation NodeCommandsInv NodeCommandsLog NodeCommandsProps NodeRoutes.

#[local] Open Scope Z_scope.

(** The rows of other nodes, in every table. *)
Definition not_of {R} (node : R -> jsstring) (n : jsstring) (t : list R) : list R :=
  List.filter (fun r => negb (bool_decide (node r = n))) t.

Definition foreign (n : jsstring) (d : Db) :=
  (not_of cr_node_id n (node_commands d), not_of rr_node_id n (node_command_results d),
   not_of ev_node_id n (node_control_events d), not_of ds_node_id n (node_desired_states d),
   not_of sn_node_id n (node_snapshots d), not_of sh_node_id n (node_snapshot_history d)).

Lemma not_of_map {R} (node : R -> jsstring) n (f : R -> R) t :
  (forall r, r ∈ t -> f r = r \/ (node r = n /\ node (f r) = n)) -> not_of node n (map f t) = not_of node n t.
Proof.
  unfold not_of. induction t as [|r t IH]; intros H; [done|]. simpl. rewrite IH by (intros x Hx; apply H; by right).
  destruct (H r ltac:(left)) as [->|[E1 E2]]; [done|]. by rewrite !bool_decide_eq_true_2.
Qed.

Lemma not_of_snoc {R} (node : R -> jsstring) n t r : node r = n -> not_of node n (t ++ [r]) = not_of node n t.
Proof.
  intros E. unfold not_of. rewrite List.filter_app. simpl. rewrite bool_decide_eq_true_2 by done. by rewrite app_nil_r.
Qed.

Lemma not_of_upsert {R} (node : R -> jsstring) n same row t :
  (forall r, same row r = true -> node r = n) -> node row = n -> not_of node n (upsert same row t) = not_of node n t.
Proof.
  intros Hs Hr. unfold not_of. induction t as [|r t IH]; simpl; [by rewrite bool_decide_eq_true_2|].
  destruct (same row r) eqn:E; simpl; [|by rewrite IH]. rewrite (bool_decide_eq_true_2 (node row = n)) by done.
  by rewrite (bool_decide_eq_true_2 (node r = n)) by auto.
Qed.

Section Isolation.
Context (is_uuid is_datetime : jsstring -> bool) (localeCompare : jsstring -> jsstring -> Z)
  (sha256_hex : bytes -> jsstring) (n : jsstring).

Abbreviation append := (appendEvent localeCompare sha256_hex).
Abbreviation row_ok := (command_row_ok is_uuid is_datetime localeCompare).

(** A write that leaves the rows of other nodes and the commands' identities alone. *)
Definition identity (r : CommandRow) := (cr_id r, cr_node_id r).

Record own_write (d d' : Db) : Prop := {
  own_foreign : foreign n d' = foreign n d;
  own_identities : map identity (node_commands d') = map identity (node_commands d)
}.

Lemma own_writes d d' : rtc own_write d d' -> own_write d d'.
Proof.
  induction 1 as [|x y z [H1 H2] _ [H3 H4]]; [by constructor|]. constructor; congruence.
Qed.

(** Only a command of [n] has the identifier [id]. *)
Definition owned (id : jsstring) (d : Db) : Prop := Forall (fun r => cr_id r = id -> cr_node_id r = n) (node_commands d).

Lemma owned_identities id d d' :
  map identity (node_commands d') = map identity (node_commands d) -> owned id d -> owned id d'.
Proof.
  intros E H. unfold owned in *. rewrite Forall_forall in *. intros r Hr Hid.
  assert (Hi : identity r ∈ map identity (node_commands d)) by (rewrite <- E; apply list_elem_of_fmap; eauto).
  apply list_elem_of_fmap in Hi as (x & Ex & Hx). injection Ex as E1 E2. rewrite E2. apply H; congruence.
Qed.

Lemma set_state_own from set id d :
  (forall r, identity (set r) = identity r) -> owned id d -> own_write d (set_state from set id d).
Proof.
  intros Hs Ho. unfold owned in Ho. rewrite Forall_forall in Ho. constructor.
  - unfold foreign. cbn [set_state with_commands node_commands node_command_results node_control_events node_desired_states
      node_snapshots node_snapshot_history]. do 5 f_equal. apply not_of_map. intros r Hr.
    destruct (bool_decide (cr_id r = id) && from (cr_state r)) eqn:E; [right|by left].
    bool_prop. pose proof (Hs r) as Hi. injection Hi as _ ->. split; by apply Ho.
  - cbn [set_state with_commands node_commands]. rewrite map_map. apply map_ext. intros r. by destruct (_ && _).
Qed.

Lemma append_own now g actor eventType payload d :
  stays own_write (append now n g actor eventType payload) d.
Proof.
  unfold appendEvent. apply stays_lift; intros a _. apply stays_gets. cbv zeta. apply stays_get.
  apply stays_lift; intros t Ht. apply stays_modify, rtc_once. apply insert_row_inv in Ht as (-> & _ & _).
  constructor; [|done]. unfold foreign. cbn [with_events node_commands node_command_results node_control_events
    node_desired_states node_snapshots node_snapshot_history]. by rewrite not_of_snoc.
Qed.

Lemma expire_own now rows d :
  Forall (fun r => owned (cr_id r) d) rows ->
  stays own_write (expire_rows is_uuid is_datetime localeCompare sha256_hex now n rows) d.
Proof.
  revert d; induction rows as [|row rows IH]; intros d Ho; cbn [expire_rows]; [apply stays_ret|].
  apply Forall_cons in Ho as [Hr Ho].
  apply stays_bind; [apply stays_modify, rtc_once; by apply set_state_own|intros [] d1 [= <-]].
  apply stays_lift; intros command _. apply stays_bind; [apply append_own|intros [] d2 E2]. apply IH.
  assert (Hid : map identity (node_commands d2) = map identity (node_commands d)).
  { apply append_keeps in E2 as [-> _]. apply own_identities. by apply set_state_own. }
  eapply Forall_impl; [exact Ho|]. intros r Hor. by eapply owned_identities.
Qed.

Lemma deliver_own now g rows d :
  Forall (fun r => owned (cr_id r) d) rows ->
  stays own_write (deliver_rows is_uuid is_datetime localeCompare sha256_hex now n g rows) d.
Proof.
  revert d; induction rows as [|row rows IH]; intros d Ho; cbn [deliver_rows]; [apply stays_ret|].
  apply Forall_cons in Ho as [Hr Ho]. apply stays_if; intros _.
  - apply stays_bind; [apply stays_modify, rtc_once; by apply set_state_own|intros [] d1 [= <-]].
    apply stays_lift; intros command _. apply stays_bind; [apply append_own|intros [] d2 E2].
    apply stays_bind; [|intros; apply stays_ret]. apply IH.
    assert (Hid : map identity (node_commands d2) = map identity (node_commands d)).
    { apply append_keeps in E2 as [-> _]. apply own_identities. by apply set_state_own. }
    eapply Forall_impl; [exact Ho|]. intros r Hor. by eapply owned_identities.
  - apply stays_bind; [by apply IH|intros; apply stays_ret].
Qed.

Lemma row_owned d r : tables_ok is_uuid is_datetime localeCompare d -> r ∈ node_commands d -> cr_node_id r = n -> owned (cr_id r) d.
Proof.
  intros Hok Hr Hn. apply Forall_forall. intros x Hx E.
  pose proof (readCommand_elem _ _ _ _ _ Hok Hx) as H1. pose proof (readCommand_elem _ _ _ _ _ Hok Hr) as H2. congruence.
Qed.

Lemma filter_elem {A} (p : A -> bool) l x : x ∈ List.filter p l -> x ∈ l /\ p x = true.
Proof. intros H. apply list_elem_of_In, List.filter_In in H as [H ?]. by apply list_elem_of_In in H. Qed.

Lemma pending_elem g limit t r : r ∈ pending_rows n g limit t -> r ∈ t /\ cr_node_id r = n.
Proof.
  unfold pending_rows, limited. intros H. apply list_elem_of_lookup in H as [i Hi].
  apply lookup_take_Some in Hi as [Hi _]. apply list_elem_of_lookup_2 in Hi. rewrite sort_by_perm in Hi.
  apply filter_elem in Hi as [H E]. bool_prop. done.
Qed.

Lemma pull_own now g limit d :
  tables_ok is_uuid is_datetime localeCompare d ->
  stays own_write (pull is_uuid is_datetime localeCompare sha256_hex now n g limit) d.
Proof.
  intros Hok. unfold pull. apply stays_if; intros _; [apply stays_throw|]. apply stays_transaction.
  assert (He : stays own_write (expirePending is_uuid is_datetime localeCompare sha256_hex now n g) d).
  { apply stays_get, expire_own. apply Forall_forall. intros r Hr. apply filter_elem in Hr as [Hr E]. bool_prop. by apply row_owned. }
  apply stays_bind; [done|]. intros [] d1 E1. unfold stays in He. rewrite E1 in He. apply own_writes in He as [_ Hi].
  apply stays_get. apply stays_bind; [|intros rows d2 _; unfold stays, se_lift; simpl; reflexivity].
  apply deliver_own. apply Forall_forall. intros r Hr. apply pending_elem in Hr as [Hr Hn].
  assert (Hr' : identity r ∈ map identity (node_commands d)) by (rewrite <- Hi; apply list_elem_of_fmap; eauto).
  apply list_elem_of_fmap in Hr' as (x & Ex & Hx). injection Ex as E2 E3. rewrite E2.
  eapply owned_identities; [exact Hi|]. apply row_owned; [done|done|congruence].
Qed.

Lemma record_own now input result d :
  tables_ok is_uuid is_datetime localeCompare d ->
  parse (nodeCommandResultSchema is_uuid is_datetime) input = Some result -> jstr "nodeId" result = n ->
  stays own_write (recordResult is_uuid is_datetime localeCompare sha256_hex now input) d.
Proof.
  intros Hok Hp Hn. unfold recordResult. apply stays_lift; intros r Hr. apply zparse_ok in Hr.
  assert (r = result) as -> by congruence. apply stays_if; intros _; [apply stays_throw|].
  apply stays_transaction, stays_get. destruct (readCommand _ d) as [row|] eqn:Er; [|apply stays_throw].
  apply readCommand_Some in Er as [Hrow Hid].
  destruct (bool_decide (cr_node_id row = jstr "nodeId" result)) eqn:En; [|apply stays_throw]. cbn [negb].
  apply bool_decide_eq_true in En. apply stays_if; intros _; [apply stays_throw|]. cbv zeta.
  destruct (select_one _ (node_command_results d)).
  { apply stays_if; intros _; [apply stays_throw|]. unfold stays, se_lift. simpl. reflexivity. }
  apply stays_lift; intros s _. apply stays_lift; intros t Ht.
  assert (Ho : owned (jstr "commandId" result) d) by (rewrite <- Hid; apply row_owned; [done|done|congruence]).
  apply stays_bind.
  { apply stays_modify, rtc_once. unfold insert_result in Ht. destruct (Date_parse _); [|done].
    apply insert_row_inv in Ht as (-> & _ & _). constructor; [|done]. unfold foreign.
    cbn [with_results node_commands node_command_results node_control_events node_desired_states node_snapshots
      node_snapshot_history]. by rewrite not_of_snoc. }
  intros [] d1 [= <-]. apply stays_bind; [apply stays_modify, rtc_once; by apply set_state_own|intros [] d2 [= <-]].
  rewrite Hn. apply stays_bind; [apply append_own|intros; apply stays_ret].
Qed.

Lemma desired_own now command d :
  jstr "nodeId" command = n -> stays own_write (updateDesiredState is_datetime localeCompare now command) d.
Proof.
  intros Hn. unfold updateDesiredState. cbv zeta. apply stays_get. destruct (select_one _ _); [|apply stays_ret].
  apply stays_lift; intros current _. apply stays_if; [intros _; apply stays_throw|intros _].
  apply stays_lift; intros u _. apply stays_lift; intros next _. apply stays_modify, rtc_once. constructor; [|done].
  unfold foreign. cbn [with_desired node_commands node_command_results node_control_events node_desired_states
    node_snapshots node_snapshot_history]. rewrite not_of_map; [done|]. intros r _.
  destruct (bool_decide (ds_node_id r = jstr "nodeId" command)) eqn:E; [|by left]. cbn [andb].
  apply bool_decide_eq_true in E. destruct (_ =? _); [right; cbn; split; congruence|by left].
Qed.

Lemma replay_own now rows d :
  Forall row_ok rows -> Forall (fun r => cr_node_id r = n) rows ->
  stays own_write (replay_rows is_uuid is_datetime localeCompare now rows) d.
Proof.
  revert d; induction rows as [|row rows IH]; intros d Hr Hn; cbn [replay_rows]; [apply stays_ret|].
  apply Forall_cons in Hr as [Hrow Hr], Hn as [Hn1 Hn]. apply stays_lift; intros command Hc.
  destruct Hrow as (v & c & Hp & Hpl & Hj & _ & Hni & _).
  rewrite Hj, (read_canonical localeCompare _ v c (command_schema_ok _ _) Hp Hpl) in Hc. injection Hc as <-.
  apply stays_bind; [apply desired_own; congruence|intros [] d1 _]. by apply IH.
Qed.

Lemma seed_own now snapshot d :
  tables_ok is_uuid is_datetime localeCompare d -> jstr "nodeId" snapshot = n ->
  stays own_write (readOrSeedDesired is_uuid is_datetime localeCompare now snapshot) d.
Proof.
  intros Hok Hn. unfold readOrSeedDesired. cbv zeta. rewrite Hn. apply stays_get. apply stays_lift; intros existing _.
  match goal with |- stays _ (match existing with Some e => if _ then _ else if _ then _ else ?k | None => _ end) _ =>
    assert (Hseed : stays own_write k d) end.
  { apply stays_lift; intros desired _. apply stays_bind.
    { apply stays_modify, rtc_once. constructor; [|done]. unfold foreign.
      cbn [with_desired node_commands node_command_results node_control_events node_desired_states
        node_snapshots node_snapshot_history]. rewrite not_of_upsert; [done| |done].
      intros r E. apply bool_decide_eq_true in E. done. }
    intros [] d1 [= <-]. apply stays_bind; [|intros [] d2 _; apply stays_get, stays_lift; intros [j|] _; [apply stays_ret|apply stays_throw]].
    unfold replayDesiredCommands. apply stays_get. destruct Hok as [Hc _ _ _ _]. rewrite Forall_forall in Hc.
    apply replay_own; apply Forall_forall; intros r Hr; rewrite sort_by_perm in Hr; apply filter_elem in Hr as [Hr E].
    - by apply Hc.
    - bool_prop. done. }
  destruct existing as [e|]; [|exact Hseed].
  apply stays_if; intros _; [apply stays_ret|]. apply stays_if; intros _; [apply stays_throw|exact Hseed].
Qed.

Lemma reconcile_own now input snapshot d :
  tables_ok is_uuid is_datetime localeCompare d ->
  parse (nodeSnapshotSchema is_uuid is_datetime) input = Some snapshot -> jstr "nodeId" snapshot = n ->
  stays own_write (reconcile is_uuid is_datetime localeCompare sha256_hex now input) d.
Proof.
  intros Hok Hp Hn. unfold reconcile. apply stays_lift; intros s Hs. apply zparse_ok in Hs.
  assert (s = snapshot) as -> by congruence. cbv zeta.
  apply stays_if; intros _; [apply stays_throw|]. apply stays_transaction, stays_get.
  apply stays_lift; intros cursorSeq _. apply stays_lift; intros _ _. apply stays_lift; intros _ _.
  apply stays_bind; [by apply seed_own|intros desired d1 _].
  apply stays_bind; [|intros _ d2 _; apply stays_get, stays_lift; intros events _; apply stays_ret].
  destruct (Date_parse _); [|apply stays_throw]. apply stays_modify, rtc_once. constructor; [|done].
  unfold foreign, store_snapshot. cbv zeta. cbn [with_snapshots node_commands node_command_results node_control_events node_desired_states
    node_snapshots node_snapshot_history]. rewrite not_of_upsert; [|intros r E; apply bool_decide_eq_true in E; cbn in E; congruence|done].
  f_equal. unfold insert_or_ignore. destruct (existsb _ _); [done|]. by rewrite not_of_snoc.
Qed.
End Isolation.

Lemma stays_catching {S} (W : S -> S -> Prop) (c : SE S response) f s : stays W c s -> stays W (catching c f) s.
Proof. unfold stays, catching. by destruct (c s) as [[r|x] s']. Qed.

Lemma stays_answer {S} (W : S -> S -> Prop) (c : SE S response) s : stays W c s -> rtc W s (answer c s).2.
Proof. unfold stays, answer. by destruct (c s) as [[r|x] s']. Qed.

(** The requests of a node. *)
Inductive node_request :=
| GetCommands (generation : Z) (limit : option Z)
| PostResult (input : value)
| PostSnapshot (input : value).

Definition serve (is_uuid is_datetime : jsstring -> bool) (localeCompare : jsstring -> jsstring -> Z)
    (sha256_hex : bytes -> jsstring) (now : Z) (session : option jsstring) (ownership : option NodeOwnership)
    (identityId : jsstring) (q : node_request) : SE Db response :=
  match q with
  | GetCommands g limit => get_commands is_uuid is_datetime localeCompare sha256_hex now session ownership identityId g limit
  | PostResult input => post_result is_uuid is_datetime localeCompare sha256_hex now session identityId input
  | PostSnapshot input => post_snapshot is_uuid is_datetime localeCompare sha256_hex now session ownership identityId input
  end.

Section Serve.
Context (is_uuid is_datetime : jsstring -> bool) (localeCompare : jsstring -> jsstring -> Z)
  (sha256_hex : bytes -> jsstring).

Abbreviation serve := (serve is_uuid is_datetime localeCompare sha256_hex).

Lemma serve_denied now session ownership id q d :
  session <> Some id -> (answer (serve now session ownership id q) d).2 = d.
Proof.
  intros H. unfold answer, NodeRoutesProps.serve, get_commands, post_result, post_snapshot.
  destruct q; destruct (identity_valid id); try done; by rewrite bool_decide_eq_false_2.
Qed.

Lemma reparsed s v j : zod_ok s = true -> value_texts v -> parse s v = Some j -> parse s (embed j) = Some j.
Proof.
  intros Hs Hv Hp. eapply parse_again; [done|exact Hp|]. apply same_embed. by eapply parse_plain; [|right|].
Qed.

Lemma serve_own now session ownership id q d :
  tables_ok is_uuid is_datetime localeCompare d ->
  match q with PostResult v | PostSnapshot v => value_texts v | GetCommands _ _ => True end ->
  stays (own_write id) (serve now session ownership id q) d.
Proof.
  intros Hok Hv. unfold NodeRoutesProps.serve, get_commands, post_result, post_snapshot.
  destruct q as [g limit|input|input]; (apply stays_if; intros _; [apply stays_throw|]);
    (apply stays_if; intros _; [apply stays_ret|]).
  - apply stays_if; intros _; [apply stays_throw|]. apply stays_if; intros _; [apply stays_ret|].
    apply stays_bind; [by apply pull_own|intros; apply stays_ret].
  - apply stays_lift; intros r Hr. apply zparse_ok in Hr.
    destruct (bool_decide (jstr "nodeId" r = id)) eqn:E; [|apply stays_ret]. cbn [negb]. apply bool_decide_eq_true in E.
    apply stays_catching. apply stays_bind; [|intros; apply stays_ret].
    eapply record_own; [done| |done]. by eapply reparsed; [apply result_schema_ok| |].
  - apply stays_lift; intros r Hr. apply zparse_ok in Hr.
    destruct (bool_decide (jstr "nodeId" r = id)) eqn:E; [|apply stays_ret]. cbn [negb]. apply bool_decide_eq_true in E.
    apply stays_if; intros _; [apply stays_ret|]. apply stays_catching.
    apply stays_bind; [|intros; apply stays_get, stays_ret].
    eapply reconcile_own; [done| |done]. by eapply reparsed; [apply snapshot_schema_ok| |].
Qed.
End Serve.

(** C27 (safety). Nodes are isolated from each other: whatever a node's request asks for
    and carries, in a reachable state it leaves every row of every other node as it was (its commands, results,
    events, desired state, snapshot and snapshot history), and without a session of that
    very node it changes nothing at all. *)
Theorem nodes_isolated (is_uuid is_datetime : jsstring -> bool) (localeCompare : jsstring -> jsstring -> Z)
    (sha256_hex : bytes -> jsstring) now session ownership id q d :
  rtc (step is_uuid is_datetime localeCompare sha256_hex) empty_db d ->
  match q with PostResult v | PostSnapshot v => value_texts v | GetCommands _ _ => True end ->
  foreign id (answer (serve is_uuid is_datetime localeCompare sha256_hex now session ownership id q) d).2 = foreign id d
  /\ (session <> Some id ->
      (answer (serve is_uuid is_datetime localeCompare sha256_hex now session ownership id q) d).2 = d).
Proof.
  intros Hd Hv. split; [|apply serve_denied]. apply reachable_tables_ok in Hd.
  by apply own_foreign, own_writes, stays_answer, serve_own.
Qed.

(** [input] is a command that the session [p] of an account may send to the node [id]. *)
Definition permitted (is_uuid is_datetime : jsstring -> bool) (p : principal) (recentAal2 : bool)
    (ownership : option NodeOwnership) (id : jsstring) (input : value) : Prop :=
  exists userId o command,
    p = User userId /\ ownership = Some o /\ ow_accountId o = userId /\ ow_active o = true
    /\ parse (nodeCommandSchema is_uuid is_datetime) input = Some command
    /\ jstr "nodeId" command = id /\ ow_generation o <= jnum "generation" command
    /\ jstr "kind" (jobj "actor" command) = js "account" /\ jstr "id" (jobj "actor" command) = userId
    /\ in_scope command = true
    /\ (needs_second_factor command = true -> recentAal2 = true).

