(* ===== verification/NodeExecutor.v ===== *)
(** * Executing commands on a node

    [NodeCommandExecutor] of [src/src/node/command-executor.ts].  The journal is a file
    that is replaced as a whole; [Journal] is the document it holds, [NoFile] is ENOENT
    and [Damaged] is a content that is not a journal.  What the environment decides
    during an execution (what [apply] does, whether a write succeeds, the random
    identifiers) is an argument; a process that dies after the mutation began is the
    outcome [Interrupted], as in the source.  [applications] records the calls of
    [apply]. *)

From S2P Require Import Prelude JsString JsMap JsonText JsonParse Schema Zod JsDate NodeJson NodeControl.

#[local] Open Scope Z_scope.

Inductive record_state := Applying | Complete.

#[export] Instance record_state_eq : EqDecision record_state.
Proof. solve_decision. Defined.

Record JournalRecord := JournalRecord_ {
  jr_commandId : jsstring;
  jr_nonce : jsstring;
  jr_commandDigest : jsstring;
  jr_state : record_state;
  jr_operationKey : jsstring;
  jr_result : option json;
  jr_updatedAt : jsstring
}.

Record Journal := Journal_ {
  jn_nodeId : jsstring;
  jn_generation : Z;
  jn_records : list JournalRecord
}.

Inductive file := NoFile | Damaged | Stored (j : Journal).

Record Node := Node_ {
  disk : file;
  applications : list (jsstring * json)
}.

Definition with_disk (f : file) (s : Node) : Node := Node_ f (applications s).
Definition applied (key : jsstring) (command : json) (s : Node) : Node :=
  Node_ (disk s) (applications s ++ [(key, command)]).

(** What [apply] does: it returns, throws one of its errors, or dies. *)
Inductive outcome :=
| Output (output : option json)
| ExecutionError (code message : jsstring)
| OtherError (message : jsstring)
| Interrupted.

Record environment := Environment {
  env_now : Z;
  env_outcome : outcome;
  env_begin_ok : bool;                  (* the write of the record that begins it succeeds *)
  env_finish_ok : bool;                 (* so does that of the result *)
  env_finish_error : jsstring;          (* the message of the error if it does not *)
  env_reject_ok : bool;                 (* so does that of a rejection *)
  env_uuid : jsstring;                  (* randomUUID(), once for each result *)
  env_uuid2 : jsstring
}.

Definition MAX_RECORDS : Z := 4096.

(** ** Texts of errors *)

Definition lower (c : Z) : Z := if in_range 65 90 c then c + 32 else c.

Fixpoint starts_with (word s : jsstring) : bool :=
  match word, s with
  | [], _ => true
  | a :: word', b :: s' => (a =? lower b) && starts_with word' s'
  | _ :: _, [] => false
  end.

Fixpoint mentions (word s : jsstring) : bool :=
  starts_with word s || match s with [] => false | _ :: s' => mentions word s' end.

Definition is_sensitive (s : jsstring) : bool :=
  existsb (fun w => mentions w s) [js "token"; js "secret"; js "password"; js "credential"; js "authorization"].

Definition safeErrorMessage (message : jsstring) : jsstring :=
  if bool_decide (message = []) || (512 <? utf16_length message) || is_sensitive message
  then js "The node could not apply the command." else message.

Definition safeErrorCode (value : jsstring) : jsstring :=
  if is_identifier value then value else js "node_command_apply_failed".

Definition operation_key (id : jsstring) : jsstring := js "node-command:" ++ id.

(** [/^node-command:[0-9a-f-]{36}$/]. *)
Definition is_operation_key (s : jsstring) : bool :=
  bool_decide (take 13 s = js "node-command:") && (Z.of_nat (length s) =? 49)
  && forallb (fun c => is_hex c || (c =? 45)) (drop 13 s).

Section Executor.
(** The tests of Zod for UUIDs and date-times, with and without an offset. *)
Context (is_uuid is_datetime is_datetime_utc : jsstring -> bool) (localeCompare : jsstring -> jsstring -> Z)
  (sha256_hex : bytes -> jsstring).

Abbreviation canonical := (canonicalJson localeCompare).
Abbreviation hash := (digest sha256_hex).
Abbreviation commandSchema := (nodeCommandSchema is_uuid is_datetime).
Abbreviation resultSchema := (nodeCommandResultSchema is_uuid is_datetime).

(** [journalRecordSchema] and [journalSchema] on documents of the right shape. *)
Definition record_valid (r : JournalRecord) : bool :=
  is_uuid (jr_commandId r) && (1 <=? utf16_length (jr_nonce r)) && is_sha256 (jr_commandDigest r)
  && is_operation_key (jr_operationKey r)
  && match jr_result r with
     | Some j => match parse resultSchema (embed j) with Some _ => true | None => false end
     | None => true
     end
  && is_datetime_utc (jr_updatedAt r).

Definition journal_valid (j : Journal) : bool :=
  min_max 1 128 (jn_nodeId j) && safe_positive (jn_generation j)
  && (Z.of_nat (length (jn_records j)) <=? MAX_RECORDS) && forallb record_valid (jn_records j).

Definition parse_journal (j : Journal) : res Journal :=
  throw_if negb (journal_valid j) with ZodError ;; Ok j.

(** *** Methods *)

Context (nodeId : jsstring) (generation : Z).

Definition load : SE Node Journal :=
  let! s := se_get in
  match disk s with
  | Stored j =>
      fail_if negb (journal_valid j) with "mycellios_node_command_journal_is_invalid" ;;
      fail_if negb (bool_decide (jn_nodeId j = nodeId)) with "mycellios_node_command_journal_wrong_node" ;;
      fail_if negb (jn_generation j =? generation) with "mycellios_node_command_journal_wrong_generation" ;;
      se_ret j
  | Damaged => se_throw "mycellios_node_command_journal_is_invalid"
  | NoFile => se_lift (parse_journal (Journal_ nodeId generation []))
  end.

(** The file is replaced atomically, or the write fails and leaves it. *)
Definition write (ok : bool) (j : Journal) : SE Node unit :=
  fail_if negb ok with "EIO" ;; se_modify (with_disk (Stored j)).

Definition is_state (x : record_state) (r : JournalRecord) : bool := bool_decide (jr_state r = x).

Definition appendBounded (j : Journal) (record : JournalRecord) : res Journal :=
  let complete := List.filter (is_state Complete) (jn_records j) in
  let applying := List.filter (is_state Applying) (jn_records j) in
  let from := Z.max 0 (Z.of_nat (length complete) - (MAX_RECORDS - Z.of_nat (length applying) - 1)) in
  let retainedComplete := drop (Z.to_nat from) complete in
  parse_journal (Journal_ (jn_nodeId j) (jn_generation j) (retainedComplete ++ applying ++ [record])).

Definition error_document (code message : jsstring) : json :=
  JObj [(js "code", JStr code); (js "message", JStr message)].

Definition result_document (uuid commandId state observedAt resultDigest : jsstring) (error : json) : json :=
  JObj [(js "schema", JStr (js "mycellios-node-command-result/1")); (js "id", JStr uuid);
        (js "commandId", JStr commandId); (js "nodeId", JStr nodeId); (js "generation", JNum generation);
        (js "state", JStr state); (js "observedAt", JStr observedAt); (js "resultDigest", JStr resultDigest);
        (js "error", error)].

Definition completed (commandId : jsstring) (result : json) (updatedAt : jsstring) (r : JournalRecord) : JournalRecord :=
  if bool_decide (jr_commandId r = commandId)
  then JournalRecord_ (jr_commandId r) (jr_nonce r) (jr_commandDigest r) Complete (jr_operationKey r) (Some result) updatedAt
  else r.

Definition finish (now : Z) (ok : bool) (uuid : jsstring) (journal : Journal) (commandId state resultDigest : jsstring)
  (error : json) : SE Node json :=
  let! observedAt := se_lift (toISOString now) in
  let! result := se_lift (zparse resultSchema (embed (result_document uuid commandId state observedAt resultDigest error))) in
  let! next := se_lift (parse_journal (Journal_ (jn_nodeId journal) (jn_generation journal)
                 (map (completed commandId result observedAt) (jn_records journal)))) in
  do! write ok next ;;
  se_ret result.

Definition begin_record (now : Z) (command : json) (commandDigest operationKey : jsstring) : res JournalRecord :=
  let? updatedAt := toISOString now in
  Ok (JournalRecord_ (jstr "id" command) (jstr "nonce" command) commandDigest Applying operationKey None updatedAt).

Definition finishWithoutApply (e : environment) (journal : Journal) (command : json) (commandDigest state : jsstring)
  (code message : jsstring) : SE Node json :=
  let id := jstr "id" command in
  let! journal :=
    (if existsb (fun r => bool_decide (jr_commandId r = id)) (jn_records journal) then se_ret journal
     else
       let! record := se_lift (begin_record (env_now e) command commandDigest (operation_key id)) in
       let! next := se_lift (appendBounded journal record) in
       do! write (env_begin_ok e) next ;;
       se_ret next) in
  finish (env_now e) (env_finish_ok e) (env_uuid e) journal id state
    (hash (canonical (error_document code message))) (error_document code message).

(** The [catch] of [executeOnce]: the command is recorded as rejected. *)
Definition reject (e : environment) (journal : Journal) (id code message : jsstring) : SE Node json :=
  finish (env_now e) (env_reject_ok e) (env_uuid2 e) journal id (js "rejected")
    (hash (canonical (JObj [(js "code", JStr code)])))
    (error_document (safeErrorCode code) (safeErrorMessage message)).

(** [try { apply; finish } catch { reject }]; the [await] keeps the errors of the first
    [finish] inside the [try]. *)
Definition apply_command (e : environment) (journal : Journal) (operationKey : jsstring) (command : json) : SE Node json :=
  do! se_modify (applied operationKey command) ;;
  match env_outcome e with
  | Output output =>
      fun s =>
        match finish (env_now e) (env_finish_ok e) (env_uuid e) journal (jstr "id" command) (js "applied")
                (hash (canonical (match output with Some j => j | None => JNull end))) JNull s with
        | (Ok r, s') => (Ok r, s')
        | (Err _, s') =>
            reject e journal (jstr "id" command) (js "node_command_apply_failed")
              (safeErrorMessage (env_finish_error e)) s'
        end
  | Interrupted => se_throw "node_command_execution_interrupted"
  | ExecutionError code message => reject e journal (jstr "id" command) code message
  | OtherError message =>
      reject e journal (jstr "id" command) (js "node_command_apply_failed") (safeErrorMessage message)
  end.

(** [executeOnce] once it is clear that there is no result yet. *)
Definition run_command (e : environment) (parsed : json) (commandDigest : jsstring) (journal : Journal)
  (existing : option JournalRecord) : SE Node json :=
  let id := jstr "id" parsed in
  let consumedNonces := map jr_nonce
    (List.filter (fun r => negb (bool_decide (jr_commandId r = id))) (jn_records journal)) in
  match parseAuthorizedNodeCommand is_uuid is_datetime (embed parsed)
          (ValidationContext (env_now e) generation consumedNonces nodeId) with
  | Err code =>
      if String.eqb code "node_command_expired"
      then finishWithoutApply e journal parsed commandDigest (js "expired") (js "node_command_expired")
             (js "The command expired before the node could apply it.")
      else se_throw code
  | Ok command =>
      let operationKey := match existing with Some r => jr_operationKey r | None => operation_key (jstr "id" command) end in
      let! journal :=
        match existing with
        | Some _ => se_ret journal
        | None =>
            let! record := se_lift (begin_record (env_now e) command commandDigest operationKey) in
            let! next := se_lift (appendBounded journal record) in
            do! write (env_begin_ok e) next ;;
            se_ret next
        end in
      apply_command e journal operationKey command
  end.

Definition executeOnce (e : environment) (input : value) : SE Node json :=
  let! parsed := se_lift (zparse commandSchema input) in
  let commandDigest := hash (canonical parsed) in
  let! journal := load in
  let existing := List.find (fun r => bool_decide (jr_commandId r = jstr "id" parsed)) (jn_records journal) in
  match existing with
  | Some r =>
      fail_if negb (bool_decide (jr_commandDigest r = commandDigest)) with "node_command_id_conflict" ;;
      match jr_state r, jr_result r with
      | Complete, Some result => se_ret result
      | _, _ => run_command e parsed commandDigest journal existing
      end
  | None => run_command e parsed commandDigest journal existing
  end.
End Executor.
