(* ===== verification/NodeExecutorProps.v ===== *)
(** * Executing commands: what the journal guarantees *)

From S2P Require Import Prelude JsString JsMap JsonText JsonParse Schema Zod JsDate NodeJson NodeControl NodeControlProps NodeCommands NodeCommandsInv NodeExecutor.

#[local] Open Scope Z_scope.

Definition find_in (id : jsstring) (l : list JournalRecord) : option JournalRecord :=
  List.find (fun r => bool_decide (jr_commandId r = id)) l.

Definition find_record (id : jsstring) (s : Node) : option JournalRecord :=
  match disk s with Stored j => find_in id (jn_records j) | _ => None end.

(** ** Records *)

(** The key of an operation is that of its command, and a complete record has a result. *)
Definition record_ok (r : JournalRecord) : Prop :=
  jr_operationKey r = operation_key (jr_commandId r) /\ (jr_state r = Complete -> is_Some (jr_result r)).

(** What may become of a record: a complete one stays as it is, one that is being
    applied stays or is completed. *)
Definition record_evolves (r r' : JournalRecord) : Prop :=
  r' = r \/ (jr_state r = Applying /\ jr_state r' = Complete /\ jr_commandId r' = jr_commandId r
             /\ jr_nonce r' = jr_nonce r /\ jr_commandDigest r' = jr_commandDigest r
             /\ jr_operationKey r' = jr_operationKey r).

Lemma find_in_Some id l r : find_in id l = Some r -> r ∈ l /\ jr_commandId r = id.
Proof.
  intros H. apply List.find_some in H as [H E]. apply bool_decide_eq_true in E. by apply list_elem_of_In in H.
Qed.

Lemma find_in_None id l : find_in id l = None <-> Forall (fun r => jr_commandId r <> id) l.
Proof.
  unfold find_in. induction l as [|r l IH]; simpl; [by split|]. rewrite Forall_cons, <- IH.
  case_bool_decide; [split; [done|tauto]|tauto].
Qed.

Lemma find_in_elem l r : NoDup (map jr_commandId l) -> r ∈ l -> find_in (jr_commandId r) l = Some r.
Proof.
  unfold find_in. induction l as [|x l IH]; intros Hn Hr; [by apply elem_of_nil in Hr|].
  apply NoDup_cons in Hn as [Hx Hn]. simpl. case_bool_decide as E.
  - apply elem_of_cons in Hr as [->|Hr]; [done|]. destruct Hx. rewrite E. apply list_elem_of_fmap. eauto.
  - apply elem_of_cons in Hr as [->|Hr]; [done|]. auto.
Qed.

Lemma find_in_perm id l l' : NoDup (map jr_commandId l) -> l ≡ₚ l' -> find_in id l = find_in id l'.
Proof.
  intros Hn Hp. assert (Hn' : NoDup (map jr_commandId l')) by (by rewrite <- Hp).
  destruct (find_in id l') as [r|] eqn:E.
  - apply find_in_Some in E as [E <-]. apply find_in_elem; [done|]. by rewrite Hp.
  - apply find_in_None. apply find_in_None in E. by rewrite Hp.
Qed.

(** ** Appending to the journal *)

Lemma states_split l :
  List.filter (is_state Complete) l ++ List.filter (is_state Applying) l ≡ₚ l.
Proof.
  induction l as [|r l IH]; [done|]. cbn [List.filter].
  destruct (jr_state r) eqn:E.
  - assert (is_state Complete r = false) as -> by (unfold is_state; by rewrite E).
    assert (is_state Applying r = true) as -> by (unfold is_state; by rewrite E).
    rewrite <- Permutation_middle. by rewrite IH.
  - assert (is_state Complete r = true) as -> by (unfold is_state; by rewrite E).
    assert (is_state Applying r = false) as -> by (unfold is_state; by rewrite E).
    simpl. by rewrite IH.
Qed.

Lemma is_state_elem x r l : r ∈ List.filter (is_state x) l <-> r ∈ l /\ jr_state r = x.
Proof. rewrite list_elem_of_In, List.filter_In, <- list_elem_of_In. unfold is_state. by rewrite bool_decide_eq_true. Qed.

(** ** How long a record is kept *)

(** The records after the first one of a command. *)
Fixpoint after (k : jsstring) (l : list JournalRecord) : list JournalRecord :=
  match l with
  | [] => []
  | r :: l' => if bool_decide (jr_commandId r = k) then l' else after k l'
  end.

Abbreviation count_state x l := (length (List.filter (is_state x) l)).

(** The records that are kept when the one of [k] is dropped: the complete ones after it,
    and all that are being applied. *)
Definition behind (k : jsstring) (s : Node) : nat :=
  match disk s with
  | Stored j => (count_state Complete (after k (jn_records j)) + count_state Applying (jn_records j))%nat
  | _ => 0%nat
  end.

Lemma count_states l : (count_state Complete l + count_state Applying l)%nat = length l.
Proof. by rewrite <- length_app, states_split. Qed.

Lemma find_in_app k a b : find_in k (a ++ b) = match find_in k a with Some r => Some r | None => find_in k b end.
Proof. unfold find_in. induction a as [|x a IH]; [done|]. simpl. by destruct (bool_decide _). Qed.

Lemma after_app k a b r : find_in k a = Some r -> after k (a ++ b) = after k a ++ b.
Proof. unfold find_in. induction a as [|x a IH]; [done|]. simpl. by case_bool_decide. Qed.

Lemma after_skip k a b : find_in k a = None -> after k (a ++ b) = after k b.
Proof. unfold find_in. induction a as [|x a IH]; [done|]. simpl. by case_bool_decide. Qed.

Lemma after_length k l r : find_in k l = Some r -> (length (after k l) < length l)%nat.
Proof. unfold find_in. induction l as [|x l IH]; [done|]. simpl. destruct (bool_decide _); [lia|]. intros H. specialize (IH H). lia. Qed.

Lemma complete_kept k l r :
  find_in k l = Some r -> jr_state r = Complete ->
  find_in k (List.filter (is_state Complete) l) = Some r
  /\ after k (List.filter (is_state Complete) l) = List.filter (is_state Complete) (after k l).
Proof.
  unfold find_in. intros Hf Hc. induction l as [|x l IH]; [done|]. simpl in *. case_bool_decide as E.
  - injection Hf as ->. assert (Hx : is_state Complete r = true) by (by apply bool_decide_eq_true). rewrite Hx. simpl. by rewrite bool_decide_eq_true_2.
  - specialize (IH Hf). destruct (is_state Complete x); [|done]. simpl. by rewrite bool_decide_eq_false_2.
Qed.

Lemma filter_state_all x y l :
  (forall r, r ∈ l -> jr_state r = y) -> List.filter (is_state x) l = if decide (y = x) then l else [].
Proof.
  induction l as [|r l IH]; intros H; [by case_decide|]. simpl. unfold is_state at 1. rewrite (H r) by left.
  rewrite IH by (intros; apply H; by right). case_decide as E; [by rewrite bool_decide_eq_true_2|by rewrite bool_decide_eq_false_2].
Qed.

Lemma retained_kept k (dropped retained : list JournalRecord) r :
  find_in k (dropped ++ retained) = Some r -> (length (after k (dropped ++ retained)) < length retained)%nat ->
  find_in k retained = Some r /\ after k (dropped ++ retained) = after k retained.
Proof.
  intros Hf Hlt. destruct (find_in k dropped) as [x|] eqn:E.
  - rewrite (after_app _ _ _ x E), length_app in Hlt. lia.
  - rewrite after_skip by done. split; [|done]. by rewrite find_in_app, E in Hf.
Qed.

Section Journal.
Context (is_uuid is_datetime is_datetime_utc : jsstring -> bool).

Abbreviation journal_valid := (journal_valid is_uuid is_datetime is_datetime_utc).
Abbreviation appendBounded := (appendBounded is_uuid is_datetime is_datetime_utc).

Lemma parse_journal_ok j j' :
  parse_journal is_uuid is_datetime is_datetime_utc j = Ok j' -> j' = j /\ journal_valid j = true.
Proof. unfold parse_journal. destruct (journal_valid j); [|done]. by intros [= <-]. Qed.

(** What is dropped and what is kept: the newest complete records that fit, every
    record that is being applied, and the new one. *)
Lemma appendBounded_spec j record next :
  appendBounded j record = Ok next ->
  exists dropped retained,
    List.filter (is_state Complete) (jn_records j) = dropped ++ retained
    /\ jn_records next = retained ++ List.filter (is_state Applying) (jn_records j) ++ [record]
    /\ Z.of_nat (length dropped) <= Z.max 0 (Z.of_nat (length (jn_records j)) + 1 - MAX_RECORDS)
    /\ journal_valid next = true /\ jn_nodeId next = jn_nodeId j /\ jn_generation next = jn_generation j.
Proof.
  unfold NodeExecutor.appendBounded. cbv zeta. intros H. apply parse_journal_ok in H as [-> Hv].
  set (complete := List.filter (is_state Complete) (jn_records j)) in *.
  set (applying := List.filter (is_state Applying) (jn_records j)) in *.
  set (n := Z.to_nat _) in *. exists (take n complete), (drop n complete). cbn [jn_records jn_nodeId jn_generation].
  split_and!; [by rewrite take_drop|done| |done|done|done].
  pose proof (Permutation_length (states_split (jn_records j))) as Hl. rewrite length_app in Hl. fold complete applying in Hl.
  rewrite length_take. lia.
Qed.

(** The record of another command is the same, or was dropped, complete. *)
Definition same_or_dropped (o o' : option JournalRecord) : Prop :=
  o' = o \/ (o' = None /\ exists r, o = Some r /\ jr_state r = Complete).

Lemma append_find j record next id :
  NoDup (map jr_commandId (jn_records j)) -> find_in (jr_commandId record) (jn_records j) = None ->
  appendBounded j record = Ok next ->
  NoDup (map jr_commandId (jn_records next))
  /\ find_in (jr_commandId record) (jn_records next) = Some record
  /\ (id <> jr_commandId record -> same_or_dropped (find_in id (jn_records j)) (find_in id (jn_records next))).
Proof.
  intros Hn Hf H. apply appendBounded_spec in H as (dropped & retained & Hc & Hr & _ & _).
  set (app_ := List.filter (is_state Applying) (jn_records j)) in *.
  assert (Hp : dropped ++ (retained ++ app_) ≡ₚ jn_records j)
    by (rewrite <- (states_split (jn_records j)), Hc, app_assoc; done).
  assert (Hn2 : NoDup (map jr_commandId (retained ++ app_))).
  { rewrite <- Hp, map_app in Hn. by apply NoDup_app in Hn as (_ & _ & ?). }
  assert (Hfresh : forall r, r ∈ retained ++ app_ -> jr_commandId r <> jr_commandId record).
  { intros r Hin. apply find_in_None in Hf. rewrite Forall_forall in Hf. apply Hf. rewrite <- Hp. apply elem_of_app. by right. }
  assert (Hnn : NoDup (map jr_commandId (jn_records next))).
  { rewrite Hr, app_assoc, map_app. apply NoDup_app. split_and!; [done| |by apply NoDup_singleton].
    intros x Hx Hx'. apply list_elem_of_singleton in Hx' as ->. apply list_elem_of_fmap in Hx as (r & E & Hin).
    by apply (Hfresh r). }
  split_and!; [done| |].
  - apply find_in_elem; [done|]. rewrite Hr. rewrite !elem_of_app, list_elem_of_singleton. auto.
  - intros Hne. unfold same_or_dropped. destruct (find_in id (jn_records next)) as [r|] eqn:E'.
    + left. apply find_in_Some in E' as [E' <-]. rewrite Hr, app_assoc, elem_of_app, list_elem_of_singleton in E'.
      destruct E' as [E'| ->]; [|done]. symmetry. apply find_in_elem; [done|]. rewrite <- Hp. apply elem_of_app. by right.
    + destruct (find_in id (jn_records j)) as [r|] eqn:E; [|by left]. right. split; [done|]. exists r. split; [done|].
      apply find_in_Some in E as [E <-]. rewrite <- Hp in E. apply elem_of_app in E as [E|E].
      * assert (Hin : r ∈ List.filter (is_state Complete) (jn_records j)) by (rewrite Hc; apply elem_of_app; by left).
        by apply is_state_elem in Hin as [_ ?].
      * exfalso. assert (Hin : r ∈ jn_records next) by (rewrite Hr, app_assoc; apply elem_of_app; by left).
        by rewrite (find_in_elem _ _ Hnn Hin) in E'.
Qed.

(** Appending keeps a complete record with fewer than 4,095 others to be kept before it, and
    adds one to these. *)
Lemma append_keeps_record j record next k r :
  find_in k (jn_records j) = Some r -> jr_state r = Complete -> jr_state record = Applying ->
  (count_state Complete (after k (jn_records j)) + count_state Applying (jn_records j) < 4095)%nat ->
  appendBounded j record = Ok next ->
  find_in k (jn_records next) = Some r
  /\ (count_state Complete (after k (jn_records next)) + count_state Applying (jn_records next))%nat
     = S (count_state Complete (after k (jn_records j)) + count_state Applying (jn_records j)).
Proof.
  intros Hf Hc Hrec Hlt H. apply appendBounded_spec in H as (dropped & retained & Hs & Hn & Hd & _).
  destruct (complete_kept k _ r Hf Hc) as [Hf1 Ha1]. rewrite <- Ha1, Hs in *. rewrite Hn.
  set (applying := List.filter (is_state Applying) (jn_records j)) in *.
  assert (Hlen : (length (after k (dropped ++ retained)) < length retained)%nat).
  { pose proof (after_length _ _ _ Hf1) as Hl. pose proof (count_states (jn_records j)) as Hco. rewrite Hs, length_app in Hco.
    rewrite length_app in Hl. fold applying in Hco. unfold MAX_RECORDS in Hd. lia. }
  destruct (retained_kept k dropped retained r Hf1 Hlen) as [Hf2 Ha2].
  assert (Hret : forall x, x ∈ retained -> jr_state x = Complete).
  { intros x Hx. assert (Hx' : x ∈ dropped ++ retained) by (apply elem_of_app; by right). rewrite <- Hs in Hx'.
    by apply is_state_elem in Hx' as [_ ?]. }
  assert (Haft : forall x, x ∈ after k retained -> jr_state x = Complete).
  { intros x Hx. apply Hret. revert Hx. clear. induction retained as [|y l IH]; [done|]. simpl. destruct (bool_decide _); [by right|].
    intros H. right. by apply IH. }
  assert (Happ : forall x, x ∈ applying ++ [record] -> jr_state x = Applying).
  { intros x Hx. apply elem_of_app in Hx as [Hx|Hx]; [by apply is_state_elem in Hx as [_ ?]|].
    by apply list_elem_of_singleton in Hx as ->. }
  split.
  - by rewrite find_in_app, Hf2.
  - rewrite (after_app k retained _ r Hf2), Ha2, !List.filter_app.
    rewrite <- (List.filter_app (is_state Complete) applying), <- (List.filter_app (is_state Applying) applying).
    rewrite (filter_state_all Complete Complete (after k retained)), (filter_state_all Complete Applying (applying ++ [record])),
      (filter_state_all Applying Complete retained), (filter_state_all Applying Applying (applying ++ [record])) by done.
    simpl. rewrite !length_app. simpl. lia.
Qed.
End Journal.

(** ** An execution as a sequence of writes *)

Section Exec.
Context (is_uuid is_datetime is_datetime_utc : jsstring -> bool) (localeCompare : jsstring -> jsstring -> Z)
  (sha256_hex : bytes -> jsstring) (nodeId : jsstring) (generation : Z).

Abbreviation canonical := (canonicalJson localeCompare).
Abbreviation hash := (digest sha256_hex).
Abbreviation commandSchema := (nodeCommandSchema is_uuid is_datetime).
Abbreviation resultSchema := (nodeCommandResultSchema is_uuid is_datetime).
Abbreviation valid := (journal_valid is_uuid is_datetime is_datetime_utc).
Abbreviation append := (appendBounded is_uuid is_datetime is_datetime_utc).
Abbreviation load := (load is_uuid is_datetime is_datetime_utc nodeId generation).
Abbreviation finish := (finish is_uuid is_datetime is_datetime_utc nodeId generation).
Abbreviation reject := (reject is_uuid is_datetime is_datetime_utc localeCompare sha256_hex nodeId generation).
Abbreviation apply_command := (apply_command is_uuid is_datetime is_datetime_utc localeCompare sha256_hex nodeId generation).
Abbreviation executeOnce := (executeOnce is_uuid is_datetime is_datetime_utc localeCompare sha256_hex nodeId generation).

(** A journal of this node. *)
Definition journal_ok (j : Journal) : Prop :=
  valid j = true /\ NoDup (map jr_commandId (jn_records j)) /\ Forall record_ok (jn_records j)
  /\ jn_nodeId j = nodeId /\ jn_generation j = generation.

Definition node_ok (s : Node) : Prop := match disk s with Stored j => journal_ok j | _ => True end.

Lemma load_ok s j s' :
  load s = (Ok j, s') -> node_ok s ->
  s' = s /\ journal_ok j
  /\ (disk s = Stored j \/ (disk s = NoFile /\ jn_records j = [])).
Proof.
  unfold NodeExecutor.load, se_bind, se_get, node_ok. destruct (disk s) as [| |j0] eqn:E; [|done|].
  - unfold se_lift. intros [= H <-] _. apply parse_journal_ok in H as [-> Hv]. split_and!; [done| |by right].
    unfold journal_ok. cbn. split_and!; [done|constructor|constructor|done|done].
  - intros H Hj. pose proof Hj as (Hv & _ & _ & Hn & Hg). rewrite Hv, Hn, Hg, Z.eqb_refl in H.
    rewrite bool_decide_eq_true_2 in H by done. cbn [negb] in H. injection H as <- <-. auto.
Qed.

(** The texts that come from outside are without lone surrogates, and the clock is one of
    the years that a date-time can name. *)
Definition outcome_texts (o : outcome) : Prop :=
  match o with
  | ExecutionError code message => scalars code /\ scalars message
  | OtherError message => scalars message
  | Output _ | Interrupted => True
  end.

Definition environment_wf (e : environment) : Prop :=
  valid_now (env_now e) /\ scalars (env_uuid e) /\ scalars (env_uuid2 e) /\ scalars (env_finish_error e)
  /\ outcome_texts (env_outcome e).

Definition final_states : list jsstring := [js "applied"; js "rejected"; js "expired"].

(** The parts of a result come from the execution [e]. *)
Definition made_parts (e : environment) (uuid state : jsstring) (error : json) : Prop :=
  (uuid = env_uuid e \/ uuid = env_uuid2 e) /\ state ∈ final_states /\ (environment_wf e -> plain error).

(** [result] was made for the command [id] by the execution [e]. *)
Definition made (e : environment) (id : jsstring) (result : json) : Prop :=
  exists uuid state updatedAt dg error,
    toISOString (env_now e) = Ok updatedAt
    /\ parse resultSchema (embed (result_document nodeId generation uuid id state updatedAt dg error)) = Some result
    /\ made_parts e uuid state error.

Section Command.
Context (c : json) (e : environment).

Abbreviation id := (jstr "id" c).
Abbreviation commandDigest := (hash (canonical c)).

Inductive jwrites (s : Node) : Node -> Prop :=
| jw_begin j record next :
    (disk s = Stored j \/ (disk s = NoFile /\ jn_records j = [])) -> journal_ok j ->
    find_in id (jn_records j) = None -> jr_commandId record = id -> jr_commandDigest record = commandDigest ->
    jr_state record = Applying -> jr_operationKey record = operation_key id ->
    append j record = Ok next -> jwrites s (with_disk (Stored next) s)
| jw_apply r :
    find_record id s = Some r -> jr_state r = Applying -> jr_commandDigest r = commandDigest ->
    jwrites s (applied (jr_operationKey r) c s)
| jw_finish j r result updatedAt :
    disk s = Stored j -> find_in id (jn_records j) = Some r -> jr_state r = Applying -> made e id result ->
    valid (Journal_ (jn_nodeId j) (jn_generation j) (map (completed id result updatedAt) (jn_records j))) = true ->
    jwrites s (with_disk (Stored (Journal_ (jn_nodeId j) (jn_generation j)
                 (map (completed id result updatedAt) (jn_records j)))) s).

Lemma completed_id result u r : jr_commandId (completed id result u r) = jr_commandId r.
Proof. unfold completed. by case_bool_decide. Qed.

Lemma completed_ids result u l : map jr_commandId (map (completed id result u) l) = map jr_commandId l.
Proof. rewrite map_map. apply map_ext. intros r. apply completed_id. Qed.

Lemma find_completed result u l k :
  find_in k (map (completed id result u) l) = completed id result u <$> find_in k l.
Proof.
  induction l as [|r l IH]; [done|]. unfold find_in in *. simpl. rewrite completed_id.
  by destruct (bool_decide (jr_commandId r = k)).
Qed.

Lemma write_journal_ok s s' : jwrites s s' -> node_ok s -> node_ok s'.
Proof.
  intros [j record next Hd (Hv & Hn & Hr & Hi & Hg) Hf Hid _ Hst Hk Ha|r _ _ _|j r result u Hd Hf _ _ Hv] Hok.
  - unfold node_ok. cbn. pose proof Ha as Hs. apply appendBounded_spec in Hs as (dr & re & Hc & Hrec & _ & Hv' & Hi' & Hg').
    rewrite <- Hid in Hf. destruct (append_find is_uuid is_datetime is_datetime_utc j record next id Hn Hf Ha) as (Hnn & _ & _).
    split_and!; [done|done| |congruence|congruence]. rewrite Hrec. rewrite Forall_forall in Hr.
    apply Forall_forall. intros x Hx. rewrite !elem_of_app, list_elem_of_singleton in Hx. destruct Hx as [Hx|[Hx| ->]].
    + apply Hr. assert (Hx' : x ∈ List.filter (is_state Complete) (jn_records j)) by (rewrite Hc; apply elem_of_app; by right).
      by apply is_state_elem in Hx' as [? _].
    + apply Hr. by apply is_state_elem in Hx as [? _].
    + split; [congruence|]. rewrite Hst. done.
  - exact Hok.
  - unfold node_ok in *. rewrite Hd in Hok. cbn. destruct Hok as (_ & Hn & Hr & Hi & Hg).
    split_and!; [done|cbn; by rewrite completed_ids| |done|done]. cbn. apply Forall_map. eapply Forall_impl; [exact Hr|].
    intros x [Hk Hc]. unfold completed. case_bool_decide; [|done]. split; [done|]. by eexists.
Qed.

(** The record of the command itself is never dropped. *)
Lemma write_own s s' r :
  jwrites s s' -> node_ok s -> find_record id s = Some r ->
  exists r', find_record id s' = Some r' /\ record_evolves r r'.
Proof.
  intros [j record next Hd _ Hf _ _ _ _ _|r0 _ _ _|j r0 result u Hd Hf Hs _ _] Hok Hr; unfold find_record in *.
  - destruct Hd as [Hd|[Hd _]]; rewrite Hd in Hr; congruence.
  - exists r. split; [done|by left].
  - rewrite Hd in Hr. cbn [disk with_disk jn_records]. rewrite find_completed, Hr. eexists. split; [reflexivity|].
    assert (r0 = r) as -> by congruence. unfold completed. case_bool_decide; [by right|by left].
Qed.

Lemma completed_behind result u k l :
  (count_state Complete (after k (map (completed id result u) l)) + count_state Applying (map (completed id result u) l)
   <= count_state Complete (after k l) + count_state Applying l)%nat.
Proof.
  assert (Hone : forall x, (count_state Applying [completed id result u x] <= count_state Applying [x])%nat).
  { intros x. unfold completed. case_bool_decide; [|done]. cbn. destruct (is_state Applying x); simpl; lia. }
  assert (Hcons : forall x m, count_state Applying (x :: m) = (count_state Applying [x] + count_state Applying m)%nat).
  { intros x m. cbn. by destruct (is_state Applying x). }
  induction l as [|x l IH]; [done|]. cbn [map after]. rewrite completed_id, (Hcons x l), (Hcons (completed id result u x)). specialize (Hone x).
  case_bool_decide; [|lia].
  pose proof (count_states (map (completed id result u) l)) as H1. pose proof (count_states l) as H2. rewrite length_map in H1. lia.
Qed.

(** A write keeps a complete record that is not about to be dropped. *)
Lemma write_behind s s' k r :
  jwrites s s' -> find_record k s = Some r -> jr_state r = Complete ->
  (find_record id s = None -> (behind k s < 4095)%nat) ->
  find_record k s' = Some r
  /\ ((behind k s' <= behind k s)%nat /\ (find_record id s <> None -> find_record id s' <> None)
      \/ (behind k s' = S (behind k s) /\ find_record id s = None /\ find_record id s' <> None)).
Proof.
  intros [j record next Hd (_ & Hn & _) Hf Hid _ Hst _ Ha|r0 _ _ _|j r0 result u Hd Hf Hs _ _] Hr Hc Hb.
  - destruct Hd as [Hd|[Hd _]]; [|unfold find_record in Hr; by rewrite Hd in Hr].
    unfold find_record, behind in *. rewrite Hd in *. cbn [disk with_disk].
    destruct (append_keeps_record is_uuid is_datetime is_datetime_utc j record next k r Hr Hc Hst (Hb Hf) Ha) as [Hk Hbe].
    split; [done|]. right. split_and!; [done|done|]. pose proof Hf as Hf'. rewrite <- Hid in Hf'.
    destruct (append_find is_uuid is_datetime is_datetime_utc j record next id Hn Hf' Ha) as (_ & Hfr & _).
    rewrite <- Hid, Hfr. done.
  - split; [done|]. by left.
  - unfold find_record, behind in *. rewrite Hd in *. cbn [disk with_disk jn_records]. rewrite !find_completed, Hr.
    assert (Hne : k <> id) by (intros ->; congruence). split.
    + cbn [fmap option_fmap option_map]. unfold completed. apply find_in_Some in Hr as [_ <-]. by rewrite bool_decide_eq_false_2.
    + left. split; [apply completed_behind|]. rewrite Hf. done.
Qed.

Lemma write_other s s' k :
  jwrites s s' -> k <> id -> same_or_dropped (find_record k s) (find_record k s').
Proof.
  intros [j record next Hd (_ & Hn & _) Hf Hid _ _ _ Ha|r0 _ _ _|j r0 result u Hd Hf _ _ _] Hne; unfold find_record.
  - rewrite <- Hid in Hf. destruct (append_find is_uuid is_datetime is_datetime_utc j record next k Hn Hf Ha) as (_ & _ & Hk).
    cbn [disk with_disk]. destruct Hd as [Hd|[Hd Hr]]; rewrite Hd; [apply Hk; congruence|].
    rewrite Hr in Hk. unfold find_in at 1 in Hk. apply Hk. congruence.
  - by left.
  - left. cbn [disk with_disk jn_records]. rewrite Hd, find_completed.
    destruct (find_in k (jn_records j)) as [x|] eqn:E; [|done]. cbn [fmap option_fmap option_map]. unfold completed.
    apply find_in_Some in E as [_ <-]. by rewrite bool_decide_eq_false_2.
Qed.

Lemma finish_inv now ok uuid journal state dg error s o s' :
  finish now ok uuid journal id state dg error s = (o, s') ->
  (exists code, o = Err code /\ s' = s) \/
  (exists result updatedAt, o = Ok result
     /\ toISOString now = Ok updatedAt
     /\ parse resultSchema (embed (result_document nodeId generation uuid id state updatedAt dg error)) = Some result
     /\ valid (Journal_ (jn_nodeId journal) (jn_generation journal)
          (map (completed id result updatedAt) (jn_records journal))) = true
     /\ s' = with_disk (Stored (Journal_ (jn_nodeId journal) (jn_generation journal)
          (map (completed id result updatedAt) (jn_records journal)))) s).
Proof.
  unfold NodeExecutor.finish, se_bind, se_lift. destruct (toISOString now) as [u|x]; [|intros [= <- <-]; eauto].
  destruct (zparse _ _) as [result|x] eqn:Ez; [|intros [= <- <-]; eauto]. apply zparse_ok in Ez.
  destruct (parse_journal _ _ _ _) as [next|x] eqn:En; [|intros [= <- <-]; eauto]. apply parse_journal_ok in En as [-> Hv].
  unfold write. destruct ok; cbn [negb]; [|intros [= <- <-]; eauto]. unfold se_modify. intros [= <- <-].
  right. exists result, u. done.
Qed.

(** [finish] on the journal that is on disk. *)
Lemma finish_stays ok uuid j r state dg error s :
  disk s = Stored j -> find_in id (jn_records j) = Some r -> jr_state r = Applying -> made_parts e uuid state error ->
  stays jwrites (finish (env_now e) ok uuid j id state dg error) s.
Proof.
  intros Hd Hf Hs Hm. unfold stays. destruct (finish (env_now e) ok uuid j id state dg error s) as [o s'] eqn:E.
  apply finish_inv in E as [(code & _ & ->)|(result & u & _ & Hu & Hp & Hv & ->)]; [cbn; reflexivity|].
  cbn. apply rtc_once. eapply jw_finish; [done..| |done]. by exists uuid, state, u, dg, error.
Qed.

Lemma error_plain code message : scalars code -> scalars message -> plain (error_document code message).
Proof.
  intros Hc Hm. cbn. split_and!; [|by apply text_scalars|done|by apply text_scalars|done|done].
  match goal with |- ?P => apply (bool_decide_unpack P) end. vm_compute. exact I.
Qed.

Lemma applied_parts : made_parts e (env_uuid e) (js "applied") JNull.
Proof. split_and!; [by left|left|done]. Qed.

Lemma expired_parts :
  made_parts e (env_uuid e) (js "expired")
    (error_document (js "node_command_expired") (js "The command expired before the node could apply it.")).
Proof.
  split_and!; [by left|right; right; left|]. intros _. by apply error_plain; apply text_scalars.
Qed.

Lemma rejected_parts code message :
  (environment_wf e -> scalars message) ->
  made_parts e (env_uuid2 e) (js "rejected") (error_document (safeErrorCode code) (safeErrorMessage message)).
Proof.
  intros Hm. split_and!; [by right|right; left|]. intros He. apply error_plain.
  - unfold safeErrorCode. destruct (is_identifier code) eqn:E; [by apply is_identifier_scalars|by apply text_scalars].
  - unfold safeErrorMessage. destruct (_ || _); [by apply text_scalars|auto].
Qed.

Lemma safe_message_scalars message : scalars message -> scalars (safeErrorMessage message).
Proof. intros H. unfold safeErrorMessage. destruct (_ || _); [by apply text_scalars|done]. Qed.

(** The state in which a command is applied or finished: its record is being applied. *)
Definition begun (j : Journal) (s : Node) : Prop :=
  disk s = Stored j /\ exists r, find_in id (jn_records j) = Some r /\ jr_state r = Applying
    /\ jr_commandDigest r = commandDigest /\ jr_operationKey r = operation_key id.

Lemma begin_stays ok key j s (next_k : Journal -> SE Node json) :
  node_ok s -> journal_ok j -> (disk s = Stored j \/ (disk s = NoFile /\ jn_records j = [])) ->
  find_in id (jn_records j) = None -> key = operation_key id ->
  (forall next s', begun next s' -> applications s' = applications s -> node_ok s' -> stays jwrites (next_k next) s') ->
  stays jwrites
    (let! journal :=
       (let! record := se_lift (begin_record (env_now e) c commandDigest key) in
        let! next := se_lift (append j record) in
        do! write ok next ;; se_ret next) in
     next_k journal) s.
Proof.
  intros Hok Hj Hd Hf -> Hk. unfold stays, se_bind, se_lift, begin_record. destruct (toISOString (env_now e)) as [u|x]; [|cbn; reflexivity].
  destruct (append j _) as [next|x] eqn:Ea; [|cbn; reflexivity].
  unfold write. destruct ok; cbn [negb]; [|cbn; reflexivity]. unfold se_modify, se_ret.
  set (record := JournalRecord_ _ _ _ _ _ _ _) in *.
  assert (Hw : jwrites s (with_disk (Stored next) s)) by (eapply jw_begin; [exact Hd|exact Hj|exact Hf|..|exact Ea]; done).
  etransitivity; [by apply rtc_once|]. apply Hk; [|done|by eapply write_journal_ok].
  split; [done|]. exists record. destruct Hj as (_ & Hn & _).
  destruct (append_find is_uuid is_datetime is_datetime_utc j record next id Hn Hf Ea) as (_ & Hfr & _). done.
Qed.

Lemma begun_applied j s key : begun j s -> begun j (applied key c s).
Proof. done. Qed.

Lemma apply_stays j s : begun j s -> stays jwrites (apply_command e j (operation_key id) c) s.
Proof.
  intros (Hd & r & Hf & Hs & Hg & Hk). unfold NodeExecutor.apply_command.
  apply stays_bind.
  { apply stays_modify, rtc_once. rewrite <- Hk. apply jw_apply; [|done|done]. unfold find_record. by rewrite Hd. }
  intros [] s1' [= <-]. set (s1 := applied (operation_key id) c s).
  assert (Hd1 : disk s1 = Stored j) by done.
  assert (Hrej : forall code message, (environment_wf e -> scalars message) -> stays jwrites (reject e j id code message) s1)
    by (intros; eapply finish_stays; [done..|by apply rejected_parts]).
  destruct (env_outcome e) as [output|code message|message|] eqn:Eo; [| | |apply stays_throw].
  2: { apply Hrej. intros (_ & _ & _ & _ & Ht). rewrite Eo in Ht. by destruct Ht. }
  2: { apply Hrej. intros (_ & _ & _ & _ & Ht). rewrite Eo in Ht. by apply safe_message_scalars. }
  unfold stays. destruct (finish _ _ _ _ _ _ _ _ s1) as [[x|x] s2] eqn:E.
  - cbn. pose proof (finish_stays (env_finish_ok e) (env_uuid e) j r (js "applied")
      (hash (canonical match output with Some j0 => j0 | None => JNull end)) JNull s1 Hd1 Hf Hs applied_parts) as H.
    unfold stays in H. by rewrite E in H.
  - apply finish_inv in E as [(x' & _ & ->)|(result & u & [=] & _)]. apply Hrej.
    intros (_ & _ & _ & Ht & _). by apply safe_message_scalars.
Qed.

End Command.

Abbreviation run_command := (run_command is_uuid is_datetime is_datetime_utc localeCompare sha256_hex nodeId generation).

(** The command that [parseAuthorizedNodeCommand] returns is the one that was parsed. *)
Lemma authorized_same input c ctx command :
  parse commandSchema input = Some c -> plain c ->
  parseAuthorizedNodeCommand is_uuid is_datetime (embed c) ctx = Ok command -> command = c.
Proof.
  intros Hp Hpl H. apply parseAuthorized_parsed in H.
  rewrite (parse_again _ input c (embed c) (command_schema_ok is_uuid is_datetime) Hp (same_embed c Hpl)) in H. congruence.
Qed.

(** [existing] is the record of the command in the journal [j] on disk, if there is one. *)
Definition found (c : json) (j : Journal) (existing : option JournalRecord) (s : Node) : Prop :=
  (disk s = Stored j \/ (disk s = NoFile /\ jn_records j = [])) /\ journal_ok j
  /\ existing = find_in (jstr "id" c) (jn_records j)
  /\ match existing with
     | Some r => jr_commandDigest r = hash (canonical c) /\ jr_state r = Applying
     | None => True
     end.

Lemma found_begun c j r s : found c j (Some r) s -> begun c j s.
Proof.
  intros ([Hd|[_ He]] & (_ & _ & Hr & _) & Hf & Hg & Hs).
  - split; [done|]. exists r. split_and!; try done. symmetry in Hf. apply find_in_Some in Hf as [Hin Hid].
    rewrite Forall_forall in Hr. destruct (Hr r Hin) as [-> _]. by rewrite Hid.
  - rewrite He in Hf. done.
Qed.

Lemma run_stays e input c j existing s :
  parse commandSchema input = Some c -> plain c -> node_ok s -> found c j existing s ->
  stays (jwrites c e) (run_command e c (hash (canonical c)) j existing) s.
Proof.
  intros Hp Hpl Hok Hfound. unfold NodeExecutor.run_command. cbv zeta.
  destruct (parseAuthorizedNodeCommand _ _ _ _) as [command|code] eqn:Ea.
  - apply (authorized_same input c) in Ea as ->; [|done|done]. destruct existing as [r|].
    + pose proof (found_begun c j r s Hfound) as Hb. destruct Hfound as (_ & (_ & _ & Hr & _) & Hf & _ & _).
      assert (Hk : jr_operationKey r = operation_key (jstr "id" c)).
      { symmetry in Hf. apply find_in_Some in Hf as [Hin <-]. rewrite Forall_forall in Hr. by destruct (Hr r Hin). }
      rewrite Hk. unfold stays, se_bind, se_ret. by apply apply_stays.
    + destruct Hfound as (Hd & Hj & Hf & _). apply begin_stays; try done.
      intros next s' Hb _ _. by apply apply_stays.
  - destruct (String.eqb code "node_command_expired"); [|apply stays_throw].
    unfold finishWithoutApply. destruct existing as [r|].
    + pose proof (found_begun c j r s Hfound) as (Hd & r' & Hf & Hs & _). unfold find_in in Hf.
      assert (existsb (fun r => bool_decide (jr_commandId r = jstr "id" c)) (jn_records j) = true) as ->.
      { apply existsb_exists. apply List.find_some in Hf as [? ?]. eauto. }
      unfold stays, se_bind, se_ret. eapply finish_stays; [done..|apply expired_parts].
    + destruct Hfound as (Hd & Hj & Hf & _).
      assert (existsb (fun r => bool_decide (jr_commandId r = jstr "id" c)) (jn_records j) = false) as ->.
      { apply not_true_iff_false. intros H. apply existsb_exists in H as (x & Hx & Ex). symmetry in Hf. apply find_in_None in Hf.
        rewrite Forall_forall in Hf. apply bool_decide_eq_true in Ex. apply (Hf x); [by apply list_elem_of_In|done]. }
      apply begin_stays; try done. intros next s' (Hd' & r & Hf' & Hs & _) _ _.
      eapply finish_stays; [done..|apply expired_parts].
Qed.

Lemma load_err s x s' : load s = (Err x, s') -> s' = s.
Proof.
  unfold NodeExecutor.load, se_bind, se_get. destruct (disk s) as [| |j].
  - by intros [= _ <-].
  - by intros [= _ <-].
  - repeat match goal with |- (if ?b then _ else _) _ = _ -> _ => destruct b; [by intros [= _ <-]|] end. by intros [= _ <-].
Qed.

Lemma executeOnce_stays e input c s :
  parse commandSchema input = Some c -> plain c -> node_ok s -> stays (jwrites c e) (executeOnce e input) s.
Proof.
  intros Hp Hpl Hok. unfold NodeExecutor.executeOnce, stays, se_bind at 1, se_lift at 1.
  rewrite (proj2 (zparse_ok _ _ _) Hp). cbv zeta. unfold se_bind at 1.
  destruct (load s) as [[j|x] s0] eqn:El; [|apply load_err in El as ->; cbn; reflexivity].
  apply load_ok in El as (-> & Hj & Hd); [|done].
  fold (find_in (jstr "id" c) (jn_records j)). destruct (find_in (jstr "id" c) (jn_records j)) as [r|] eqn:Ef.
  - destruct (bool_decide (jr_commandDigest r = hash (canonical c))) eqn:Eg; cbn [negb]; [|cbn; reflexivity].
    apply bool_decide_eq_true in Eg. pose proof Hj as (_ & _ & Hr & _). apply find_in_Some in Ef as Hin.
    rewrite Forall_forall in Hr. destruct (Hr r (proj1 Hin)) as [_ Hc].
    destruct (jr_state r) eqn:Es; [|destruct (Hc eq_refl) as [res ->]; cbn; reflexivity].
    eapply (run_stays e input c j (Some r) s); [done..|]. unfold found. split_and!; done.
  - eapply (run_stays e input c j None s); [done..|]. by unfold found.
Qed.

(** ** Histories of a node *)

(** One execution, with whatever the environment does; a crash and a restart keep the file. *)
Definition step (s s' : Node) : Prop := exists e input, value_texts input /\ s' = (executeOnce e input s).2.

Lemma executeOnce_unparsed e input s : parse commandSchema input = None -> executeOnce e input s = (Err ZodError, s).
Proof. intros H. unfold NodeExecutor.executeOnce, se_bind, se_lift, zparse. by rewrite H. Qed.

Lemma execution_ok s s' : step s s' -> node_ok s -> node_ok s'.
Proof.
  intros (e & input & Hv & ->) Hok. destruct (parse commandSchema input) as [c|] eqn:Hp.
  - pose proof (executeOnce_stays e input c s Hp (parse_plain _ _ _ (command_schema_ok _ _) (or_intror Hv) Hp) Hok) as H.
    unfold stays in H. induction H as [|x y z Hxy _ IH]; [done|]. apply IH. by eapply write_journal_ok.
  - by rewrite executeOnce_unparsed.
Qed.

Lemma record_evolves_trans r1 r2 r3 : record_evolves r1 r2 -> record_evolves r2 r3 -> record_evolves r1 r3.
Proof.
  intros [->|H1]; [done|]. intros [->|H2]; [by right|]. destruct H1 as (_ & Hc & _), H2 as (Ha & _). congruence.
Qed.

(** What one execution does to the records. *)
Lemma execution_records e input c s :
  parse commandSchema input = Some c -> value_texts input -> node_ok s ->
  (forall r, find_record (jstr "id" c) s = Some r ->
     exists r', find_record (jstr "id" c) (executeOnce e input s).2 = Some r' /\ record_evolves r r')
  /\ forall k, k <> jstr "id" c -> same_or_dropped (find_record k s) (find_record k (executeOnce e input s).2).
Proof.
  intros Hp Hv Hok.
  pose proof (executeOnce_stays e input c s Hp (parse_plain _ _ _ (command_schema_ok _ _) (or_intror Hv) Hp) Hok) as H.
  unfold stays in H. revert H. generalize (executeOnce e input s).2. intros s' H.
  induction H as [x|x y z Hxy _ IH].
  - split; [intros r Hr; exists r; split; [done|by left]|]. intros k _. by left.
  - destruct (IH (write_journal_ok c e x y Hxy Hok)) as [IH1 IH2]. split.
    + intros r Hr. destruct (write_own c e x y r Hxy Hok Hr) as (r1 & Hr1 & He1).
      destruct (IH1 r1 Hr1) as (r2 & Hr2 & He2). exists r2. split; [done|]. by eapply record_evolves_trans.
    + intros k Hk. specialize (IH2 k Hk). pose proof (write_other c e x y k Hxy Hk) as Hw.
      destruct Hw as [Hw|(Hw & r & Hr & Hc)]; [by rewrite <- Hw|].
      right. split; [|eauto]. destruct IH2 as [IH2|(IH2 & _)]; congruence.
Qed.

(** A command with a result is answered from the journal. *)
Lemma executeOnce_again e input c s r res :
  parse commandSchema input = Some c -> node_ok s -> find_record (jstr "id" c) s = Some r ->
  jr_state r = Complete -> jr_result r = Some res ->
  executeOnce e input s
  = (if bool_decide (jr_commandDigest r = hash (canonical c)) then Ok res else Err "node_command_id_conflict", s).
Proof.
  intros Hp Hok Hr Hs Hres. unfold NodeExecutor.executeOnce, se_bind at 1, se_lift at 1.
  rewrite (proj2 (zparse_ok _ _ _) Hp). cbv zeta. unfold find_record in Hr. unfold node_ok in Hok.
  unfold se_bind at 1, NodeExecutor.load, se_bind at 1, se_get.
  destruct (disk s) as [| |j] eqn:Ed; [done|done|]. destruct Hok as (Hv & _ & _ & Hn & Hg).
  rewrite Hv, Hn, Hg, Z.eqb_refl, bool_decide_eq_true_2 by done. cbn [negb]. unfold se_ret at 1.
  unfold find_in in Hr. rewrite Hr, Hs, Hres.
  destruct (bool_decide (jr_commandDigest r = hash (canonical c))); done.
Qed.

Lemma finish_result c now ok uuid j r state dg error s res s' :
  find_in (jstr "id" c) (jn_records j) = Some r -> jr_commandDigest r = hash (canonical c) ->
  finish now ok uuid j (jstr "id" c) state dg error s = (Ok res, s') ->
  exists r', find_record (jstr "id" c) s' = Some r' /\ jr_state r' = Complete /\ jr_result r' = Some res
    /\ jr_commandDigest r' = hash (canonical c).
Proof.
  intros Hf Hg H. apply (finish_inv c) in H as [(e & [=] & _)|(result & u & [= ->] & _ & _ & _ & ->)].
  unfold find_record. cbn [disk with_disk jn_records]. rewrite find_completed, Hf. eexists. split; [reflexivity|].
  apply find_in_Some in Hf as [_ Hid]. unfold completed. by rewrite bool_decide_eq_true_2.
Qed.

Lemma begin_ok c now ok key j s (k : Journal -> SE Node json) res s' :
  journal_ok j -> find_in (jstr "id" c) (jn_records j) = None ->
  (let! journal :=
     (let! record := se_lift (begin_record now c (hash (canonical c)) key) in
      let! next := se_lift (append j record) in
      do! write ok next ;; se_ret next) in
   k journal) s = (Ok res, s') ->
  exists next r s1, find_in (jstr "id" c) (jn_records next) = Some r /\ jr_commandDigest r = hash (canonical c)
    /\ k next s1 = (Ok res, s').
Proof.
  intros (_ & Hn & _) Hf. unfold se_bind, se_lift, begin_record. destruct (toISOString now) as [u|]; [|done].
  destruct (append j _) as [next|] eqn:Ea; [|done]. unfold write. destruct ok; cbn [negb]; [|done].
  unfold se_modify, se_ret. intros H. set (record := JournalRecord_ _ _ _ _ _ _ _) in *.
  exists next, record. eexists. split_and!; [|done|exact H].
  by destruct (append_find is_uuid is_datetime is_datetime_utc j record next [] Hn Hf Ea) as (_ & ? & _).
Qed.

Lemma apply_result c e j r key s res s' :
  find_in (jstr "id" c) (jn_records j) = Some r -> jr_commandDigest r = hash (canonical c) ->
  apply_command e j key c s = (Ok res, s') ->
  exists r', find_record (jstr "id" c) s' = Some r' /\ jr_state r' = Complete /\ jr_result r' = Some res
    /\ jr_commandDigest r' = hash (canonical c).
Proof.
  intros Hf Hg. unfold NodeExecutor.apply_command, se_bind, se_modify.
  destruct (env_outcome e); [|intros H; by eapply finish_result..|done].
  destruct (finish _ _ _ _ _ _ _ _ _) as [[x|x] s1] eqn:E.
  - intros [= -> ->]. by eapply finish_result.
  - intros H. by eapply finish_result.
Qed.

(** An execution that returns leaves its result in the journal. *)
Lemma executeOnce_result e input c s res s' :
  parse commandSchema input = Some c -> plain c -> node_ok s -> executeOnce e input s = (Ok res, s') ->
  exists r, find_record (jstr "id" c) s' = Some r /\ jr_state r = Complete /\ jr_result r = Some res
    /\ jr_commandDigest r = hash (canonical c).
Proof.
  intros Hp Hpl Hok. unfold NodeExecutor.executeOnce, se_bind at 1, se_lift at 1.
  rewrite (proj2 (zparse_ok _ _ _) Hp). cbv zeta. unfold se_bind at 1.
  destruct (load s) as [[j|x] s0] eqn:El; [|done]. apply load_ok in El as (-> & Hj & Hd); [|done].
  fold (find_in (jstr "id" c) (jn_records j)).
  assert (Hrun : forall existing, find_in (jstr "id" c) (jn_records j) = existing ->
    match existing with Some r => jr_commandDigest r = hash (canonical c) | None => True end ->
    run_command e c (hash (canonical c)) j existing s = (Ok res, s') ->
    exists r, find_record (jstr "id" c) s' = Some r /\ jr_state r = Complete /\ jr_result r = Some res
      /\ jr_commandDigest r = hash (canonical c)).
  { intros existing Hf Hg. unfold NodeExecutor.run_command. cbv zeta.
    destruct (parseAuthorizedNodeCommand _ _ _ _) as [command|code] eqn:Ea.
    - apply (authorized_same input c) in Ea as ->; [|done|done]. destruct existing as [r|].
      + unfold se_bind, se_ret. intros H. by eapply apply_result.
      + intros H. apply begin_ok in H as (next & r & s1 & Hr & Hrg & H); [|done|done]. by eapply apply_result.
    - destruct (String.eqb code "node_command_expired"); [|done]. unfold finishWithoutApply.
      destruct (existsb _ (jn_records j)) eqn:Ex.
      + destruct existing as [r|].
        * unfold se_bind, se_ret. intros H. by eapply finish_result.
        * exfalso. apply existsb_exists in Ex as (x & Hx & Exx). apply find_in_None in Hf. rewrite Forall_forall in Hf.
          apply bool_decide_eq_true in Exx. apply (Hf x); [by apply list_elem_of_In|done].
      + assert (Hn : find_in (jstr "id" c) (jn_records j) = None).
        { apply find_in_None. apply Forall_forall. intros x Hx Exx. apply not_true_iff_false in Ex. apply Ex.
          apply existsb_exists. exists x. split; [by apply list_elem_of_In|by apply bool_decide_eq_true]. }
        intros H. apply begin_ok in H as (next & r & s1 & Hr & Hrg & H); [|done|done]. by eapply finish_result. }
  destruct (find_in (jstr "id" c) (jn_records j)) as [r|] eqn:Ef; [|by apply Hrun].
  destruct (bool_decide (jr_commandDigest r = hash (canonical c))) eqn:Eg; cbn [negb]; [|done].
  apply bool_decide_eq_true in Eg. destruct (jr_state r) eqn:Es; [by apply Hrun|].
  destruct (jr_result r) as [x|] eqn:Er; [|by apply Hrun]. intros [= -> <-]. exists r. split_and!; [|done..].
  unfold find_record. destruct Hd as [->|[_ Hn]]; [done|]. rewrite Hn in Ef. done.
Qed.

(** *** Applications *)

Lemma finish_applications now ok uuid j k state dg error s o s' :
  finish now ok uuid j k state dg error s = (o, s') -> applications s' = applications s.
Proof.
  unfold NodeExecutor.finish, se_bind, se_lift. destruct (toISOString now); [|by intros [= _ <-]].
  destruct (zparse _ _); [|by intros [= _ <-]]. destruct (parse_journal _ _ _ _); [|by intros [= _ <-]].
  unfold write. destruct ok; by intros [= _ <-].
Qed.

Lemma apply_applications e j key c s o s' :
  apply_command e j key c s = (o, s') -> applications s' = applications s ++ [(key, c)].
Proof.
  unfold NodeExecutor.apply_command, se_bind, se_modify.
  destruct (env_outcome e) as [out|code msg|msg|]; [|intros H; by apply finish_applications in H..|by intros [= _ <-]].
  destruct (finish _ _ _ _ _ _ _ _ _) as [[x|x] s1] eqn:E; apply finish_applications in E.
  - intros [= _ <-]. done.
  - intros H. apply finish_applications in H. by rewrite H.
Qed.

Lemma begin_applications c now ok key j s (k : Journal -> SE Node json) o s' :
  (let! journal :=
     (let! record := se_lift (begin_record now c (hash (canonical c)) key) in
      let! next := se_lift (append j record) in
      do! write ok next ;; se_ret next) in
   k journal) s = (o, s') ->
  s' = s \/ exists next, k next (with_disk (Stored next) s) = (o, s').
Proof.
  unfold se_bind, se_lift, begin_record. destruct (toISOString now) as [u|]; [|intros [= _ <-]; auto].
  destruct (append j _) as [next|]; [|intros [= _ <-]; auto]. unfold write.
  destruct ok; cbn [negb]; [|intros [= _ <-]; auto]. unfold se_modify, se_ret. eauto.
Qed.

(** An execution calls [apply] at most once, with the key of the command. *)
Lemma run_applications e input c j existing s o s' :
  parse commandSchema input = Some c -> plain c -> found c j existing s ->
  run_command e c (hash (canonical c)) j existing s = (o, s') ->
  applications s' = applications s \/ applications s' = applications s ++ [(operation_key (jstr "id" c), c)].
Proof.
  intros Hp Hpl Hfound. unfold NodeExecutor.run_command. cbv zeta.
  destruct (parseAuthorizedNodeCommand _ _ _ _) as [command|code] eqn:Ea.
  - apply (authorized_same input c) in Ea as ->; [|done|done]. destruct existing as [r|].
    + destruct Hfound as (_ & (_ & _ & Hr & _) & Hf & _). symmetry in Hf. apply find_in_Some in Hf as [Hin Hid].
      rewrite Forall_forall in Hr. destruct (Hr r Hin) as [Hk _]. rewrite Hid in Hk. rewrite Hk.
      unfold se_bind, se_ret. intros H. right. by eapply apply_applications.
    + intros H. apply begin_applications in H as [->|(next & H)]; [by left|]. right. by apply apply_applications in H.
  - destruct (String.eqb code "node_command_expired"); [|intros [= _ <-]; by left].
    unfold finishWithoutApply. left. revert H. destruct (existsb _ _).
    + unfold se_bind, se_ret. intros H. by apply finish_applications in H.
    + intros H. apply begin_applications in H as [->|(next & H)]; [done|]. by apply finish_applications in H.
Qed.

Lemma executeOnce_applications e input c s o s' :
  parse commandSchema input = Some c -> plain c -> node_ok s -> executeOnce e input s = (o, s') ->
  applications s' = applications s \/ applications s' = applications s ++ [(operation_key (jstr "id" c), c)].
Proof.
  intros Hp Hpl Hok. unfold NodeExecutor.executeOnce, se_bind at 1, se_lift at 1.
  rewrite (proj2 (zparse_ok _ _ _) Hp). cbv zeta. unfold se_bind at 1.
  destruct (load s) as [[j|x] s0] eqn:El; [|apply load_err in El as ->; intros [= _ <-]; by left].
  apply load_ok in El as (-> & Hj & Hd); [|done].
  fold (find_in (jstr "id" c) (jn_records j)). destruct (find_in (jstr "id" c) (jn_records j)) as [r|] eqn:Ef.
  - destruct (bool_decide (jr_commandDigest r = hash (canonical c))) eqn:Eg; cbn [negb]; [|intros [= _ <-]; by left].
    apply bool_decide_eq_true in Eg. pose proof Hj as (_ & _ & Hr & _). apply find_in_Some in Ef as Hin.
    rewrite Forall_forall in Hr. destruct (Hr r (proj1 Hin)) as [_ Hc].
    destruct (jr_state r) eqn:Es; [|destruct (Hc eq_refl) as [res ->]; intros [= _ <-]; by left].
    eapply (run_applications e input c j (Some r) s); [done..|]. unfold found. split_and!; done.
  - eapply (run_applications e input c j None s); [done..|]. by unfold found.
Qed.

(** A command that is applied is in the journal, and stays there. *)
Lemma writes_journaled c e s s' :
  rtc (jwrites c e) s s' -> node_ok s -> applications s' <> applications s ->
  exists r, find_record (jstr "id" c) s' = Some r /\ jr_commandDigest r = hash (canonical c).
Proof.
  assert (Hkeep : forall x y, rtc (jwrites c e) x y -> node_ok x -> forall r, find_record (jstr "id" c) x = Some r ->
    exists r', find_record (jstr "id" c) y = Some r' /\ jr_commandDigest r' = jr_commandDigest r).
  { induction 1 as [|x y z Hxy _ IH]; intros Hok r Hr; [eauto|].
    destruct (write_own c e x y r Hxy Hok Hr) as (r1 & Hr1 & He).
    destruct (IH (write_journal_ok c e x y Hxy Hok) r1 Hr1) as (r2 & Hr2 & E). exists r2. split; [done|].
    rewrite E. destruct He as [->|He]; [done|]. by destruct He as (_ & _ & _ & _ & ? & _). }
  induction 1 as [|x y z Hxy Hyz IH]; intros Hok Hne; [done|].
  pose proof (write_journal_ok c e x y Hxy Hok) as Hoky.
  destruct Hxy as [j record next ? ? ? ? ? ? ? ?|r Hr Hs Hg|j r res u ? ? ? ? ?].
  - by apply IH.
  - destruct (Hkeep _ _ Hyz Hoky r Hr) as (r' & Hr' & E). exists r'. split; [done|congruence].
  - by apply IH.
Qed.

(** *** Remembering *)

Lemma writes_behind c e k r s s' :
  rtc (jwrites c e) s s' -> find_record k s = Some r -> jr_state r = Complete -> (behind k s < 4095)%nat ->
  find_record k s' = Some r /\ (behind k s' <= S (behind k s))%nat.
Proof.
  assert (Hown : forall x y, rtc (jwrites c e) x y -> find_record k x = Some r -> jr_state r = Complete ->
    find_record (jstr "id" c) x <> None -> find_record k y = Some r /\ (behind k y <= behind k x)%nat).
  { induction 1 as [|x y z Hxy _ IH]; intros Hr Hc Ho; [done|].
    destruct (write_behind c e x y k r Hxy Hr Hc) as [Hr1 [[Hle Hk]|(_ & Hn & _)]]; [done| |done].
    destruct (IH Hr1 Hc (Hk Ho)) as [Hr2 Hle2]. split; [done|lia]. }
  induction 1 as [|x y z Hxy Hyz IH]; intros Hr Hc Hb; [split; [done|lia]|].
  destruct (write_behind c e x y k r Hxy Hr Hc (fun _ => Hb)) as [Hr1 [[Hle _]|(E & _ & Ho)]].
  - destruct (IH Hr1 Hc) as [Hr2 Hle2]; [lia|]. split; [done|lia].
  - destruct (Hown y z Hyz Hr1 Hc Ho) as [Hr2 Hle2]. split; [done|lia].
Qed.

(** A complete record stays as long as the records behind it and the executions to come
    fit in the journal. *)
Lemma completed_remembered k n s s' r :
  nsteps step n s s' -> node_ok s -> find_record k s = Some r -> jr_state r = Complete -> (behind k s + n < 4096)%nat ->
  node_ok s' /\ find_record k s' = Some r.
Proof.
  induction 1 as [|n x y z Hxy _ IH]; intros Hok Hr Hc Hb; [done|].
  pose proof (execution_ok _ _ Hxy Hok) as Hoky. destruct Hxy as (e & input & Hv & ->).
  destruct (parse commandSchema input) as [c|] eqn:Hp.
  - pose proof (executeOnce_stays e input c x Hp (parse_plain _ _ _ (command_schema_ok _ _) (or_intror Hv) Hp) Hok) as Hst.
    unfold stays in Hst. destruct (writes_behind c e k r _ _ Hst Hr Hc) as [Hr1 Hle]; [lia|].
    apply IH; [done|done|done|lia].
  - rewrite executeOnce_unparsed in * by done. apply IH; [done|done|done|]. cbn [snd]. lia.
Qed.

(** The calls of [apply] for a command. *)
Definition applications_of (k : jsstring) (s : Node) : list (jsstring * json) :=
  List.filter (fun a => bool_decide (jstr "id" a.2 = k)) (applications s).
End Exec.

(** C31 (safety). A result is final and its command is not applied again as long as the
    journal has room: once [execute] returned a result for a command, then after [n]
    further executions (of it and of other commands, with crashes, failed writes and
    restarts), executing it again at any time returns the same result without calling
    [apply] and without changing the journal, if [n] and the records kept before its own
    (those completed after it and those being applied when it returned) are together
    fewer than the 4,096 that the journal holds. *)
Theorem executor_result_stable (is_uuid is_datetime is_datetime_utc : jsstring -> bool)
    (localeCompare : jsstring -> jsstring -> Z) (sha256_hex : bytes -> jsstring) (nodeId : jsstring) (generation : Z)
    e input c s res s1 n s2 e' :
  value_texts input -> parse (nodeCommandSchema is_uuid is_datetime) input = Some c ->
  node_ok is_uuid is_datetime is_datetime_utc nodeId generation s ->
  executeOnce is_uuid is_datetime is_datetime_utc localeCompare sha256_hex nodeId generation e input s = (Ok res, s1) ->
  nsteps (step is_uuid is_datetime is_datetime_utc localeCompare sha256_hex nodeId generation) n s1 s2 ->
  (behind (jstr "id" c) s1 + n < 4096)%nat ->
  executeOnce is_uuid is_datetime is_datetime_utc localeCompare sha256_hex nodeId generation e' input s2 = (Ok res, s2).
Proof.
  intros Hv Hp Hok H H2 Hn.
  assert (Hok1 : node_ok is_uuid is_datetime is_datetime_utc nodeId generation s1).
  { eapply execution_ok; [|exact Hok]. exists e, input. split; [done|]. by rewrite H. }
  apply (executeOnce_result is_uuid is_datetime is_datetime_utc localeCompare sha256_hex nodeId generation e input c) in H
    as (r & Hr & Hs & Hres & Hg); [|done| |done].
  2: { exact (parse_plain _ _ _ (command_schema_ok is_uuid is_datetime) (or_intror Hv) Hp). }
  eapply completed_remembered in H2 as [Hok2 Hr2]; [|done|exact Hr|done|exact Hn].
  erewrite executeOnce_again; [|done..]. by rewrite bool_decide_eq_true_2.
Qed.

(** The journal never holds more than 4,096 records and appending drops
    only what it must: the result has the new record last, every record of a command
    whose outcome is not known yet, and the newest of the complete records; complete
    ones are dropped, the oldest first, only from a journal that is full. *)
Theorem journal_append_bounded (is_uuid is_datetime is_datetime_utc : jsstring -> bool) j record next :
  appendBounded is_uuid is_datetime is_datetime_utc j record = Ok next ->
  Z.of_nat (length (jn_records next)) <= 4096
  /\ exists dropped retained,
    List.filter (is_state Complete) (jn_records j) = dropped ++ retained
    /\ jn_records next = retained ++ List.filter (is_state Applying) (jn_records j) ++ [record]
    /\ (dropped <> [] -> 4096 <= Z.of_nat (length (jn_records j))).
Proof.
  intros H. apply appendBounded_spec in H as (dropped & retained & H1 & H2 & H3 & H4 & _ & _). split.
  - unfold journal_valid in H4. unfold MAX_RECORDS in H4. lia.
  - exists dropped, retained. split_and!; [done|done|]. intros Hd. unfold MAX_RECORDS in H3.
    destruct dropped as [|x dropped]; [done|]. cbn [length] in H3. lia.
Qed.

(** C32 (safety). Write-ahead: one execution calls [apply] at most once, for the command it
    was given and under the key "node-command:<id>", which is the same at every attempt;
    it calls it only when the journal has no result for the command; and whatever
    happens during it (an error, a failed write, a crash) the journal then holds the
    record of the command with the digest of its text. *)
Theorem application_journaled (is_uuid is_datetime is_datetime_utc : jsstring -> bool)
    (localeCompare : jsstring -> jsstring -> Z) (sha256_hex : bytes -> jsstring) (nodeId : jsstring) (generation : Z)
    e input c s o s' :
  value_texts input -> parse (nodeCommandSchema is_uuid is_datetime) input = Some c ->
  node_ok is_uuid is_datetime is_datetime_utc nodeId generation s ->
  executeOnce is_uuid is_datetime is_datetime_utc localeCompare sha256_hex nodeId generation e input s = (o, s') ->
  applications s' = applications s
  \/ (applications s' = applications s ++ [(operation_key (jstr "id" c), c)]
      /\ (forall r, find_record (jstr "id" c) s = Some r -> jr_state r = Applying)
      /\ exists r, find_record (jstr "id" c) s' = Some r
           /\ jr_commandDigest r = digest sha256_hex (canonicalJson localeCompare c)).
Proof.
  intros Hv Hp Hok H.
  pose proof (parse_plain _ _ _ (command_schema_ok is_uuid is_datetime) (or_intror Hv) Hp) as Hpl.
  destruct (executeOnce_applications _ _ _ _ _ _ _ _ _ _ _ _ _ Hp Hpl Hok H) as [Ha|Ha]; [by left|]. right.
  assert (Hne : applications s' <> applications s).
  { rewrite Ha. intros E. apply (f_equal length) in E. rewrite length_app in E. simpl in E. lia. }
  split_and!; [done| |].
  - intros r Hr. destruct (jr_state r) eqn:Es; [done|]. exfalso.
    assert (Hres : is_Some (jr_result r)).
    { unfold find_record, node_ok in *. destruct (disk s) as [| |j]; [done|done|]. apply find_in_Some in Hr as [Hin _].
      destruct Hok as (_ & _ & Hok & _). rewrite Forall_forall in Hok. by apply (Hok r Hin). }
    destruct Hres as [res Hres]. erewrite executeOnce_again in H; [|done..]. by injection H as _ <-.
  - pose proof (executeOnce_stays is_uuid is_datetime is_datetime_utc localeCompare sha256_hex nodeId generation
      e input c s Hp Hpl Hok) as Hst.
    unfold stays in Hst. rewrite H in Hst. by eapply writes_journaled.
Qed.
