(* ===== verification/NodeClient.v ===== *)
(** * The client of the node commands

    [NodeReconciliationStateStore] of [src/src/node/reconciliation-state.ts] and
    [runNodeCommandClient] of [src/src/node/command-client.ts], together with the
    coordinator it talks to: a [System] is the coordinator's tables, the journal of the
    executor and the file with the cursor.  A request may be lost, and so may its
    response, after the coordinator has acted on it ([network]); the clocks, the callbacks
    and the session are arguments.  [handle_commands] stops when the attempts are used
    up, as the loop does when its signal aborts; the callbacks that follow an
    acknowledgement are not modelled. *)

From S2P Require Import Prelude JsString JsMap JsonText JsonParse Schema Zod JsDate NodeJson NodeControl NodeCommands NodeReconciliation NodeRoutes NodeExecutor.

#[local] Open Scope Z_scope.

Record ReconciliationState := ReconciliationState_ {
  rs_nodeId : jsstring;
  rs_generation : Z;
  rs_cursor : jsstring;
  rs_updatedAt : jsstring
}.

Inductive state_file := NoState | DamagedState | StoredState (r : ReconciliationState).

Record System := System_ {
  coordinator : Db;
  executor : Node;
  state_store : state_file
}.

Definition with_coordinator (d : Db) (s : System) : System := System_ d (executor s) (state_store s).
Definition with_executor (n : Node) (s : System) : System := System_ (coordinator s) n (state_store s).
Definition with_state (f : state_file) (s : System) : System := System_ (coordinator s) (executor s) f.

Inductive network := Through | RequestLost | ResponseLost.

(** What surrounds one turn of the loop: the clock of the coordinator, the network and
    the execution. *)
Record attempt := Attempt { at_now : Z; at_network : network; at_environment : environment }.

Definition MAX_RESPONSE_BYTES : Z := 256 * 1024.

(** The body of a response as [responseJson] reads it. *)
Definition responseJson (r : response) : res value :=
  let text := stringify (body r) in
  throw_if MAX_RESPONSE_BYTES <? Z.of_nat (length (utf8_encode text)) with "node_command_response_too_large" ;;
  match JSON_parse text with Some v => Ok v | None => Err "node_command_response_invalid_json" end.

(** A request with a JSON body: the server reads the text that the client wrote. *)
Definition with_body (document : json) (handler : value -> SE Db response) : SE Db response :=
  match JSON_parse (stringify document) with
  | Some v => handler v
  | None => se_ret (error_response 400 "FST_ERR_CTP_INVALID_JSON_BODY")
  end.

Section Client.
Context (is_uuid is_datetime is_datetime_utc : jsstring -> bool) (localeCompare : jsstring -> jsstring -> Z)
  (sha256_hex : bytes -> jsstring).

Abbreviation commandSchema := (nodeCommandSchema is_uuid is_datetime).
Abbreviation resultSchema := (nodeCommandResultSchema is_uuid is_datetime).
Abbreviation snapshotSchema := (nodeSnapshotSchema is_uuid is_datetime).

Definition pulledCommandsSchema : zod :=
  ZObj [required "object" (ZLit (js "list"));
        required "data" (ZArr 0 256 (ZObj [required "command" commandSchema;
                                           required "state" (ZEnum [js "queued"; js "delivered"])]))].

(** [acknowledgedCommandIds] has the default []. *)
Definition reconciliationSchema : zod :=
  ZObj [required "snapshot" snapshotSchema;
        required "desiredState" (nodeDesiredStateSchema is_datetime);
        required "events" (ZArr 0 MAX_SAFE_INTEGER (nodeEventSchema is_datetime));
        required "latestCursor" (ZStr is_cursor);
        optional "acknowledgedCommandIds" (ZArr 0 256 (uuid is_uuid))].

(** ** The cursor file *)

Definition state_valid (r : ReconciliationState) : bool :=
  min_max 1 128 (rs_nodeId r) && safe_positive (rs_generation r) && is_cursor (rs_cursor r)
  && is_datetime_utc (rs_updatedAt r).

Definition parse_state (r : ReconciliationState) : res ReconciliationState :=
  throw_if negb (state_valid r) with ZodError ;; Ok r.

Context (nodeId : jsstring).

Definition initial (generation : Z) : res ReconciliationState :=
  let? updatedAt := toISOString 0 in
  parse_state (ReconciliationState_ nodeId generation NODE_EVENT_ORIGIN_CURSOR updatedAt).

(** [initial] inside the [try]: its error is caught and named after the file. *)
Definition load_state (generation : Z) (f : state_file) : res ReconciliationState :=
  match f with
  | NoState => initial generation
  | DamagedState => Err "node_reconciliation_state_is_invalid"
  | StoredState r =>
      throw_if negb (state_valid r) with "node_reconciliation_state_is_invalid" ;;
      throw_if negb (bool_decide (rs_nodeId r = nodeId)) with "node_reconciliation_state_wrong_node" ;;
      if rs_generation r =? generation then Ok r
      else match initial generation with Ok i => Ok i | Err _ => Err "node_reconciliation_state_is_invalid" end
  end.

Definition save_state (now : Z) (ok : bool) (generation : Z) (cursor : jsstring) : SE System unit :=
  let! updatedAt := se_lift (toISOString now) in
  let! next := se_lift (parse_state (ReconciliationState_ nodeId generation cursor updatedAt)) in
  fail_if negb ok with "EIO" ;;
  se_modify (with_state (StoredState next)).

(** ** Requests *)

(** [session] is the identity that the coordinator finds in the token. *)
Context (generation : Z) (session : option jsstring) (ownership : option NodeOwnership).

Definition fetch (n : network) (handler : SE Db response) : SE System response :=
  fun s =>
    match n with
    | RequestLost => (Err "fetch failed", s)
    | Through => let '(r, d) := answer handler (coordinator s) in (Ok r, with_coordinator d s)
    | ResponseLost => (Err "fetch failed", with_coordinator (answer handler (coordinator s)).2 s)
    end.

Definition pullCommands (now : Z) (n : network) : SE System (list json) :=
  let! response := fetch n (get_commands is_uuid is_datetime localeCompare sha256_hex now session ownership nodeId
                              generation (Some 32)) in
  fail_if negb (response_ok response) with "node_command_pull_http" ;;
  let! text := se_lift (responseJson response) in
  let! pulled := se_lift (zparse pulledCommandsSchema text) in
  se_ret (map (jobj "command") (jarr "data" pulled)).

Definition postResult (now : Z) (n : network) (result : json) : SE System unit :=
  let! response := fetch n (with_body result (post_result is_uuid is_datetime localeCompare sha256_hex now session nodeId)) in
  fail_if negb (response_ok response) with "node_command_result_http" ;;
  let! text := se_lift (responseJson response) in
  let! _ := se_lift (zparse resultSchema text) in
  se_ret tt.

(** The executor's method, on its part of the system. *)
Definition execute (e : environment) (command : json) : SE System json :=
  fun s =>
    let '(r, n) := executeOnce is_uuid is_datetime is_datetime_utc localeCompare sha256_hex nodeId generation e
                     (embed command) (executor s) in
    (r, with_executor n s).

Definition handle_command (a : attempt) (command : json) : SE System json :=
  let! result := execute (at_environment a) command in
  do! postResult (at_now a) (at_network a) result ;;
  se_ret result.

(** [false] when the signal aborted. *)
Fixpoint handle_commands (attempts : list attempt) (commands : list json) : SE System bool :=
  match commands, attempts with
  | [], _ => se_ret true
  | _ :: _, [] => se_ret false
  | command :: commands', a :: attempts' =>
      let! _ := handle_command a command in
      handle_commands attempts' commands'
  end.

(** [snapshot] is the callback, [now] the coordinator's clock and [node_now] the node's. *)
Definition postSnapshot (now node_now : Z) (n : network) (ok : bool) (snapshot : jsstring -> value) : SE System unit :=
  let! s := se_get in
  let! state := se_lift (load_state generation (state_store s)) in
  let! parsed := se_lift (zparse snapshotSchema (snapshot (rs_cursor state))) in
  fail_if negb (bool_decide (jstr "nodeId" parsed = nodeId)) || negb (jnum "generation" parsed =? generation)
          || negb (bool_decide (jstr "cursor" parsed = rs_cursor state))
    with "node_snapshot_client_identity_mismatch" ;;
  let! response := fetch n (with_body parsed
                     (post_snapshot is_uuid is_datetime localeCompare sha256_hex now session ownership nodeId)) in
  fail_if negb (response_ok response) with "node_snapshot_http" ;;
  let! text := se_lift (responseJson response) in
  let! result := se_lift (zparse reconciliationSchema text) in
  fail_if negb (bool_decide (jstr "nodeId" (jobj "snapshot" result) = jstr "nodeId" parsed))
          || negb (jnum "generation" (jobj "snapshot" result) =? jnum "generation" parsed)
          || negb (bool_decide (jstr "cursor" (jobj "snapshot" result) = jstr "cursor" parsed))
          || negb (bool_decide (jstr "nodeId" (jobj "desiredState" result) = jstr "nodeId" parsed))
          || negb (jnum "generation" (jobj "desiredState" result) =? jnum "generation" parsed)
    with "node_reconciliation_response_identity_mismatch" ;;
  save_state node_now ok generation (jstr "latestCursor" result).

(** One turn of the loop with a session. *)
Record turn := Turn {
  turn_now : Z;                              (* the coordinator's clock at the pull *)
  turn_network : network;
  turn_attempts : list attempt;
  turn_snapshot : option (Z * Z * network * bool * (jsstring -> value))
}.

Definition client_turn (t : turn) : SE System unit :=
  let! commands := pullCommands (turn_now t) (turn_network t) in
  let! finished := handle_commands (turn_attempts t) commands in
  match finished, turn_snapshot t with
  | true, Some (now, node_now, n, ok, snapshot) => postSnapshot now node_now n ok snapshot
  | _, _ => se_ret tt
  end.
End Client.
