(* ===== verification/NodeClientProps.v ===== *)
(** * The client and the coordinator together

    A command that a node executes is settled at the coordinator with the result that
    the executor keeps, however often the client has to try. *)

From S2P Require Import Prelude JsString JsMap JsSort JsonText JsonParse Schema Sql Zod JsDate NodeJson NodeControl NodeControlProps NodeCommands NodeReconciliation NodeCommandsInv NodeCommandsLog NodeCommandsProps NodeCommandsPull NodeDesired NodeEvents NodeRoutes NodeExecutor NodeExecutorProps NodeClient.

#[local] Open Scope Z_scope.

Lemma parse_lit x v j : parse (ZLit x) v = Some j -> j = JStr x.
Proof. destruct v; try done. cbn [parse]. case_decide; [|done]. by intros [= <-]. Qed.

Lemma select_one_map {R} (f : R -> R) (p : R -> bool) t :
  (forall r, p (f r) = p r) -> select_one p (map f t) = f <$> select_one p t.
Proof.
  intros Hf. unfold select_one. induction t as [|r t IH]; simpl; [done|]. rewrite Hf. by destruct (p r).
Qed.

Lemma final_not_accepted x : x ∈ final_states -> x <> js "accepted".
Proof.
  unfold final_states. rewrite !elem_of_cons, elem_of_nil. intros [->|[->|[->|[]]]];
    match goal with |- ?P => apply (bool_decide_unpack P) end; vm_compute; exact I.
Qed.

Lemma digest_text_scalars s : is_sha256 s = true -> scalars s.
Proof.
  unfold is_sha256. intros H. bool_prop. apply text_scalars. rewrite <- (take_drop 7 s), H, forallb_app. apply andb_true_iff.
  split; [reflexivity|]. apply forallb_forall. intros c Hc. apply is_hex_scalar. by apply (proj1 (forallb_forall _ _) H0).
Qed.

Lemma iso_scalars t s : toISOString t = Ok s -> scalars s.
Proof.
  unfold toISOString. destruct (MAX_TIME <? Z.abs t); [done|]. destruct (civil_from_days _) as [[y m] d]. cbv zeta.
  intros E. apply (f_equal (fun r => match r with Ok x => x | Err _ => [] end)) in E. cbv beta iota in E. subst s.
  assert (Hd : forall w n, scalars (padded w n)).
  { intros w n. eapply Forall_impl; [apply padded_digits|]. intros c. unfold is_digit, is_scalar, is_surrogate. lia. }
  assert (Hy : scalars (year_text y)).
  { unfold year_text. destruct (_ && _); [apply Hd|]. constructor; [by destruct (y <? 0)|apply Hd]. }
  unfold scalars in *. repeat (apply Forall_app_2; [by auto|]; constructor; [done|]). constructor.
Qed.

Lemma plain_value_texts j : plain j -> value_texts (embed j).
Proof.
  induction j as [| | | |l IH|l IH] using json_ind'; try done; cbn [plain embed value_texts].
  - rewrite !foldr_Forall. intros H. apply Forall_map. rewrite Forall_forall in *. auto.
  - rewrite !(foldr_Forall (fun e => scalars e.1 /\ plain e.2)), (foldr_Forall (fun e => scalars e.1 /\ value_texts e.2)).
    intros [_ H]. apply Forall_map. rewrite Forall_forall in *. intros e He. cbn. destruct (H e He). auto.
Qed.

Lemma jstr_scalars k j : plain j -> scalars (jstr k j).
Proof.
  intros H. pose proof (jobj_plain k j H) as Hk. unfold jobj in Hk. unfold jstr.
  destruct (jfield k j) as [[]|]; done || constructor.
Qed.

(** A field of a parsed object is the one of the value it was parsed from. *)
Lemma parsed_field shape l j k s :
  bool_decide (NoDup shape.*1) = true -> parse (ZObj shape) (VObj l) = Some j -> map_get shape (js k) = Some (false, s) ->
  exists x v, jfield k j = Some x /\ map_get l (js k) = Some v /\ parse s v = Some x.
Proof.
  intros Hn H Hk. cbn [parse] in H. destruct (known shape l); [|done].
  destruct (parse_shape parse shape l) as [out|] eqn:E; [|done]. injection H as <-. apply bool_decide_eq_true in Hn.
  eapply parse_shape_field in E; [|done|exact Hk]. cbn [jfield].
  destruct (map_get out (js k)) as [x|]; [|by destruct E]. destruct E as (v & ? & ?). eauto.
Qed.

Section Results.
Context (is_uuid is_datetime is_datetime_utc : jsstring -> bool) (localeCompare : jsstring -> jsstring -> Z)
  (sha256_hex : bytes -> jsstring) (nodeId : jsstring) (generation : Z).

Abbreviation resultSchema := (nodeCommandResultSchema is_uuid is_datetime).
Abbreviation made := (made is_uuid is_datetime nodeId generation).
Abbreviation node_ok := (node_ok is_uuid is_datetime is_datetime_utc nodeId generation).
Abbreviation journal_ok := (journal_ok is_uuid is_datetime is_datetime_utc nodeId generation).
Abbreviation jwrites := (jwrites is_uuid is_datetime is_datetime_utc localeCompare sha256_hex nodeId generation).
Abbreviation executeOnce := (executeOnce is_uuid is_datetime is_datetime_utc localeCompare sha256_hex nodeId generation).

(** What a result of the executor is, for the coordinator. *)
Definition result_sound (id : jsstring) (result : json) : Prop :=
  (exists v, parse resultSchema v = Some result) /\ plain result
  /\ jstr "commandId" result = id /\ jstr "nodeId" result = nodeId /\ jnum "generation" result = generation
  /\ jstr "state" result ∈ final_states /\ is_Some (Date_parse (jstr "observedAt" result)).

(** A field of a result is the one of the document it was parsed from. *)
Lemma result_from l r k s :
  parse resultSchema (VObj l) = Some r ->
  match resultSchema with ZObj shape => map_get shape (js k) | _ => None end = Some (false, s) ->
  exists x v, jfield k r = Some x /\ map_get l (js k) = Some v /\ parse s v = Some x.
Proof. intros H Hk. eapply parsed_field; [|exact H|exact Hk]. vm_compute. reflexivity. Qed.

Lemma from_str l r k p x :
  parse resultSchema (VObj l) = Some r ->
  match resultSchema with ZObj shape => map_get shape (js k) | _ => None end = Some (false, ZStr p) ->
  map_get l (js k) = Some (VStr x) -> jstr k r = x.
Proof.
  intros H Hk Hl. destruct (result_from l r k _ H Hk) as (y & v & Hy & Hv & Hp). rewrite Hl in Hv. injection Hv as <-.
  cbn [parse] in Hp. destruct (p x); [|done]. injection Hp as <-. unfold jstr. by rewrite Hy.
Qed.

Lemma made_sound e id result : environment_wf e -> scalars id -> scalars nodeId -> made e id result -> result_sound id result.
Proof.
  intros He Hid Hn (uuid & state & u & dg & error & Hu & Hp & Huuid & Hst & Herr).
  pose proof He as (Hnow & Hu1 & Hu2 & _ & _).
  pose proof (iso_scalars _ _ Hu) as Hus. pose proof Hp as Hparse.
  unfold result_document in Hp. cbn [embed map fst snd] in Hp. set (l := [_; _; _; _; _; _; _; _; _]) in Hp.
  pose proof (from_str l result "commandId" _ id Hp eq_refl eq_refl) as E1.
  pose proof (from_str l result "nodeId" _ nodeId Hp eq_refl eq_refl) as E2.
  pose proof (from_str l result "observedAt" _ u Hp eq_refl eq_refl) as E3.
  assert (E4 : jstr "state" result = state).
  { destruct (result_from l result "state" _ Hp eq_refl) as (y & v & Hy & [= <-] & Hpy).
    apply parse_enum in Hpy as Hpy'. destruct Hpy' as (z & -> & _). cbn [parse] in Hpy.
    case_decide; [|done]. injection Hpy as <-. unfold jstr. by rewrite Hy. }
  assert (E5 : jnum "generation" result = generation).
  { destruct (result_from l result "generation" _ Hp eq_refl) as (y & v & Hy & [= <-] & Hpy).
    cbn [parse NodeControl.generation] in Hpy. destruct (_ && _); [|done]. injection Hpy as <-. unfold jnum. by rewrite Hy. }
  assert (Hdg : scalars dg).
  { destruct (result_from l result "resultDigest" _ Hp eq_refl) as (y & v & Hy & [= <-] & Hpy).
    cbn [parse sha256] in Hpy. destruct (is_sha256 dg) eqn:Ed; [|done]. by apply digest_text_scalars. }
  unfold result_sound. rewrite E1, E2, E3, E4, E5. split_and!; [by eexists| |done|done|done|done|].
  - eapply parse_plain; [apply result_schema_ok|right|exact Hparse].
    unfold result_document. cbn [embed map fst snd value_texts foldr].
    assert (Hstate : scalars state).
    { unfold final_states in Hst. rewrite !elem_of_cons, elem_of_nil in Hst.
      destruct Hst as [->|[->|[->|[]]]]; by apply text_scalars. }
    split_and!; try (by apply text_scalars); try done.
    + by destruct Huuid as [->| ->].
    + by apply plain_value_texts, Herr.
  - erewrite Date_parse_toISOString; [by eexists| |exact Hu]. destruct Hnow. unfold FIRST_TIME. lia.
Qed.
(** ** What the journal holds *)

Definition record_sound (r : JournalRecord) : Prop :=
  jr_state r = Complete -> exists result, jr_result r = Some result /\ result_sound (jr_commandId r) result.

Definition results_sound (s : Node) : Prop :=
  match disk s with Stored j => Forall record_sound (jn_records j) | _ => True end.

Context (Hnode : scalars nodeId).

Lemma write_sound c e s s' :
  scalars (jstr "id" c) -> environment_wf e -> jwrites c e s s' -> results_sound s -> results_sound s'.
Proof.
  intros Hid He [j record next Hd _ _ _ _ Hst _ Ha|r _ _ _|j r result u Hd Hf _ Hm _] Hs; [|done|].
  - unfold results_sound. cbn. apply appendBounded_spec in Ha as (dr & re & Hc & Hrec & _). rewrite Hrec.
    assert (Hj : Forall record_sound (jn_records j)).
    { destruct Hd as [Hd|[_ Hd]]; [by unfold results_sound in Hs; rewrite Hd in Hs|rewrite Hd; constructor]. }
    rewrite Forall_forall in Hj. apply Forall_forall. intros x Hx.
    rewrite !elem_of_app, list_elem_of_singleton in Hx. destruct Hx as [Hx|[Hx| ->]].
    + apply Hj. assert (Hx' : x ∈ List.filter (is_state Complete) (jn_records j)) by (rewrite Hc; apply elem_of_app; by right).
      by apply is_state_elem in Hx' as [? _].
    + apply Hj. by apply is_state_elem in Hx as [? _].
    + intros Hx. congruence.
  - unfold results_sound in *. rewrite Hd in Hs. cbn. apply Forall_map. eapply Forall_impl; [exact Hs|].
    intros x Hx. unfold completed. case_bool_decide as E; [|done]. intros _. exists result. split; [done|].
    cbn [jr_commandId]. rewrite E. by eapply made_sound.
Qed.

(** One execution in a well-formed environment. *)
Definition node_step (s s' : Node) : Prop :=
  exists e input, environment_wf e /\ value_texts input /\ s' = (executeOnce e input s).2.

Lemma node_step_step s s' :
  node_step s s' -> NodeExecutorProps.step is_uuid is_datetime is_datetime_utc localeCompare sha256_hex nodeId generation s s'.
Proof. intros (e & input & _ & Hv & ->). by exists e, input. Qed.

Lemma execution_sound e input s :
  environment_wf e -> value_texts input -> node_ok s -> results_sound s -> results_sound (executeOnce e input s).2.
Proof.
  intros He Hv Hok Hs. destruct (parse (nodeCommandSchema is_uuid is_datetime) input) as [c|] eqn:Hp.
  - pose proof (parse_plain _ _ _ (command_schema_ok is_uuid is_datetime) (or_intror Hv) Hp) as Hpl.
    pose proof (executeOnce_stays is_uuid is_datetime is_datetime_utc localeCompare sha256_hex nodeId generation e input c s Hp Hpl Hok) as H.
    unfold stays in H. revert H Hok Hs. generalize (executeOnce e input s).2. intros s'.
    induction 1 as [|x y z Hxy _ IH]; intros Hok Hs; [done|]. apply IH.
    + by eapply write_journal_ok.
    + eapply write_sound; [by apply jstr_scalars|exact He|exact Hxy|exact Hs].
  - by rewrite executeOnce_unparsed.
Qed.

Lemma node_history s s' : rtc node_step s s' -> node_ok s -> results_sound s -> node_ok s' /\ results_sound s'.
Proof.
  induction 1 as [|x y z Hxy _ IH]; [done|]. intros Hok Hs. apply IH.
  - eapply execution_ok; [by apply node_step_step|done].
  - destruct Hxy as (e & input & He & Hv & ->). by apply execution_sound.
Qed.

(** The result that an execution returns is sound, and stays in the journal. *)
Lemma execution_result e input c s res s' :
  environment_wf e -> value_texts input -> parse (nodeCommandSchema is_uuid is_datetime) input = Some c ->
  node_ok s -> results_sound s -> executeOnce e input s = (Ok res, s') ->
  result_sound (jstr "id" c) res /\ node_ok s' /\ results_sound s'
  /\ forall e', executeOnce e' input s' = (Ok res, s').
Proof.
  intros He Hv Hp Hok Hs H.
  assert (Hok' : node_ok s').
  { eapply execution_ok; [|exact Hok]. exists e, input. split; [done|]. by rewrite H. }
  assert (Hs' : results_sound s').
  { pose proof (execution_sound e input s He Hv Hok Hs) as H'. by rewrite H in H'. }
  apply (executeOnce_result is_uuid is_datetime is_datetime_utc localeCompare sha256_hex nodeId generation e input c) in H
    as (r & Hr & Hst & Hres & Hg); [|done| |done].
  2: { exact (parse_plain _ _ _ (command_schema_ok is_uuid is_datetime) (or_intror Hv) Hp). }
  split_and!; [|done|done|].
  - unfold find_record in Hr. unfold results_sound in Hs'. destruct (disk s') as [| |j]; [done|done|].
    apply find_in_Some in Hr as [Hin Hid]. rewrite Forall_forall in Hs'. destruct (Hs' r Hin Hst) as (x & Hx & Hsound).
    rewrite Hres in Hx. injection Hx as <-. by rewrite Hid in Hsound.
  - intros e'. erewrite executeOnce_again; [|done..]. by rewrite bool_decide_eq_true_2.
Qed.
End Results.

(** ** Posting a result *)

Section Post.
Context (is_uuid is_datetime : jsstring -> bool) (localeCompare : jsstring -> jsstring -> Z)
  (sha256_hex : bytes -> jsstring) (Hhex : forall b, scalars (sha256_hex b)).

Abbreviation canonical := (canonicalJson localeCompare).
Abbreviation recordResult := (recordResult is_uuid is_datetime localeCompare sha256_hex).
Abbreviation sound := (result_sound is_uuid is_datetime).

Lemma node_actor_parsed n :
  is_identifier n = true -> parse nodeControlActorSchema (embed (node_actor n)) = Some (node_actor n).
Proof.
  unfold nodeControlActorSchema, identifier. generalize is_identifier. intros p. vm_compute. by intros ->.
Qed.

(** A final state names a state of the command. *)
Lemma final_state x : x ∈ final_states -> exists s, commandStateSchema x = Ok s /\ state_text s = x /\ is_pending s = false.
Proof.
  unfold final_states. rewrite !elem_of_cons, elem_of_nil. intros [->|[->|[->|[]]]];
    [exists Applied|exists Rejected|exists Expired]; split_and!; reflexivity.
Qed.

(** The event of a result. *)
Definition result_entry (res : json) : log_entry :=
  LogEntry (jnum "generation" res) (node_actor (jstr "nodeId" res)) (js "command." ++ jstr "state" res) res.

(** A command that has no result yet accepts the first sound one. *)
Lemma record_accepts now n g res d row :
  tables_ok is_uuid is_datetime localeCompare d -> log_ok localeCompare sha256_hex d -> sound n g (cr_id row) res ->
  row ∈ node_commands d -> cr_node_id row = n -> cr_generation row = g ->
  result_row (cr_id row) d = None -> Forall (fun r => rr_id r <> jstr "id" res) (node_command_results d) ->
  digests_apart localeCompare sha256_hex
    (extend_log localeCompare sha256_hex now n (node_control_events d) [result_entry res]) ->
  exists d', recordResult now (embed res) d = (Ok res, d')
    /\ (exists s, state_text s = jstr "state" res /\ is_pending s = false
        /\ node_commands d' = node_commands (set_state is_pending (complete now s) (cr_id row) d))
    /\ (exists rr, result_row (cr_id row) d' = Some rr /\ rr_result_json rr = canonical res)
    /\ node_control_events d' = extend_log localeCompare sha256_hex now n (node_control_events d) [result_entry res].
Proof.
  intros Hok Hlog ((v & Hp) & Hpl & Hid & Hn & Hg & Hst & o & Ho) Hrow Hrn Hrg Hnone Hfresh Hapart.
  pose proof (reparse _ v res (result_schema_ok is_uuid is_datetime) Hp Hpl) as Hre.
  destruct (final_state _ Hst) as (s & Hs & Htext & Hfin).
  pose proof (readCommand_elem is_uuid is_datetime localeCompare d row Hok Hrow) as Hread.
  pose proof (result_nodeId is_uuid is_datetime _ _ Hp) as Hident. rewrite Hn in Hident.
  set (rr := ResultRow_ (jstr "id" res) (jstr "commandId" res) (jstr "nodeId" res) (jnum "generation" res)
    (jstr "resultDigest" res) (canonical res) o).
  assert (Hins : insert_result localeCompare res d = Ok (node_command_results d ++ [rr])).
  { unfold insert_result. rewrite Ho. apply insert_row_ok.
    - rewrite Forall_forall in Hfresh |- *. intros r Hr. unfold result_conflict. cbn.
      rewrite bool_decide_eq_false_2 by (intros E; by apply (Hfresh r Hr)). cbn [orb].
      apply select_one_None in Hnone. rewrite Forall_forall in Hnone. specialize (Hnone r Hr).
      rewrite Hid. rewrite bool_decide_eq_false in Hnone |- *. congruence.
    - apply existsb_exists. exists row. split; [by apply list_elem_of_In|]. apply bool_decide_eq_true. congruence. }
  set (d1 := set_state is_pending (complete now s) (cr_id row) (with_results (node_command_results d ++ [rr]) d)).
  assert (Hlog1 : log_ok localeCompare sha256_hex d1) by (destruct Hlog; by constructor).
  destruct (append_run localeCompare sha256_hex Hhex now n (result_entry res) d1) as (d2 & Hap & Hd2 & _);
    [by apply is_identifier_scalars| |done| |done|].
  { cbn [result_entry le_type]. rewrite <- Htext. destruct s; by apply text_scalars. }
  { cbn [result_entry le_actor]. rewrite Hn. by apply node_actor_parsed. }
  cbn [result_entry le_generation le_actor le_type le_payload] in Hap. rewrite Hn, Hg, <- Htext in Hap.
  exists d2. apply append_keeps in Hap as Hk. destruct Hk as [Hk1 Hk2]. split_and!; [| | |by rewrite Hd2].
  - unfold NodeCommands.recordResult, se_bind at 1, se_lift at 1. rewrite (proj2 (zparse_ok _ _ _) Hre).
    rewrite bool_decide_eq_false_2 by (by apply final_not_accepted).
    unfold transaction, se_bind at 1, se_get. rewrite Hid, Hread, Hrn, Hn, Hrg, Hg, bool_decide_eq_true_2, Z.eqb_refl by done.
    cbn [negb]. cbv zeta. fold (result_row (cr_id row) d). rewrite Hnone.
    unfold se_bind at 1, se_lift at 1. rewrite Hs. unfold se_bind at 1, se_lift at 1. rewrite Hins.
    unfold se_bind at 1, se_modify at 1. unfold se_bind at 1, se_modify at 1. fold d1.
    unfold se_bind at 1. rewrite Hap. done.
  - exists s. split_and!; [done|done|]. by rewrite Hk1.
  - exists rr. split; [|done]. unfold result_row. rewrite Hk2. cbn [d1 set_state with_commands with_results node_command_results].
    apply select_one_snoc_hit; [by apply select_one_None|]. cbn. by apply bool_decide_eq_true.
Qed.

(** The row that such a result settles. *)
Lemma settled_row now s d d' row :
  tables_ok is_uuid is_datetime localeCompare d -> row ∈ node_commands d -> is_pending (cr_state row) = true ->
  node_commands d' = node_commands (set_state is_pending (complete now s) (cr_id row) d) ->
  readCommand (cr_id row) d' = Some (complete now s row).
Proof.
  clear Hhex. intros Hok Hrow Hpend Hcmd. pose proof (readCommand_elem is_uuid is_datetime localeCompare _ _ Hok Hrow) as Hr.
  unfold readCommand in *. rewrite Hcmd. cbn [set_state with_commands node_commands]. rewrite select_one_map, Hr.
  - cbn. by rewrite bool_decide_eq_true_2, Hpend by done.
  - intros r. by destruct (_ && _).
Qed.
End Post.

Section Handle.
Context (is_uuid is_datetime is_datetime_utc : jsstring -> bool) (localeCompare : jsstring -> jsstring -> Z)
  (sha256_hex : bytes -> jsstring) (nodeId : jsstring) (generation : Z).

Abbreviation sound := (result_sound is_uuid is_datetime nodeId generation).
Abbreviation recordResult := (recordResult is_uuid is_datetime localeCompare sha256_hex).
Abbreviation postResult := (postResult is_uuid is_datetime localeCompare sha256_hex nodeId (Some nodeId)).
Abbreviation execute := (execute is_uuid is_datetime is_datetime_utc localeCompare sha256_hex nodeId generation).
Abbreviation handle_command := (handle_command is_uuid is_datetime is_datetime_utc localeCompare sha256_hex nodeId generation (Some nodeId)).

(** What a posted result does to the coordinator. *)
Definition posted (now : Z) (n : network) (res : json) (s : System) : System :=
  match n with
  | RequestLost => s
  | Through | ResponseLost => with_coordinator (recordResult now (embed res) (coordinator s)).2 s
  end.

Lemma identity_of_node : is_identifier nodeId = true -> identity_valid nodeId = true.
Proof.
  clear. intros H. unfold identity_valid, min_max. rewrite utf16_length_bmp.
  - unfold is_identifier in H. destruct nodeId; [done|]. bool_prop. unfold in_range. cbn [length].
    apply andb_true_iff; split; apply Z.leb_le; lia.
  - unfold is_identifier in H. destruct nodeId as [|x l]; [done|]. bool_prop.
    assert (Hc : forall y, is_identifier_char y = true -> y < 65536)
      by (intros y; unfold is_identifier_char, is_alnum, in_range; lia).
    constructor; [apply Hc; unfold is_identifier_char; by rewrite H|].
    apply Forall_forall. intros y Hy. apply Hc. rewrite forallb_forall in H0. apply H0. by apply list_elem_of_In.
Qed.

Lemma sound_parsed id res : sound id res -> parse (nodeCommandResultSchema is_uuid is_datetime) (embed res) = Some res.
Proof. intros ((v & Hp) & Hpl & _). exact (reparse _ v res (result_schema_ok is_uuid is_datetime) Hp Hpl). Qed.

Lemma post_state now n id res s : sound id res -> (postResult now n res s).2 = posted now n res s.
Proof.
  intros Hs. pose proof (sound_parsed id res Hs) as Hre. pose proof Hs as (_ & Hpl & _ & Hn & _).
  pose proof (result_nodeId is_uuid is_datetime _ _ Hre) as Hident. rewrite Hn in Hident. apply identity_of_node in Hident.
  assert (Hans : forall d, (answer (with_body res (post_result is_uuid is_datetime localeCompare sha256_hex now (Some nodeId) nodeId)) d).2
    = (recordResult now (embed res) d).2).
  { intros d. unfold with_body. rewrite JSON_parse_stringify by done. unfold answer, post_result. rewrite Hident.
    rewrite bool_decide_eq_true_2 by done. cbn [negb]. unfold se_bind at 1, se_lift at 1.
    rewrite (proj2 (zparse_ok _ _ _) Hre), Hn, bool_decide_eq_true_2 by done. cbn [negb].
    unfold catching, se_bind. by destruct (recordResult now (embed res) d) as [[r|x] d']. }
  unfold NodeClient.postResult, se_bind at 1, fetch, posted. destruct n; [|done|cbn [snd]; by rewrite Hans].
  destruct (answer _ (coordinator s)) as [r d'] eqn:E.
  replace (recordResult now (embed res) (coordinator s)).2 with d' by (by rewrite <- Hans, E).
  destruct (negb (response_ok r)); [done|]. unfold se_bind at 1, se_lift at 1. destruct (responseJson r); [|done].
  unfold se_bind, se_lift. by destruct (zparse _ _).
Qed.

(** Executing a command and posting its result. *)
Lemma handle_state a c s res n :
  executeOnce is_uuid is_datetime is_datetime_utc localeCompare sha256_hex nodeId generation (at_environment a) (embed c)
    (executor s) = (Ok res, n) ->
  sound (jstr "id" c) res ->
  (handle_command a c s).2 = posted (at_now a) (at_network a) res (with_executor n s).
Proof.
  intros He Hs. unfold NodeClient.handle_command, se_bind at 1, NodeClient.execute. rewrite He.
  rewrite <- (post_state _ _ _ _ _ Hs). unfold se_bind.
  by destruct (postResult (at_now a) (at_network a) res (with_executor n s)) as [[]].
Qed.
End Handle.

(** C26 (safety). A command is settled once, end to end: let a reachable coordinator
    have a live command without a result for a node, and let the client of the node (any
    history of its journal) execute the command and post what the executor returned, with
    an identifier that no other result has.  If the request arrives, whether or not the
    client sees the response, and SHA-256 tells the events in the log and the one of the
    result apart, the coordinator has the row of the command in the state of that result,
    keeps the result's text and has logged one event more; and however often the client
    then executes and posts the command again, at any time and with any losses, neither
    side changes. *)
Theorem command_settled (is_uuid is_datetime is_datetime_utc : jsstring -> bool)
    (localeCompare : jsstring -> jsstring -> Z) (sha256_hex : bytes -> jsstring) (nodeId : jsstring) (generation : Z)
    (s : System) (a : attempt) row c st res n :
  (forall b, scalars (sha256_hex b)) ->
  rtc (NodeCommandsInv.step is_uuid is_datetime localeCompare sha256_hex) empty_db (coordinator s) ->
  rtc (node_step is_uuid is_datetime is_datetime_utc localeCompare sha256_hex nodeId generation) (Node_ NoFile []) (executor s) ->
  row ∈ node_commands (coordinator s) -> cr_node_id row = nodeId -> cr_generation row = generation ->
  is_pending (cr_state row) = true -> result_row (cr_id row) (coordinator s) = None ->
  toDurable is_uuid is_datetime row = Ok (c, st) ->
  environment_wf (at_environment a) -> at_network a <> RequestLost ->
  executeOnce is_uuid is_datetime is_datetime_utc localeCompare sha256_hex nodeId generation (at_environment a) (embed c)
    (executor s) = (Ok res, n) ->
  Forall (fun r => rr_id r <> jstr "id" res) (node_command_results (coordinator s)) ->
  let log' := extend_log localeCompare sha256_hex (at_now a) nodeId (node_control_events (coordinator s)) [result_entry res] in
  digests_apart localeCompare sha256_hex log' ->
  let handle := handle_command is_uuid is_datetime is_datetime_utc localeCompare sha256_hex nodeId generation (Some nodeId) in
   let s' := (handle a c s).2 in
   (exists row' rr, readCommand (cr_id row) (coordinator s') = Some row' /\ same_command row row'
      /\ state_text (cr_state row') = jstr "state" res /\ is_pending (cr_state row') = false
      /\ result_row (cr_id row) (coordinator s') = Some rr /\ rr_result_json rr = canonicalJson localeCompare res
      /\ node_control_events (coordinator s') = log')
   /\ forall a', (handle a' c s').2 = s'.
Proof.
  intros Hhex Hd Hs Hrow Hn Hg Hpend Hnone Hdur He Hnet Hex Hfresh log' Hapart.
  pose proof (reachable_tables_ok _ _ _ _ _ Hd) as Hok. pose proof (reachable_log_ok _ _ _ _ _ Hd) as Hlog.
  pose proof Hok as [Hrows _ _ _ _]. rewrite Forall_forall in Hrows.
  destruct (Hrows row Hrow) as (v & c' & Hp & Hpl & Hj & Hid & _).
  assert (c' = c) as ->.
  { unfold toDurable in Hdur. rewrite Hj, (read_canonical localeCompare _ v c' (command_schema_ok _ _) Hp Hpl) in Hdur. congruence. }
  rewrite Hid in *.
  assert (Hnode : scalars nodeId).
  { rewrite <- Hn. destruct (Hrows row Hrow) as (v' & c' & Hp' & _ & _ & _ & -> & _).
    by eapply is_identifier_scalars, command_nodeId. }
  destruct (node_history is_uuid is_datetime is_datetime_utc localeCompare sha256_hex nodeId generation Hnode _ _ Hs I I) as [Hnok Hnsound].
  assert (Hpe : parse (nodeCommandSchema is_uuid is_datetime) (embed c) = Some c)
    by exact (reparse _ v c (command_schema_ok is_uuid is_datetime) Hp Hpl).
  destruct (execution_result _ _ _ _ _ _ _ Hnode (at_environment a) (embed c) c (executor s) res n He
    (plain_value_texts c Hpl) Hpe Hnok Hnsound Hex) as (Hsound & _ & _ & Hagain).
  rewrite <- Hid in Hnone, Hsound.
  destruct (record_accepts is_uuid is_datetime localeCompare sha256_hex Hhex (at_now a) nodeId generation res (coordinator s) row
    Hok Hlog Hsound Hrow Hn Hg Hnone Hfresh Hapart) as (d' & Hrec & (fin & Hfin & Hfp & Hcmd) & (rr & Hrr & Hrj) & Hev).
  rewrite Hid in Hnone, Hsound, Hrr, Hcmd.
  cbv zeta. rewrite (handle_state _ _ _ _ _ _ _ _ _ _ _ _ Hex Hsound).
  assert (Hs' : posted is_uuid is_datetime localeCompare sha256_hex (at_now a) (at_network a) res (with_executor n s)
    = with_coordinator d' (with_executor n s)).
  { unfold posted. cbn [coordinator with_executor]. rewrite Hrec. by destruct (at_network a). }
  rewrite Hs'. cbn [coordinator with_coordinator].
  assert (Hread : readCommand (jstr "id" c) d' = Some (complete (at_now a) fin row)).
  { rewrite <- Hid in Hcmd |- *. by apply (settled_row is_uuid is_datetime localeCompare _ _ _ _ _ Hok Hrow Hpend). }
  split.
  - exists (complete (at_now a) fin row), rr. split_and!; done.
  - intros a'. assert (Hex' : executeOnce is_uuid is_datetime is_datetime_utc localeCompare sha256_hex nodeId generation
      (at_environment a') (embed c) (executor (with_coordinator d' (with_executor n s))) = (Ok res, n)) by apply Hagain.
    rewrite (handle_state _ _ _ _ _ _ _ _ _ _ _ _ Hex' Hsound). unfold posted. cbn [coordinator with_coordinator with_executor].
    pose proof Hsound as ((vr & Hvr) & Hplr & Hcid & Hnid & Hgen & Hst & _).
    assert (Hre : recordResult is_uuid is_datetime localeCompare sha256_hex (at_now a') (embed res) d' = (Ok res, d')).
    { eapply (record_again is_uuid is_datetime localeCompare sha256_hex (at_now a') (embed res) vr res d' rr (complete (at_now a) fin row));
        [by eapply sound_parsed|done|done|by apply final_not_accepted|by rewrite Hcid|done|by rewrite Hcid|cbn; congruence|cbn; congruence]. }
    rewrite Hre. by destruct (at_network a').
Qed.
