(* ===== verification/NodeBlocked.v ===== *)
(** * A command that was interrupted and has expired

    The snapshots of a node list the commands that its journal holds as being applied
    ([src/src/node/main.ts]), and the coordinator refuses a snapshot that lists a command
    it no longer considers live.  Over every run of the client and the coordinator, a
    command that was interrupted and has expired keeps the node from ever being
    reconciled again. *)

From S2P Require Import Prelude JsString JsMap JsSort JsonText JsonParse Schema Sql Zod JsDate NodeJson NodeControl NodeControlProps NodeCommands NodeReconciliation NodeCommandsInv NodeCommandsLog NodeCommandsProps NodeCommandsPull NodeDesired NodeRoutes NodeRoutesProps NodeExecutor NodeExecutorProps NodeClient NodeClientProps.

#[local] Open Scope Z_scope.

(** [journal.records.filter(({ state }) => state === "applying").map(({ commandId }) => commandId)]. *)
Definition active_commands (j : Journal) : list jsstring :=
  map jr_commandId (List.filter (is_state Applying) (jn_records j)).

(** ** Snapshots that are refused *)

Lemma valid_active_short snapshot ids t id :
  id ∈ ids -> Forall (fun r => cr_id r = id -> is_pending (cr_state r) = false) t ->
  length (valid_active snapshot ids t) <> length ids.
Proof.
  intros Hid Ht. unfold valid_active. set (l := remove_dups _).
  assert (Hsub : l ⊆+ List.filter (fun x => negb (bool_decide (x = id))) ids).
  { apply NoDup_submseteq; [apply NoDup_remove_dups|]. intros x Hx. unfold l in Hx. rewrite elem_of_remove_dups in Hx.
    apply list_elem_of_fmap in Hx as (r & -> & Hr). apply filter_elem in Hr as [Hr Hp]. apply filter_elem in Hr as [Hr Hi].
    bool_prop. apply list_elem_of_In, List.filter_In. split; [by apply list_elem_of_In|].
    rewrite bool_decide_eq_false_2; [done|]. intros E. rewrite Forall_forall in Ht.
    specialize (Ht r Hr E). congruence. }
  apply submseteq_length in Hsub. pose proof (List.filter_length_le (fun x => negb (bool_decide (x = id))) ids) as Hle.
  intros E. assert (Hall : length (List.filter (fun x => negb (bool_decide (x = id))) ids) = length ids) by lia.
  apply List.filter_length_forallb in Hall. rewrite forallb_forall in Hall.
  specialize (Hall id (proj1 (list_elem_of_In _ _) Hid)). by rewrite bool_decide_eq_true_2 in Hall.
Qed.

Section Blocked.
Context (is_uuid is_datetime is_datetime_utc : jsstring -> bool) (localeCompare : jsstring -> jsstring -> Z)
  (sha256_hex : bytes -> jsstring) (nodeId : jsstring) (generation : Z)
  (ownership : option NodeOwnership) (Hnode : scalars nodeId).

Abbreviation run := (run is_uuid is_datetime localeCompare sha256_hex).
Abbreviation step := (NodeCommandsInv.step is_uuid is_datetime localeCompare sha256_hex).
Abbreviation tables_ok := (tables_ok is_uuid is_datetime localeCompare).
Abbreviation writes := (writes is_uuid is_datetime localeCompare sha256_hex).
Abbreviation node_ok := (node_ok is_uuid is_datetime is_datetime_utc nodeId generation).
Abbreviation results_sound := (results_sound is_uuid is_datetime nodeId generation).
Abbreviation snapshotSchema := (nodeSnapshotSchema is_uuid is_datetime).
Abbreviation commandSchema := (nodeCommandSchema is_uuid is_datetime).

(** The command [id] is over for the coordinator. *)
Definition finished (id : jsstring) (d : Db) : Prop :=
  exists row, row ∈ node_commands d /\ cr_id row = id /\ is_pending (cr_state row) = false.

Lemma finished_history id d d' : rtc step d d' -> finished id d -> finished id d'.
Proof.
  intros H (row & Hrow & Hid & Hp). apply history_evolves in H.
  destruct (rows_evolve_elem _ _ _ H Hrow) as (row' & Hrow' & _ & _ & Hfin). rewrite Hfin in Hrow' by done. by exists row.
Qed.

Lemma finished_rows id d : tables_ok d -> finished id d ->
  Forall (fun r => cr_id r = id -> is_pending (cr_state r) = false) (node_commands d).
Proof.
  intros Hok (row & Hrow & <- & Hp). apply Forall_forall. intros r Hr E.
  pose proof (readCommand_elem _ _ _ _ _ Hok Hr) as H1. pose proof (readCommand_elem _ _ _ _ _ Hok Hrow) as H2. congruence.
Qed.

Lemma reconcile_refused now input snapshot id d :
  tables_ok d -> finished id d -> parse snapshotSchema input = Some snapshot -> id ∈ active_ids snapshot ->
  exists e, reconcile is_uuid is_datetime localeCompare sha256_hex now input d = (Err e, d).
Proof.
  intros Hok Hf Hp Hid. unfold reconcile, se_bind at 1, se_lift at 1. rewrite (proj2 (zparse_ok _ _ _) Hp). cbv zeta.
  destruct (time_gt _ _); [by eexists|]. unfold transaction, se_bind at 1, se_get at 1.
  unfold se_bind at 1, se_lift at 1. destruct (cursorSequence _ _ _) as [cs|]; [|by eexists].
  unfold se_bind at 1, se_lift at 1. destruct (check_previous _ _ _ _); [|by eexists].
  assert (Ha : exists e, assertActiveCommands snapshot d = Err e).
  { unfold assertActiveCommands. destruct (active_ids snapshot) as [|x l] eqn:E; [by apply elem_of_nil in Hid|].
    rewrite (proj2 (Nat.eqb_neq _ _)); [by eexists|]. rewrite <- E in *.
    eapply valid_active_short; [exact Hid|by apply finished_rows]. }
  destruct Ha as (e & Ha). unfold se_bind at 1, se_lift at 1. rewrite Ha. by eexists.
Qed.

(** ** What a pull hands out *)

Lemma deliver_rows_same now g rows d rows' d' :
  deliver_rows is_uuid is_datetime localeCompare sha256_hex now nodeId g rows d = (Ok rows', d') ->
  Forall2 same_command rows rows'.
Proof.
  revert d rows' d'; induction rows as [|row rows IH]; intros d rows' d' H; cbn [deliver_rows] in H.
  { injection H as <- _. constructor. }
  destruct (bool_decide (cr_state row = Queued)).
  - apply bind_ok in H as ([] & d1 & _ & H). apply lift_ok in H as (c & _ & H). apply bind_ok in H as ([] & d2 & _ & H).
    apply bind_ok in H as (rest & d3 & Hr & H). injection H as <- _. constructor; [done|by eapply IH].
  - apply bind_ok in H as (rest & d3 & Hr & H). injection H as <- _. constructor; [done|by eapply IH].
Qed.

Lemma all_durable_elems rows l :
  all_durable is_uuid is_datetime rows = Ok l -> Forall2 (fun r c => toDurable is_uuid is_datetime r = Ok c) rows l.
Proof.
  revert l; induction rows as [|row rows IH]; intros l H; simpl in H; [injection H as <-; constructor|].
  destruct (toDurable _ _ row) eqn:E; [|done]. destruct (all_durable _ _ rows); [|done]. injection H as <-. by constructor; [|apply IH].
Qed.

(** A row after the expiry that is still pending was pending before it. *)
Lemma expiry_pending now d d1 r :
  tables_ok d -> expirePending is_uuid is_datetime localeCompare sha256_hex now nodeId generation d = (Ok tt, d1) ->
  tables_ok d1 /\ (r ∈ node_commands d1 -> is_pending (cr_state r) = true ->
    exists x, x ∈ node_commands d /\ cr_id x = cr_id r /\ is_pending (cr_state x) = true).
Proof.
  intros Hok H.
  assert (Hw : rtc (writes now) d d1).
  { pose proof (expire_rows_stays is_uuid is_datetime localeCompare sha256_hex now nodeId
      (expired_rows now nodeId generation (node_commands d)) d Hnode) as Hs. unfold stays in Hs.
    unfold expirePending, se_bind, se_get in H. by rewrite H in Hs. }
  assert (Hok1 : tables_ok d1) by (clear H; induction Hw as [|x y z Hxy _ IH]; [done|]; apply IH; by eapply write_tables_ok).
  assert (Hev : rows_evolve (node_commands d) (node_commands d1)).
  { clear H Hok Hok1. induction Hw as [|x y z Hxy _ IH]; [reflexivity|]. etransitivity; [by eapply write_evolves|exact IH]. }
  split; [done|]. intros Hr Hp.
  assert (Hi : map identity (node_commands d1) = map identity (node_commands d)).
  { pose proof (expire_own is_uuid is_datetime localeCompare sha256_hex nodeId now
      (expired_rows now nodeId generation (node_commands d)) d) as Hs.
    unfold stays in Hs. unfold expirePending, se_bind, se_get in H. rewrite H in Hs. eapply own_identities, own_writes, Hs.
    apply Forall_forall. intros x Hx. apply filter_elem in Hx as [Hx E]. bool_prop. by eapply row_owned. }
  assert (Hx : identity r ∈ map identity (node_commands d)) by (rewrite <- Hi; apply list_elem_of_fmap; eauto).
  apply list_elem_of_fmap in Hx as (x & Ex & Hx). injection Ex as Eid _.
  destruct (rows_evolve_elem _ _ _ Hev Hx) as (x' & Hx' & (Eid' & _) & _ & Hfin).
  pose proof (readCommand_elem _ _ _ _ _ Hok1 Hx') as H1. pose proof (readCommand_elem _ _ _ _ _ Hok1 Hr) as H2.
  assert (x' = r) as -> by congruence. exists x. split_and!; [done|congruence|].
  destruct (is_pending (cr_state x)) eqn:E; [done|]. rewrite (Hfin eq_refl) in Hp. congruence.
Qed.

Lemma pull_elems now limit d l d' :
  tables_ok d -> pull is_uuid is_datetime localeCompare sha256_hex now nodeId generation limit d = (Ok l, d') ->
  Forall (fun c => parse commandSchema (embed c.1) = Some c.1 /\ plain c.1
    /\ exists x, x ∈ node_commands d /\ cr_id x = jstr "id" c.1 /\ is_pending (cr_state x) = true) l.
Proof.
  intros Hok H. unfold pull in H. destruct (_ || _); [done|]. apply transaction_ok in H.
  apply bind_ok in H as ([] & d1 & He & H). unfold se_bind at 1, se_get in H.
  apply bind_ok in H as (rows & d2 & Hd & H). unfold se_lift in H.
  assert (Hall : all_durable is_uuid is_datetime rows = Ok l) by (by injection H).
  apply deliver_rows_same in Hd. apply all_durable_elems in Hall.
  assert (Hok1 : tables_ok d1) by (by eapply (expiry_pending now d d1 (CommandRow_ [] [] 0 [] [] Queued 0 0 0 None None))).
  assert (Hp : Forall (fun r => r ∈ node_commands d1 /\ is_pending (cr_state r) = true)
    (pending_rows nodeId generation limit (node_commands d1))).
  { apply Forall_forall. intros r Hr. unfold pending_rows, limited in Hr. apply list_elem_of_lookup in Hr as [i Hi].
    apply lookup_take_Some in Hi as [Hi _]. apply list_elem_of_lookup_2 in Hi. rewrite sort_by_perm in Hi.
    apply filter_elem in Hi as [Hi E]. bool_prop. done. }
  clear H. revert rows l Hd Hall. induction Hp as [|r rows0 [Hr Hrp] _ IH]; intros rows l Hd Hall.
  - inversion Hd; subst. inversion Hall; subst. constructor.
  - inversion Hd as [|? r' ? rest Hs Hd']; subst. inversion Hall as [|? c ? l' Hc Hall']; subst. constructor; [|by apply (IH rest)].
    pose proof Hok1 as [Hrows _ _ _ _]. rewrite Forall_forall in Hrows. pose proof (same_command_ok _ _ _ _ _ Hs (Hrows r Hr)) as Hr'.
    destruct Hr' as (v & c' & Hp' & Hpl & Hj & Hid & _). unfold toDurable in Hc.
    rewrite Hj, (read_canonical localeCompare _ v c' (command_schema_ok _ _) Hp' Hpl) in Hc. injection Hc as <-. cbn [fst].
    split_and!; [exact (reparse _ v c' (command_schema_ok _ _) Hp' Hpl)|done|].
    destruct (expiry_pending now d d1 r Hok He) as [_ Hx]. destruct (Hx Hr Hrp) as (x & Hx1 & Hx2 & Hx3).
    exists x. split_and!; [done| |done]. destruct Hs as (Es & _). congruence.
Qed.

(** ** The client *)

Abbreviation fetch_commands now := (get_commands is_uuid is_datetime localeCompare sha256_hex now (Some nodeId) ownership nodeId generation (Some 32)).
Abbreviation pullCommands := (pullCommands is_uuid is_datetime localeCompare sha256_hex nodeId generation (Some nodeId) ownership).
Abbreviation postResult := (postResult is_uuid is_datetime localeCompare sha256_hex nodeId (Some nodeId)).
Abbreviation handle_command := (handle_command is_uuid is_datetime is_datetime_utc localeCompare sha256_hex nodeId generation (Some nodeId)).
Abbreviation handle_commands := (handle_commands is_uuid is_datetime is_datetime_utc localeCompare sha256_hex nodeId generation (Some nodeId)).
Abbreviation postSnapshot := (postSnapshot is_uuid is_datetime is_datetime_utc localeCompare sha256_hex nodeId generation (Some nodeId) ownership).
Abbreviation client_turn := (client_turn is_uuid is_datetime is_datetime_utc localeCompare sha256_hex nodeId generation (Some nodeId) ownership).

Lemma answered_pull now d r d' :
  answer (fetch_commands now) d = (r, d') ->
  d' = run now (OpPull nodeId generation 32) d /\ (exists l, pull is_uuid is_datetime localeCompare sha256_hex now nodeId generation 32 d = (Ok l, d')
     /\ r = Response 200 (list_document (map durable_document l) []))
  \/ (d' = d \/ d' = run now (OpPull nodeId generation 32) d) /\ response_ok r = false.
Proof.
  unfold answer, get_commands, default. cbn [NodeCommandsInv.run id].
  destruct (identity_valid nodeId); [|intros [= <- <-]; right; split; [by left|reflexivity]]. cbn [negb].
  destruct (bool_decide (Some nodeId = Some nodeId)); [|intros [= <- <-]; right; split; [by left|reflexivity]]. cbn [negb].
  destruct ((generation <=? 0) || negb (in_range 1 256 32)); [intros [= <- <-]; right; split; [by left|reflexivity]|].
  destruct (owned_by_generation ownership generation); [|intros [= <- <-]; right; split; [by left|reflexivity]]. cbn [negb].
  unfold se_bind. destruct (pull _ _ _ _ _ _ _ _ d) as [[l|e] d1] eqn:E.
  - intros [= <- <-]. left. split; [done|]. by exists l.
  - intros [= <- <-]. right. split; [by right|]. unfold error_handler. by destruct (String.eqb e ZodError).
Qed.

Lemma parse_all_elems (f : value -> option json) l out : parse_all f l = Some out -> Forall2 (fun v j => f v = Some j) l out.
Proof.
  revert out; induction l as [|v l IH]; intros out H; simpl in H; [injection H as <-; constructor|].
  destruct (f v) eqn:E; [|done]. cbn in H. destruct (parse_all f l); [|done]. injection H as <-. by constructor; [|apply IH].
Qed.

(** The commands that the client reads are those of the answer. *)
Lemma pulled_document l p :
  Forall (fun c => parse commandSchema (embed c.1) = Some c.1) l ->
  parse (pulledCommandsSchema is_uuid is_datetime) (embed (list_document (map durable_document l) [])) = Some p ->
  map (jobj "command") (jarr "data" p) = map fst l.
Proof.
  intros Hl Hp. unfold list_document in Hp. cbn [embed app map fst snd] in Hp.
  eapply (parsed_field _ _ p "data") in Hp as (x & v & Hx & [= <-] & Hpx); [|vm_compute; reflexivity|reflexivity].
  cbn [parse] in Hpx. destruct (in_range _ _ _); [|done].
  destruct (parse_all _ _) as [out|] eqn:E; [|done]. injection Hpx as <-. unfold jarr. rewrite Hx.
  apply parse_all_elems in E. clear Hx. revert out E. induction Hl as [|c l Hc _ IH]; intros out E; cbn [map] in E.
  { inversion E; subst. done. }
  inversion E as [|? j ? out' Hj E']; subst. cbn [map]. rewrite (IH out' E'). f_equal.
  unfold durable_document in Hj. cbn [embed map fst snd] in Hj.
  eapply (parsed_field _ _ j "command") in Hj as (y & w & Hy & [= <-] & Hpy); [|vm_compute; reflexivity|reflexivity].
  unfold jobj. rewrite Hy. congruence.
Qed.

Lemma pulled_plain l : Forall (fun c : DurableNodeCommand => plain c.1) l -> plain (list_document (map durable_document l) []).
Proof.
  intros Hl. unfold list_document. cbn [plain app foldr fst snd].
  split_and!; try (by apply text_scalars); [match goal with |- ?P => apply (bool_decide_unpack P) end; vm_compute; exact I| |done].
  rewrite foldr_Forall. apply Forall_map. eapply Forall_impl; [exact Hl|]. intros [c st] Hc. cbn [fst] in Hc.
  unfold durable_document. cbn [plain foldr fst snd].
  split_and!; try (by apply text_scalars); [match goal with |- ?P => apply (bool_decide_unpack P) end; vm_compute; exact I|done| |done].
  by destruct st; apply text_scalars.
Qed.

Lemma pull_client now n s o s' :
  valid_now now -> tables_ok (coordinator s) -> pullCommands now n s = (o, s') ->
  (exists d', rtc step (coordinator s) d' /\ s' = with_coordinator d' s)
  /\ forall cs, o = Ok cs -> Forall (fun c => parse commandSchema (embed c) = Some c /\ plain c
       /\ exists x, x ∈ node_commands (coordinator s) /\ cr_id x = jstr "id" c /\ is_pending (cr_state x) = true) cs.
Proof.
  intros Hnow Hok. unfold NodeClient.pullCommands, se_bind at 1, fetch.
  assert (Hrun : rtc step (coordinator s) (run now (OpPull nodeId generation 32) (coordinator s)))
    by (apply rtc_once; exists now, (OpPull nodeId generation 32); by split_and!).
  destruct (answer (fetch_commands now) (coordinator s)) as [r d'] eqn:E. pose proof (answered_pull _ _ _ _ E) as H.
  assert (Hd' : rtc step (coordinator s) d').
  { destruct H as [[-> _]|[[->| ->] _]]; [done|reflexivity|done]. }
  destruct n; [|intros [= <- <-]; split; [|done]; exists (coordinator s); split; [reflexivity|by destruct s]
               |intros [= <- <-]; split; [|done]; by exists d'].
  destruct H as [[_ (l & Hl & ->)]|[_ Hr]].
  2: { rewrite Hr. intros [= <- <-]. split; [|done]. by exists d'. }
  change (response_ok (Response 200 _)) with true. cbn [negb].
  pose proof (pull_elems now 32 (coordinator s) l d' Hok Hl) as Helems.
  intros H. split.
  { exists d'. split; [done|]. revert H. unfold se_bind, se_lift. destruct (responseJson _); [|by intros [= _ <-]].
    destruct (zparse _ _); by intros [= _ <-]. }
  intros cs ->. apply lift_ok in H as (v & Hv & H). apply lift_ok in H as (p & Hp & H). unfold se_ret in H. injection H as <- _.
  unfold responseJson in Hv. cbn [body] in Hv. destruct (_ <? _); [done|].
  rewrite JSON_parse_stringify in Hv.
  2: { apply pulled_plain. eapply Forall_impl; [exact Helems|]. by intros c (_ & ? & _). }
  injection Hv as <-. apply zparse_ok in Hp. rewrite (pulled_document l p); [|by eapply Forall_impl; [exact Helems|]; intros c (? & _)|done].
  by apply Forall_map.
Qed.

(** ** The state in which nothing helps *)

Record blocked (id : jsstring) (s : System) : Prop := {
  bl_coordinator : rtc step empty_db (coordinator s);
  bl_finished : finished id (coordinator s);
  bl_node : node_ok (executor s);
  bl_results : results_sound (executor s);
  bl_applying : exists r, find_record id (executor s) = Some r /\ jr_state r = Applying
}.

Lemma blocked_coordinator id s d' : rtc step (coordinator s) d' -> blocked id s -> blocked id (with_coordinator d' s).
Proof.
  intros H [H1 H2 H3 H4 H5]. constructor; [by etransitivity|by eapply finished_history|done|done|done].
Qed.

Lemma handle_blocked id a c s :
  valid_now (at_now a) -> environment_wf (at_environment a) -> parse commandSchema (embed c) = Some c -> plain c -> jstr "id" c <> id ->
  blocked id s -> blocked id (handle_command a c s).2.
Proof.
  intros Hnow He Hp Hpl Hne [H1 H2 H3 H4 (r & Hr & Ha)].
  pose proof (plain_value_texts c Hpl) as Hv.
  destruct (executeOnce is_uuid is_datetime is_datetime_utc localeCompare sha256_hex nodeId generation (at_environment a) (embed c) (executor s))
    as [o n] eqn:E.
  assert (Hn : blocked id (with_executor n s)).
  { assert (En : n = (executeOnce is_uuid is_datetime is_datetime_utc localeCompare sha256_hex nodeId generation
      (at_environment a) (embed c) (executor s)).2) by (by rewrite E).
    constructor; [done|done| | |]; cbn [executor with_executor].
    - eapply execution_ok; [|exact H3]. exists (at_environment a), (embed c). done.
    - rewrite En. by apply execution_sound.
    - destruct (execution_records is_uuid is_datetime is_datetime_utc localeCompare sha256_hex nodeId generation (at_environment a) (embed c) c (executor s) Hp Hv H3) as [_ Ho].
      specialize (Ho id (not_eq_sym Hne)). rewrite <- En in Ho. destruct Ho as [Ho|(_ & r' & Hr' & Hc)]; [|congruence].
      exists r. by rewrite Ho. }
  destruct o as [res|e].
  - destruct (execution_result _ _ _ _ _ _ _ Hnode (at_environment a) (embed c) c (executor s) res n He Hv Hp H3 H4 E) as (Hs & _).
    rewrite (handle_state _ _ _ _ _ _ _ _ _ _ _ _ E Hs). unfold posted.
    assert (Hrec : rtc step (coordinator (with_executor n s))
      (recordResult is_uuid is_datetime localeCompare sha256_hex (at_now a) (embed res) (coordinator (with_executor n s))).2).
    { apply rtc_once. exists (at_now a), (OpRecordResult (embed res)). split_and!; [done| |done].
      destruct Hs as (_ & Hplr & _). by apply plain_value_texts. }
    destruct (at_network a); [by apply blocked_coordinator|done|by apply blocked_coordinator].
  - unfold NodeClient.handle_command, se_bind at 1, NodeClient.execute. rewrite E. done.
Qed.

Lemma handle_all_blocked id attempts cs s :
  Forall (fun a => valid_now (at_now a) /\ environment_wf (at_environment a)) attempts ->
  Forall (fun c => parse commandSchema (embed c) = Some c /\ plain c /\ jstr "id" c <> id) cs ->
  blocked id s -> blocked id (handle_commands attempts cs s).2.
Proof.
  intros Ha Hc. revert attempts s Ha. induction Hc as [|c cs (Hp & Hpl & Hne) _ IH]; intros attempts s Ha Hb; [by destruct attempts|].
  destruct attempts as [|a attempts]; [done|]. apply Forall_cons in Ha as [[Hn He] Ha]. cbn [NodeClient.handle_commands].
  pose proof (handle_blocked id a c s Hn He Hp Hpl Hne Hb) as Hs. unfold se_bind.
  destruct (handle_command a c s) as [[res|e] s1]; [by apply IH|done].
Qed.

(** The answer to a snapshot is a step of the coordinator, and a refusal none. *)
Lemma answered_snapshot now parsed s :
  plain parsed -> parse snapshotSchema (embed parsed) = Some parsed -> valid_now now ->
  let '(r, d') := answer (with_body parsed (post_snapshot is_uuid is_datetime localeCompare sha256_hex now (Some nodeId) ownership nodeId))
                    (coordinator s) in
  (d' = coordinator s /\ response_ok r = false)
  \/ (rtc step (coordinator s) d'
      /\ forall e d, reconcile is_uuid is_datetime localeCompare sha256_hex now (embed parsed) (coordinator s) = (Err e, d) ->
         d' = d /\ response_ok r = false).
Proof.
  intros Hpl Hp Hnow. unfold with_body. rewrite JSON_parse_stringify by done. unfold answer, post_snapshot.
  destruct (identity_valid nodeId); [|by left]. rewrite bool_decide_eq_true_2 by done. cbn [negb].
  unfold se_bind at 1, se_lift at 1. rewrite (proj2 (zparse_ok _ _ _) Hp).
  destruct (bool_decide (jstr "nodeId" parsed = nodeId)); [|by left]. cbn [negb].
  destruct (owned_by_generation ownership (jnum "generation" parsed)); [|by left]. cbn [negb].
  assert (Hrun : rtc step (coordinator s) (run now (OpReconcile (embed parsed)) (coordinator s))).
  { apply rtc_once. exists now, (OpReconcile (embed parsed)). split_and!; [done|by apply plain_value_texts|done]. }
  cbn [NodeCommandsInv.run] in Hrun. unfold catching, se_bind.
  destruct (reconcile is_uuid is_datetime localeCompare sha256_hex now (embed parsed) (coordinator s)) as [[x|e] d'] eqn:E; right.
  - split; [done|]. discriminate.
  - split; [done|]. intros e' d [= -> ->]. split; [done|]. by destruct (_ || _).
Qed.

Lemma save_blocked now ok g cursor id s :
  blocked id s -> blocked id (save_state is_datetime_utc nodeId now ok g cursor s).2.
Proof.
  intros Hb. unfold save_state, se_bind, se_lift. destruct (toISOString now); [|done]. destruct (parse_state _ _); [|done].
  destruct ok; [|done]. destruct Hb. by constructor.
Qed.

Lemma snapshot_blocked id now node_now n ok snapshot s :
  valid_now now -> (forall cursor, value_texts (snapshot cursor)) -> blocked id s -> blocked id (postSnapshot now node_now n ok snapshot s).2.
Proof.
  intros Hnow Hv Hb. unfold NodeClient.postSnapshot, se_bind at 1, se_get. unfold se_bind at 1, se_lift at 1.
  destruct (load_state _ _ _ _) as [state|]; [|done]. unfold se_bind at 1, se_lift at 1.
  destruct (zparse _ _) as [parsed|] eqn:Ep; [|done]. apply zparse_ok in Ep.
  pose proof (parse_plain _ _ _ (snapshot_schema_ok is_uuid is_datetime) (or_intror (Hv _)) Ep) as Hpl.
  pose proof (reparse _ _ _ (snapshot_schema_ok is_uuid is_datetime) Ep Hpl) as Hre.
  destruct (_ || _); [done|]. unfold se_bind at 1, fetch. pose proof (answered_snapshot now parsed s Hpl Hre Hnow) as Ha.
  destruct (answer _ (coordinator s)) as [r d'].
  assert (Hs : blocked id (with_coordinator d' s)).
  { apply blocked_coordinator; [|done]. destruct Ha as [[-> _]|[Ha _]]; [reflexivity|done]. }
  destruct n; [|done|done]. destruct (response_ok r); [|done]. cbn [negb].
  unfold se_bind at 1, se_lift at 1. destruct (responseJson r); [|done].
  unfold se_bind at 1, se_lift at 1. destruct (zparse _ _); [|done]. destruct (_ || _); [done|]. by apply save_blocked.
Qed.

(** ** Runs of the client and the coordinator *)

Definition turn_wf (t : turn) : Prop :=
  valid_now (turn_now t) /\ Forall (fun a => valid_now (at_now a) /\ environment_wf (at_environment a)) (turn_attempts t)
  /\ match turn_snapshot t with
     | Some (now, _, _, _, snapshot) => valid_now now /\ forall cursor, value_texts (snapshot cursor)
     | None => True
     end.

(** Another operation of the coordinator, or a turn of the client. *)
Inductive system_step (s : System) : System -> Prop :=
| step_coordinator d' : step (coordinator s) d' -> system_step s (with_coordinator d' s)
| step_client t : turn_wf t -> system_step s (client_turn t s).2.

Lemma step_blocked id s s' : system_step s s' -> blocked id s -> blocked id s'.
Proof.
  intros [d' H|t (Hnow & Ha & Hsn)] Hb; [apply blocked_coordinator; [by apply rtc_once|done]|].
  unfold NodeClient.client_turn, se_bind at 1. destruct (pullCommands (turn_now t) (turn_network t) s) as [o s1] eqn:E.
  pose proof Hb as [H1 H2 _ _ _]. pose proof (reachable_tables_ok _ _ _ _ _ H1) as Hok.
  destruct (pull_client _ _ _ _ _ Hnow Hok E) as [(d' & Hd' & ->) Hcs].
  pose proof (blocked_coordinator id s d' Hd' Hb) as Hb1. destruct o as [cs|e]; [|done].
  assert (Hne : Forall (fun c => parse commandSchema (embed c) = Some c /\ plain c /\ jstr "id" c <> id) cs).
  { eapply Forall_impl; [exact (Hcs cs eq_refl)|]. intros c (Hp & Hpl & x & Hx & Ex & Hpx). split_and!; [done|done|].
    intros Eid. pose proof (finished_rows id _ Hok H2) as Hf. rewrite Forall_forall in Hf.
    rewrite (Hf x Hx) in Hpx; [done|congruence]. }
  pose proof (handle_all_blocked id (turn_attempts t) cs _ Ha Hne Hb1) as Hb2. unfold se_bind.
  destruct (handle_commands (turn_attempts t) cs (with_coordinator d' s)) as [[fin|e] s2]; [|done].
  destruct fin, (turn_snapshot t) as [[[[[now node_now] n] ok] snapshot]|]; try done. destruct Hsn. by apply snapshot_blocked.
Qed.

(** [snapshot] is a callback of a node: it lists the commands that its journal holds as
    being applied. *)
Definition lists_active (s : System) (snapshot : jsstring -> value) : Prop :=
  forall cursor parsed j, parse snapshotSchema (snapshot cursor) = Some parsed -> disk (executor s) = Stored j ->
    active_ids parsed = active_commands j.

Lemma blocked_refused id now node_now n ok snapshot s :
  valid_now now -> (forall cursor, value_texts (snapshot cursor)) -> lists_active s snapshot -> blocked id s ->
  exists e, postSnapshot now node_now n ok snapshot s = (Err e, s).
Proof.
  intros Hnow Hv Hl [H1 H2 _ _ (r & Hr & Ha)]. unfold NodeClient.postSnapshot, se_bind at 1, se_get. unfold se_bind at 1, se_lift at 1.
  destruct (load_state _ _ _ _) as [state|]; [|by eexists]. unfold se_bind at 1, se_lift at 1.
  destruct (zparse _ _) as [parsed|] eqn:Ep; [|by eexists]. apply zparse_ok in Ep.
  assert (Hid : id ∈ active_ids parsed).
  { unfold find_record in Hr. destruct (disk (executor s)) as [| |j] eqn:Ed; [done|done|].
    rewrite (Hl _ _ j Ep Ed). apply find_in_Some in Hr as [Hin <-]. apply list_elem_of_fmap. exists r. split; [done|].
    by apply is_state_elem. }
  pose proof (parse_plain _ _ _ (snapshot_schema_ok is_uuid is_datetime) (or_intror (Hv _)) Ep) as Hpl.
  pose proof (reparse _ _ _ (snapshot_schema_ok is_uuid is_datetime) Ep Hpl) as Hre.
  destruct (reconcile_refused now (embed parsed) parsed id (coordinator s) (reachable_tables_ok _ _ _ _ _ H1) H2 Hre Hid) as (e & He).
  destruct (_ || _); [by eexists|]. unfold se_bind at 1, fetch. pose proof (answered_snapshot now parsed s Hpl Hre Hnow) as Hans.
  assert (Hs : with_coordinator (coordinator s) s = s) by (by destruct s).
  destruct (answer _ (coordinator s)) as [resp d'].
  assert (Hd : d' = coordinator s /\ response_ok resp = false).
  { destruct Hans as [?|[_ Hans]]; [done|]. exact (Hans e (coordinator s) He). }
  destruct Hd as [-> Hresp]. destruct n; [rewrite Hresp|..]; cbn [negb snd]; rewrite ?Hs; eexists; reflexivity.
Qed.
End Blocked.

(** C36 (error). An interrupted command can end the reconciliation of a node for good: once
    the journal of a node holds a command as being applied (the process died while it was)
    and the coordinator has let the command expire, then after any number of turns of
    the client in that generation, with whatever losses, and any other operations of the coordinator, the
    journal still holds it so, since a pull does not hand it out again, and every
    snapshot of the node, which must list it, is refused, both sides unchanged. *)
Theorem interrupted_command_blocks (is_uuid is_datetime is_datetime_utc : jsstring -> bool)
    (localeCompare : jsstring -> jsstring -> Z) (sha256_hex : bytes -> jsstring) (nodeId : jsstring) (generation : Z)
    (ownership : option NodeOwnership) id s s' :
  scalars nodeId ->
  blocked is_uuid is_datetime is_datetime_utc localeCompare sha256_hex nodeId generation id s ->
  rtc (system_step is_uuid is_datetime is_datetime_utc localeCompare sha256_hex nodeId generation ownership) s s' ->
  (exists r, find_record id (executor s') = Some r /\ jr_state r = Applying)
  /\ forall now node_now n ok snapshot,
       valid_now now -> (forall cursor, value_texts (snapshot cursor)) -> lists_active is_uuid is_datetime s' snapshot ->
       exists e, postSnapshot is_uuid is_datetime is_datetime_utc localeCompare sha256_hex nodeId generation (Some nodeId)
         ownership now node_now n ok snapshot s' = (Err e, s').
Proof.
  intros Hn Hb H.
  assert (Hb' : blocked is_uuid is_datetime is_datetime_utc localeCompare sha256_hex nodeId generation id s').
  { induction H as [|x y z Hxy _ IH]; [done|]. apply IH. by eapply step_blocked. }
  split; [by destruct Hb'|]. intros now node_now n ok snapshot Hnow Hv Hl. by eapply blocked_refused.
Qed.
