(* ===== verification/NodeExamples.v ===== *)
(** * Node commands: concrete runs

    The claims on node commands at concrete inputs, and runs that show what the findings
    say.  The hash is a polynomial one with 64 hexadecimal digits. *)

From S2P Require Import Prelude JsString JsMap JsSort JsonText JsonParse Schema Sql Zod JsDate NodeJson NodeControl NodeControlProps NodeCommands NodeReconciliation NodeCommandsInv NodeCommandsLog NodeCommandsProps NodeCommandsPull NodeDesired NodeEvents NodeRoutes NodeRoutesProps NodeExecutor NodeExecutorProps NodeClient NodeClientProps.

#[local] Open Scope Z_scope.

(** ** Parameters *)

Definition hex_digit (n : Z) : Z := if n <? 10 then 48 + n else 87 + n.
Fixpoint hex_padded (w : nat) (n : Z) : jsstring :=
  match w with O => [] | S w' => hex_padded w' (n / 16) ++ [hex_digit (n mod 16)] end.
Definition poly_hash (b : bytes) : jsstring :=
  hex_padded 64 (foldl (fun h x => Z.land (h * 257 + x + 1) (2 ^ 64 - 1)) 7 b).
Definition uuid_shape (s : jsstring) : bool :=
  (Z.of_nat (length s) =? 36) && forallb (fun c => is_hex c || (c =? 45)) s.
Definition datetime_shape (s : jsstring) : bool := match Date_parse s with Some _ => true | None => false end.
Definition by_code_point (a b : jsstring) : Z := if text_le a b then -1 else 1.

Lemma poly_hex : hex_digests poly_hash.
Proof.
  intros b. unfold poly_hash. generalize (foldl (fun h x => Z.land (h * 257 + x + 1) (2 ^ 64 - 1)) 7 b).
  generalize 64%nat. intros w. induction w as [|w IH]; intros x; [done|]. cbn [hex_padded].
  destruct (IH (x / 16)) as [E1 E2]. rewrite length_app, forallb_app, E1, E2. split; [simpl; lia|].
  cbn [forallb andb]. rewrite andb_true_r. pose proof (Z.mod_pos_bound x 16 ltac:(lia)).
  unfold hex_digit, is_hex, in_range. destruct (Z.ltb_spec (x mod 16) 10); lia.
Qed.

Lemma poly_scalars b : scalars (poly_hash b).
Proof. by apply hex_scalars, poly_hex. Qed.

Lemma datetime_accepts : accepts_times datetime_shape.
Proof.
  intros t s [H0 H1] Hs. unfold datetime_shape. erewrite Date_parse_toISOString; [done| |exact Hs]. unfold FIRST_TIME. lia.
Qed.

Ltac decided := match goal with |- ?P => apply (bool_decide_unpack P); vm_compute; exact I end.

(** The texts of a document, checked. *)
Fixpoint textsb (j : json) : bool :=
  match j with
  | JStr s => forallb is_scalar s
  | JArr l => forallb textsb l
  | JObj l => forallb (fun e => forallb is_scalar e.1 && textsb e.2) l
  | JNull | JBool _ | JNum _ => true
  end.

Lemma textsb_sound j : textsb j = true -> value_texts (embed j).
Proof.
  induction j as [| | | |l IH|l IH] using json_ind'; try done; cbn [textsb embed value_texts]; [apply text_scalars|..].
  - rewrite foldr_Forall, forallb_forall. intros H. apply Forall_map. rewrite Forall_forall in *. intros x Hx.
    apply IH; [done|]. by apply H, list_elem_of_In.
  - rewrite (foldr_Forall (fun e => scalars e.1 /\ value_texts e.2)), forallb_forall. intros H. apply Forall_map.
    rewrite Forall_forall in *. intros x Hx. cbn. specialize (H x (proj1 (list_elem_of_In _ _) Hx)). bool_prop.
    split; [by apply text_scalars|by apply IH].
Qed.

Ltac solve_texts := first [apply textsb_sound | apply text_scalars]; vm_compute; reflexivity.
Ltac solve_now := split; vm_compute; discriminate.

Abbreviation enqueue0 := (enqueue uuid_shape datetime_shape by_code_point poly_hash).
Abbreviation pull0 := (pull uuid_shape datetime_shape by_code_point poly_hash).
Abbreviation record0 := (recordResult uuid_shape datetime_shape by_code_point poly_hash).
Abbreviation reconcile0 := (reconcile uuid_shape datetime_shape by_code_point poly_hash).
Abbreviation run0 := (run uuid_shape datetime_shape by_code_point poly_hash).
Abbreviation step0 := (NodeCommandsInv.step uuid_shape datetime_shape by_code_point poly_hash).

(** ** Documents *)

(** 2023-11-14T22:13:20.000Z. *)
Definition t0 : Z := 1700000000000.
Definition node1 : jsstring := js "node-1".
Definition id_of (n : Z) : jsstring := js "00000000-0000-4000-8000-" ++ padded 12 n.
Definition nonce_of (n : Z) : jsstring := js "nonce-0123456789-" ++ padded 12 n.

Definition account_actor : json :=
  JObj [(js "kind", JStr (js "account")); (js "id", JStr (js "account-1"));
        (js "scopes", JArr [JStr (js "node:control"); JStr (js "node:limits")])].

Definition command_document (n : Z) (type : string) (payload : list (jsstring * json)) : json :=
  JObj [(js "schema", JStr (js "mycellios-node-command/1")); (js "id", JStr (id_of n)); (js "nodeId", JStr node1);
        (js "actor", account_actor); (js "generation", JNum 1);
        (js "issuedAt", JStr (js "2023-11-14T22:13:20.000Z")); (js "expiresAt", JStr (js "2023-11-14T22:23:20.000Z"));
        (js "nonce", JStr (nonce_of n)); (js "type", JStr (js type));
        (js "payload", JObj ((js "version", JNum 1) :: payload))].

Definition pause1 : json := command_document 1 "pause" [].
Definition drain2 : json := command_document 2 "drain" [(js "deadlineMs", JNum 5000)].

Definition limits0 : json :=
  JObj [(js "maxConcurrency", JNum 4); (js "maxCpuPercent", JNum 80); (js "maxRamMiB", JNum 4096);
        (js "maxVramMiB", JNum 0); (js "maxDiskMiB", JNum 10240); (js "maxTemperatureC", JNum 85)].

Definition snapshot_document (cursor : jsstring) : json :=
  JObj [(js "schema", JStr (js "mycellios-node-snapshot/1")); (js "nodeId", JStr node1); (js "generation", JNum 1);
        (js "cursor", JStr cursor); (js "observedAt", JStr (js "2023-11-14T22:13:20.000Z"));
        (js "state", JStr (js "ready")); (js "contributionEnabled", JBool true); (js "draining", JBool false);
        (js "updateChannel", JStr (js "stable")); (js "limits", limits0); (js "activeCommandIds", JArr []);
        (js "build", JObj [(js "version", JStr (js "1.0.0")); (js "sourceRevision", JStr (replicate 40 97))]);
        (js "runtime", JObj [(js "ready", JBool true); (js "abi", JNull); (js "backend", JNull)])].

(** ** A history of the coordinator *)

Definition ops : list (Z * operation) :=
  [(t0, OpReconcile (embed (snapshot_document NODE_EVENT_ORIGIN_CURSOR)));
   (t0 + 1, OpEnqueue (embed pause1) 1); (t0 + 2, OpEnqueue (embed drain2) 1); (t0 + 3, OpPull node1 1 32)].

Definition history (l : list (Z * operation)) (d : Db) : Db := foldl (fun d o => run0 o.1 o.2 d) d l.

Lemma history_reachable l d :
  Forall (fun o => valid_now o.1 /\ operation_wf o.2) l -> rtc step0 d (history l d).
Proof.
  intros H. revert d; induction H as [|[now o] l [Hn Ho] _ IH]; intros d; [reflexivity|].
  eapply rtc_l; [|apply IH]. by exists now, o.
Qed.

Definition db1 : Db := Eval vm_compute in history ops empty_db.

Lemma db1_history : db1 = history ops empty_db.
Proof. vm_compute. reflexivity. Qed.

Example db1_states : map cr_state (node_commands db1) = [Delivered; Delivered] /\ length (node_control_events db1) = 4%nat
  /\ length (node_desired_states db1) = 1%nat.
Proof. vm_compute. done. Qed.

Lemma ops_wf : Forall (fun o => valid_now o.1 /\ operation_wf o.2) ops.
Proof. repeat constructor; try solve_now; try (vm_compute; discriminate); solve_texts. Qed.

Lemma db1_reachable : rtc step0 empty_db db1.
Proof. rewrite db1_history. apply history_reachable, ops_wf. Qed.

Lemma step_intro now o d : valid_now now -> operation_wf o -> step0 d (run0 now o d).
Proof. intros Hn Ho. by exists now, o. Qed.

(** ** The coordinator *)

Lemma event_log_linked_witness :
  rtc step0 empty_db db1 /\ numbered (node_control_events db1)
  /\ NoDup (map ev_event_digest (node_control_events db1))
  /\ Forall (event_ok by_code_point poly_hash) (node_control_events db1)
  /\ forall n, linked None (node_events n (node_control_events db1)).
Proof.
  split; [apply db1_reachable|]. exact (event_log_linked uuid_shape datetime_shape by_code_point poly_hash db1 db1_reachable).
Defined.

(** The same operations after one for another node. *)
Definition pause_other : json :=
  JObj (map (fun kv => if bool_decide (kv.1 = js "nodeId") then (kv.1, JStr (js "node-2")) else kv)
    (entries (command_document 7 "pause" []))).
Definition other_ops : list (Z * operation) := (t0, OpEnqueue (embed pause_other) 1) :: ops.
Definition db_other : Db := Eval vm_compute in history other_ops empty_db.

Lemma db_other_reachable : rtc step0 empty_db db_other.
Proof.
  assert (E : db_other = history other_ops empty_db) by (vm_compute; reflexivity). rewrite E. apply history_reachable.
  constructor; [|exact ops_wf]. split; [solve_now|]. cbn [operation_wf snd]. solve_texts.
Qed.

(** Two histories whose logs differ, with the same digest on the last event of the node. *)
Lemma event_log_tamper_evident_witness :
  map ev_sequence (node_events node1 (node_control_events db1)) = [1; 2; 3; 4]
  /\ map ev_sequence (node_events node1 (node_control_events db_other)) = [2; 3; 4; 5]
  /\ map content (node_events node1 (node_control_events db1)) = map content (node_events node1 (node_control_events db_other)).
Proof.
  split; [vm_compute; reflexivity|]. split; [vm_compute; reflexivity|].
  apply (event_log_tamper_evident uuid_shape datetime_shape by_code_point poly_hash db1 db_other node1 poly_scalars
    db1_reachable db_other_reachable); [decided|vm_compute; reflexivity].
Defined.

(** The result of the first command. *)
Definition result_json (n m : Z) (state : string) : json :=
  JObj [(js "schema", JStr (js "mycellios-node-command-result/1")); (js "id", JStr (id_of m));
        (js "commandId", JStr (id_of n)); (js "nodeId", JStr node1); (js "generation", JNum 1);
        (js "state", JStr (js state)); (js "observedAt", JStr (js "2023-11-14T22:13:21.000Z"));
        (js "resultDigest", JStr (js "sha256:" ++ replicate 64 48)); (js "error", JNull)].

Definition applied1 : json := result_json 1 901 "applied".
Definition db2 : Db := Eval vm_compute in run0 (t0 + 4) (OpRecordResult (embed applied1)) db1.

Lemma db2_step : step0 db1 db2.
Proof.
  assert (E : db2 = run0 (t0 + 4) (OpRecordResult (embed applied1)) db1) by (vm_compute; reflexivity).
  rewrite E. apply step_intro; [solve_now|]. cbn [operation_wf]. solve_texts.
Qed.

Lemma command_lifecycle_witness :
  exists r, node_commands db1 !! 0%nat = Some r /\ cr_state r = Delivered
    /\ exists r', node_commands db2 !! 0%nat = Some r' /\ row_evolves r r'.
Proof.
  eexists. split; [reflexivity|]. split; [reflexivity|].
  exact (command_lifecycle uuid_shape datetime_shape by_code_point poly_hash db1 db2 0 _ (rtc_once _ _ db2_step) eq_refl).
Defined.

Lemma queued_commands_authorised_witness :
  length (node_commands db2) = 2%nat
  /\ Forall (command_row_ok uuid_shape datetime_shape by_code_point) (node_commands db2)
  /\ NoDup (map cr_id (node_commands db2))
  /\ NoDup (map (fun r => (cr_node_id r, cr_nonce r)) (node_commands db2)).
Proof.
  split; [reflexivity|].
  exact (queued_commands_authorised uuid_shape datetime_shape by_code_point poly_hash db2 (rtc_r _ _ _ db1_reachable db2_step)).
Defined.

(** The first command enqueued again after the whole history, and after its expiry. *)
Definition db0 : Db := Eval vm_compute in history (take 1 ops) empty_db.
Definition db0b : Db := Eval vm_compute in history (take 2 ops) empty_db.

Lemma take_wf n : Forall (fun o => valid_now o.1 /\ operation_wf o.2) (take n ops).
Proof. apply Forall_take, ops_wf. Qed.

Lemma db0_reachable : rtc step0 empty_db db0.
Proof.
  assert (E : db0 = history (take 1 ops) empty_db) by (vm_compute; reflexivity). rewrite E. apply history_reachable, take_wf.
Qed.

Lemma db0b_later : rtc step0 db0b db1.
Proof.
  assert (E : db1 = history (drop 2 ops) db0b) by (vm_compute; reflexivity). rewrite E.
  apply history_reachable, Forall_drop, ops_wf.
Qed.

Lemma enqueue_idempotent_witness :
  enqueue0 (t0 + 1) (embed pause1) 1 db0 = (Ok (pause1, Queued), db0b)
  /\ exists s', enqueue0 (t0 + 10 ^ 9) (embed pause1) 5 db1 = (Ok (pause1, s'), db1) /\ advances Queued s'.
Proof.
  assert (H : enqueue0 (t0 + 1) (embed pause1) 1 db0 = (Ok (pause1, Queued), db0b)) by (vm_compute; reflexivity).
  split; [exact H|].
  refine (enqueue_idempotent uuid_shape datetime_shape by_code_point poly_hash (t0 + 1) (embed pause1) 1 db0 pause1 Queued
    db0b db1 (t0 + 10 ^ 9) 5 _ db0_reachable _ H db0b_later); [solve_texts|solve_now].
Defined.

(** The command is applied; then the node says that it expired. *)
Definition expired1 : json := result_json 1 902 "expired".

Lemma first_result_final_witness :
  record0 (t0 + 4) (embed applied1) db1 = (Ok applied1, db2)
  /\ (expired1 <> applied1 -> exists e, record0 (t0 + 5) (embed expired1) db2 = (Err e, db2)).
Proof.
  assert (H : record0 (t0 + 4) (embed applied1) db1 = (Ok applied1, db2)) by (vm_compute; reflexivity).
  split; [exact H|].
  refine (proj2 (first_result_final uuid_shape datetime_shape by_code_point poly_hash (t0 + 4) (embed applied1) db1 applied1
    db2 db2 (t0 + 5) (embed expired1) expired1 _ _ db1_reachable _ H (rtc_refl _ _) _ _));
    [solve_texts|solve_texts|solve_now|vm_compute; reflexivity|vm_compute; reflexivity].
Defined.


(** A new command on a node with a desired state. *)
Definition limits3 : json :=
  command_document 3 "set-limits" [(js "maxConcurrency", JNum 2); (js "maxCpuPercent", JNum 50); (js "maxRamMiB", JNum 1024);
    (js "maxVramMiB", JNum 0); (js "maxDiskMiB", JNum 2048); (js "maxTemperatureC", JNum 80)].

Definition desired2 : json := Eval vm_compute in
  match desiredState datetime_shape node1 db2 with Ok (Some j) => j | _ => JNull end.
Definition desired2_row : DesiredRow := Eval vm_compute in
  default (DesiredRow_ [] 0 [] 0) (desired_row node1 db2).

Lemma desired2_found : desired_row node1 db2 = Some desired2_row.
Proof. vm_compute. reflexivity. Qed.

Lemma desired2_ok : desired_ok datetime_shape by_code_point 1 desired2_row desired2.
Proof.
  assert (Hp : parse (nodeDesiredStateSchema datetime_shape) (embed desired2) = Some desired2) by (vm_compute; reflexivity).
  exists (embed desired2). split_and!; [exact Hp| |vm_compute; reflexivity|reflexivity|reflexivity].
  assert (Hv : value_texts (embed desired2)) by solve_texts.
  exact (parse_plain _ _ _ (desired_schema_ok datetime_shape) (or_intror Hv) Hp).
Qed.


(** ** Events *)

Definition ev0 : EventRow := EventRow_ 0 [] 0 [] [] [] None [] 0.
Definition events2 : list EventRow := Eval vm_compute in node_events node1 (node_control_events db2).
Definition event_at (i : nat) (l : list EventRow) : EventRow := nth i l ev0.

Lemma db2_countable : countable_log db2.
Proof. vm_compute. discriminate. Qed.

Lemma cursor_resumes_witness :
  length events2 = 5%nat
  /\ cursorSequence node1 (cursor_of (event_at 1 events2)) db2 = Ok (ev_sequence (event_at 1 events2))
  /\ eventsAfter datetime_shape node1 (Some (cursor_of (event_at 1 events2))) 2 db2
     = all_events datetime_shape (take (Z.to_nat (clamp 1 1000 2)) (drop 2 events2))
  /\ eventsAfter datetime_shape node1 None 2 db2
     = all_events datetime_shape (take (Z.to_nat (clamp 1 1000 2)) (take 1 events2 ++ event_at 1 events2 :: drop 2 events2)).
Proof.
  split; [reflexivity|].
  exact (cursor_resumes uuid_shape datetime_shape by_code_point poly_hash db2 node1 (take 1 events2) (event_at 1 events2)
    (drop 2 events2) 2 poly_hex (rtc_r _ _ _ db1_reachable db2_step) db2_countable eq_refl).
Defined.

(** Fifty-two commands are sent and delivered: 104 events, of which a node that knows the
    first one is told 100. *)
Definition numbers (n : nat) : list Z := map Z.of_nat (seq 1 n).
Definition many_ops : list (Z * operation) :=
  map (fun n => (t0, OpEnqueue (embed (command_document n "pause" [])) 1)) (numbers 52) ++ [(t0, OpPull node1 1 256)].
Definition db_many : Db := Eval vm_compute in history many_ops empty_db.

Lemma many_wf : Forall (fun o => valid_now o.1 /\ operation_wf o.2) many_ops.
Proof.
  apply Forall_app_2; [|repeat constructor; try (vm_compute; discriminate); solve_texts].
  apply Forall_map, Forall_forall. intros n Hn. split; [solve_now|]. cbn [operation_wf].
  assert (H : Forall (fun n => textsb (command_document n "pause" []) = true) (numbers 52)) by (repeat constructor).
  rewrite Forall_forall in H. by apply textsb_sound, H.
Qed.

Lemma db_many_reachable : rtc step0 empty_db db_many.
Proof.
  assert (E : db_many = history many_ops empty_db) by (vm_compute; reflexivity). rewrite E. apply history_reachable, many_wf.
Qed.

Definition events_many : list EventRow := Eval vm_compute in node_events node1 (node_control_events db_many).
Definition late_snapshot : json := Eval vm_compute in snapshot_document (cursor_of (event_at 0 events_many)).
Definition answer_many : res NodeReconciliationResult * Db := Eval vm_compute in reconcile0 (t0 + 1) (embed late_snapshot) db_many.
Definition result_many : NodeReconciliationResult := Eval vm_compute in
  match answer_many.1 with Ok r => r | Err _ => ReconciliationResult JNull JNull [] [] end.

Lemma reconcile_skips_events_witness :
  length (drop 1 events_many) = 103%nat
  /\ all_events datetime_shape (take 100 (drop 1 events_many)) = Ok (rec_events result_many)
  /\ Z.of_nat (length (rec_events result_many)) = Z.min 100 (Z.of_nat (length (drop 1 events_many)))
  /\ eventsAfter datetime_shape (jstr "nodeId" (rec_snapshot result_many)) (Some (rec_latestCursor result_many)) 1000
       answer_many.2 = Ok [].
Proof.
  split; [reflexivity|].
  assert (H : reconcile0 (t0 + 1) (embed late_snapshot) db_many = (Ok result_many, answer_many.2)) by (vm_compute; reflexivity).
  assert (Hv : value_texts (embed late_snapshot)) by solve_texts.
  refine (reconcile_skips_events uuid_shape datetime_shape by_code_point poly_hash (t0 + 1) (embed late_snapshot) db_many
    result_many answer_many.2 [] (event_at 0 events_many) (drop 1 events_many) 1000 poly_hex _ Hv db_many_reachable H _ _ _);
    [solve_now|vm_compute; discriminate|vm_compute; reflexivity|vm_compute; reflexivity].
Defined.

(** ** The routes *)

Definition owner1 : NodeOwnership := NodeOwnership_ (js "account-1") true 1.

(** Another node cannot answer for this one. *)
Lemma nodes_isolated_witness :
  foreign (js "node-2") (answer (serve uuid_shape datetime_shape by_code_point poly_hash t0 (Some (js "node-2")) (Some owner1)
      (js "node-2") (PostResult (embed applied1))) db1).2 = foreign (js "node-2") db1
  /\ (Some (js "node-2") <> Some node1 ->
      (answer (serve uuid_shape datetime_shape by_code_point poly_hash t0 (Some (js "node-2")) (Some owner1) node1
        (PostResult (embed applied1))) db1).2 = db1).
Proof.
  assert (Hv : value_texts (embed applied1)) by solve_texts. split.
  - exact (proj1 (nodes_isolated uuid_shape datetime_shape by_code_point poly_hash t0 (Some (js "node-2")) (Some owner1)
      (js "node-2") (PostResult (embed applied1)) db1 db1_reachable Hv)).
  - exact (proj2 (nodes_isolated uuid_shape datetime_shape by_code_point poly_hash t0 (Some (js "node-2")) (Some owner1)
      node1 (PostResult (embed applied1)) db1 db1_reachable Hv)).
Defined.

