(* ===== verification/NodeExecutorExamples.v ===== *)
(** * Executing node commands: concrete runs

    The claims on the executor and the client at concrete inputs, and the runs behind the
    findings on them. *)

From S2P Require Import Prelude JsString JsMap JsonText JsonParse Schema Sql Zod JsDate NodeJson NodeControl NodeControlProps NodeCommands NodeCommandsInv NodeCommandsLog NodeCommandsProps NodeRoutes NodeExecutor NodeExecutorProps NodeReconciliation NodeClient NodeClientProps NodeBlocked NodeExamples.

#[local] Open Scope Z_scope.

Abbreviation execute0 := (executeOnce uuid_shape datetime_shape datetime_shape by_code_point poly_hash node1 1).
Abbreviation append0 := (appendBounded uuid_shape datetime_shape datetime_shape).

Definition fresh : Node := Node_ NoFile [].

(** An execution at [now] in which all writes succeed. *)
Definition env (now : Z) (o : outcome) (u : Z) : environment :=
  Environment now o true true (js "EIO") true (id_of u) (id_of (u + 1)).

Lemma env_ok now o u :
  valid_now now -> outcome_texts o -> scalars (id_of u) -> scalars (id_of (u + 1)) -> environment_wf (env now o u).
Proof. intros H1 H2 H3 H4. unfold environment_wf, env. cbn. split_and!; try done. by apply text_scalars. Qed.

Lemma pause1_texts : value_texts (embed pause1).
Proof. solve_texts. Qed.
Lemma drain2_texts : value_texts (embed drain2).
Proof. solve_texts. Qed.
Lemma pause1_parsed : parse (nodeCommandSchema uuid_shape datetime_shape) (embed pause1) = Some pause1.
Proof. vm_compute. reflexivity. Qed.

(** ** One command, then another, then the first one again *)

Definition done1 : res json * Node := Eval vm_compute in execute0 (env (t0 + 5) (Output None) 901) (embed pause1) fresh.
Definition res1 : json := Eval vm_compute in match done1.1 with Ok j => j | Err _ => JNull end.
Definition node_after1 : Node := Eval vm_compute in done1.2.
Definition node_after2 : Node := Eval vm_compute in (execute0 (env (t0 + 6) Interrupted 903) (embed drain2) node_after1).2.

Lemma executed1 : execute0 (env (t0 + 5) (Output None) 901) (embed pause1) fresh = (Ok res1, node_after1).
Proof. vm_compute. reflexivity. Qed.

Lemma remembered :
  nsteps (NodeExecutorProps.step uuid_shape datetime_shape datetime_shape by_code_point poly_hash node1 1) 1 node_after1 node_after2.
Proof.
  apply nsteps_once. exists (env (t0 + 6) Interrupted 903), (embed drain2). split; [exact drain2_texts|]. vm_compute. reflexivity.
Qed.

Lemma has_room : (behind (jstr "id" pause1) node_after1 + 1 < 4096)%nat.
Proof. replace (behind (jstr "id" pause1) node_after1) with 0%nat by (vm_compute; reflexivity). lia. Qed.

Lemma executor_result_stable_witness :
  jstr "state" res1 = js "applied" /\ length (applications node_after2) = 2%nat
  /\ execute0 (env (t0 + 10 ^ 9) (OtherError (js "never called")) 905) (embed pause1) node_after2 = (Ok res1, node_after2).
Proof.
  split; [vm_compute; reflexivity|]. split; [reflexivity|].
  exact (executor_result_stable uuid_shape datetime_shape datetime_shape by_code_point poly_hash node1 1
    (env (t0 + 5) (Output None) 901) (embed pause1) pause1 fresh res1 node_after1 1 node_after2
    (env (t0 + 10 ^ 9) (OtherError (js "never called")) 905) pause1_texts pause1_parsed I executed1 remembered has_room).
Defined.

Lemma application_journaled_witness :
  applications node_after1 = applications fresh
  \/ (applications node_after1 = applications fresh ++ [(operation_key (jstr "id" pause1), pause1)]
      /\ (forall r, find_record (jstr "id" pause1) fresh = Some r -> jr_state r = Applying)
      /\ exists r, find_record (jstr "id" pause1) node_after1 = Some r
           /\ jr_commandDigest r = digest poly_hash (canonicalJson by_code_point pause1)).
Proof.
  exact (application_journaled uuid_shape datetime_shape datetime_shape by_code_point poly_hash node1 1
    (env (t0 + 5) (Output None) 901) (embed pause1) pause1 fresh (Ok res1) node_after1 pause1_texts pause1_parsed I executed1).
Defined.

Definition record9 : JournalRecord :=
  JournalRecord_ (id_of 9) (nonce_of 9) (js "sha256:" ++ replicate 64 48) Applying (operation_key (id_of 9)) None
    (js "2023-11-14T22:13:20.000Z").
Definition journal2 : Journal := Eval vm_compute in
  match disk node_after2 with Stored j => j | _ => Journal_ [] 0 [] end.
Definition journal3 : Journal := Eval vm_compute in
  match append0 journal2 record9 with Ok j => j | Err _ => journal2 end.

Lemma journal_append_bounded_witness :
  append0 journal2 record9 = Ok journal3
  /\ Z.of_nat (length (jn_records journal3)) <= 4096
  /\ exists dropped retained,
    List.filter (is_state Complete) (jn_records journal2) = dropped ++ retained
    /\ jn_records journal3 = retained ++ List.filter (is_state Applying) (jn_records journal2) ++ [record9]
    /\ (dropped <> [] -> 4096 <= Z.of_nat (length (jn_records journal2))).
Proof.
  assert (H : append0 journal2 record9 = Ok journal3) by (vm_compute; reflexivity).
  split; [exact H|]. exact (journal_append_bounded uuid_shape datetime_shape datetime_shape journal2 record9 journal3 H).
Defined.

(** ** The client *)

Definition system1 : System := System_ db1 fresh NoState.
Definition attempt1 : attempt := Attempt (t0 + 5) ResponseLost (env (t0 + 5) (Output None) 901).
Definition row1 : CommandRow := Eval vm_compute in
  nth 0 (node_commands db1) (CommandRow_ [] [] 0 [] [] Queued 0 0 0 None None).

Lemma attempt1_ok : environment_wf (at_environment attempt1).
Proof. apply env_ok; [solve_now|done|solve_texts|solve_texts]. Qed.

Lemma row1_in : row1 ∈ node_commands (coordinator system1).
Proof. left. Qed.

Lemma command_settled_witness :
  jstr "state" res1 = js "applied"
  /\ (let handle := handle_command uuid_shape datetime_shape datetime_shape by_code_point poly_hash node1 1 (Some node1) in
       let s' := (handle attempt1 pause1 system1).2 in
       (exists row' rr, readCommand (cr_id row1) (coordinator s') = Some row' /\ same_command row1 row'
          /\ state_text (cr_state row') = jstr "state" res1 /\ is_pending (cr_state row') = false
          /\ result_row (cr_id row1) (coordinator s') = Some rr /\ rr_result_json rr = canonicalJson by_code_point res1
          /\ node_control_events (coordinator s')
             = extend_log by_code_point poly_hash (at_now attempt1) node1 (node_control_events (coordinator system1)) [result_entry res1])
       /\ forall a', (handle a' pause1 s').2 = s').
Proof.
  split; [vm_compute; reflexivity|].
  refine (command_settled uuid_shape datetime_shape datetime_shape by_code_point poly_hash node1 1 system1 attempt1 row1 pause1
    Delivered res1 node_after1 poly_scalars db1_reachable (rtc_refl _ _) row1_in eq_refl eq_refl eq_refl _ _ attempt1_ok _
    executed1 _ _); [vm_compute; reflexivity|vm_compute; reflexivity|discriminate|constructor|decided].
Defined.

(** ** Findings *)

(** The node applies the command and dies; when it comes back the command has expired, and
    the result says that the node could not apply it. *)
Definition crashed : Node := Eval vm_compute in (execute0 (env (t0 + 5) Interrupted 901) (embed pause1) fresh).2.

Example applied_then_expired :
  applications crashed = [(operation_key (id_of 1), pause1)]
  /\ match (execute0 (env (t0 + 700000) (Output None) 903) (embed pause1) crashed).1 with
     | Ok r => jstr "state" r = js "expired"
         /\ jstr "message" (jobj "error" r) = js "The command expired before the node could apply it."
     | Err _ => False
     end.
Proof. vm_compute. done. Qed.

(** The command is applied, the write of the result fails, and the next write, which
    succeeds, records it as rejected. *)
Example applied_then_rejected :
  match execute0 (Environment (t0 + 5) (Output None) true false (js "EIO") true (id_of 901) (id_of 902)) (embed pause1) fresh with
  | (Ok r, n) => jstr "state" r = js "rejected" /\ applications n = [(operation_key (id_of 1), pause1)]
  | (Err _, _) => False
  end.
Proof. vm_compute. done. Qed.

(** A late result: the row stays expired while the log and the table of results say
    applied. *)
Definition db_late : Db := Eval vm_compute in history [(t0 + 700000, OpPull node1 1 32); (t0 + 700001, OpRecordResult (embed applied1))] db1.

Example late_result_recorded :
  (exists r, readCommand (id_of 1) db_late = Some r /\ cr_state r = Expired)
  /\ (exists e, latest_event node1 (node_control_events db_late) = Some e /\ ev_event_type e = js "command.applied")
  /\ (exists rr, result_row (id_of 1) db_late = Some rr).
Proof. vm_compute. split_and!; eexists; done. Qed.

(** Eight policies with long model lists, each valid, make the answer to a pull larger
    than the client reads: the pull marks them as delivered and fails, as will the next
    one, and no command reaches the node until they expire.  The hash is of the first
    bytes only, which suffices to tell the events apart. *)
Definition short_hash (b : bytes) : jsstring := poly_hash (take 700 b).
Definition model_name (n : Z) : jsstring := padded 6 n ++ replicate 250 97.
Definition wide_policy (n : Z) : json :=
  command_document n "set-policy" [(js "policy", JObj [(js "schedule", JArr []);
    (js "modelAllowlist", JArr (map (fun m => JStr (model_name m)) (numbers 128)))])].
Definition heavy : System :=
  System_ (foldl (fun d n => (enqueue uuid_shape datetime_shape by_code_point short_hash t0 (embed (wide_policy n)) 1 d).2)
    empty_db (numbers 8)) fresh NoState.

Example pull_too_large :
  let '(r, s) := pullCommands uuid_shape datetime_shape by_code_point short_hash node1 1 (Some node1) (Some owner1)
                   (t0 + 1) Through heavy in
  r = Err "node_command_response_too_large"%string /\ map cr_state (node_commands (coordinator s)) = repeat Delivered 8.
Proof. vm_compute. done. Qed.

(** The node of [crashed] comes back after the coordinator has let the command expire.  The
    snapshot that lists it is refused, now and for good. *)
Definition db_expired : Db := Eval vm_compute in history [(t0 + 700000, OpPull node1 1 32)] db1.
Definition system_blocked : System := System_ db_expired crashed NoState.
Definition active_snapshot (cursor : jsstring) : value :=
  embed (match snapshot_document NODE_EVENT_ORIGIN_CURSOR with
         | JObj fields =>
             JObj (map (fun kv => if bool_decide (kv.1 = js "activeCommandIds") then (kv.1, JArr [JStr (id_of 1)]) else kv) fields)
         | j => j
         end).

Lemma db_expired_reachable : rtc (NodeCommandsInv.step uuid_shape datetime_shape by_code_point poly_hash) empty_db db_expired.
Proof.
  assert (E : db_expired = history [(t0 + 700000, OpPull node1 1 32)] db1) by (vm_compute; reflexivity).
  rewrite E. etransitivity; [exact db1_reachable|]. apply history_reachable. repeat constructor; try (vm_compute; discriminate); solve_texts.
Qed.

Lemma system_blocked_ok :
  blocked uuid_shape datetime_shape datetime_shape by_code_point poly_hash node1 1 (id_of 1) system_blocked.
Proof.
  assert (Hc : rtc (node_step uuid_shape datetime_shape datetime_shape by_code_point poly_hash node1 1) fresh crashed).
  { apply rtc_once. exists (env (t0 + 5) Interrupted 901), (embed pause1). split_and!; [|exact pause1_texts|vm_compute; reflexivity].
    apply env_ok; [solve_now|done|solve_texts|solve_texts]. }
  apply node_history in Hc as [H1 H2]; [|solve_texts|done|done].
  constructor; [exact db_expired_reachable| |exact H1|exact H2|vm_compute; eexists; split; reflexivity].
  eexists. split; [left|]. vm_compute. split; reflexivity.
Qed.

Lemma interrupted_command_blocks_witness :
  (exists parsed, parse (nodeSnapshotSchema uuid_shape datetime_shape) (active_snapshot NODE_EVENT_ORIGIN_CURSOR) = Some parsed)
  /\ exists e, postSnapshot uuid_shape datetime_shape datetime_shape by_code_point poly_hash node1 1 (Some node1) (Some owner1)
       (t0 + 700001) (t0 + 700001) Through true active_snapshot system_blocked = (Err e, system_blocked).
Proof.
  split; [vm_compute; eexists; reflexivity|].
  refine (proj2 (interrupted_command_blocks uuid_shape datetime_shape datetime_shape by_code_point poly_hash node1 1 (Some owner1)
    (id_of 1) system_blocked system_blocked _ system_blocked_ok (rtc_refl _ _)) (t0 + 700001) (t0 + 700001) Through true
    active_snapshot _ _ _); [solve_texts|solve_now|intros cursor; unfold active_snapshot; solve_texts|].
  intros cursor parsed j Hp [= <-]. assert (E : exists p, parse (nodeSnapshotSchema uuid_shape datetime_shape) (active_snapshot cursor) = Some p
    /\ active_ids p = [id_of 1]) by (vm_compute; eexists; split; reflexivity).
  destruct E as (p & E & Ei). rewrite E in Hp. injection Hp as <-. rewrite Ei. vm_compute. reflexivity.
Defined.

Example blocked_by_the_expired_command :
  reconcile0 (t0 + 700001) (active_snapshot NODE_EVENT_ORIGIN_CURSOR) db_expired
  = (Err "node_snapshot_active_commands_invalid"%string, db_expired).
Proof. vm_compute. reflexivity. Qed.
